(* ===== verification/_CoqProject ===== *)
-Q . S2P
Prelude.v
Utils.v
Primitives.v
Log.v
Latch.v
LockOrder.v
LockBlocks.v
StorageIO.v
PosixIO.v
PageStore.v
EvictionPolicy.v
ClockSweep.v
LruK.v
Arc.v
PolicyFactory.v
BufferPool.v
BufferPoolSpec.v
BufferPoolClient.v
PoolSafety.v
PoolFailures.v
HeapPage.v
PageSafety.v
HeapEngine.v
HeapEngineSpec.v
HeapEngineProps.v
HeapConcurrent.v
HeapConcurrentProps.v
HeapFailures.v
TypeRegistry.v
BuiltinTypes.v
RowCodec.v
RowCodecSpec.v
TupleStore.v
Table.v
Bundle.v
Catalog.v
CatalogValues.v
CatalogSpec.v
CatalogUpdate.v
CatalogOpen.v
CatalogClose.v
CatalogMem.v
CatalogProps.v
CatalogConcurrent.v
CatalogLocks.v
CatalogSequential.v
CatalogSerial.v
CatalogComplete.v
Lexer.v
LexerSpec.v
Ast.v
Parser.v
Grammar.v
DocumentedGrammar.v
ParserSound.v
ParserComplete.v
QueryCatalog.v
Binder.v
Plan.v
Exec.v
QueryEngine.v
Database.v
BinderSpec.v
ExecSpec.v
QuerySpec.v
CatalogDb.v
QueryExample.v
Session.v
Restart.v
QueryProps.v
