(* ===== verification/Prelude.v ===== *)
(** * EDB: a verification library for the database kernel under src/src

    EDB is a small relational database kernel: a page store over a POSIX file, a
    buffer pool with a pluggable replacement policy, a heap storage engine with
    slotted pages, a registry of types and a row codec, tables, a system catalog
    kept in tables of its own, and an SQL front end with a row-at-a-time executor.
    The library translates the C++ into executable definitions, one per function,
    and proves what each layer promises to the one above it.

    ** The parts and how they call each other

<<
    QueryEngine:  SQL text --Lexer--> tokens --Parser--> syntax tree
                  --Binder--> bound statement --Plan--> plans --Exec--> rows
      | DatabaseLaws  (tables by name; contract of Database.v)
    Catalog  (types, classes, attributes)  -- Bundle (a table with its files)
      | RelationFiles  (one device per relation)
    Table  (typed rows)          -- RowCodec, TypeRegistry, BuiltinTypes
      | TupleStore  (contract of engine.hpp)
    HeapEngine  (tuples)         -- HeapPage (slots in one page)
      | handles on frames
    BufferPool  (cached pages)   -- EvictionPolicy: ClockSweep, LruK, Arc
      | page ids
    PageStore   (pages)
      | StorageIO  (contract of io_ops.hpp)
    PosixIO     (bytes of a file) -- Kernel (system calls, a parameter)
>>

    Each downward arrow is a class with laws.  The client's theorems are proved
    from the laws, and an instance discharges them for the implementation.

    ** How C++ is represented

    - A function of type [Result<T>] that changes an object is a computation of
      the monad [M S T] of [Utils]: from a state it yields [Ok] with a value,
      [Err] with an [Error], or [Fault], and the state
      that is left.  [Fault] is a failed EDB_ASSERT, an access outside a span, or
      a loop that ran out of fuel; in programs with latches it is [Abort].  No
      property of a call is proved by faulting: the theorems say that the result is
      not a fault, or give the result, or say that the call returns.  (The latch
      order alone, [database_calls_no_deadlock], also holds of threads that abort.)
    - Integers are [Z] with the width written out ([primitives.hpp] in [Utils]):
      additions on [size_t] and the stored 16- and 32-bit fields wrap or truncate
      where the source does.  Bytes are [Byte.byte], text is a list of them.
    - Vectors, deques and linked lists are lists; the hash maps are [gmap]s,
      since no code depends on their order.
    - A [FrameHandle] aliases its frame: reading and writing through a handle
      reads and writes the pool's state.
    - Loops that are not structural take fuel.  The fuels are: [loop_fuel], one
      more than the length of the source text, in the lexer; [parser_fuel], two
      more than that length, for the recursion of the parser; the number of pages
      plus one in the heap engine's insert; the number of slots and pages left in
      its scan; two turns of the clock, as in the source, in [ClockSweep];
      twenty digits in the decimal printer of 64-bit numbers.  Each is shown to be
      enough: the theorems on these loops give their result.  The scan of a table
      takes its fuel as an argument, and the theorem says which amount suffices;
      the catalog passes it on, and [enough] says that it exceeds the rows of
      every system table.  A scan beside threads that make [k] calls needs more than
      the tuples at its start and [k] more.   One call of [next] on an executor node takes
      [node_fuel], the rows left plus the depth of the node, and the loop over the
      result one more turn than that.
    - The pointer to a table that the catalog hands out is the oid under which it
      keeps the table, so inserting through it changes the catalog's own state.
      The devices of all relations are part of the catalog's state; a bundle that
      is open runs on the device of its relation.
    - A method that holds a latch is also a [Code], the sequence of its accesses to
      the shared object, which threads interleave ([Latch]); run without
      interruption it is the sequential method.

    ** The files

    - [Prelude]: bytes, little-endian fields, list updates by index, tactics.
    - [Utils]: utils/error.hpp and the integral wrappers of utils/primitives.hpp; the
      monad.
    - [Primitives], [Log]: the rest of utils/primitives.hpp, with the wrappers at and
      beyond their bounds, and utils/log.hpp.
    - [Latch]: [std::scoped_lock] on a mutex: threads that call the methods of a
      latched object, the machine in which each call is one step, the simulation
      between them, and that all calls complete.
    - [LockOrder]: programs that hold several latches, some recursive, and that those
      that take them in order complete.
    - [LockBlocks]: such a program run without interruption is one computation on the
      shared state; programs whose accesses all lie inside one latch run, in every
      interleaving, as a sequence of them.
    - [StorageIO]: storage/io/io_ops.hpp, with an in-memory device that can fail
      half-way through a transfer.
    - [PosixIO]: storage/io/posix; every kernel that keeps the documented
      behaviour of the calls (short transfers, EINTR) gives a correct backend.
    - [PageStore]: storage/page.
    - [EvictionPolicy], [ClockSweep], [LruK], [Arc], [PolicyFactory]:
      storage/buffer/*_policy.  Each policy's invariant survives every
      notification, and a victim is found whenever a frame can be evicted.
    - [BufferPool], [BufferPoolSpec], [BufferPoolClient]:
      storage/buffer/buffer_pool.  The structural invariant holds under failing
      devices; on a healthy device the pool is indistinguishable from a list of
      pages, whatever the policy evicts.
    - [PoolSafety]: sequences of calls of the pool, opens and closes among them, with
      any handles and page ids, on any device.
    - [PoolFailures]: the pool on a device that may refuse or tear any transfer.
    - [HeapPage]: storage/engine/heap/page, byte for byte; the refinement to a
      list of optional tuples.
    - [PageSafety]: the page operations on bytes this code did not write.
    - [HeapEngine], [HeapEngineSpec], [HeapEngineProps]: storage/engine; the
      engine as a map from tuple ids to tuples, through the buffer pool and the
      pages; scans, and the reopening of a closed file.
    - [HeapConcurrent], [HeapConcurrentProps]: the engine's methods under its latch,
      [update_tuple] as the two calls it is, clients that insert, delete, update and
      scan, and what they observe.
    - [HeapFailures]: the engine under its latch on a device that may fail.
    - [TypeRegistry], [BuiltinTypes], [RowCodec], [RowCodecSpec]: types; lookup
      after registration, text and byte round trips of the built-in types, round
      trip and safety of the row format.
    - [TupleStore], [Table]: the contract of a storage engine and catalog/table.
    - [Bundle], [Catalog]: catalog/catalog; a table with the files it runs on, and
      every operation of the catalog over them.
    - [CatalogValues], [CatalogSpec], [CatalogUpdate], [CatalogOpen]: the data the
      system tables hold ([CatalogData]), the invariant that relates it to the
      catalog's state ([cat_ok]), and the effect of lookups, creation, removal,
      bootstrap and reopening on it.
    - [CatalogClose]: closing a catalog; over files that keep what they were given
      ([DurableFiles]) every relation opens again with its rows.
    - [CatalogMem], [CatalogProps]: a catalog over files in memory, used as a
      witness, and the properties of the catalog.
    - [CatalogConcurrent]: the catalog's methods under its recursive latch, and
      threads that create the same table.
    - [CatalogLocks]: the catalog and its tables with all the latches they nest.
    - [CatalogSequential], [CatalogSerial]: each of these programs run alone is the
      sequential method, and run beside others takes effect as a whole.
    - [CatalogComplete]: on an open, consistent catalog every one of them returns.
    - [Lexer], [LexerSpec]: query/token.hpp and query/lexer, against a reference
      tokenizer, with the positions of all tokens.
    - [Ast], [Parser], [Grammar], [ParserSound], [ParserComplete]: query/ast.hpp
      and query/parser; the parser decides [Grammar] and builds its tree.
    - [DocumentedGrammar]: the grammar in the comment of query/parser.hpp, which has a
      NOT that the parser refuses; the rest of it is accepted.
    - [QueryCatalog]: what the query layer calls of the catalog, as a class.
    - [Binder], [Plan], [Exec], [QueryEngine]: query/binder, query/logical_plan and
      query/physical_plan, query/exec, query/query_engine.
    - [Database]: the abstract database, a finite map from names to tables with
      typed rows, and the laws the query layer relies on ([DatabaseLaws]).
    - [BinderSpec]: typing rules of statements; the binder decides them.
    - [ExecSpec]: values of types, evaluation, and the rows of a plan.
    - [QuerySpec]: the meaning of each statement on a database.
    - [CatalogDb]: the catalog keeps the laws of [Database].
    - [QueryExample], [QueryProps]: statements on the catalog in memory, and the
      properties of the query layer.
    - [Session]: the effect of SQL text on a database, from the grammar and the typing
      rules alone, and sequences of texts.
    - [Restart]: the database after the catalog is closed and opened again.

    ** What the theorems show

    - Refinement: the pool refines a list of pages ([pool_refines_pages]), a heap
      page a list of tuples ([page_refines_tuples]), the heap engine a finite map
      ([heap_insert_adds], [heap_delete_removes], [heap_scan_complete],
      [heap_reopen_preserves]), a table a list of rows ([table_insert_adds_row],
      [table_scan_returns_rows]).
    - Threads: [heap_calls_linearizable], every interleaving is a sequence of whole
      calls; [heap_calls_complete], every execution completes every call;
      [concurrent_scan_complete], a scan beside writers ends and loses nothing;
      [concurrent_create_once], one of the threads that create a table succeeds;
      [catalog_calls_serializable], calls of the catalog take effect as a sequence of
      whole sequential calls; [catalog_calls_complete], every one of them returns.
      That the catalog's and the engines' latches together do not block each other,
      for all calls and table uses, is [database_calls_no_deadlock].
    - Failing devices: [pool_survives_failures], a transfer that fails is reported and
      changes no page a client sees; [heap_survives_failures], the same for the
      tuples of the engine, with threads, up to a [close] that reports success.  Both
      are for devices whose failed reads leave the buffer as it was
      ([clean_reads]); without it a failed read spoils a cached page
      ([failed_read_corrupts_cached_page]).
    - Damaged files: [page_faults_exactly].
    - The front end: [lexer_next_reference] and [lexer_tiles_source] for tokens;
      [parse_total_sound] and [parse_decides_grammar] for syntax trees; the latter
      also says what of the documented grammar is accepted, all but NOT.
    - The catalog: [catalog_opens], [catalog_lookups_agree],
      [catalog_create_table], [catalog_drop_table].
    - End to end: [session_refines_database], sequences of SQL texts refine the
      abstract database; [restart_preserves_database], it survives a restart.
    - Statements from text to effect: [select_statement], [insert_statement] and
      [create_statement], proved for every catalog that keeps the laws of
      [Database] and applied to the one of catalog.cpp; [executor_runs_plan] for
      the operators and [bound_expressions_evaluate] for the typing of
      expressions.
    - Codecs: [row_roundtrip], [decode_safe], [encode_rejects_bad_rows],
      [builtin_text_roundtrip].
    - Bounds: [primitive_bounds].
    - Invariants and safety: [pool_never_faults], [arc_reachable_invariant],
      [clock_second_chance], [lru_k_victim_minimal].
    - Behaviour that departs from what the code means to do:
      [failed_read_corrupts_cached_page], [failed_close_forgets_tuple],
      [heap_update_loses_tuple],
      [float64_accepts_empty_text], [dropped_rows_reappear],
      [insert_ignores_column_list], [update_visible_between_latches],
      [damaged_page_read_outside], [failed_create_leaves_table],
      [dropped_table_pointer_dangles].

    ** What is not modelled

    - Memory orders: the machine of [Latch] is sequentially consistent, which is what
      the mutexes give the data they protect.  The active log level, the one atomic
      variable, is read and written in one step.  The buffer pool has no latch of
      its own and is only used under the engine's.  [open] and [close] of the engine
      and of the catalog are not run beside other calls.  The rows a thread reads or
      writes through the pointer to a table are outside the catalog's latch, and so
      outside [catalog_calls_serializable] and [catalog_calls_complete]; that the
      latches they take do not block is in [database_calls_no_deadlock].
    - The tests and the build files.
    - The C and C++ libraries' conversions between text and floating-point
      numbers and the hash functions are parameters, with their documented
      behaviour as hypotheses of the theorems that use them.
    - Statements on the system relations are executed by the model as by the code
      (the catalog opens a second engine on the relation, which sees only what has
      been written back), but the theorems on statements leave them out.
    - The order of the rows of a table that was inserted into: the theorems give
      the rows up to permutation, since the engine fills the first page with room. *)
From stdpp Require Export base list gmap strings list_numbers.
From Stdlib Require Export ZArith Lia.
From Stdlib Require Export Strings.Byte.

#[global] Open Scope Z_scope.

(** ** Bytes: [std::byte] as Stdlib's [byte] *)

#[export] Instance byte_eq_dec : EqDecision byte := Byte.byte_eq_dec.
#[export] Instance byte_inhabited : Inhabited byte := populate x00.

Definition byte_to_Z (b : byte) : Z := Z.of_N (Byte.to_N b).

Definition Z_to_byte (z : Z) : byte :=
  match Byte.of_N (Z.to_N (z mod 256)) with Some b => b | None => x00 end.

Lemma byte_to_Z_range b : 0 <= byte_to_Z b < 256.
Proof. unfold byte_to_Z. pose proof (Byte.to_N_bounded b). lia. Qed.

Lemma byte_to_Z_to_byte z : byte_to_Z (Z_to_byte z) = z mod 256.
Proof.
  unfold byte_to_Z, Z_to_byte.
  pose proof (Z.mod_pos_bound z 256 ltac:(lia)) as Hz.
  destruct (Byte.of_N (Z.to_N (z mod 256))) as [b|] eqn:Hb.
  - apply Byte.to_of_N in Hb. rewrite Hb. lia.
  - apply Byte.of_N_None_iff in Hb. lia.
Qed.

Lemma Z_to_byte_to_Z b : Z_to_byte (byte_to_Z b) = b.
Proof.
  unfold Z_to_byte. rewrite Z.mod_small by apply byte_to_Z_range.
  unfold byte_to_Z. rewrite N2Z.id, Byte.of_to_N. done.
Qed.

Lemma byte_to_Z_small z : 0 <= z < 256 -> byte_to_Z (Z_to_byte z) = z.
Proof. intros. rewrite byte_to_Z_to_byte. apply Z.mod_small; lia. Qed.

(** ** Bit-level facts used by the encoders *)

Lemma land_255 v : Z.land v 255 = v mod 256.
Proof. change 255 with (Z.ones 8). by rewrite Z.land_ones. Qed.

Lemma lor_shiftl_add a b k :
  0 <= k -> 0 <= a < 2 ^ k -> Z.lor a (Z.shiftl b k) = a + b * 2 ^ k.
Proof.
  intros Hk Ha. rewrite <- Z.shiftl_mul_pow2 by done.
  symmetry. apply Z.add_nocarry_lor, Z.bits_inj'. intros n Hn.
  rewrite Z.land_spec, Z.bits_0.
  destruct (Z.lt_ge_cases n k) as [Hlt|Hge].
  - by rewrite Z.shiftl_spec_low, andb_false_r.
  - destruct (Z.eq_dec a 0) as [->|Hne]; [by rewrite Z.bits_0|].
    rewrite (Z.bits_above_log2 a n), andb_false_l; [done|lia|].
    apply Z.log2_lt_pow2; [lia|]. eapply Z.lt_le_trans; [apply Ha|].
    apply Z.pow_le_mono_r; lia.
Qed.

(** ** Little-endian encodings

    The loops [for index < N: (value >> (index * 8)) & 0xFF] and
    [value |= byte << (index * 8)] that the page, row and type codecs share. *)

Definition le_encode (n : nat) (v : Z) : list byte :=
  (fun i => Z_to_byte (Z.land (Z.shiftr v (8 * Z.of_nat i)) 255)) <$> seq 0 n.

Fixpoint le_decode_from (index : nat) (acc : Z) (bs : list byte) : Z :=
  match bs with
  | [] => acc
  | b :: bs' =>
      le_decode_from (S index)
        (Z.lor acc (Z.shiftl (byte_to_Z b) (8 * Z.of_nat index))) bs'
  end.

Definition le_decode (bs : list byte) : Z := le_decode_from 0 0 bs.

(** The mathematical value of a little-endian byte string. *)
Fixpoint le_value (bs : list byte) : Z :=
  match bs with [] => 0 | b :: bs' => byte_to_Z b + 256 * le_value bs' end.

Lemma length_le_encode n v : length (le_encode n v) = n.
Proof. unfold le_encode. by rewrite length_fmap, length_seq. Qed.

Lemma le_encode_0 v : le_encode 0 v = [].
Proof. done. Qed.

Lemma le_encode_S n v :
  le_encode (S n) v = Z_to_byte (Z.land v 255) :: le_encode n (Z.shiftr v 8).
Proof.
  unfold le_encode. rewrite <- cons_seq. cbn [fmap list_fmap].
  f_equal. rewrite <- (fmap_S_seq 0 n), <- list_fmap_compose.
  apply list_fmap_ext. intros _ i _. unfold compose.
  rewrite Z.shiftr_shiftr by lia. do 3 f_equal. lia.
Qed.

Lemma le_value_range bs : 0 <= le_value bs < 256 ^ Z.of_nat (length bs).
Proof.
  induction bs as [|b bs IH]; cbn [le_value length]; [done|].
  pose proof (byte_to_Z_range b). rewrite Nat2Z.inj_succ, Z.pow_succ_r; lia.
Qed.

Lemma le_decode_from_value i acc bs :
  0 <= acc < 256 ^ Z.of_nat i ->
  le_decode_from i acc bs = acc + 256 ^ Z.of_nat i * le_value bs.
Proof.
  revert i acc. induction bs as [|b bs IH]; intros i acc Hacc; cbn; [lia|].
  assert (Hp : 256 ^ Z.of_nat i = 2 ^ (8 * Z.of_nat i))
    by (change 256 with (2 ^ 8); rewrite <- Z.pow_mul_r; lia).
  pose proof (byte_to_Z_range b).
  rewrite lor_shiftl_add by (rewrite <- ?Hp; lia). rewrite <- Hp.
  rewrite IH; rewrite Nat2Z.inj_succ, Z.pow_succ_r by lia; nia.
Qed.

Lemma le_decode_value bs : le_decode bs = le_value bs.
Proof. unfold le_decode. rewrite le_decode_from_value; cbn; lia. Qed.

Lemma le_value_encode n v : le_value (le_encode n v) = v mod 256 ^ Z.of_nat n.
Proof.
  revert v. induction n as [|n IH]; intros v.
  - cbn. by rewrite Z.mod_1_r.
  - rewrite le_encode_S. cbn [le_value]. rewrite IH, land_255, byte_to_Z_to_byte.
    rewrite Z.mod_mod, Z.shiftr_div_pow2 by lia. change (2 ^ 8) with 256.
    rewrite Nat2Z.inj_succ, Z.pow_succ_r by lia.
    rewrite Z.rem_mul_r by lia. lia.
Qed.

Lemma le_decode_encode n v : le_decode (le_encode n v) = v mod 256 ^ Z.of_nat n.
Proof. by rewrite le_decode_value, le_value_encode. Qed.

Lemma le_encode_value bs : le_encode (length bs) (le_value bs) = bs.
Proof.
  induction bs as [|b bs IH]; [done|].
  cbn [length le_value]. rewrite le_encode_S, land_255.
  rewrite Z.shiftr_div_pow2 by lia. change (2 ^ 8) with 256.
  pose proof (byte_to_Z_range b).
  replace ((byte_to_Z b + 256 * le_value bs) mod 256) with (byte_to_Z b)
    by (rewrite Z.mul_comm, Z_mod_plus_full; symmetry; apply Z.mod_small; lia).
  replace ((byte_to_Z b + 256 * le_value bs) / 256) with (le_value bs)
    by (rewrite Z.mul_comm, Z.div_add by lia; rewrite Z.div_small; lia).
  by rewrite IH, Z_to_byte_to_Z.
Qed.

Lemma length_nonempty {A} (l : list A) n : length l = n -> (0 < n)%nat -> l <> [].
Proof. intros Hl Hn ->. cbn in Hl. lia. Qed.

(** ** Sub-ranges of a buffer

    [slice off n l] is [span.subspan(off, n)] read out as a vector;
    [splice off bs l] is the buffer after [std::ranges::copy(bs, l.subspan(off))].
    Both are only used where the range is inside the buffer. *)

Section slices.
Context {A : Type}.
Implicit Types l bs : list A.

Definition slice (off n : nat) l : list A := take n (drop off l).
Definition splice (off : nat) bs l : list A :=
  take off l ++ bs ++ drop (off + length bs) l.

Lemma length_slice off n l : (off + n <= length l)%nat -> length (slice off n l) = n.
Proof. unfold slice. rewrite length_take, length_drop. lia. Qed.

Lemma length_splice off bs l :
  (off + length bs <= length l)%nat -> length (splice off bs l) = length l.
Proof. unfold splice. rewrite !length_app, length_take, length_drop. lia. Qed.

Lemma lookup_splice off bs l i :
  (off + length bs <= length l)%nat ->
  splice off bs l !! i =
    if decide (off <= i < off + length bs)%nat then bs !! (i - off)%nat else l !! i.
Proof.
  intros Hle. unfold splice. destruct (decide (i < off)%nat).
  - rewrite lookup_app_l by (rewrite length_take; lia).
    rewrite lookup_take_lt by lia. rewrite decide_False by lia. done.
  - rewrite lookup_app_r by (rewrite length_take; lia).
    rewrite length_take, Nat.min_l by lia.
    destruct (decide (i < off + length bs)%nat).
    + rewrite decide_True by lia. apply lookup_app_l. lia.
    + rewrite decide_False by lia. rewrite lookup_app_r by lia.
      rewrite lookup_drop. f_equal. lia.
Qed.

Lemma lookup_slice off n l i :
  slice off n l !! i = if decide (i < n)%nat then l !! (off + i)%nat else None.
Proof.
  unfold slice. case_decide.
  - by rewrite lookup_take_lt, lookup_drop.
  - rewrite lookup_take_ge by lia. done.
Qed.

Lemma slice_splice_eq off bs l :
  (off + length bs <= length l)%nat -> slice off (length bs) (splice off bs l) = bs.
Proof.
  intros. apply list_eq. intros i. rewrite lookup_slice. case_decide.
  - rewrite lookup_splice, decide_True by lia. f_equal. lia.
  - symmetry. apply lookup_ge_None. lia.
Qed.

Lemma slice_splice_ne off bs l off' n :
  (off + length bs <= length l)%nat ->
  (off' + n <= off \/ off + length bs <= off')%nat ->
  slice off' n (splice off bs l) = slice off' n l.
Proof.
  intros. apply list_eq. intros i. rewrite !lookup_slice. case_decide; [|done].
  by rewrite lookup_splice, decide_False by lia.
Qed.

Lemma splice_all bs l : length bs = length l -> splice 0 bs l = bs.
Proof. intros Heq. unfold splice. cbn. rewrite Heq, drop_all. apply app_nil_r. Qed.

Lemma splice_insert off x l : (off < length l)%nat -> splice off [x] l = <[off:=x]> l.
Proof.
  intros. apply list_eq. intros i.
  rewrite lookup_splice, list_lookup_insert by (cbn; lia). cbn.
  destruct (decide (off = i)) as [->|].
  - rewrite !decide_True by lia. by rewrite Nat.sub_diag.
  - rewrite !decide_False by lia. done.
Qed.

Lemma splice_app off off' bs1 bs2 l :
  (off' = off + length bs1)%nat -> (off + length bs1 + length bs2 <= length l)%nat ->
  splice off' bs2 (splice off bs1 l) = splice off (bs1 ++ bs2) l.
Proof.
  intros -> ?. apply list_eq. intros i.
  rewrite !lookup_splice by (rewrite ?length_splice, ?length_app; lia).
  rewrite length_app. repeat case_decide; try lia; try done.
  - rewrite lookup_app_r by lia. f_equal. lia.
  - rewrite lookup_app_l by lia. done.
Qed.

Lemma take_splice off bs l :
  (off + length bs <= length l)%nat ->
  take (off + length bs) (splice off bs l) = take off l ++ bs.
Proof.
  intros. unfold splice. rewrite app_assoc. apply take_app_length'.
  rewrite length_app, length_take. lia.
Qed.

Lemma drop_splice off bs l :
  (off + length bs <= length l)%nat ->
  drop (off + length bs) (splice off bs l) = drop (off + length bs) l.
Proof.
  intros. unfold splice. rewrite app_assoc. apply drop_app_length'.
  rewrite length_app, length_take. lia.
Qed.

Lemma splice_slice_id off n l : (off + n <= length l)%nat -> splice off (slice off n l) l = l.
Proof.
  intros. apply list_eq. intros i. rewrite lookup_splice, length_slice by (rewrite ?length_slice; lia).
  case_decide; [|done]. rewrite lookup_slice, decide_True by lia. f_equal. lia.
Qed.

Lemma slice_app_l off n l k :
  (off + n <= length l)%nat -> slice off n (l ++ k) = slice off n l.
Proof.
  intros. apply list_eq. intros i. rewrite !lookup_slice. case_decide; [|done].
  apply lookup_app_l. lia.
Qed.

Lemma slice_app_r off n l k :
  (length l <= off)%nat -> slice off n (l ++ k) = slice (off - length l) n k.
Proof.
  intros. apply list_eq. intros i. rewrite !lookup_slice. case_decide; [|done].
  rewrite lookup_app_r by lia. f_equal. lia.
Qed.

Lemma slice_0_all l n : (length l <= n)%nat -> slice 0 n l = l.
Proof. intros. unfold slice. by rewrite drop_0, take_ge. Qed.
End slices.

(** ** Fixed-size chunks of a file *)

Section chunks.
Context {A : Type}.
Implicit Types l bs : list A.

Definition chunks (ps : nat) l : list (list A) :=
  (fun i => slice (i * ps) ps l) <$> seq 0 (length l / ps).

Lemma length_chunks ps l : length (chunks ps l) = (length l / ps)%nat.
Proof. unfold chunks. by rewrite length_fmap, length_seq. Qed.

Lemma chunk_bound ps n i : (i < n / ps)%nat -> (i * ps + ps <= n)%nat.
Proof.
  intros Hi. destruct (decide (ps = 0)%nat) as [->|Hps]; [cbn in Hi; lia|].
  pose proof (Nat.Div0.mul_div_le n ps). nia.
Qed.

Lemma lookup_chunks ps l i :
  chunks ps l !! i =
    if decide (i < length l / ps)%nat then Some (slice (i * ps) ps l) else None.
Proof.
  unfold chunks. rewrite list_lookup_fmap. case_decide as Hi.
  - rewrite lookup_seq_lt by done. done.
  - rewrite lookup_seq_ge by lia. done.
Qed.

Lemma chunks_splice ps l i bs :
  (length bs = ps)%nat -> (i < length l / ps)%nat ->
  chunks ps (splice (i * ps) bs l) = <[i:=bs]> (chunks ps l).
Proof.
  intros Hbs Hi. pose proof (chunk_bound _ _ _ Hi).
  apply list_eq. intros j.
  rewrite list_lookup_insert, !lookup_chunks, length_splice, length_chunks by lia.
  destruct (decide (i = j)) as [<-|Hne].
  - rewrite !decide_True by lia. rewrite <- Hbs at 2. by rewrite slice_splice_eq by lia.
  - rewrite (decide_False (P := (_ /\ _))) by lia. case_decide as Hj; [|done].
    rewrite slice_splice_ne; [done|lia|]. nia.
Qed.

Lemma chunks_extend ps l x n :
  (0 < ps)%nat -> (length l = n * ps)%nat ->
  chunks ps (resize (n * ps + ps) x l) = chunks ps l ++ [replicate ps x].
Proof.
  intros Hps Hl.
  assert (Hr : resize (n * ps + ps) x l = l ++ replicate ps x).
  { rewrite resize_ge by lia. do 2 f_equal. lia. }
  rewrite Hr. apply list_eq. intros j.
  assert (Hd : (length l / ps = n)%nat) by (rewrite Hl; apply Nat.div_mul; lia).
  assert (Hd' : (length (l ++ replicate ps x) / ps = n + 1)%nat).
  { rewrite length_app, length_replicate, Hl.
    replace (n * ps + ps)%nat with ((n + 1) * ps)%nat by lia. apply Nat.div_mul; lia. }
  rewrite lookup_chunks, Hd'. destruct (decide (j < n)%nat).
  - rewrite decide_True, lookup_app_l by (rewrite ?length_chunks; lia).
    rewrite lookup_chunks, Hd, decide_True by lia. rewrite slice_app_l; [done|nia].
  - rewrite lookup_app_r by (rewrite length_chunks; lia). rewrite length_chunks, Hd.
    destruct (decide (j = n)) as [->|].
    + rewrite decide_True, Nat.sub_diag by lia. cbn. rewrite slice_app_r by lia.
      rewrite Hl, Nat.sub_diag, slice_0_all by (rewrite length_replicate; lia). done.
    + rewrite decide_False by lia. symmetry. apply lookup_ge_None. cbn. lia.
Qed.

Lemma chunks_Forall ps l : Forall (fun p => length p = ps) (chunks ps l).
Proof.
  apply Forall_lookup. intros i p. rewrite lookup_chunks. case_decide as Hi; [|done].
  intros [= <-]. apply length_slice. by apply chunk_bound.
Qed.
End chunks.

(** ** Loops with fuel

    [while (cond(s)) s = body(s)]; a loop with a decreasing measure needs no more
    fuel than the measure of its start. *)

Fixpoint while_loop {S : Type} (fuel : nat) (cond : S -> bool) (body : S -> S) (s : S) : S :=
  match fuel with
  | O => s
  | S fuel => if cond s then while_loop fuel cond body (body s) else s
  end.

Lemma while_loop_inv {S} (P : S -> Prop) fuel cond body (s : S) :
  (forall s, P s -> cond s = true -> P (body s)) -> P s -> P (while_loop fuel cond body s).
Proof.
  intros Hstep. revert s. induction fuel as [|fuel IH]; intros s Hs; cbn; [done|].
  destruct (cond s) eqn:Hc; auto.
Qed.

Lemma while_loop_done {S} (measure : S -> nat) fuel cond body (s : S) :
  (forall s, cond s = true -> (measure (body s) < measure s)%nat) ->
  (measure s <= fuel)%nat -> cond (while_loop fuel cond body s) = false.
Proof.
  intros Hdec. revert s. induction fuel as [|fuel IH]; intros s Hm; cbn;
    destruct (cond s) eqn:Hc; try done; specialize (Hdec s Hc); [lia|]. apply IH. lia.
Qed.
