(* ===== verification/Utils.v ===== *)
(** * Utils: src/src/utils

    [Error] and [Result] (error.hpp), the fixed-width wrappers (primitives.hpp)
    and the state-and-error monad in which the stateful components are written.

    A C++ function of type [Result<T>] either returns a value or an [Error]; a
    third outcome, [Fault], stands for the executions the C++ code does not
    define or aborts: a failed EDB_ASSERT, an access outside a span, a signed
    overflow.  Theorems that an operation never faults are the memory- and
    assertion-safety results of the development. *)
From S2P Require Import Prelude.

(** ** error.hpp *)

Inductive Error : Set :=
  (* Generic *)
  | Error_Ok | InvalidArgument | OutOfMemory | NotSupported | NotFound
  | AlreadyExists | Overflow | Corruption
  (* I/O *)
  | IoError | IoTimeout | IoAlignment
  (* Storage engine *)
  | PageNotFound | BufferPoolFull | InvalidPageId
  (* Catalog / types *)
  | TypeNotFound | TypeAlreadyRegistered | CatalogCorrupted
  (* Query *)
  | ParseError | AnalyzerError | ExecutorError.

#[export] Instance Error_eq_dec : EqDecision Error.
Proof. solve_decision. Defined.

Definition edb_error_name (e : Error) : string :=
  match e with
  | Error_Ok => "Ok"
  | InvalidArgument => "InvalidArgument"
  | OutOfMemory => "OutOfMemory"
  | NotSupported => "NotSupported"
  | NotFound => "NotFound"
  | AlreadyExists => "AlreadyExists"
  | Overflow => "Overflow"
  | Corruption => "Corruption"
  | IoError => "IoError"
  | IoTimeout => "IoTimeout"
  | IoAlignment => "IoAlignment"
  | PageNotFound => "PageNotFound"
  | BufferPoolFull => "BufferPoolFull"
  | InvalidPageId => "InvalidPageId"
  | TypeNotFound => "TypeNotFound"
  | TypeAlreadyRegistered => "TypeAlreadyRegistered"
  | CatalogCorrupted => "CatalogCorrupted"
  | ParseError => "ParseError"
  | AnalyzerError => "AnalyzerError"
  | ExecutorError => "ExecutorError"
  end.

Inductive Result (A : Type) : Type :=
  | Ok (a : A)
  | Err (e : Error)
  | Fault.
Arguments Ok {A} a.
Arguments Err {A} e.
Arguments Fault {A}.

#[export] Instance Result_eq_dec {A} `{EqDecision A} : EqDecision (Result A).
Proof. solve_decision. Defined.

Definition is_ok {A} (r : Result A) : bool :=
  match r with Ok _ => true | _ => false end.

Definition bindR {A B} (r : Result A) (k : A -> Result B) : Result B :=
  match r with Ok a => k a | Err e => Err e | Fault => Fault end.

(** [EDB_ASSERT(condition)]: the debug build aborts when it fails. *)
Definition edb_assert (condition : bool) : Result unit :=
  if condition then Ok tt else Fault.

Declare Scope edb_scope.
Delimit Scope edb_scope with edb.
#[global] Open Scope edb_scope.

Notation "'let?' x ':=' r 'in' k" := (bindR r (fun x => k))
  (at level 10, x name, r at level 100, k at level 200,
   format "'[v' 'let?'  x  ':='  r  'in' '/' k ']'") : edb_scope.

(** ** Stateful operations: the state survives an error return *)

Definition M (S A : Type) : Type := S -> Result A * S.

Section monad.
Context {S : Type}.

Definition retM {A} (a : A) : M S A := fun s => (Ok a, s).
Definition errM {A} (e : Error) : M S A := fun s => (Err e, s).
Definition faultM {A} : M S A := fun s => (Fault, s).
Definition bindM {A B} (m : M S A) (k : A -> M S B) : M S B := fun s =>
  match m s with
  | (Ok a, s') => k a s'
  | (Err e, s') => (Err e, s')
  | (Fault, s') => (Fault, s')
  end.
Definition getM {A} (f : S -> A) : M S A := fun s => (Ok (f s), s).
Definition modifyM (f : S -> S) : M S unit := fun s => (Ok tt, f s).
Definition liftR {A} (r : Result A) : M S A := fun s => (r, s).
Definition assertM (b : bool) : M S unit := liftR (edb_assert b).

(** Run [m] and hand its value or error to the caller, who inspects it
    ([auto x = m(); if (!x) ...]). *)
Definition attempt {A} (m : M S A) : M S (Result A) := fun s =>
  match m s with
  | (Ok a, s') => (Ok (Ok a), s')
  | (Err e, s') => (Ok (Err e), s')
  | (Fault, s') => (Fault, s')
  end.
End monad.

(** Run an operation of a sub-object in the state of the object that holds it. *)
Definition zoom {S T A} (get : S -> T) (set : T -> S -> S) (m : M T A) : M S A :=
  fun s => let '(r, t) := m (get s) in (r, set t s).

Notation "'let*' x ':=' m 'in' k" := (bindM m (fun x => k))
  (at level 10, x name, m at level 100, k at level 200,
   format "'[v' 'let*'  x  ':='  m  'in' '/' k ']'") : edb_scope.

(** Stepping through a program by the equation of its first action. *)
Lemma bind_ok {S A B} (m : M S A) (k : A -> M S B) s a s' :
  m s = (Ok a, s') -> bindM m k s = k a s'.
Proof. unfold bindM. by intros ->. Qed.
Lemma bind_fails {S A B} (m : M S A) (k : A -> M S B) s er s' :
  m s = (Err er, s') -> bindM m k s = (Err er, s').
Proof. unfold bindM. by intros ->. Qed.

(** ** Weakest preconditions *)

Section wp.
Context {S : Type}.

Definition wp {A} (m : M S A) (Q : Result A -> S -> Prop) (s : S) : Prop :=
  Q (m s).1 (m s).2.

(** A postcondition with a case for success and one for an error; the
    operation may not fault. *)
Definition post {A} (QO : A -> S -> Prop) (QE : Error -> S -> Prop)
    (r : Result A) (s : S) : Prop :=
  match r with Ok a => QO a s | Err e => QE e s | Fault => False end.

Lemma wp_bind {A B} (m : M S A) (k : A -> M S B) Q s :
  wp m (fun r s' => match r with
                    | Ok a => wp (k a) Q s'
                    | Err e => Q (Err e) s'
                    | Fault => Q Fault s' end) s ->
  wp (bindM m k) Q s.
Proof. unfold wp, bindM. by destruct (m s) as [[] ?]. Qed.

Lemma wp_mono {A} (m : M S A) (Q Q' : Result A -> S -> Prop) s :
  wp m Q s -> (forall r s', Q r s' -> Q' r s') -> wp m Q' s.
Proof. unfold wp. auto. Qed.

Lemma wp_post_bind {A B} (m : M S A) (k : A -> M S B) QO QE (Q : Result B -> S -> Prop) s :
  wp m (post QO QE) s ->
  (forall a s', QO a s' -> wp (k a) Q s') ->
  (forall e s', QE e s' -> Q (Err e) s') ->
  wp (bindM m k) Q s.
Proof.
  intros Hm HO HE. apply wp_bind. eapply wp_mono; [exact Hm|].
  intros [a|e|] s'; cbn; eauto. done.
Qed.

Lemma wp_attempt {A} (m : M S A) Q s :
  wp m (fun r s' => match r with
                    | Ok a => Q (Ok (Ok a)) s'
                    | Err e => Q (Ok (Err e)) s'
                    | Fault => Q Fault s' end) s ->
  wp (attempt m) Q s.
Proof. unfold wp, attempt. by destruct (m s) as [[] ?]. Qed.

Lemma wp_post_attempt_bind {A B} (m : M S A) (k : Result A -> M S B) QO QE
    (Q : Result B -> S -> Prop) s :
  wp m (post QO QE) s ->
  (forall a s', QO a s' -> wp (k (Ok a)) Q s') ->
  (forall e s', QE e s' -> wp (k (Err e)) Q s') ->
  wp (bindM (attempt m) k) Q s.
Proof.
  intros Hm HO HE. apply wp_bind, wp_attempt. eapply wp_mono; [exact Hm|].
  intros [a|e|] s'; cbn; eauto. done.
Qed.

Lemma wp_ret {A} (a : A) Q (s : S) : Q (Ok a) s -> wp (retM a) Q s.
Proof. done. Qed.
Lemma wp_err {A} e (Q : Result A -> S -> Prop) (s : S) : Q (Err e) s -> wp (errM e) Q s.
Proof. done. Qed.

Lemma wp_get {A} (f : S -> A) (Q : Result A -> S -> Prop) s :
  Q (Ok (f s)) s -> wp (getM f) Q s.
Proof. done. Qed.
Lemma wp_get_bind {A B} (f : S -> A) (k : A -> M S B) Q s :
  wp (k (f s)) Q s -> wp (bindM (getM f) k) Q s.
Proof. done. Qed.
Lemma wp_modify_bind {B} (f : S -> S) (k : unit -> M S B) Q s :
  wp (k tt) Q (f s) -> wp (bindM (modifyM f) k) Q s.
Proof. done. Qed.
Lemma wp_assert_bind {B} (b : bool) (k : unit -> M S B) Q s :
  b = true -> wp (k tt) Q s -> wp (bindM (assertM b) k) Q s.
Proof. by intros ->. Qed.
Lemma wp_lift_bind {A B} (r : Result A) a (k : A -> M S B) Q s :
  r = Ok a -> wp (k a) Q s -> wp (bindM (liftR r) k) Q s.
Proof. by intros ->. Qed.
Lemma wp_eq_bind {A B} (m : M S A) a s' (k : A -> M S B) (Q : Result B -> S -> Prop) s :
  m s = (Ok a, s') -> wp (k a) Q s' -> wp (bindM m k) Q s.
Proof. unfold wp, bindM. by intros ->. Qed.

Lemma wp_post_mono {A} (m : M S A) (QO QO' : A -> S -> Prop) (QE QE' : Error -> S -> Prop) s :
  wp m (post QO QE) s ->
  (forall a s', QO a s' -> QO' a s') ->
  (forall e s', QE e s' -> QE' e s') ->
  wp m (post QO' QE') s.
Proof.
  intros Hm HO HE. eapply wp_mono; [exact Hm|]. intros [a|e|] s'; cbn; auto.
Qed.

(** An operation whose error case is impossible returns a value. *)
Lemma wp_total {A} (m : M S A) QO QE s :
  wp m (post QO QE) s -> (forall e s', ~ QE e s') ->
  exists a s', m s = (Ok a, s') /\ QO a s'.
Proof.
  unfold wp. destruct (m s) as [[a|e|] s']; cbn; [eauto|naive_solver|done].
Qed.

Lemma wp_eq {A} (m : M S A) r s' (Q : Result A -> S -> Prop) s :
  m s = (r, s') -> Q r s' -> wp m Q s.
Proof. unfold wp. by intros ->. Qed.

Lemma wp_elim {A} (m : M S A) r s' (Q : Result A -> S -> Prop) s :
  wp m Q s -> m s = (r, s') -> Q r s'.
Proof. unfold wp. intros H Heq. by rewrite Heq in H. Qed.
End wp.

(** Run the pure prefix of a monadic program. *)
Ltac wp_pure :=
  repeat first [apply wp_get_bind | apply wp_modify_bind];
  cbv beta.

Lemma wp_zoom {S T A} (get : S -> T) (set : T -> S -> S) (m : M T A) Q s :
  wp m (fun r t => Q r (set t s)) (get s) -> wp (zoom get set m) Q s.
Proof. unfold wp, zoom. by destruct (m (get s)). Qed.

(** ** primitives.hpp: [detail::Primitive<T, Tag>]

    [Prim] enumerates the integral and boolean [T] of the public aliases; a
    wrapper's [value] is the Z it represents.  The operators compute in the
    type that the usual arithmetic conversions give ([int] for every [T]
    narrower than [int]) and cast back with [static_cast<T>]. *)

Inductive Prim : Set :=
  | I8 | I16 | I32 | I64 | U8 | U16 | U32 | U64 | B8 | Usize | Isize.

Definition prim_bits (T : Prim) : Z :=
  match T with
  | I8 | U8 => 8 | I16 | U16 => 16 | I32 | U32 => 32
  | I64 | U64 | Usize | Isize => 64 | B8 => 1
  end.

Definition prim_signed (T : Prim) : bool :=
  match T with I8 | I16 | I32 | I64 | Isize => true | _ => false end.

Definition prim_min (T : Prim) : Z :=
  if prim_signed T then - 2 ^ (prim_bits T - 1) else 0.
Definition prim_max (T : Prim) : Z :=
  if prim_signed T then 2 ^ (prim_bits T - 1) - 1 else 2 ^ prim_bits T - 1.

Definition in_range (T : Prim) (v : Z) : Prop := prim_min T <= v <= prim_max T.
#[export] Instance in_range_dec T v : Decision (in_range T v).
Proof. unfold in_range. apply _. Defined.

(** [static_cast<T>]: modular for integers, [!= 0] for [bool]. *)
Definition prim_cast (T : Prim) (v : Z) : Z :=
  match T with
  | B8 => if v =? 0 then 0 else 1
  | _ => if prim_signed T
         then (v + 2 ^ (prim_bits T - 1)) mod 2 ^ prim_bits T - 2 ^ (prim_bits T - 1)
         else v mod 2 ^ prim_bits T
  end.

(** The integral promotion of an operand of type [T]. *)
Definition promote (T : Prim) : Prim :=
  match T with I8 | I16 | U8 | U16 | B8 => I32 | _ => T end.

(** The value of an arithmetic expression of type [promote T] whose exact
    result is [v]: unsigned types wrap, signed overflow is undefined. *)
Definition arith (T : Prim) (v : Z) : Result Z :=
  let P := promote T in
  if prim_signed P
  then if bool_decide (in_range P v) then Ok v else Fault
  else Ok (prim_cast P v).

Definition prim_op (T : Prim) (v : Z) : Result Z :=
  let? r := arith T v in Ok (prim_cast T r).

Definition prim_add (T : Prim) (a b : Z) : Result Z := prim_op T (a + b).
Definition prim_sub (T : Prim) (a b : Z) : Result Z := prim_op T (a - b).
Definition prim_mul (T : Prim) (a b : Z) : Result Z := prim_op T (a * b).
Definition prim_div (T : Prim) (a b : Z) : Result Z :=
  if b =? 0 then Fault else prim_op T (Z.quot a b).
Definition prim_rem (T : Prim) (a b : Z) : Result Z :=
  if b =? 0 then Fault
  else let? _ := arith T (Z.quot a b) in prim_op T (Z.rem a b).
Definition prim_and (T : Prim) (a b : Z) : Result Z := prim_op T (Z.land a b).
Definition prim_or (T : Prim) (a b : Z) : Result Z := prim_op T (Z.lor a b).
Definition prim_xor (T : Prim) (a b : Z) : Result Z := prim_op T (Z.lxor a b).
Definition prim_not (T : Prim) (a : Z) : Result Z := prim_op T (Z.lnot a).
(** Since C++20 a left shift is modular in the promoted type; a count outside
    [0, width) is undefined. *)
Definition prim_shl (T : Prim) (a b : Z) : Result Z :=
  if (0 <=? b) && (b <? prim_bits (promote T))
  then Ok (prim_cast T (prim_cast (promote T) (Z.shiftl a b))) else Fault.
Definition prim_shr (T : Prim) (a b : Z) : Result Z :=
  if (0 <=? b) && (b <? prim_bits (promote T))
  then prim_op T (Z.shiftr a b) else Fault.
Definition prim_neg (T : Prim) (a : Z) : Result Z := prim_op T (- a).
Definition prim_inc (T : Prim) (a : Z) : Result Z := prim_add T a 1.
Definition prim_dec (T : Prim) (a : Z) : Result Z := prim_sub T a 1.

(** The unsigned wrappers the storage code computes with. *)
Definition wrap16 (v : Z) : Z := prim_cast U16 v.
Definition wrap32 (v : Z) : Z := prim_cast U32 v.
Definition wrap64 (v : Z) : Z := prim_cast U64 v.

Lemma wrap16_mod v : wrap16 v = v mod 65536.
Proof. done. Qed.
Lemma wrap32_mod v : wrap32 v = v mod 4294967296.
Proof. done. Qed.
Lemma wrap64_mod v : wrap64 v = v mod 18446744073709551616.
Proof. done. Qed.

Lemma prim_cast_range T v : in_range T (prim_cast T v).
Proof.
  unfold in_range, prim_cast, prim_min, prim_max.
  assert (H : forall w, 0 < 2 ^ w \/ w < 0) by
    (intros w; destruct (Z.lt_ge_cases w 0); [lia|left; apply Z.pow_pos_nonneg; lia]).
  destruct T; cbn [prim_signed prim_bits];
    try (pose proof (Z.mod_pos_bound v (2 ^ 8) eq_refl));
    try (pose proof (Z.mod_pos_bound v (2 ^ 16) eq_refl));
    try (pose proof (Z.mod_pos_bound v (2 ^ 32) eq_refl));
    try (pose proof (Z.mod_pos_bound v (2 ^ 64) eq_refl));
    try (pose proof (Z.mod_pos_bound (v + 2 ^ (8 - 1)) (2 ^ 8) eq_refl));
    try (pose proof (Z.mod_pos_bound (v + 2 ^ (16 - 1)) (2 ^ 16) eq_refl));
    try (pose proof (Z.mod_pos_bound (v + 2 ^ (32 - 1)) (2 ^ 32) eq_refl));
    try (pose proof (Z.mod_pos_bound (v + 2 ^ (64 - 1)) (2 ^ 64) eq_refl));
    try (destruct (v =? 0)); lia.
Qed.

Lemma prim_cast_id T v : in_range T v -> prim_cast T v = v.
Proof.
  unfold in_range, prim_cast, prim_min, prim_max.
  destruct T; cbn [prim_signed prim_bits]; intros [Hl Hu];
    try (rewrite Z.mod_small by lia; lia).
  destruct (Z.eqb_spec v 0); lia.
Qed.

(** Operators never leave the range of their type. *)
Lemma prim_op_range T v r : prim_op T v = Ok r -> in_range T r.
Proof.
  unfold prim_op. destruct (arith T v) as [x| |]; cbn; [|done..].
  intros [= <-]. apply prim_cast_range.
Qed.

Lemma prim_op_exact T v :
  in_range T v -> prim_op T v = Ok v.
Proof.
  intros Hv. unfold prim_op, arith.
  assert (in_range (promote T) v).
  { revert Hv. unfold in_range, prim_min, prim_max. destruct T; cbn; lia. }
  destruct (prim_signed (promote T)).
  - rewrite bool_decide_eq_true_2 by done. cbn. by rewrite prim_cast_id.
  - cbn. by rewrite (prim_cast_id (promote T)), prim_cast_id.
Qed.

(** The u64/usize operators on the operands the storage code uses. *)
Lemma prim_rem_u64 a b :
  0 <= a < 2 ^ 64 -> 0 < b < 2 ^ 64 -> prim_rem U64 a b = Ok (a mod b).
Proof.
  intros Ha Hb. unfold prim_rem. destruct (Z.eqb_spec b 0); [lia|].
  rewrite Z.rem_mod_nonneg by lia. pose proof (Z.mod_pos_bound a b).
  unfold arith. cbn [promote prim_signed bindR].
  rewrite prim_op_exact; [done|]. unfold in_range, prim_min, prim_max. cbn. lia.
Qed.

Lemma prim_div_u64 a b :
  0 <= a < 2 ^ 64 -> 0 < b < 2 ^ 64 -> prim_div U64 a b = Ok (a / b).
Proof.
  intros Ha Hb. unfold prim_div. destruct (Z.eqb_spec b 0); [lia|].
  rewrite Z.quot_div_nonneg by lia. rewrite prim_op_exact; [done|].
  pose proof (Z.div_pos a b). pose proof (Z.div_le_upper_bound a b a).
  unfold in_range, prim_min, prim_max. cbn. nia.
Qed.
