(* ===== verification/Primitives.v ===== *)
(** * Primitives: src/src/utils/primitives.hpp, the rest of the wrappers

    [Utils] has the operators of the integral wrappers.  Here are their comparison,
    the literals, the hash, the floating-point instances, and what the integral
    operators do outside the range of their type. *)
From Stdlib Require Import SpecFloat.
From S2P Require Import Prelude Utils.

(** ** Comparison, hash and literals of the integral wrappers *)

(** [operator<=>] and [operator==] compare the values. *)
Definition prim_compare (a b : Z) : comparison := a ?= b.
Definition prim_eq (a b : Z) : bool := a =? b.

(** [std::hash<Primitive>] is [std::hash] of the value, a parameter here. *)
Definition prim_hash (std_hash : Prim -> Z -> Z) (T : Prim) (v : Z) : Z := std_hash T v.

(** The argument is an [unsigned long long]. *)
Definition lit_i32 (v : Z) : Z := prim_cast I32 v.
Definition lit_i64 (v : Z) : Z := prim_cast I64 v.
Definition lit_u32 (v : Z) : Z := prim_cast U32 v.
Definition lit_u64 (v : Z) : Z := prim_cast U64 v.
Definition lit_uz (v : Z) : Z := prim_cast Usize v.

(** ** Floating point: IEEE 754 in the default rounding mode *)

Inductive Flt : Set := F32 | F64.
Definition flt_prec (T : Flt) : Z := match T with F32 => 24 | F64 => 53 end.
Definition flt_emax (T : Flt) : Z := match T with F32 => 128 | F64 => 1024 end.

(** The value with significand 1 and exponent 0. *)
Definition flt_one (T : Flt) : spec_float := binary_normalize (flt_prec T) (flt_emax T) 1 0 false.
Definition flt_zero : spec_float := S754_zero false.

Definition flt_add (T : Flt) : spec_float -> spec_float -> spec_float := SFadd (flt_prec T) (flt_emax T).
Definition flt_sub (T : Flt) : spec_float -> spec_float -> spec_float := SFsub (flt_prec T) (flt_emax T).
Definition flt_mul (T : Flt) : spec_float -> spec_float -> spec_float := SFmul (flt_prec T) (flt_emax T).
Definition flt_div (T : Flt) : spec_float -> spec_float -> spec_float := SFdiv (flt_prec T) (flt_emax T).
Definition flt_neg : spec_float -> spec_float := SFopp.
Definition flt_inc (T : Flt) (x : spec_float) : spec_float := flt_add T x (flt_one T).
Definition flt_dec (T : Flt) (x : spec_float) : spec_float := flt_sub T x (flt_one T).

(** A NaN is unordered, also with itself. *)
Definition flt_compare : spec_float -> spec_float -> option comparison := SFcompare.
Definition flt_eq : spec_float -> spec_float -> bool := SFeqb.

(** The [long double] rounded to a [double]. *)
Definition lit_f64 (v : spec_float) : spec_float :=
  match v with
  | S754_finite s m e => binary_normalize (flt_prec F64) (flt_emax F64) (if s then Z.neg m else Z.pos m) e s
  | _ => v
  end.

(** ** Outside the range *)

#[export] Instance Prim_eq_dec : EqDecision Prim.
Proof. solve_decision. Defined.

(** The signed types that are not narrower than [int]. *)
Definition may_overflow (T : Prim) : bool :=
  match T with I32 | I64 | Isize => true | _ => false end.
(** The exact result [v] in [T]: undefined on signed overflow, modular otherwise. *)
Definition wrapped (T : Prim) (v : Z) : Result Z :=
  if may_overflow T && negb (bool_decide (in_range T v)) then Fault else Ok (prim_cast T v).

(** A type that is not narrow, or a result that fits in [int]. *)
Lemma prim_op_wrapped T v :
  promote T = T \/ - 2 ^ 31 <= v < 2 ^ 31 -> prim_op T v = wrapped T v.
Proof.
  intros Hv. unfold prim_op, arith, wrapped.
  assert (Hcast : forall P, prim_cast P (prim_cast P v) = prim_cast P v) by (intros P; apply prim_cast_id, prim_cast_range).
  destruct T; cbn [promote prim_signed may_overflow andb] in *;
    try (destruct Hv as [?|Hv]; [done|]; rewrite (bool_decide_eq_true_2 (in_range I32 v)) by (unfold in_range; cbn; lia); done);
    try (cbn [bindR]; by rewrite Hcast);
    case_bool_decide as Hin; cbn [negb bindR]; done.
Qed.

Lemma narrow_range T v : in_range T v -> promote T <> T -> - 2 ^ 15 <= v < 2 ^ 16.
Proof. unfold in_range. destruct T; cbn; try done; lia. Qed.

Lemma narrow_mul T a b :
  in_range T a -> in_range T b -> promote T <> T -> T <> U16 -> - 2 ^ 31 <= a * b < 2 ^ 31.
Proof. unfold in_range. destruct T; cbn; try done; intros ???; nia. Qed.

Lemma abs_quot_le a b : b <> 0 -> Z.abs (Z.quot a b) <= Z.abs a.
Proof.
  intros Hb. rewrite <- Z.quot_abs by done. rewrite Z.quot_div_nonneg by lia.
  apply Z.div_le_upper_bound; [lia|]. nia.
Qed.
Lemma abs_quot_half a b : 2 <= Z.abs b -> 2 * Z.abs (Z.quot a b) <= Z.abs a.
Proof.
  intros Hb. rewrite <- Z.quot_abs by lia. rewrite Z.quot_div_nonneg by lia.
  pose proof (Z.div_mod (Z.abs a) (Z.abs b)). pose proof (Z.mod_pos_bound (Z.abs a) (Z.abs b)).
  pose proof (Z.div_pos (Z.abs a) (Z.abs b)). nia.
Qed.

(** Only the least value divided by -1 leaves a signed type. *)
Lemma signed_quot_range T a b :
  prim_signed T = true -> in_range T a -> b <> 0 -> in_range T (Z.quot a b) <-> ~ (a = prim_min T /\ b = -1).
Proof.
  intros Hs Ha Hb. assert (Hpow : 2 <= 2 ^ (prim_bits T - 1)) by (destruct T; try done; cbn; lia).
  unfold in_range, prim_min, prim_max in *. rewrite Hs in *. set (n := 2 ^ (prim_bits T - 1)) in *. clearbody n.
  destruct (Z.eq_dec b 1) as [->|H1]; [rewrite Z.quot_1_r; lia|].
  destruct (Z.eq_dec b (-1)) as [->|H2].
  - change (-1) with (Z.opp 1). rewrite Z.quot_opp_r, Z.quot_1_r by lia. lia.
  - pose proof (abs_quot_half a b ltac:(lia)). lia.
Qed.

Lemma rem_range T a b : in_range T a -> in_range T b -> b <> 0 -> in_range T (Z.rem a b).
Proof.
  intros Ha Hb Hne. pose proof (Z.rem_bound_abs a b Hne). pose proof (Z.rem_sign_nz a b Hne).
  assert (0 <= a -> 0 <= Z.rem a b) by (intros; by apply Z.rem_nonneg).
  unfold in_range, prim_min, prim_max in *. destruct (prim_signed T); [|lia].
  set (n := 2 ^ (prim_bits T - 1)) in *. clearbody n. lia.
Qed.

(** [%] is undefined where the quotient is. *)
Definition rem_undefined (T : Prim) (a b : Z) : bool :=
  (b =? 0) || (may_overflow T && (a =? prim_min T) && (b =? -1)).

Lemma prim_rem_exact T a b :
  in_range T a -> in_range T b -> prim_rem T a b = if rem_undefined T a b then Fault else Ok (Z.rem a b).
Proof.
  intros Ha Hb. unfold prim_rem, rem_undefined. destruct (Z.eqb_spec b 0) as [|Hne]; [done|]. cbn [orb].
  rewrite (prim_op_exact T (Z.rem a b)) by (by apply rem_range).
  pose proof (abs_quot_le a b Hne) as Hq. pose proof (signed_quot_range T a b) as Hr. pose proof (narrow_range T a Ha) as Hn.
  unfold arith. destruct T; cbn [promote prim_signed may_overflow andb] in *; try done;
    try (rewrite bool_decide_eq_true_2 by (unfold in_range; cbn; specialize (Hn ltac:(done)); lia); done);
    specialize (Hr eq_refl Ha Hne);
    case_bool_decide as Hin; cbn [bindR];
    destruct (Z.eqb_spec a (prim_min I32)), (Z.eqb_spec a (prim_min I64)), (Z.eqb_spec a (prim_min Isize)), (Z.eqb_spec b (-1));
    cbn [andb]; tauto.
Qed.

(** C40: the operators of the integral wrappers at and beyond the bounds of their type.
    Addition, subtraction, multiplication and division give the exact result reduced
    to the type; they are undefined only on overflow of the 32- and 64-bit signed
    types, for a division by zero, and for a product of two [u16] beyond the range of
    [int]: the narrow operands are promoted to it.  The remainder is exact where its
    quotient is defined. *)
Theorem primitive_bounds (T : Prim) (a b : Z) :
  in_range T a -> in_range T b ->
  prim_add T a b = wrapped T (a + b) /\
  prim_sub T a b = wrapped T (a - b) /\
  prim_mul T a b = (if bool_decide (T = U16 /\ 2 ^ 31 <= a * b) then Fault else wrapped T (a * b)) /\
  prim_div T a b = (if b =? 0 then Fault else wrapped T (Z.quot a b)) /\
  prim_rem T a b = if rem_undefined T a b then Fault else Ok (Z.rem a b).
Proof.
  intros Ha Hb. pose proof (decide (promote T = T)) as Hp.
  pose proof (narrow_range T a Ha) as Na. pose proof (narrow_range T b Hb) as Nb. split_and!.
  - apply prim_op_wrapped. destruct Hp as [|H]; [by left|right]. specialize (Na H). specialize (Nb H). lia.
  - apply prim_op_wrapped. destruct Hp as [|H]; [by left|right]. specialize (Na H). specialize (Nb H). lia.
  - case_bool_decide as Hu.
    + destruct Hu as [-> Hu]. unfold prim_mul, prim_op, arith. cbn [promote prim_signed].
      rewrite bool_decide_eq_false_2; [done|]. unfold in_range. cbn. lia.
    + apply prim_op_wrapped. destruct Hp as [|H]; [by left|right].
      destruct (decide (T = U16)) as [->|Hne]; [|by apply (narrow_mul T)].
      unfold in_range in Ha, Hb. cbn in Ha, Hb. split; [nia|]. destruct (Z.lt_ge_cases (a * b) (2 ^ 31)); [done|]. by destruct Hu.
  - unfold prim_div. destruct (Z.eqb_spec b 0) as [|Hne]; [done|]. apply prim_op_wrapped.
    destruct Hp as [|H]; [by left|right]. specialize (Na H). pose proof (abs_quot_le a b Hne). lia.
  - by apply prim_rem_exact.
Qed.

(** 100 - (-100) wraps in eight bits; the greatest [u16] squared does not fit [int]. *)
Lemma primitive_bounds_witness :
  prim_sub I8 100 (-100) = Ok (-56) /\ prim_mul U16 65535 65535 = Fault /\ prim_add I32 2147483647 1 = Fault.
Proof.
  destruct (primitive_bounds I8 100 (-100)) as (_ & Hs & _); [unfold in_range; cbn; lia..|].
  destruct (primitive_bounds U16 65535 65535) as (_ & _ & Hm & _); [unfold in_range; cbn; lia..|].
  destruct (primitive_bounds I32 2147483647 1) as (Ha & _); [unfold in_range; cbn; lia..|].
  split; [rewrite Hs; vm_compute; reflexivity|]. split; [rewrite Hm; vm_compute; reflexivity|].
  rewrite Ha. vm_compute. reflexivity.
Defined.

(** A float equals itself unless it is NaN. *)
Lemma flt_eq_refl x : flt_eq x x = negb (match x with S754_nan => true | _ => false end).
Proof.
  unfold flt_eq, SFeqb, SFcompare. destruct x as [s|[]| |[] m e]; try done.
  - by rewrite Z.compare_refl, Pos.compare_refl.
  - by rewrite Z.compare_refl, Pos.compare_refl.
Qed.
