(* ===== verification/Log.v ===== *)
(** * Log: src/src/utils/log.hpp

    Logging with a level that is read from the environment at the first use and kept.
    The state is the environment variable EDB_LOG_LEVEL as it is now, the static
    [active] once it is initialised, and the lines written to stderr.  [std::format]
    is applied by the caller: [msg] is the formatted message. *)
From S2P Require Import Prelude Utils.

Inductive LogLevel : Set := LogDebug | LogInfo | LogWarn | LogError | LogNone.

(** The enumerators' values, which order the levels. *)
Definition level_value (level : LogLevel) : Z :=
  match level with LogDebug => 0 | LogInfo => 1 | LogWarn => 2 | LogError => 3 | LogNone => 4 end.

Definition log_level_name (level : LogLevel) : string :=
  match level with
  | LogDebug => "DEBUG"
  | LogInfo => "INFO "
  | LogWarn => "WARN "
  | LogError => "ERROR"
  | LogNone => "NONE "
  end.

Record LogWorld := { log_env : option string; log_active : option LogLevel; log_stderr : list string }.

(** The initialiser of [active]. *)
Definition level_of_env (env : option string) : LogLevel :=
  match env with
  | None => LogInfo
  | Some s =>
      if String.eqb s "debug" then LogDebug
      else if String.eqb s "info" then LogInfo
      else if String.eqb s "warn" then LogWarn
      else if String.eqb s "error" then LogError
      else if String.eqb s "none" then LogNone
      else LogInfo
  end.
Definition active_log_level (w : LogWorld) : LogLevel * LogWorld :=
  match log_active w with
  | Some active => (active, w)
  | None =>
      let active := level_of_env (log_env w) in
      (active, {| log_env := log_env w; log_active := Some active; log_stderr := log_stderr w |})
  end.

Definition log_line (level : LogLevel) (module msg : string) : string :=
  ("[" +:+ log_level_name level +:+ "] [" +:+ module +:+ "] " +:+ msg)%string.
Definition edb_log (level : LogLevel) (module msg : string) (w : LogWorld) : LogWorld :=
  let '(active, w) := active_log_level w in
  if level_value level <? level_value active then w
  else {| log_env := log_env w; log_active := log_active w;
          log_stderr := log_stderr w ++ [log_line level module msg] |}.

Definition EDB_LOG_DEBUG : string -> string -> LogWorld -> LogWorld := edb_log LogDebug.
Definition EDB_LOG_INFO : string -> string -> LogWorld -> LogWorld := edb_log LogInfo.
Definition EDB_LOG_WARN : string -> string -> LogWorld -> LogWorld := edb_log LogWarn.
Definition EDB_LOG_ERROR : string -> string -> LogWorld -> LogWorld := edb_log LogError.

(** ** What a run writes *)

(** A step of the program: a message, or a change of the environment variable. *)
Inductive LogStep := Message (level : LogLevel) (module msg : string) | SetEnv (env : option string).
Definition log_step (w : LogWorld) (s : LogStep) : LogWorld :=
  match s with
  | Message level module msg => edb_log level module msg w
  | SetEnv env => {| log_env := env; log_active := log_active w; log_stderr := log_stderr w |}
  end.
(** The lines of the messages that are not below [active]. *)
Definition lines_from (active : LogLevel) (steps : list LogStep) : list string :=
  omap (fun s => match s with
    | Message level module msg =>
        if level_value level <? level_value active then None else Some (log_line level module msg)
    | SetEnv _ => None
    end) steps.

(** Once the level is fixed, exactly the messages at or above it are written, in
    order, whatever the environment becomes. *)
Lemma log_filters active steps w :
  log_active w = Some active ->
  log_active (foldl log_step w steps) = Some active /\
  log_stderr (foldl log_step w steps) = log_stderr w ++ lines_from active steps.
Proof.
  revert w. induction steps as [|s steps IH]; intros w Ha; cbn; [by rewrite app_nil_r|].
  destruct s as [level module msg|env]; cbn; [|by apply (IH (log_step w (SetEnv env)))].
  unfold edb_log, active_log_level. rewrite Ha. destruct (level_value level <? level_value active); [by apply IH|].
  destruct (IH {| log_env := log_env w; log_active := log_active w;
    log_stderr := log_stderr w ++ [log_line level module msg] |} Ha) as [-> ->].
  cbn. by rewrite <- app_assoc.
Qed.

(** The first message fixes the level to the one the environment names then. *)
Lemma log_first_use level module msg w :
  log_active w = None ->
  log_active (edb_log level module msg w) = Some (level_of_env (log_env w)) /\
  log_stderr (edb_log level module msg w) =
    log_stderr w ++ lines_from (level_of_env (log_env w)) [Message level module msg].
Proof.
  intros Ha. unfold edb_log, active_log_level. rewrite Ha. cbn. destruct (_ <? _); [by rewrite app_nil_r|done].
Qed.
