(* ===== verification/Latch.v ===== *)
(** * Latch: objects whose methods run under a mutex

    [std::scoped_lock guard{latch};] at the head of a method
    (src/src/storage/engine/heap/heap_engine.cpp, src/src/catalog/catalog.cpp).
    A method body is a [Code]: a sequence of single accesses to the shared object.
    Threads run clients of the object; the scheduler may switch threads before
    every access.  The reference is the machine in which each call is one atomic
    step, and the theorems of this file hold for every object of this kind. *)
From S2P Require Import Prelude Utils.

(** ** Method bodies, one access to the shared object at a time *)

Inductive Code (S A : Type) :=
  | Done (a : A)
  | Step (access : S -> S) (rest : S -> Code S A).
Arguments Done {S A}.
Arguments Step {S A}.

Section code.
Context {S : Type}.

(** The body run without interruption. *)
Fixpoint run {A} (c : Code S A) (s : S) : A * S :=
  match c with
  | Done a => (a, s)
  | Step access rest => run (rest s) (access s)
  end.

Fixpoint mapC {A B} (f : A -> B) (c : Code S A) : Code S B :=
  match c with
  | Done a => Done (f a)
  | Step access rest => Step access (fun s => mapC f (rest s))
  end.

(** One access. *)
Definition act {A} (m : M S A) : Code S (Result A) :=
  Step (fun s => (m s).2) (fun s => Done (m s).1).

Fixpoint bindC {A B} (c : Code S (Result A)) (k : A -> Code S (Result B)) : Code S (Result B) :=
  match c with
  | Done (Ok a) => k a
  | Done (Err er) => Done (Err er)
  | Done Fault => Done Fault
  | Step access rest => Step access (fun s => bindC (rest s) k)
  end.

Definition attempted {A} (r : Result A) : Result (Result A) :=
  match r with
  | Ok a => Ok (Ok a)
  | Err er => Ok (Err er)
  | Fault => Fault
  end.
Definition attemptC {A} (c : Code S (Result A)) : Code S (Result (Result A)) := mapC attempted c.

(** [body c m]: run without interruption, the accesses [c] are the operation [m]. *)
Definition body {A} (c : Code S (Result A)) (m : M S A) : Prop := forall s, run c s = m s.

Lemma run_map {A B} (f : A -> B) (c : Code S A) s : run (mapC f c) s = (f (run c s).1, (run c s).2).
Proof. revert s. induction c as [a|access rest IH]; intros s; [done|apply IH]. Qed.

Lemma run_bind {A B} (c : Code S (Result A)) (k : A -> Code S (Result B)) s :
  run (bindC c k) s = bindM (run c) (fun a => run (k a)) s.
Proof.
  revert s. induction c as [[a|er|]|access rest IH]; intros s; try done. apply IH.
Qed.

Lemma body_act {A} (m : M S A) : body (act m) m.
Proof. intros s. cbn. by destruct (m s). Qed.
Lemma body_done {A} (r : Result A) : body (Done r) (liftR r).
Proof. done. Qed.
Lemma body_ret {A} (a : A) : body (Done (Ok a)) (retM a).
Proof. done. Qed.
Lemma body_err {A} er : body (Done (A := Result A) (Err er)) (errM er).
Proof. done. Qed.
Lemma body_fault {A} : body (Done (A := Result A) Fault) faultM.
Proof. done. Qed.
Lemma body_bind {A B} c (m : M S A) k (k' : A -> M S B) :
  body c m -> (forall a, body (k a) (k' a)) -> body (bindC c k) (bindM m k').
Proof.
  intros Hc Hk s. rewrite run_bind. unfold bindM. rewrite Hc.
  destruct (m s) as [[a|er|] s']; [apply Hk|done|done].
Qed.
Lemma body_attempt {A} c (m : M S A) : body c m -> body (attemptC c) (attempt m).
Proof.
  intros Hc s. unfold attemptC, attempt. rewrite run_map, Hc. by destruct (m s) as [[a|er|] s'].
Qed.
End code.

Notation "'code*' x ':=' m 'in' k" := (bindC m (fun x => k))
  (at level 10, x name, m at level 100, k at level 200,
   format "'[v' 'code*'  x  ':='  m  'in' '/' k ']'") : edb_scope.

Create HintDb code.
#[export] Hint Resolve body_act body_done body_ret body_err body_fault body_bind body_attempt : code.

(** Two programs of the same shape: the accesses correspond one by one. *)
Ltac bodies := repeat first
  [ solve [eauto 2 with code]
  | lazymatch goal with |- body (bindC _ _) (bindM _ _) => apply body_bind; [|intros ?] end
  | lazymatch goal with |- body (let x := ?v in _) _ => cbv zeta end
  | lazymatch goal with |- body (attemptC _) _ => apply body_attempt end
  | lazymatch goal with |- body (if ?b then _ else _) _ => destruct b end
  | lazymatch goal with |- body (match ?o with _ => _ end) _ => destruct o end ].

(** A body that also works on a variable of its caller, passed by reference. *)
Fixpoint by_reference {V S A} (v : V) (c : Code (V * S) A) : Code S (A * V) :=
  match c with
  | Done a => Done (a, v)
  | Step access rest =>
      Step (fun s => (access (v, s)).2) (fun s => by_reference (access (v, s)).1 (rest (v, s)))
  end.

Lemma run_by_reference {V S A} (c : Code (V * S) A) v s :
  run (by_reference v c) s =
    let '(a, (v', s')) := run c (v, s) in (a, v', s').
Proof.
  revert v s. induction c as [a|access rest IH]; intros v s; cbn; [done|].
  rewrite IH. by rewrite <- surjective_pairing.
Qed.

(** On every execution from a state, [P] comes to hold; a state without a
    successor is no excuse. *)
Inductive inevitable {St : Type} (R : St -> St -> Prop) (P : St -> Prop) (s : St) : Prop :=
  | now : P s -> inevitable R P s
  | later : (exists s', R s s') -> (forall s', R s s' -> inevitable R P s') -> inevitable R P s.

(** ** Objects with a latch *)

(** What is shared, the methods, their answers, their bodies, and the answers that
    stand for an aborted process. *)
Record Monitor := {
  object : Type;
  Op : Type;
  answer : Op -> Type;
  method : forall op, Code object (answer op);
  aborts : forall op, answer op -> bool;
}.
Arguments answer {_}.
Arguments method {_}.
Arguments aborts {_}.

Definition is_fault {A} (r : Result A) : bool := match r with Fault => true | _ => false end.

Section threads.
Context {O : Monitor} {A : Type}.
#[local] Abbreviation Op := (Op O).
#[local] Abbreviation object := (object O).

(** A thread's program: it calls methods and continues with their answers. *)
Inductive Client :=
  | Ret (a : A)
  | Do (op : Op) (k : answer op -> Client).

(** ** The threads under the latch *)

Inductive Thread :=
  | Outside (c : Client)
  | Inside (op : Op) (c : Code object (answer op)) (k : answer op -> Client).
Record Machine := { shared : object; latch : option nat; threads : list Thread }.

(** A call blocks while the latch is held; the guard's destructor frees it. *)
Definition thread_step (i : nat) (m : Machine) : option Machine :=
  match threads m !! i with
  | Some (Outside (Do op k)) =>
      match latch m with
      | None => Some {| shared := shared m; latch := Some i;
                        threads := <[i := Inside op (method op) k]> (threads m) |}
      | Some _ => None
      end
  | Some (Inside op (Step access rest) k) =>
      Some {| shared := access (shared m); latch := latch m;
              threads := <[i := Inside op (rest (shared m)) k]> (threads m) |}
  | Some (Inside op (Done a) k) =>
      if aborts op a then None
      else Some {| shared := shared m; latch := None; threads := <[i := Outside (k a)]> (threads m) |}
  | _ => None
  end.
Definition step (m m' : Machine) : Prop := exists i, thread_step i m = Some m'.

Definition start (s : object) (cs : list Client) : Machine :=
  {| shared := s; latch := None; threads := Outside <$> cs |}.
Definition returned (c : Client) : bool := match c with Ret _ => true | Do _ _ => false end.
Definition outside_returned (t : Thread) : bool :=
  match t with Outside c => returned c | Inside _ _ _ => false end.
Definition finished (m : Machine) : bool := forallb outside_returned (threads m).

(** ** The reference: every call is one step *)

Record Event := { ev_thread : nat; ev_op : Op; ev_answer : answer ev_op }.
Record Atomic := { at_object : object; at_clients : list Client }.

Definition atomic_step (i : nat) (m : Atomic) : option (Event * Atomic) :=
  match at_clients m !! i with
  | Some (Do op k) =>
      let '(a, s) := run (method op) (at_object m) in
      if aborts op a then None
      else Some ({| ev_thread := i; ev_op := op; ev_answer := a |},
                 {| at_object := s; at_clients := <[i := k a]> (at_clients m) |})
  | _ => None
  end.
Inductive atomic_run (m : Atomic) : list Event -> Atomic -> Prop :=
  | atomic_nil : atomic_run m [] m
  | atomic_snoc h m1 i ev m2 :
      atomic_run m h m1 -> atomic_step i m1 = Some (ev, m2) -> atomic_run m (h ++ [ev]) m2.

Lemma atomic_run_length m h m' : atomic_run m h m' -> length (at_clients m') = length (at_clients m).
Proof.
  induction 1 as [|h m1 i ev m2 _ IH Hstep]; [done|]. rewrite <- IH. unfold atomic_step in Hstep.
  destruct (at_clients m1 !! i) as [[a|op k]|]; [done| |done].
  destruct (run (method op) (at_object m1)) as [a s]. destruct (aborts op a); [done|].
  injection Hstep as _ <-. apply length_insert.
Qed.

(** ** The simulation *)

Definition client_of (t : Thread) : Client :=
  match t with Outside c => c | Inside op _ k => Do op k end.
Definition is_inside (t : Thread) : bool :=
  match t with Inside _ _ _ => true | Outside _ => false end.

(** The thread inside is the owner of the latch, and what is left of its body
    yields what the whole body yields on the object the atomic machine has. *)
Definition matches_owner (m : Machine) (am : Atomic) : Prop :=
  match latch m with
  | None => shared m = at_object am
  | Some i =>
      match threads m !! i with
      | Some (Inside op c _) => run c (shared m) = run (method op) (at_object am)
      | _ => False
      end
  end.
Record simulates (m : Machine) (am : Atomic) : Prop := {
  sim_clients : at_clients am = client_of <$> threads m;
  sim_inside i t : threads m !! i = Some t -> is_inside t = true -> latch m = Some i;
  sim_owner : matches_owner m am;
}.

Lemma simulates_start s cs :
  simulates (start s cs) {| at_object := s; at_clients := cs |}.
Proof.
  split; cbn; [|intros i t|done].
  - rewrite <- list_fmap_compose. symmetry. apply list_fmap_id.
  - rewrite list_lookup_fmap. by intros (c & _ & ->)%fmap_Some.
Qed.

(** Only the owner is inside. *)
Lemma inside_update (ts : list Thread) i t o j u :
  (forall j u, ts !! j = Some u -> is_inside u = true -> j <> i -> o = Some j) ->
  (is_inside t = true -> o = Some i) ->
  <[i := t]> ts !! j = Some u -> is_inside u = true -> o = Some j.
Proof.
  intros Hothers Hself Hj Hu. apply list_lookup_insert_Some in Hj as [(<- & <- & _)|[Hne Hj]]; [auto|].
  eapply Hothers; eauto.
Qed.

Lemma client_of_update (ts : list Thread) (i : nat) t u :
  ts !! i = Some t -> client_of u = client_of t -> client_of <$> <[i := u]> ts = client_of <$> ts.
Proof.
  intros Hi Hu. rewrite list_fmap_insert, Hu. apply list_insert_id. by rewrite list_lookup_fmap, Hi.
Qed.

(** What a step of a thread is: taking the latch, an access, or leaving. *)
Variant step_case (i : nat) (m m' : Machine) : Prop :=
  | Enters op k :
      threads m !! i = Some (Outside (Do op k)) -> latch m = None ->
      m' = {| shared := shared m; latch := Some i;
              threads := <[i := Inside op (method op) k]> (threads m) |} -> step_case i m m'
  | Accesses op access rest k :
      threads m !! i = Some (Inside op (Step access rest) k) ->
      m' = {| shared := access (shared m); latch := latch m;
              threads := <[i := Inside op (rest (shared m)) k]> (threads m) |} -> step_case i m m'
  | Leaves op a k :
      threads m !! i = Some (Inside op (Done a) k) -> aborts op a = false ->
      m' = {| shared := shared m; latch := None; threads := <[i := Outside (k a)]> (threads m) |} ->
      step_case i m m'.

Lemma thread_step_cases i m m' : thread_step i m = Some m' -> step_case i m m'.
Proof.
  unfold thread_step. destruct (threads m !! i) as [[[a|op k]|op [a|access rest] k]|] eqn:Hi; try done.
  - destruct (latch m) eqn:Hl; [done|]. intros [= <-]. by eapply Enters.
  - destruct (aborts op a) eqn:Ha; [done|]. intros [= <-]. by eapply Leaves.
  - intros [= <-]. by eapply Accesses.
Qed.

(** The clause for the owner, at the thread just updated. *)
Lemma matches_owner_update (s : object) (ts : list Thread) i t op c k am :
  ts !! i = Some t -> run c s = run (method op) (at_object am) ->
  matches_owner {| shared := s; latch := Some i; threads := <[i := Inside op c k]> ts |} am.
Proof.
  intros Hi Hrun. unfold matches_owner. cbn. rewrite list_lookup_insert_eq; [done|]. by eapply lookup_lt_Some.
Qed.

Lemma matches_inside m am i op c k :
  simulates m am -> threads m !! i = Some (Inside op c k) ->
  latch m = Some i /\ run c (shared m) = run (method op) (at_object am).
Proof.
  intros [_ Hin Hown] Hi. pose proof (Hin _ _ Hi eq_refl) as Hl. split; [done|].
  unfold matches_owner in Hown. by rewrite Hl, Hi in Hown.
Qed.

(** Taking the latch and the accesses are invisible; leaving is the atomic step. *)
Lemma enter_simulated m am i op k :
  simulates m am -> threads m !! i = Some (Outside (Do op k)) -> latch m = None ->
  simulates {| shared := shared m; latch := Some i;
               threads := <[i := Inside op (method op) k]> (threads m) |} am.
Proof.
  intros [Hcl Hin Hown] Hi Hl. unfold matches_owner in Hown. rewrite Hl in Hown. split; cbn [shared latch threads at_object at_clients].
  - by rewrite (client_of_update _ _ _ _ Hi).
  - intros j u. apply inside_update; [|done]. intros j' u' Hj Hu. by rewrite (Hin _ _ Hj Hu) in Hl.
  - eapply matches_owner_update; [done|]. by rewrite Hown.
Qed.

Lemma access_simulated m am i op access rest k :
  simulates m am -> threads m !! i = Some (Inside op (Step access rest) k) ->
  simulates {| shared := access (shared m); latch := latch m;
               threads := <[i := Inside op (rest (shared m)) k]> (threads m) |} am.
Proof.
  intros Hsim Hi. destruct (matches_inside _ _ _ _ _ _ Hsim Hi) as [Hl Hrun].
  destruct Hsim as [Hcl Hin Hown]. split; cbn [shared latch threads at_object at_clients]; rewrite ?Hl.
  - by rewrite (client_of_update _ _ _ _ Hi).
  - intros j u. apply inside_update; [|done]. intros j' u' Hj Hu Hne. rewrite <- Hl. by eapply Hin.
  - by eapply matches_owner_update.
Qed.

Lemma leave_simulated m am i op a k :
  simulates m am -> threads m !! i = Some (Inside op (Done a) k) -> aborts op a = false ->
  exists ev am', atomic_step i am = Some (ev, am') /\
    simulates {| shared := shared m; latch := None; threads := <[i := Outside (k a)]> (threads m) |} am'.
Proof.
  intros Hsim Hi Ha. destruct (matches_inside _ _ _ _ _ _ Hsim Hi) as [Hl Hrun].
  destruct Hsim as [Hcl Hin Hown]. unfold atomic_step. rewrite Hcl, list_lookup_fmap, Hi. cbn.
  rewrite <- Hrun. cbn. rewrite Ha. eexists _, _. split; [done|]. split; cbn [shared latch threads at_object at_clients].
  - by rewrite list_fmap_insert.
  - intros j u. apply inside_update; [|done]. intros j' u' Hj Hu Hne. rewrite (Hin _ _ Hj Hu) in Hl. congruence.
  - done.
Qed.

Lemma step_simulated i m m' am :
  simulates m am -> thread_step i m = Some m' ->
  simulates m' am \/ exists ev am', atomic_step i am = Some (ev, am') /\ simulates m' am'.
Proof.
  intros Hsim Hstep.
  destruct (thread_step_cases _ _ _ Hstep) as [op k Hi Hl ->|op access rest k Hi ->|op a k Hi Ha ->].
  - left. by apply enter_simulated.
  - left. by apply access_simulated.
  - right. by eapply leave_simulated.
Qed.

Lemma steps_simulated m m' am am0 h :
  simulates m am -> atomic_run am0 h am -> rtc step m m' ->
  exists h' am', atomic_run am0 (h ++ h') am' /\ simulates m' am'.
Proof.
  intros Hsim Hrun Hsteps. revert am h Hsim Hrun.
  induction Hsteps as [m|m m1 m2 [i Hi] _ IH]; intros am h Hsim Hrun.
  { exists [], am. by rewrite app_nil_r. }
  destruct (step_simulated i m m1 am Hsim Hi) as [Hs|(ev & am1 & Hat & Hs)]; [by eapply IH|].
  destruct (IH am1 (h ++ [ev]) Hs) as (h' & am' & Hr & Hs'); [by eapply atomic_snoc|].
  exists (ev :: h'), am'. by rewrite <- (assoc_L (++)) in Hr.
Qed.

(** At most one thread is inside a method. *)
Lemma simulates_exclusive m am i j t u :
  simulates m am -> threads m !! i = Some t -> threads m !! j = Some u ->
  is_inside t = true -> is_inside u = true -> i = j.
Proof. intros [_ Hin _] Hi Hj Ht Hu. pose proof (Hin _ _ Hi Ht). pose proof (Hin _ _ Hj Hu). congruence. Qed.

(** With all threads outside, the two machines agree. *)
Lemma simulates_outside m am :
  simulates m am -> latch m = None -> shared m = at_object am /\ threads m = Outside <$> at_clients am.
Proof.
  intros [Hcl Hin Hown] Hl. unfold matches_owner in Hown. rewrite Hl in Hown. split; [done|].
  rewrite Hcl. apply list_eq. intros i. rewrite !list_lookup_fmap.
  destruct (threads m !! i) as [[c|op c k]|] eqn:Hi; [done| |done]. by rewrite (Hin _ _ Hi eq_refl) in Hl.
Qed.

(** ** Every execution completes *)

(** Inside a method the owner is the only thread that can move ... *)
Lemma owner_steps m am i m' :
  simulates m am -> latch m = Some i -> step m m' -> thread_step i m = Some m'.
Proof.
  intros Hsim Hl [j Hj].
  destruct (thread_step_cases _ _ _ Hj) as [op k Hi Hl' _|op access rest k Hi _|op a k Hi _ _];
    [congruence| |]; destruct (matches_inside _ _ _ _ _ _ Hsim Hi) as [Hl' _]; congruence.
Qed.

(** ... and its body ends, which completes the call. *)
Lemma inside_completes P i am op (c : Code object (answer op)) k : forall m,
  simulates m am -> threads m !! i = Some (Inside op c k) ->
  aborts op (run (method op) (at_object am)).1 = false ->
  (forall m' ev am', atomic_step i am = Some (ev, am') -> simulates m' am' -> latch m' = None ->
    inevitable step P m') ->
  inevitable step P m.
Proof.
  induction c as [a|access rest IH]; intros m Hsim Hi Ha Hout;
    destruct (matches_inside _ _ _ _ _ _ Hsim Hi) as [Hl Hrun]; apply later.
  1,3: eexists _, i; unfold thread_step; rewrite Hi; rewrite <- Hrun in Ha; cbn in Ha; by rewrite ?Ha.
  - intros m' Hstep%(owner_steps _ _ _ _ Hsim Hl). unfold thread_step in Hstep.
    rewrite <- Hrun in Ha. cbn in Ha. rewrite Hi, Ha in Hstep. injection Hstep as <-.
    destruct (leave_simulated _ _ _ _ _ _ Hsim Hi Ha) as (ev & am' & Hat & Hs). by eapply Hout.
  - intros m' Hstep%(owner_steps _ _ _ _ Hsim Hl). unfold thread_step in Hstep.
    rewrite Hi in Hstep. injection Hstep as <-. eapply IH; [by apply access_simulated| |done|done].
    apply list_lookup_insert_eq. by eapply lookup_lt_Some.
Qed.
End threads.
Arguments Client : clear implicits.
Arguments Thread : clear implicits.
Arguments Machine : clear implicits.
Arguments Atomic : clear implicits.
Arguments Event : clear implicits.

(** ** What the methods of an object promise *)

(** [budget_ok n s]: the object can take [n] more calls.  A call with a proper
    argument on such an object does not abort, and what it does is [legal]. *)
Class MonitorSpec (O : Monitor) := {
  budget_ok : nat -> object O -> Prop;
  op_ok : Op O -> Prop;
  answer_ok : forall op : Op O, answer op -> Prop;
  legal : object O -> forall op : Op O, answer op -> object O -> Prop;
  call_ok n s op a s' :
    budget_ok (S n) s -> op_ok op -> run (method op) s = (a, s') ->
    aborts op a = false /\ answer_ok op a /\ budget_ok n s' /\ legal s op a s';
}.

Section specified.
Context {O : Monitor} `{!MonitorSpec O} {A : Type}.

(** The client makes at most [n] calls, with proper arguments. *)
Fixpoint bounded (c : Client O A) (n : nat) : Prop :=
  match c, n with
  | Ret _, _ => True
  | Do _ _, 0%nat => False
  | Do op k, S n => op_ok op /\ forall a, answer_ok op a -> bounded (k a) n
  end.

(** All clients together make at most [n] calls, which the object can take. *)
Definition allowed (n : nat) (am : Atomic O A) : Prop :=
  exists ns, Forall2 bounded (at_clients am) ns /\ sum_list ns = n /\ budget_ok n (at_object am).

Inductive legal_history (s : object O) : list (Event O) -> object O -> Prop :=
  | legal_nil : legal_history s [] s
  | legal_snoc h s1 ev s2 :
      legal_history s h s1 -> legal s1 (ev_op ev) (ev_answer ev) s2 -> legal_history s (h ++ [ev]) s2.

Lemma sum_list_update ns i n :
  ns !! i = Some (S n) -> sum_list ns = S (sum_list (<[i := n]> ns)).
Proof.
  revert i. induction ns as [|m ns IH]; intros [|i] Hi; cbn in *; [done|done| |].
  - by injection Hi as ->.
  - specialize (IH _ Hi). change (m + sum_list ns = S (m + sum_list (<[i := n]> ns)))%nat. lia.
Qed.

(** A client about to call has budget for the call. *)
Lemma allowed_call n am i op k :
  allowed n am -> at_clients am !! i = Some (Do op k) ->
  exists n' ns, n = S n' /\ op_ok op /\ budget_ok (S n') (at_object am) /\
    forall a, answer_ok op a ->
      Forall2 bounded (<[i := k a]> (at_clients am)) ns /\ sum_list ns = n'.
Proof.
  intros (ns & Hall & Hsum & Hb) Hi.
  destruct (Forall2_lookup_l _ _ _ _ _ Hall Hi) as ([|n'] & Hn & Hc); [by destruct Hc|].
  destruct Hc as [Hop Hk]. rewrite (sum_list_update _ _ _ Hn) in Hsum. subst n.
  exists (sum_list (<[i := n']> ns)), (<[i := n']> ns). split_and!; [done|done|done|].
  intros a Ha. split; [|done]. apply Forall2_insert; [done|]. by apply Hk.
Qed.

Lemma allowed_no_abort n am i op k :
  allowed n am -> at_clients am !! i = Some (Do op k) ->
  aborts op (run (method op) (at_object am)).1 = false.
Proof.
  intros Hal Hi. destruct (allowed_call _ _ _ _ _ Hal Hi) as (n' & ns & -> & Hop & Hb & _).
  destruct (run (method op) (at_object am)) as [a s'] eqn:Hrun. by eapply call_ok.
Qed.

Lemma allowed_step n am i ev am' :
  allowed n am -> atomic_step i am = Some (ev, am') ->
  exists n', n = S n' /\ allowed n' am' /\ legal (at_object am) (ev_op ev) (ev_answer ev) (at_object am').
Proof.
  intros Hal. unfold atomic_step. destruct (at_clients am !! i) as [[a|op k]|] eqn:Hi; [done| |done].
  destruct (allowed_call _ _ _ _ _ Hal Hi) as (n' & ns & -> & Hop & Hb & Hns).
  destruct (run (method op) (at_object am)) as [a s'] eqn:Hrun.
  destruct (call_ok _ _ _ _ _ Hb Hop Hrun) as (Ha & Hans & Hb' & Hleg). rewrite Ha. intros [= <- <-].
  destruct (Hns a Hans) as [Hf Hsum]. exists n'. split_and!; [done|by exists ns|done].
Qed.

(** A history is no longer than the budget. *)
Lemma allowed_history n am h am' :
  allowed n am -> atomic_run am h am' ->
  exists n', n = (length h + n')%nat /\ allowed n' am' /\ legal_history (at_object am) h (at_object am').
Proof.
  intros Hal Hrun. induction Hrun as [|h m1 i ev m2 _ IH Hstep].
  { exists n. split_and!; [done|done|apply legal_nil]. }
  destruct IH as (n1 & -> & Hal1 & Hleg). destruct (allowed_step _ _ _ _ _ Hal1 Hstep) as (n2 & -> & Hal2 & Hev).
  exists n2. rewrite length_app. cbn. split_and!; [lia|done|by eapply legal_snoc].
Qed.
Lemma allowed_run n am h am' :
  allowed n am -> atomic_run am h am' ->
  (exists n', allowed n' am') /\ legal_history (at_object am) h (at_object am').
Proof. intros Hal Hrun. destruct (allowed_history _ _ _ _ Hal Hrun) as (n' & _ & Hal' & Hleg). eauto. Qed.

(** Every interleaving is the atomic history of its calls, each legal. *)
Lemma latch_linearizable s cs n (m : Machine O A) :
  allowed n {| at_object := s; at_clients := cs |} -> rtc step (start s cs) m ->
  exists h am, atomic_run {| at_object := s; at_clients := cs |} h am /\ simulates m am /\
    legal_history s h (at_object am).
Proof.
  intros Hal Hsteps.
  destruct (steps_simulated _ _ _ _ [] (simulates_start s cs) (atomic_nil _) Hsteps) as (h & am & Hrun & Hsim).
  exists h, am. destruct (allowed_run _ _ _ _ Hal Hrun) as [_ Hleg]. done.
Qed.

Lemma forallb_exists_false {B} (f : B -> bool) l : forallb f l = false -> exists x, x ∈ l /\ f x = false.
Proof.
  induction l as [|x l IH]; [done|]. cbn. destruct (f x) eqn:Hx; intros Hl.
  - destruct (IH Hl) as (y & Hy & Hf). exists y. split; [by apply list_elem_of_further|done].
  - exists x. split; [apply list_elem_of_here|done].
Qed.

(** A client is waiting, or all have returned. *)
Lemma unfinished_call (m : Machine O A) am :
  simulates m am -> latch m = None -> finished m = false ->
  exists i op k, threads m !! i = Some (Outside (Do op k)).
Proof.
  intros Hsim Hl Hfin. destruct (simulates_outside _ _ Hsim Hl) as [_ Hth].
  destruct (forallb_exists_false outside_returned (threads m)) as (t & Hin & Ht); [done|].
  apply list_elem_of_lookup in Hin as [i Hi]. exists i. rewrite Hth, list_lookup_fmap in Hi |- *.
  apply fmap_Some in Hi as (c & Hc & ->). rewrite Hc. destruct c as [a|op k]; [done|]. by exists op, k.
Qed.

(** Every execution completes every call: no deadlock, no endless run. *)
Lemma latch_completes n : forall (m : Machine O A) am,
  simulates m am -> allowed n am -> inevitable step (fun m => finished m = true) m.
Proof.
  induction n as [n IH] using lt_wf_ind. intros m am Hsim Hal.
  assert (Hinside : forall m i op c k, simulates m am -> threads m !! i = Some (Inside op c k) ->
    inevitable step (fun m => finished m = true) m).
  { intros m0 i op c k Hs Hi. eapply inside_completes; [done|done| |].
    - eapply allowed_no_abort; [done|]. rewrite (sim_clients _ _ Hs), list_lookup_fmap, Hi. done.
    - intros m' ev am' Hat Hs' _. destruct (allowed_step _ _ _ _ _ Hal Hat) as (n' & -> & Hal' & _).
      eapply (IH n'); [lia|done|done]. }
  destruct (latch m) as [i|] eqn:Hl.
  { pose proof (sim_owner _ _ Hsim) as Hown. unfold matches_owner in Hown. rewrite Hl in Hown.
    destruct (threads m !! i) as [[c|op c k]|] eqn:Hi; [done| |done]. by eapply Hinside. }
  destruct (finished m) eqn:Hfin; [by apply now|].
  destruct (unfinished_call _ _ Hsim Hl Hfin) as (i & op & k & Hi). apply later.
  { eexists _, i. unfold thread_step. by rewrite Hi, Hl. }
  intros m' [j Hj]. destruct (thread_step_cases _ _ _ Hj)
    as [op' k' Hj' _ ->|op' access rest k' Hj' _|op' a k' Hj' _ _].
  - eapply Hinside; [by apply enter_simulated|]. apply list_lookup_insert_eq. by eapply lookup_lt_Some.
  - destruct (matches_inside _ _ _ _ _ _ Hsim Hj'). congruence.
  - destruct (matches_inside _ _ _ _ _ _ Hsim Hj'). congruence.
Qed.
End specified.
