(* ===== verification/LockOrder.v ===== *)
(** * LockOrder: programs that hold several latches

    A catalog method holds the catalog's latch while it calls engines that take
    theirs, and calls catalog methods that take the catalog's again.  Here a program
    is a sequence of accesses and of latch operations; latches have a rank.  Programs
    that take their latches in the order of the ranks, whatever they compute, can
    not block each other for ever. *)
From S2P Require Import Prelude Utils Latch.

(** The latches of a program: whether a latch may be taken again by its holder
    ([std::recursive_mutex]), and the order in which latches nest. *)
Class Latches (L : Type) := {
  latch_dec :: EqDecision L;
  recursive : L -> bool;
  rank : L -> nat;
}.

Inductive Prog (L S A : Type) :=
  | Return (a : A)
  | Abort
  | Access (f : S -> S) (k : S -> Prog L S A)
  | Lock (l : L) (k : Prog L S A)
  | Unlock (l : L) (k : Prog L S A).
Arguments Return {L S A}.
Arguments Abort {L S A}.
Arguments Access {L S A}.
Arguments Lock {L S A}.
Arguments Unlock {L S A}.

Section programs.
Context {L S : Type} `{!Latches L}.

Fixpoint bindP {A B} (p : Prog L S A) (k : A -> Prog L S B) : Prog L S B :=
  match p with
  | Return a => k a
  | Abort => Abort
  | Access f rest => Access f (fun s => bindP (rest s) k)
  | Lock l rest => Lock l (bindP rest k)
  | Unlock l rest => Unlock l (bindP rest k)
  end.

(** [std::scoped_lock guard{l};] at the head of a block. *)
Definition locked {A} (l : L) (p : Prog L S A) : Prog L S A :=
  Lock l (bindP p (fun a => Unlock l (Return a))).

(** One access; a fault ends the process. *)
Definition actP {A} (m : M S A) : Prog L S (Result A) :=
  Access (fun s => (m s).2) (fun s => match (m s).1 with Fault => Abort | r => Return r end).
(** [auto x = p; if (!x) return x.error();] *)
Definition bindRP {A B} (p : Prog L S (Result A)) (k : A -> Prog L S (Result B)) : Prog L S (Result B) :=
  bindP p (fun r => match r with Ok a => k a | Err er => Return (Err er) | Fault => Abort end).
(** A computation that accesses nothing. *)
Definition pureP {A} (r : Result A) : Prog L S (Result A) :=
  match r with Fault => Abort | r => Return r end.

(** ** Taking latches in order *)

(** [l] may be taken by a thread that holds [held]. *)
Definition lock_ok (held : list L) (l : L) : Prop :=
  l ∈ held /\ recursive l = true \/ Forall (fun h => (rank h < rank l)%nat) held.

(** From [h], the program takes latches in order and ends with [h']. *)
Fixpoint ordered {A} (h : list L) (p : Prog L S A) (h' : list L) : Prop :=
  match p with
  | Return _ => h = h'
  | Abort => True
  | Access _ k => forall s, ordered h (k s) h'
  | Lock l k => lock_ok h l /\ ordered (l :: h) k h'
  | Unlock l k => exists h1, h = l :: h1 /\ ordered h1 k h'
  end.

Lemma ordered_bind {A B} (p : Prog L S A) (k : A -> Prog L S B) h h1 h2 :
  ordered h p h1 -> (forall a, ordered h1 (k a) h2) -> ordered h (bindP p k) h2.
Proof.
  intros Hp Hk. revert h Hp. induction p as [a| |f rest IH|l rest IH|l rest IH]; intros h Hp; cbn in *.
  - by subst.
  - done.
  - intros s. by apply IH.
  - destruct Hp as [Hl Hp]. split; [done|]. by apply IH.
  - destruct Hp as (h0 & -> & Hp). exists h0. split; [done|]. by apply IH.
Qed.
Lemma ordered_locked {A} l (p : Prog L S A) h :
  lock_ok h l -> ordered (l :: h) p (l :: h) -> ordered h (locked l p) h.
Proof. intros Hl Hp. split; [done|]. eapply ordered_bind; [done|]. intros a. by exists h. Qed.
Lemma ordered_act {A} (m : M S A) h : ordered h (actP m) h.
Proof. intros s. by destruct (m s) as [[a|er|] s']. Qed.
Lemma ordered_pure {A} (r : Result A) h : ordered h (pureP r) h.
Proof. by destruct r. Qed.
Lemma ordered_bindR {A B} (p : Prog L S (Result A)) (k : A -> Prog L S (Result B)) h :
  ordered h p h -> (forall a, ordered h (k a) h) -> ordered h (bindRP p k) h.
Proof. intros Hp Hk. eapply ordered_bind; [done|]. intros [a|er|]; [apply Hk|done|done]. Qed.

(** The program run by one thread alone. *)
Fixpoint runP {A} (p : Prog L S A) (s : S) : option A * S :=
  match p with
  | Return a => (Some a, s)
  | Abort => (None, s)
  | Access f k => runP (k s) (f s)
  | Lock _ k => runP k s
  | Unlock _ k => runP k s
  end.

(** ** The threads *)

Record LThread (A : Type) := { prog : Prog L S A; held : list L }.
Record LMachine (A : Type) := { l_shared : S; l_threads : list (LThread A) }.
End programs.
Arguments prog {L S A}.
Arguments held {L S A}.
Arguments Build_LThread {L S A}.
Arguments l_shared {L S A}.
Arguments l_threads {L S A}.
Arguments Build_LMachine {L S A}.

Notation "'prog*' x ':=' m 'in' k" := (bindRP m (fun x => k))
  (at level 10, x name, m at level 100, k at level 200,
   format "'[v' 'prog*'  x  ':='  m  'in' '/' k ']'") : edb_scope.

Create HintDb locks.
#[export] Hint Resolve ordered_act ordered_pure ordered_bindR ordered_locked : locks.

Section machine.
Context {L S A : Type} `{!Latches L}.
#[local] Abbreviation LThread := (LThread (L := L) (S := S) A).
#[local] Abbreviation LMachine := (LMachine (L := L) (S := S) A).

(** Another thread than [i] holds [l]. *)
Definition held_elsewhere (l : L) (i : nat) (ts : list LThread) : bool :=
  existsb (fun jt : nat * LThread => negb (jt.1 =? i)%nat && bool_decide (l ∈ held jt.2))
    (zip (seq 0 (length ts)) ts).
(** Taking a latch blocks while another thread holds it; taking one again that is
    not recursive blocks for ever. *)
Definition may_lock (l : L) (i : nat) (h : list L) (ts : list LThread) : bool :=
  negb (held_elsewhere l i ts) && (negb (bool_decide (l ∈ h)) || recursive l).

Definition l_step_thread (i : nat) (m : LMachine) : option LMachine :=
  match l_threads m !! i with
  | Some {| prog := Access f k; held := h |} =>
      Some {| l_shared := f (l_shared m);
              l_threads := <[i := {| prog := k (l_shared m); held := h |}]> (l_threads m) |}
  | Some {| prog := Lock l k; held := h |} =>
      if may_lock l i h (l_threads m)
      then Some {| l_shared := l_shared m;
                   l_threads := <[i := {| prog := k; held := l :: h |}]> (l_threads m) |}
      else None
  | Some {| prog := Unlock l k; held := h |} =>
      match h with
      | l' :: h' =>
          if decide (l' = l)
          then Some {| l_shared := l_shared m;
                       l_threads := <[i := {| prog := k; held := h' |}]> (l_threads m) |}
          else None
      | [] => None
      end
  | _ => None
  end.
Definition l_step (m m' : LMachine) : Prop := exists i, l_step_thread i m = Some m'.

Definition l_start (s : S) (ps : list (Prog L S A)) : LMachine :=
  {| l_shared := s; l_threads := (fun p => {| prog := p; held := [] |}) <$> ps |}.
Definition l_returned (t : LThread) : bool := match prog t with Return _ => true | _ => false end.
Definition l_aborts (t : LThread) : bool := match prog t with Abort => true | _ => false end.
(** All threads have returned, or one has ended the process. *)
Definition l_over (m : LMachine) : bool :=
  forallb l_returned (l_threads m) || existsb l_aborts (l_threads m).

Record l_inv (m : LMachine) : Prop := {
  li_ordered i t : l_threads m !! i = Some t -> ordered (held t) (prog t) [];
  li_apart i j t u l : l_threads m !! i = Some t -> l_threads m !! j = Some u ->
    l ∈ held t -> l ∈ held u -> i = j;
}.

Lemma held_elsewhere_spec l i ts :
  held_elsewhere l i ts = true <-> exists j t, ts !! j = Some t /\ j <> i /\ l ∈ held t.
Proof.
  unfold held_elsewhere. rewrite existsb_exists. split.
  - intros ([j t] & Hin & [Hne Hl]%andb_true_iff). apply list_elem_of_In, list_elem_of_lookup in Hin as [k Hk].
    apply lookup_zip_with_Some in Hk as (j' & t' & [= -> ->] & Hj & Ht). apply lookup_seq in Hj as [-> _].
    cbn in *. exists k, t'. apply bool_decide_eq_true in Hl. apply negb_true_iff, Nat.eqb_neq in Hne. done.
  - intros (j & t & Hj & Hne & Hl). exists (j, t). split.
    + apply list_elem_of_In, list_elem_of_lookup. exists j. apply lookup_zip_with_Some.
      exists j, t. split_and!; [done| |done]. apply lookup_seq. apply lookup_lt_Some in Hj. done.
    + cbn. apply andb_true_iff. split; [by apply negb_true_iff, Nat.eqb_neq|by apply bool_decide_eq_true].
Qed.

Lemma may_lock_spec l i h ts :
  may_lock l i h ts = true <->
  (forall j t, ts !! j = Some t -> j <> i -> l ∉ held t) /\ (l ∈ h -> recursive l = true).
Proof.
  unfold may_lock. rewrite andb_true_iff, negb_true_iff, orb_true_iff, negb_true_iff, bool_decide_eq_false.
  rewrite <- not_true_iff_false, held_elsewhere_spec. split.
  - intros [Hno Hr]. split; [intros j t Hj Hne Hl; apply Hno; eauto|]. intros Hl. by destruct Hr.
  - intros [Hno Hr]. split; [intros (j & t & Hj & Hne & Hl); by eapply Hno|].
    destruct (decide (l ∈ h)); [right; auto|by left].
Qed.

(** ** Order and exclusion are kept *)

Lemma l_inv_update (m : LMachine) i t t' s :
  l_inv m -> l_threads m !! i = Some t -> ordered (held t') (prog t') [] ->
  (forall l, l ∈ held t' -> l ∈ held t \/ forall j u, l_threads m !! j = Some u -> j <> i -> l ∉ held u) ->
  l_inv {| l_shared := s; l_threads := <[i := t']> (l_threads m) |}.
Proof.
  intros [Ho Ha] Hi Ho' Hheld. split; cbn.
  - intros j u Hj. apply list_lookup_insert_Some in Hj as [(<- & <- & _)|[_ Hj]]; [done|by eapply Ho].
  - intros j j' u u' l Hj Hj' Hu Hu'.
    apply list_lookup_insert_Some in Hj as [(<- & <- & _)|[Hne Hj]];
      apply list_lookup_insert_Some in Hj' as [(<- & <- & _)|[Hne' Hj']]; [done| | |by eapply Ha].
    + destruct (Hheld l Hu) as [Hl|Hl]; [by eapply Ha|]. by destruct (Hl j' u' Hj' (not_eq_sym Hne')).
    + destruct (Hheld l Hu') as [Hl|Hl]; [by eapply Ha|]. by destruct (Hl j u Hj (not_eq_sym Hne)).
Qed.

Lemma l_step_inv m m' : l_inv m -> l_step m m' -> l_inv m'.
Proof.
  intros Hinv [i Hi]. unfold l_step_thread in Hi.
  destruct (l_threads m !! i) as [[p h]|] eqn:Ht; [|done]. pose proof (li_ordered _ Hinv i _ Ht) as Ho. cbn in Ho.
  destruct p as [a| |f k|l k|l k]; try done.
  - injection Hi as <-. eapply l_inv_update; [done|done|apply Ho|]. cbn. auto.
  - destruct (may_lock l i h (l_threads m)) eqn:Hml; [|done]. injection Hi as <-.
    apply may_lock_spec in Hml as [Hfree _]. eapply l_inv_update; [done|done|apply Ho|]. cbn.
    intros l' [->|Hl']%elem_of_cons; [by right|by left].
  - destruct Ho as (h1 & -> & Ho). rewrite decide_True in Hi by done. injection Hi as <-.
    eapply l_inv_update; [done|done|done|]. cbn. intros l' Hl'. left. by apply list_elem_of_further.
Qed.

Lemma l_inv_start s ps : Forall (fun p => ordered [] p []) ps -> l_inv (l_start s ps).
Proof.
  intros Hps. split; cbn.
  - intros i t Hi. apply list_lookup_fmap_Some in Hi as (p & -> & Hp). cbn.
    by apply (Forall_lookup_1 _ _ _ _ Hps Hp).
  - intros i j t u l Hi _ Hl. apply list_lookup_fmap_Some in Hi as (p & -> & _). by apply elem_of_nil in Hl.
Qed.

(** ** No deadlock *)

(** Thread [i] waits for [l], which another thread holds. *)
Definition waits (m : LMachine) (i : nat) (l : L) : Prop :=
  exists t k, l_threads m !! i = Some t /\ prog t = Lock l k /\ Forall (fun h => (rank h < rank l)%nat) (held t) /\
    exists j u, l_threads m !! j = Some u /\ l ∈ held u.

Definition stuck (m : LMachine) : Prop := forall i, l_step_thread i m = None.

(** In a state where nobody moves, who has not returned waits for somebody. *)
Lemma stuck_waits m i t :
  l_inv m -> stuck m -> existsb l_aborts (l_threads m) = false -> l_threads m !! i = Some t ->
  l_returned t = false -> exists l, waits m i l.
Proof.
  intros Hinv Hst Hab Hi Hr. pose proof (li_ordered _ Hinv i t Hi) as Ho. specialize (Hst i).
  unfold l_step_thread in Hst. rewrite Hi in Hst. destruct t as [p h]. cbn in Ho.
  destruct p as [a| |f k|l k|l k]; [done| |done| |].
  - exfalso. rewrite <- not_true_iff_false, existsb_exists in Hab. apply Hab.
    exists {| prog := Abort; held := h |}. split; [|done]. apply list_elem_of_In. by eapply list_elem_of_lookup_2.
  - destruct (may_lock l i h (l_threads m)) eqn:Hml; [done|]. exists l. destruct Ho as [Hlock _].
    assert (Hrec : l ∈ h -> recursive l = true).
    { intros Hl. destruct Hlock as [[_ ?]|Hlt]; [done|]. rewrite Forall_forall in Hlt. specialize (Hlt l Hl). lia. }
    assert (Hels : held_elsewhere l i (l_threads m) = true).
    { unfold may_lock in Hml. destruct (held_elsewhere l i (l_threads m)); [done|]. cbn in Hml.
      destruct (decide (l ∈ h)) as [Hl|Hl]; [|by rewrite bool_decide_eq_false_2 in Hml].
      by rewrite (Hrec Hl), orb_true_r in Hml. }
    apply held_elsewhere_spec in Hels as (j & u & Hj & Hne & Hl). eexists _, k. split; [done|]. split; [done|].
    split; [|by exists j, u]. destruct Hlock as [[Hl' _]|Hlt]; [|done].
    by destruct (Hne (li_apart _ Hinv j i u _ l Hj Hi Hl Hl')).
  - destruct Ho as (h1 & -> & _). by rewrite decide_True in Hst.
Qed.

(** Who waits for a latch waits for a thread that waits for a later one. *)
Lemma waits_chain m i l :
  l_inv m -> stuck m -> existsb l_aborts (l_threads m) = false -> waits m i l ->
  exists j l', waits m j l' /\ (rank l < rank l')%nat.
Proof.
  intros Hinv Hst Hab (_ & _ & _ & _ & _ & j & u & Hj & Hl).
  assert (Hr : l_returned u = false).
  { pose proof (li_ordered _ Hinv j u Hj) as Ho. unfold l_returned. destruct (prog u); try done.
    cbn in Ho. rewrite Ho in Hl. by apply elem_of_nil in Hl. }
  destruct (stuck_waits m j u Hinv Hst Hab Hj Hr) as [l' Hw]. exists j, l'. split; [done|].
  destruct Hw as (u' & k & Hj' & _ & Hlt & _). rewrite Hj in Hj'. injection Hj' as <-.
  rewrite Forall_forall in Hlt. by apply Hlt.
Qed.

Definition waited_rank (t : LThread) : nat := match prog t with Lock l _ => rank l | _ => 0%nat end.

Lemma waits_bounded m i l : waits m i l -> (rank l <= max_list (waited_rank <$> l_threads m))%nat.
Proof.
  intros (t & k & Hi & Hp & _). apply max_list_elem_of_le, list_elem_of_fmap. exists t.
  split; [unfold waited_rank; by rewrite Hp|by eapply list_elem_of_lookup_2].
Qed.

Lemma stuck_over m : l_inv m -> stuck m -> l_over m = true.
Proof.
  intros Hinv Hst. unfold l_over. destruct (existsb l_aborts (l_threads m)) eqn:Hab; [by rewrite orb_true_r|].
  rewrite orb_false_r. destruct (forallb l_returned (l_threads m)) eqn:Hret; [done|exfalso].
  destruct (forallb_exists_false _ _ Hret) as (t & [i Hi]%list_elem_of_lookup & Ht).
  destruct (stuck_waits m i t Hinv Hst Hab Hi Ht) as [l Hw].
  assert (Hall : forall n, exists j l', waits m j l' /\ (n <= rank l')%nat).
  { induction n as [|n (j & l' & Hw' & Hn)]; [exists i, l; split; [done|lia]|].
    destruct (waits_chain m j l' Hinv Hst Hab Hw') as (j2 & l2 & Hw2 & Hlt). exists j2, l2. split; [done|lia]. }
  destruct (Hall (Datatypes.S (max_list (waited_rank <$> l_threads m)))) as (j & l' & Hw' & Hn).
  pose proof (waits_bounded m j l' Hw'). lia.
Qed.

Definition steps_now (m : LMachine) (i : nat) : bool := match l_step_thread i m with Some _ => true | None => false end.

Lemma stuck_or_steps m : stuck m \/ exists m', l_step m m'.
Proof.
  destruct (existsb (steps_now m) (seq 0 (length (l_threads m)))) eqn:Hex.
  - right. apply existsb_exists in Hex as (i & _ & Hi). unfold steps_now in Hi.
    destruct (l_step_thread i m) as [m'|] eqn:Hm; [|done]. by exists m', i.
  - left. intros i. destruct (l_step_thread i m) as [m'|] eqn:Hm; [exfalso|done].
    rewrite <- not_true_iff_false, existsb_exists in Hex. apply Hex. exists i. unfold steps_now. rewrite Hm.
    split; [|done]. unfold l_step_thread in Hm. destruct (l_threads m !! i) eqn:Hi; [|done].
    apply lookup_lt_Some in Hi. apply in_seq. lia.
Qed.

(** ** Every execution is finite *)

(** One thread goes on to a part of its program. *)
Inductive child : Prog L S A -> Prog L S A -> Prop :=
  | child_access f k s : child (k s) (Access f k)
  | child_lock l k : child k (Lock l k)
  | child_unlock l k : child k (Unlock l k).

Lemma child_wf p : Acc child p.
Proof. induction p; constructor; intros q Hq; inversion Hq; subst; auto. Qed.

Inductive one_child : list (Prog L S A) -> list (Prog L S A) -> Prop :=
  | child_here q p ps : child q p -> one_child (q :: ps) (p :: ps)
  | child_there p qs ps : one_child qs ps -> one_child (p :: qs) (p :: ps).

Lemma one_child_wf ps : Acc one_child ps.
Proof.
  induction ps as [|p ps IH]; [constructor; intros qs Hq; inversion Hq|].
  revert p. induction IH as [ps _ IHps]. intros p. induction (child_wf p) as [p _ IHp].
  constructor. intros qs Hq. inversion Hq as [q p' ps' Hc|p' qs' ps' Hc]; subst; [by apply IHp|by apply IHps].
Qed.

Lemma one_child_insert ps i p q : ps !! i = Some p -> child q p -> one_child (<[i := q]> ps) ps.
Proof.
  revert i. induction ps as [|p0 ps IH]; intros [|i] Hi Hc; [done|done| |].
  - injection Hi as <-. by constructor.
  - apply child_there. by apply IH.
Qed.

Lemma l_step_child m m' : l_step m m' -> one_child (prog <$> l_threads m') (prog <$> l_threads m).
Proof.
  intros [i Hi]. unfold l_step_thread in Hi. destruct (l_threads m !! i) as [[p h]|] eqn:Ht; [|done].
  assert (Hp : (prog <$> l_threads m) !! i = Some p) by (by rewrite list_lookup_fmap, Ht).
  assert (Hc : exists t s, m' = {| l_shared := s; l_threads := <[i := t]> (l_threads m) |} /\ child (prog t) p).
  { destruct p as [a| |f k|l k|l k]; try done.
    - injection Hi as <-. eexists _, _. split; [done|]. constructor.
    - destruct (may_lock l i h (l_threads m)); [|done]. injection Hi as <-. eexists _, _. split; [done|]. constructor.
    - destruct h as [|l' h']; [done|]. case_decide; [|done]. injection Hi as <-. eexists _, _. split; [done|]. constructor. }
  destruct Hc as (t & s & -> & Hc). cbn. rewrite list_fmap_insert. by eapply one_child_insert.
Qed.

(** Programs that take latches in order complete, on every execution. *)
Lemma ordered_completes m : l_inv m -> inevitable l_step (fun m => l_over m = true) m.
Proof.
  remember (prog <$> l_threads m) as ps eqn:Hps. revert m Hps.
  induction (one_child_wf ps) as [ps _ IH]. intros m -> Hinv.
  destruct (stuck_or_steps m) as [Hst|Hsteps]; [by apply now, stuck_over|].
  apply later; [done|]. intros m' Hstep. eapply IH; [by apply l_step_child|done|by eapply l_step_inv].
Qed.
End machine.

(** ** Schedules *)

(** The threads named by [sched], one step each; a blocked thread is passed over. *)
Fixpoint l_schedule {L S A : Type} `{!Latches L} (sched : list nat) (m : LMachine (L := L) (S := S) A) :
    LMachine (L := L) (S := S) A :=
  match sched with
  | [] => m
  | i :: sched => l_schedule sched (default m (l_step_thread i m))
  end.
Definition l_result {L S A : Type} (m : LMachine (L := L) (S := S) A) (i : nat) : option A :=
  match l_threads m !! i with Some {| prog := Return a |} => Some a | _ => None end.

(** Two latches taken in opposite orders: both threads wait for ever. *)
#[local] Instance two_latches : Latches bool := {| latch_dec := bool_eq_dec; recursive := fun _ => false; rank := fun b => if b then 1%nat else 0%nat |}.
Example opposite_orders_deadlock :
  let inner (l : bool) : Prog bool unit nat := locked l (Return 0%nat) in
  let m := l_schedule [0; 1; 0; 1; 0; 1]%nat (l_start tt [locked false (inner true); locked true (inner false)]) in
  l_over m = false /\ l_step_thread 0 m = None /\ l_step_thread 1 m = None.
Proof. by vm_compute. Qed.
