(* ===== verification/LockBlocks.v ===== *)
(** * LockBlocks: a block under one outer latch is one step

    The latches of [LockOrder] nest: a catalog method holds the catalog's latch from
    its first access to its last, takes it again in the methods it calls, and takes
    and releases engine latches below it.  When threads touch what they share only
    inside such blocks of one latch, an execution is a sequence of whole blocks,
    whatever the interleaving of the accesses and latch operations inside them. *)
From S2P Require Import Prelude Utils Latch LockOrder.

Section blocks.
Context {L S : Type} `{!Latches L} (outer : L).

(** Run a thread that holds [h] until it has released [outer] for the last time:
    the program left, what it holds then, and the state. *)
Fixpoint finish {A} (p : Prog L S A) (h : list L) (s : S) : (Prog L S A * list L) * S :=
  match p with
  | Return a => ((Return a, h), s)
  | Abort => ((Abort, []), s)
  | Access f k => finish (k s) h (f s)
  | Lock l k => finish k (l :: h) s
  | Unlock l k => if bool_decide (outer ∈ tail h) then finish k (tail h) s else ((k, tail h), s)
  end.

(** Holding [h] of its own, [p] releases only latches it has taken and ends with [h']. *)
Fixpoint keeps {A} (h : list L) (p : Prog L S A) (h' : list L) : Prop :=
  match p with
  | Return _ => h = h'
  | Abort => True
  | Access _ k => forall s, keeps h (k s) h'
  | Lock l k => keeps (l :: h) k h'
  | Unlock l k => exists h1, h = l :: h1 /\ keeps h1 k h'
  end.
Definition nested {A} (p : Prog L S A) : Prop := keeps [] p [].

Lemma runP_bind {A B} (p : Prog L S A) (k : A -> Prog L S B) s :
  runP (bindP p k) s = match runP p s with (Some a, s') => runP (k a) s' | (None, s') => (None, s') end.
Proof. revert s. induction p as [a| |f rest IH|l rest IH|l rest IH]; intros s; cbn; auto. Qed.
Lemma runP_locked {A} l (p : Prog L S A) s : runP (locked l p) s = runP p s.
Proof. cbn. rewrite runP_bind. by destruct (runP p s) as [[a|] s']. Qed.

Lemma keeps_bind {A B} (p : Prog L S A) (k : A -> Prog L S B) h h1 h2 :
  keeps h p h1 -> (forall a, keeps h1 (k a) h2) -> keeps h (bindP p k) h2.
Proof.
  intros Hp Hk. revert h Hp. induction p as [a| |f rest IH|l rest IH|l rest IH]; intros h Hp; cbn in *; auto.
  - by subst.
  - destruct Hp as (h0 & -> & Hp). eauto.
Qed.
(** What a program does on its own it does above what its caller holds. *)
Lemma keeps_above {A} (p : Prog L S A) h h' base : keeps h p h' -> keeps (h ++ base) p (h' ++ base).
Proof.
  revert h. induction p as [a| |f rest IH|l rest IH|l rest IH]; intros h Hp; cbn in *; auto.
  - by subst.
  - by apply (IH (l :: h)).
  - destruct Hp as (h0 & -> & Hp). exists (h0 ++ base). auto.
Qed.

Lemma nested_act {A} (m : M S A) : nested (actP m).
Proof. intros s. by destruct (m s) as [[a|er|] s']. Qed.
Lemma nested_pure {A} (r : Result A) : nested (pureP r).
Proof. by destruct r. Qed.
Lemma nested_bind {A B} (p : Prog L S A) (k : A -> Prog L S B) :
  nested p -> (forall a, nested (k a)) -> nested (bindP p k).
Proof. apply keeps_bind. Qed.
Lemma nested_bindR {A B} (p : Prog L S (Result A)) (k : A -> Prog L S (Result B)) :
  nested p -> (forall a, nested (k a)) -> nested (bindRP p k).
Proof. intros Hp Hk. apply nested_bind; [done|]. intros [a|er|]; [apply Hk|done|done]. Qed.
Lemma nested_locked {A} l (p : Prog L S A) : nested p -> nested (locked l p).
Proof.
  intros Hp. cbn. eapply keeps_bind; [exact (keeps_above p [] [] [l] Hp)|]. intros a. by exists [].
Qed.

(** A whole block, from the latch to the latch. *)
Lemma finish_above {A B} (p : Prog L S A) (k : A -> Prog L S B) h s :
  keeps h p [] ->
  finish (bindP (bindP p (fun a => Unlock outer (Return a))) k) (h ++ [outer]) s =
    match runP p s with (Some a, s') => ((k a, []), s') | (None, s') => ((Abort, []), s') end.
Proof.
  revert h s. induction p as [a| |f rest IH|l rest IH|l rest IH]; intros h s Hp; cbn in *; auto.
  - subst. cbn. by rewrite bool_decide_eq_false_2 by apply not_elem_of_nil.
  - by apply (IH (l :: h)).
  - destruct Hp as (h0 & -> & Hp). cbn. rewrite bool_decide_eq_true_2 by set_solver. auto.
Qed.
Lemma finish_block {A B} (p : Prog L S A) (k : A -> Prog L S B) s :
  nested p ->
  finish (bindP (bindP p (fun a => Unlock outer (Return a))) k) [outer] s =
    match runP p s with (Some a, s') => ((k a, []), s') | (None, s') => ((Abort, []), s') end.
Proof. intros Hp. exact (finish_above p k [] s Hp). Qed.

(** ** Executions are sequences of blocks *)

Section machine.
Context {A : Type}.
#[local] Abbreviation Prog := (Prog L S A).
#[local] Abbreviation LMachine := (LMachine (L := L) (S := S) A).

(** One thread runs one block. *)
Inductive block_step : S * list Prog -> S * list Prog -> Prop :=
  | block s ps i k p' s' :
      ps !! i = Some (Lock outer k) -> finish k [outer] s = ((p', []), s') ->
      block_step (s, ps) (s', <[i := p']> ps).

(** Between blocks a thread has returned, ended the process or wants the latch. *)
Definition between (p : Prog) : Prop :=
  match p with Return _ | Abort => True | Lock l _ => l = outer | _ => False end.

(** Programs that consist of blocks. *)
Context (blocky : Prog -> Prop).
Context (blocky_between : forall p, blocky p -> between p).
Context (blocky_finish : forall k s, blocky (Lock outer k) ->
  exists p' s', finish k [outer] s = ((p', []), s') /\ blocky p').

(** A thread is where the serial execution has it, or inside a block that the
    serial execution has already run. *)
Definition thread_sim (s : S) (t : LThread A) (p : Prog) (s' : S) : Prop :=
  held t = [] /\ prog t = p \/ outer ∈ held t /\ finish (prog t) (held t) s = ((p, []), s').

Record sim (m : LMachine) (am : S * list Prog) : Prop := {
  si_threads : Forall2 (fun t p => thread_sim (l_shared m) t p am.1) (l_threads m) am.2;
  si_state : (forall i t, l_threads m !! i = Some t -> held t = []) -> l_shared m = am.1;
  si_alone i j t u : l_threads m !! i = Some t -> l_threads m !! j = Some u ->
    outer ∈ held t -> outer ∈ held u -> i = j;
  si_blocky : Forall blocky am.2;
}.

Lemma sim_start s ps : Forall blocky ps -> sim (l_start s ps) (s, ps).
Proof.
  intros Hps. split; cbn; [|done| |done].
  - apply Forall2_fmap_l, Forall_Forall2_diag, Forall_forall. intros p _. by left.
  - intros i j t u Hi _ Ho. apply list_lookup_fmap_Some in Hi as (p & -> & _). by apply not_elem_of_nil in Ho.
Qed.

(** What a step of thread [i] must show; the other threads are outside. *)
Lemma sim_update (m : LMachine) am i t' s s' p' :
  sim m am ->
  (forall j u, l_threads m !! j = Some u -> j <> i -> held u = []) ->
  (i < length (l_threads m))%nat -> thread_sim s t' p' s' -> (held t' = [] -> s = s') -> blocky p' ->
  sim {| l_shared := s; l_threads := <[i := t']> (l_threads m) |} (s', <[i := p']> am.2).
Proof.
  intros [Hth _ _ Hbl] Hothers Hi Ht Hstate Hp'. pose proof (Forall2_length _ _ _ Hth) as Hlen.
  split; cbn [l_shared l_threads fst snd].
  - apply Forall2_same_length_lookup_2; [by rewrite !length_insert|]. intros j u q Hu Hq.
    apply list_lookup_insert_Some in Hu as [(<- & <- & _)|[Hne Hu]].
    + rewrite list_lookup_insert_eq in Hq by lia. by injection Hq as <-.
    + rewrite list_lookup_insert_ne in Hq by done. left. split; [by eapply Hothers|].
      destruct (Forall2_lookup_lr _ _ _ _ _ _ Hth Hu Hq) as [[_ Hq']|[Ho _]]; [done|].
      rewrite (Hothers j u) in Ho by done. by apply not_elem_of_nil in Ho.
  - intros Hall. apply Hstate, (Hall i). by apply list_lookup_insert_eq.
  - intros j j' u u' Hj Hj' Hu Hu'.
    assert (Honly : forall j u, <[i := t']> (l_threads m) !! j = Some u -> outer ∈ held u -> j = i).
    { intros k v Hk Hv. apply list_lookup_insert_Some in Hk as [(<- & _)|[Hne Hk]]; [done|].
      rewrite (Hothers k v) in Hv by done. by apply not_elem_of_nil in Hv. }
    by rewrite (Honly j u), (Honly j' u').
  - by apply Forall_insert.
Qed.

Lemma sim_step (m m' : LMachine) am :
  sim m am -> l_step m m' -> sim m' am \/ exists am', block_step am am' /\ sim m' am'.
Proof.
  intros Hsim [i Hstep]. unfold l_step_thread in Hstep.
  destruct (l_threads m !! i) as [[q h]|] eqn:Hi; [|done].
  destruct (Forall2_lookup_l _ _ _ _ _ (si_threads _ _ Hsim) Hi) as (p & Hp & Hcase).
  assert (Hlt : (i < length (l_threads m))%nat) by (by eapply lookup_lt_Some).
  assert (Hbp : blocky p) by (by eapply (Forall_lookup_1 _ _ _ _ (si_blocky _ _ Hsim))).
  assert (Hsame : (am.1, <[i := p]> am.2) = am) by (rewrite list_insert_id by done; by destruct am).
  destruct Hcase as [[Hh Hq]|[Ho Hf]]; cbn [held prog] in *.
  - subst q h. pose proof (blocky_between p Hbp) as Hb. destruct p as [a| |f k|l k|l k]; try done.
    cbn in Hb. subst l. destruct (may_lock outer i [] (l_threads m)) eqn:Hmay; [|done]. injection Hstep as <-.
    apply may_lock_spec in Hmay as [Hfree _].
    assert (Hothers : forall j u, l_threads m !! j = Some u -> j <> i -> held u = []).
    { intros j u Hj Hne. destruct (Forall2_lookup_l _ _ _ _ _ (si_threads _ _ Hsim) Hj) as (pj & _ & [[Hu _]|[Hu _]]);
        [done|]. by destruct (Hfree j u Hj Hne). }
    assert (Hs : l_shared m = am.1).
    { apply (si_state _ _ Hsim). intros j u Hj. destruct (decide (j = i)) as [->|Hne]; [|by eapply Hothers].
      rewrite Hi in Hj. by injection Hj as <-. }
    destruct (blocky_finish k (l_shared m) Hbp) as (p' & s' & Hfin & Hp').
    right. exists (s', <[i := p']> am.2). split.
    + rewrite Hs in Hfin. destruct am as [s0 ps]. by eapply block.
    + apply sim_update; try done. right. cbn. split; [apply list_elem_of_here|done].
  - left. assert (Hothers : forall j u, l_threads m !! j = Some u -> j <> i -> held u = []).
    { intros j u Hj Hne. destruct (Forall2_lookup_l _ _ _ _ _ (si_threads _ _ Hsim) Hj) as (pj & _ & [[Hu _]|[Hu _]]);
        [done|]. by destruct Hne; eapply (si_alone _ _ Hsim); eauto. }
    rewrite <- Hsame. destruct q as [a| |f k|l k|l k]; try done.
    + injection Hstep as <-. apply sim_update; try done; [by right|]. cbn. intros ->. by apply not_elem_of_nil in Ho.
    + destruct (may_lock l i h (l_threads m)); [|done]. injection Hstep as <-.
      apply sim_update; try done. right. cbn. split; [by apply list_elem_of_further|done].
    + destruct h as [|l' h']; [done|]. destruct (decide (l' = l)); [|done]. injection Hstep as <-.
      cbn [finish tail] in Hf. destruct (bool_decide_reflect (outer ∈ h')) as [Hin|Hout].
      * apply sim_update; try done; [by right|]. cbn. intros ->. by apply not_elem_of_nil in Hin.
      * injection Hf as -> -> Hs. apply sim_update; try done. by left.
Qed.

(** Every execution is a sequence of blocks. *)
Lemma blocks_serial s ps (m : LMachine) :
  Forall blocky ps -> rtc l_step (l_start s ps) m -> exists am, rtc block_step (s, ps) am /\ sim m am.
Proof.
  intros Hps Hsteps. pose proof (sim_start s ps Hps) as Hsim. revert Hsim. generalize (s, ps).
  induction Hsteps as [m|m1 m2 m3 Hstep _ IH]; intros am Hsim; [by exists am|].
  destruct (sim_step _ _ _ Hsim Hstep) as [Hsim'|(am' & Hb & Hsim')]; [by apply IH|].
  destruct (IH am' Hsim') as (am2 & Hrun & Hsim2). exists am2. split; [by eapply rtc_l|done].
Qed.
End machine.
End blocks.
