(* ===== verification/StorageIO.v ===== *)
(** * StorageIO: src/src/storage/io/io_ops.hpp

    The abstract I/O backend: its virtual operations as a class, the default
    implementations of the optional ones, and the contract ([StorageIOLaws])
    that the page store relies on.  A buffer argument that the callee fills is
    part of the operation's state, so a failed read still shows what it left in
    the caller's buffer.  [MemDev] is a scripted in-memory device: it meets the
    contract, it succeeds while its script of failures is empty, and it can fail
    half-way through a transfer, which is what a disk does. *)
From S2P Require Import Prelude Utils.

Record IOConfig := {
  ioc_page_size : Z;
  use_direct_io : bool;
  queue_depth : Z;
}.
Definition IOConfig_default : IOConfig :=
  {| ioc_page_size := 4096; use_direct_io := false; queue_depth := 1 |}.

Record IOVec := { iov_offset : Z; iov_buf : list byte }.

(** The pure virtual operations. *)
Class StorageIO (S : Type) := {
  io_open : option string -> IOConfig -> M S unit;
  io_close : M S unit;
  io_read : Z -> M (list byte * S) Z;
  io_write : Z -> list byte -> M S Z;
  io_sync : M S unit;
  io_datasync : M S unit;
  io_truncate : Z -> M S unit;
  io_file_size : M S Z;
}.

(** ** The default implementations *)

Section defaults.
Context {S : Type} `{StorageIO S}.

(** [readv]: a loop over [read]; [done] holds the vectors already filled. *)
Fixpoint readv_loop (todo done : list IOVec) (total : Z) : M S (Z * list IOVec) := fun s =>
  match todo with
  | [] => (Ok (total, done), s)
  | vec :: rest =>
      match io_read (iov_offset vec) (iov_buf vec, s) with
      | (Ok n, (buf, s')) =>
          readv_loop rest (done ++ [{| iov_offset := iov_offset vec; iov_buf := buf |}])
            (wrap64 (total + n)) s'
      | (Err e, (_, s')) => (Err e, s')
      | (Fault, (_, s')) => (Fault, s')
      end
  end.
Definition readv (iov : list IOVec) : M S (Z * list IOVec) := readv_loop iov [] 0.

Fixpoint writev_loop (iov : list IOVec) (total : Z) : M S Z :=
  match iov with
  | [] => retM total
  | vec :: rest =>
      let* n := io_write (iov_offset vec) (iov_buf vec) in
      writev_loop rest (wrap64 (total + n))
  end.
Definition writev (iov : list IOVec) : M S Z := writev_loop iov 0.

Definition mmap_default (offset len prot : Z) : M S Z :=
  let* _ := assertM (0 <? len) in
  errM NotSupported.

Definition munmap_default (addr len : Z) : M S unit :=
  let* _ := assertM (0 <? len) in
  errM NotSupported.

Definition sync_range_default (offset len : Z) : M S unit :=
  let* _ := assertM (0 <? len) in
  io_datasync.
End defaults.

(** ** The contract *)

(** What a read of [buf] at the head of [avail] leaves in the buffer. *)
Definition overlay (avail buf : list byte) : list byte :=
  take (length buf) avail ++ drop (length avail) buf.

Definition read_count (avail buf : list byte) : Z :=
  Z.of_nat (Nat.min (length buf) (length avail)).

(** [io_contents] is the abstraction: the bytes of the file or device.
    [io_good] is a state from which operations succeed (within [io_limit] bytes);
    a backend that can always fail takes it to be empty. *)
Class StorageIOLaws (S : Type) `{StorageIO S} := {
  io_contents : S -> list byte;
  io_good : S -> Prop;
  io_limit : Z;
  io_limit_bound : io_limit < 2 ^ 63;
  io_read_spec off buf s :
    buf <> [] -> 0 <= off <= Z.of_nat (length (io_contents s)) ->
    wp (io_read off)
      (post (fun n st =>
               let avail := drop (Z.to_nat off) (io_contents s) in
               io_contents st.2 = io_contents s /\
               n = read_count avail buf /\ st.1 = overlay avail buf /\
               (io_good s -> io_good st.2))
            (fun _ st => io_contents st.2 = io_contents s /\ length st.1 = length buf /\
               ~ io_good s))
      (buf, s);
  io_write_spec off buf s :
    buf <> [] -> 0 <= off -> off + Z.of_nat (length buf) <= Z.of_nat (length (io_contents s)) ->
    wp (io_write off buf)
      (post (fun n s' =>
               n = Z.of_nat (length buf) /\
               io_contents s' = splice (Z.to_nat off) buf (io_contents s) /\
               (io_good s -> io_good s'))
            (fun _ s' => (exists torn, length torn = length buf /\
               io_contents s' = splice (Z.to_nat off) torn (io_contents s)) /\
               ~ io_good s))
      s;
  io_truncate_spec size s :
    0 <= size < 2 ^ 64 ->
    wp (io_truncate size)
      (post (fun _ s' => io_contents s' = resize (Z.to_nat size) x00 (io_contents s) /\
               (io_good s -> io_good s'))
            (fun _ s' => io_contents s' = io_contents s /\ (io_good s -> io_limit < size))) s;
  io_file_size_spec s :
    wp io_file_size
      (post (fun n s' => n = Z.of_nat (length (io_contents s)) /\ n < 2 ^ 63 /\
               io_contents s' = io_contents s /\ (io_good s -> io_good s'))
            (fun _ s' => io_contents s' = io_contents s /\ ~ io_good s)) s;
  io_sync_spec s :
    wp io_sync (post (fun _ s' => io_contents s' = io_contents s /\ (io_good s -> io_good s'))
                     (fun _ s' => io_contents s' = io_contents s /\ ~ io_good s)) s;
}.

(** A backend whose failed reads transfer nothing: the caller's buffer is as it
    was.  The contract above does not ask for it. *)
Definition clean_reads (S : Type) `{StorageIO S} : Prop :=
  forall off buf s e st, io_read off (buf, s) = (Err e, st) -> st.1 = buf.

Lemma overlay_full avail buf :
  (length buf <= length avail)%nat -> overlay avail buf = take (length buf) avail.
Proof. intros. unfold overlay. rewrite (drop_ge buf) by lia. apply app_nil_r. Qed.

Lemma length_overlay avail buf : length (overlay avail buf) = length buf.
Proof. unfold overlay. rewrite length_app, length_take, length_drop. lia. Qed.

(** A transfer of [length chunk] bytes followed by the rest. *)
Lemma overlay_split avail buf chunk :
  chunk = take (length chunk) avail -> (length chunk <= length buf)%nat ->
  overlay avail buf = chunk ++ overlay (drop (length chunk) avail) (drop (length chunk) buf).
Proof.
  intros Hc Hl. set (c := length chunk) in *.
  assert (c <= length avail)%nat by (subst c; rewrite Hc, length_take; lia).
  unfold overlay. rewrite app_assoc. f_equal.
  - rewrite Hc at 1. rewrite length_drop, take_take_drop. f_equal. lia.
  - rewrite length_drop, drop_drop. f_equal. lia.
Qed.

Lemma read_count_split avail buf chunk :
  chunk = take (length chunk) avail -> (length chunk <= length buf)%nat ->
  read_count avail buf =
    Z.of_nat (length chunk) + read_count (drop (length chunk) avail) (drop (length chunk) buf).
Proof.
  intros Hc Hl. assert (length chunk <= length avail)%nat by (rewrite Hc, length_take; lia).
  unfold read_count. rewrite !length_drop. lia.
Qed.

Lemma overlay_empty avail : overlay avail [] = [].
Proof. unfold overlay. by rewrite drop_nil. Qed.

Lemma overlay_nil buf : overlay [] buf = buf.
Proof. unfold overlay. by rewrite take_nil. Qed.

(** ** A scripted in-memory device *)

Module MemDev.
Record t := { bytes : list byte; faults : list bool }.

Definition pop (d : t) : bool * t :=
  match faults d with
  | [] => (false, d)
  | b :: fs => (b, {| bytes := bytes d; faults := fs |})
  end.
Definition set_bytes (bs : list byte) (d : t) : t := {| bytes := bs; faults := faults d |}.

Definition max_size : Z := 2 ^ 62.

(** How much of a transfer a failing operation has done. *)
Definition half (buf : list byte) : nat := (length buf / 2)%nat.
#[local] Arguments half : simpl never.
Lemma half_le buf : (half buf <= length buf)%nat.
Proof. apply Nat.Div0.div_le_upper_bound. lia. Qed.

Definition read (off : Z) : M (list byte * t) Z := fun '(buf, d) =>
  let '(fail, d') := pop d in
  let avail := drop (Z.to_nat off) (bytes d) in
  if fail then (Err IoError, (overlay (take (half buf) avail) buf, d'))
  else (Ok (read_count avail buf), (overlay avail buf, d')).

Definition write (off : Z) (buf : list byte) : M t Z := fun d =>
  let '(fail, d') := pop d in
  if fail then
    (Err IoError, set_bytes (splice (Z.to_nat off) (take (half buf) buf) (bytes d)) d')
  else if off + Z.of_nat (length buf) <=? Z.of_nat (length (bytes d)) then
    (Ok (Z.of_nat (length buf)), set_bytes (splice (Z.to_nat off) buf (bytes d)) d')
  else (Err IoError, d').

Definition truncate (size : Z) : M t unit := fun d =>
  let '(fail, d') := pop d in
  if fail || (max_size <? size) then (Err IoError, d')
  else (Ok tt, set_bytes (resize (Z.to_nat size) x00 (bytes d)) d').

Definition file_size : M t Z := fun d =>
  let '(fail, d') := pop d in
  if fail || (max_size <? Z.of_nat (length (bytes d))) then (Err IoError, d')
  else (Ok (Z.of_nat (length (bytes d))), d').

Definition sync : M t unit := fun d =>
  let '(fail, d') := pop d in if fail then (Err IoError, d') else (Ok tt, d').

#[global] Instance ops : StorageIO t := {
  io_open _ _ := retM tt;
  io_close := retM tt;
  io_read := read;
  io_write := write;
  io_sync := sync;
  io_datasync := sync;
  io_truncate := truncate;
  io_file_size := file_size;
}.

(** No failure is scripted and the file is within the device's size. *)
Definition good (d : t) : Prop :=
  faults d = [] /\ Z.of_nat (length (bytes d)) <= max_size.

Lemma pop_spec d : bytes (pop d).2 = bytes d /\ (good d -> pop d = (false, d)).
Proof. unfold pop, good. destruct (faults d); naive_solver. Qed.

Ltac run_pop d :=
  let H := fresh in
  pose proof (pop_spec d) as [? H];
  destruct (pop d) as [[] ?d']; cbn in *;
  [repeat split; try done; try (intros Hg; by specialize (H Hg))
  |assert (good d -> d' = d) by (intros Hg; by specialize (H Hg) as [= ->]); clear H].

#[global] Program Instance laws : StorageIOLaws t :=
  { io_contents := bytes; io_good := good; io_limit := max_size }.
Next Obligation. done. Qed.
Next Obligation.
  intros off buf d _ _. unfold wp; cbn. unfold read. run_pop d.
  - by rewrite length_overlay.
  - naive_solver.
Qed.
Next Obligation.
  intros off buf d Hbuf Hoff Hle. unfold wp; cbn. unfold write. run_pop d.
  - exists (take (half buf) buf ++ slice (Z.to_nat off + half buf)
              (length buf - half buf) (bytes d)).
    pose proof (half_le buf).
    assert (Hl : length (take (half buf) buf) = half buf) by (rewrite length_take; lia).
    assert (Hs : length (slice (Z.to_nat off + half buf)
              (length buf - half buf) (bytes d)) = (length buf - half buf)%nat)
      by (apply length_slice; lia).
    rewrite length_app, Hl, Hs. split; [lia|].
    apply list_eq. intros i. rewrite !lookup_splice by (rewrite ?length_app, ?Hl, ?Hs; lia).
    rewrite length_app, Hl, Hs. repeat case_decide; try lia; try done.
    + by rewrite lookup_app_l by (rewrite Hl; lia).
    + rewrite lookup_app_r by (rewrite Hl; lia). rewrite Hl, lookup_slice.
      rewrite decide_True by lia. f_equal. lia.
  - destruct (Z.leb_spec (off + Z.of_nat (length buf)) (Z.of_nat (length (bytes d)))); [|lia].
    cbn. repeat split; unfold good in *; cbn; [naive_solver|].
    rewrite length_splice; [naive_solver|lia].
Qed.
Next Obligation.
  intros size d _. unfold wp; cbn. unfold truncate. run_pop d.
  destruct (Z.ltb_spec max_size size); cbn; [done|]. split; [done|].
  unfold good in *; cbn. rewrite length_resize. unfold max_size in *. naive_solver lia.
Qed.
Next Obligation.
  intros d. unfold wp; cbn. unfold file_size. run_pop d.
  destruct (Z.ltb_spec max_size (Z.of_nat (length (bytes d)))) as [?|Hle]; cbn.
  - unfold good in *. naive_solver lia.
  - unfold max_size in Hle. repeat split; try lia; unfold good in *; naive_solver.
Qed.
Next Obligation.
  intros d. unfold wp; cbn. unfold sync. run_pop d. unfold good in *; naive_solver.
Qed.
End MemDev.
