(* ===== verification/PosixIO.v ===== *)
(** * PosixIO: src/src/storage/io/posix

    The POSIX backend.  The system calls it makes are not part of the
    repository: they are the class [Kernel], and [KernelLaws] states what their
    manual pages promise (short transfers, EINTR, end of file).  [PosixIO] is
    shown to meet the [StorageIO] contract for every such kernel; [SimKernel] is
    a concrete one that transfers at most three bytes per call and interrupts
    some of them. *)
From S2P Require Import Prelude Utils StorageIO.

(** The outcome of a system call: a value, or -1 with errno = EINTR or another
    error number. *)
Inductive sysret (A : Type) := SysOk (a : A) | SysEintr | SysFail.
Arguments SysOk {A} a.
Arguments SysEintr {A}.
Arguments SysFail {A}.

Class Kernel (OS : Type) := {
  sys_open : string -> bool -> OS -> sysret Z * OS;
  sys_close : Z -> OS -> sysret unit * OS;
  sys_pread64 : Z -> nat -> Z -> OS -> sysret (list byte) * OS;
  sys_pwrite64 : Z -> list byte -> Z -> OS -> sysret nat * OS;
  sys_fsync : Z -> OS -> sysret unit * OS;
  sys_fdatasync : Z -> OS -> sysret unit * OS;
  sys_sync_file_range : Z -> Z -> Z -> OS -> sysret unit * OS;
  sys_ftruncate64 : Z -> Z -> OS -> sysret unit * OS;
  sys_lseek64_end : Z -> OS -> sysret Z * OS;
  sys_mmap : Z -> Z -> Z -> Z -> OS -> sysret Z * OS;
  sys_munmap : Z -> Z -> OS -> sysret unit * OS;
  (** A bound on the interrupts still to be delivered: the retry loops end. *)
  pending_interrupts : OS -> nat;
}.

Record PosixIO := { fd : Z; path_name : string }.
Record PosixW (OS : Type) := { posix : PosixIO; os : OS }.
Arguments posix {OS}.
Arguments os {OS}.
Arguments Build_PosixW {OS}.

Section operations.
Context {OS : Type} `{Kernel OS}.
#[local] Abbreviation W := (PosixW OS).

Definition set_posix (p : PosixIO) (w : W) : W := {| posix := p; os := os w |}.

Definition syscall {A} (call : Z -> OS -> sysret A * OS) : M W (sysret A) := fun w =>
  let '(r, k) := call (fd (posix w)) (os w) in (Ok r, {| posix := posix w; os := k |}).

Definition posix_check_open : M W unit := fun w =>
  if fd (posix w) <? 0 then (Err IoError, w) else (Ok tt, w).

(** The calls that report any failure as [IoError]. *)
Definition ok_or_io_error {A} (r : sysret A) : M W A :=
  match r with SysOk a => retM a | _ => errM IoError end.

Definition posix_close : M W unit := fun w =>
  if fd (posix w) <? 0 then (Ok tt, w)
  else (let* r := syscall sys_close in
        let* _ := ok_or_io_error r in
        modifyM (set_posix {| fd := -1; path_name := EmptyString |})) w.

Definition posix_destroy : M W unit := fun w =>
  if 0 <=? fd (posix w)
  then (let* _ := syscall sys_close in
        modifyM (set_posix {| fd := -1; path_name := path_name (posix w) |})) w
  else (Ok tt, w).

Definition posix_open (path : option string) (cfg : IOConfig) : M W unit :=
  match path with
  | None => faultM
  | Some path =>
      let* cur := getM (fun w => fd (posix w)) in
      let* _ := if 0 <=? cur then posix_close else retM tt in
      let* r := syscall (fun _ => sys_open path (use_direct_io cfg)) in
      let* new_fd := ok_or_io_error r in
      modifyM (set_posix {| fd := new_fd; path_name := path |})
  end.

(** The loop of [read]: [bytes_read] bytes of [buf] are filled.  Fuel bounds
    the iterations: one per byte transferred, per interrupt, and one to stop. *)
Fixpoint read_loop (fuel : nat) (off : Z) (bytes_read : nat) : M (list byte * W) Z :=
  match fuel with
  | O => faultM
  | S fuel => fun '(buf, w) =>
      if (bytes_read <? length buf)%nat then
        let '(r, k) := sys_pread64 (fd (posix w)) (length buf - bytes_read) off (os w) in
        let w' := {| posix := posix w; os := k |} in
        match r with
        | SysEintr => read_loop fuel off bytes_read (buf, w')
        | SysFail => (Err IoError, (buf, w'))
        | SysOk [] => (Ok (Z.of_nat bytes_read), (buf, w'))
        | SysOk chunk =>
            read_loop fuel (off + Z.of_nat (length chunk)) (bytes_read + length chunk)
              (splice bytes_read chunk buf, w')
        end
      else (Ok (Z.of_nat bytes_read), (buf, w))
  end.

Definition posix_read (offset : Z) : M (list byte * W) Z := fun '(buf, w) =>
  match buf with
  | [] => (Fault, (buf, w))
  | _ =>
      if fd (posix w) <? 0 then (Err IoError, (buf, w))
      else read_loop (length buf + pending_interrupts (os w) + 1)
             (prim_cast I64 offset) 0 (buf, w)
  end.

Fixpoint write_loop (fuel : nat) (off : Z) (bytes_written : nat) (buf : list byte) : M W Z :=
  match fuel with
  | O => faultM
  | S fuel => fun w =>
      if (bytes_written <? length buf)%nat then
        let '(r, k) := sys_pwrite64 (fd (posix w)) (drop bytes_written buf) off (os w) in
        let w' := {| posix := posix w; os := k |} in
        match r with
        | SysEintr => write_loop fuel off bytes_written buf w'
        | SysFail => (Err IoError, w')
        | SysOk n => write_loop fuel (off + Z.of_nat n) (bytes_written + n) buf w'
        end
      else (Ok (Z.of_nat (length buf)), w)
  end.

Definition posix_write (offset : Z) (buf : list byte) : M W Z := fun w =>
  match buf with
  | [] => (Fault, w)
  | _ =>
      if fd (posix w) <? 0 then (Err IoError, w)
      else write_loop (length buf + pending_interrupts (os w) + 1)
             (prim_cast I64 offset) 0 buf w
  end.

Definition posix_mmap (offset len prot : Z) : M W Z :=
  let* _ := posix_check_open in
  let* r := syscall (fun d => sys_mmap len prot d offset) in
  ok_or_io_error r.

Definition posix_munmap (addr len : Z) : M W unit :=
  let* r := syscall (fun _ => sys_munmap addr len) in
  ok_or_io_error r.

Definition posix_sync : M W unit :=
  let* _ := posix_check_open in
  let* r := syscall sys_fsync in
  ok_or_io_error r.

Definition posix_datasync : M W unit :=
  let* _ := posix_check_open in
  let* r := syscall sys_fdatasync in
  ok_or_io_error r.

(** The Linux branch of [sync_range]. *)
Definition posix_sync_range (offset len : Z) : M W unit :=
  let* _ := posix_check_open in
  let* r := syscall (fun d => sys_sync_file_range d (prim_cast I64 offset) (prim_cast I64 len)) in
  ok_or_io_error r.

Definition posix_truncate (size : Z) : M W unit :=
  let* _ := posix_check_open in
  let* r := syscall (fun d => sys_ftruncate64 d (prim_cast I64 size)) in
  ok_or_io_error r.

Definition posix_file_size : M W Z :=
  let* _ := posix_check_open in
  let* r := syscall sys_lseek64_end in
  let* sz := ok_or_io_error r in
  retM (wrap64 sz).

#[export] Instance PosixIO_StorageIO : StorageIO W := {
  io_open := posix_open;
  io_close := posix_close;
  io_read := posix_read;
  io_write := posix_write;
  io_sync := posix_sync;
  io_datasync := posix_datasync;
  io_truncate := posix_truncate;
  io_file_size := posix_file_size;
}.
End operations.

(** ** What the system calls promise *)

Class KernelLaws (OS : Type) `{Kernel OS} := {
  (** The contents of the file behind a descriptor. *)
  file : OS -> Z -> list byte;
  (** The device behind a descriptor reports no error (up to [file_limit] bytes). *)
  healthy : OS -> Z -> Prop;
  file_limit : Z;
  file_limit_bound : file_limit < 2 ^ 63;
  file_bound k d : Z.of_nat (length (file k d)) < 2 ^ 63;
  pread64_spec d n off k r k' :
    0 <= off -> (0 < n)%nat -> sys_pread64 d n off k = (r, k') ->
    file k' d = file k d /\
    match r with
    | SysOk chunk =>
        (pending_interrupts k' <= pending_interrupts k)%nat /\ (healthy k d -> healthy k' d) /\
        (length chunk <= n)%nat /\
        chunk = take (length chunk) (drop (Z.to_nat off) (file k d)) /\
        (chunk = [] -> Z.of_nat (length (file k d)) <= off)
    | SysEintr => (pending_interrupts k' < pending_interrupts k)%nat /\ (healthy k d -> healthy k' d)
    | SysFail => ~ healthy k d
    end;
  pwrite64_spec d buf off k r k' :
    0 <= off -> buf <> [] -> off + Z.of_nat (length buf) <= Z.of_nat (length (file k d)) ->
    sys_pwrite64 d buf off k = (r, k') ->
    match r with
    | SysOk n =>
        (pending_interrupts k' <= pending_interrupts k)%nat /\ (healthy k d -> healthy k' d) /\
        (0 < n <= length buf)%nat /\
        file k' d = splice (Z.to_nat off) (take n buf) (file k d)
    | SysEintr =>
        (pending_interrupts k' < pending_interrupts k)%nat /\ (healthy k d -> healthy k' d) /\
        file k' d = file k d
    | SysFail => ~ healthy k d /\ file k' d = file k d
    end;
  ftruncate64_spec d size k r k' :
    sys_ftruncate64 d size k = (r, k') ->
    match r with
    | SysOk _ => 0 <= size /\ (healthy k d -> healthy k' d) /\
        file k' d = resize (Z.to_nat size) x00 (file k d)
    | _ => (healthy k d -> size < 0 \/ file_limit < size) /\ file k' d = file k d
    end;
  lseek64_end_spec d k r k' :
    sys_lseek64_end d k = (r, k') ->
    file k' d = file k d /\
    match r with
    | SysOk sz => sz = Z.of_nat (length (file k d)) /\ (healthy k d -> healthy k' d)
    | _ => ~ healthy k d
    end;
  fsync_spec d k r k' :
    sys_fsync d k = (r, k') ->
    file k' d = file k d /\
    match r with SysOk _ => healthy k d -> healthy k' d | _ => ~ healthy k d end;
}.

Section contract.
Context {OS : Type} `{KernelLaws OS}.
#[local] Abbreviation W := (PosixW OS).
Implicit Types w : W.

Definition posix_contents w : list byte :=
  if fd (posix w) <? 0 then [] else file (os w) (fd (posix w)).
Definition posix_good w : Prop := 0 <= fd (posix w) /\ healthy (os w) (fd (posix w)).

Lemma read_loop_wp fuel off br buf w :
  0 <= off -> (br <= length buf)%nat ->
  (length buf - br + pending_interrupts (os w) < fuel)%nat ->
  let avail := drop (Z.to_nat off) (file (os w) (fd (posix w))) in
  wp (read_loop fuel off br)
    (post (fun n st =>
             posix st.2 = posix w /\
             file (os st.2) (fd (posix w)) = file (os w) (fd (posix w)) /\
             n = Z.of_nat br + read_count avail (drop br buf) /\
             st.1 = take br buf ++ overlay avail (drop br buf) /\
             (healthy (os w) (fd (posix w)) -> healthy (os st.2) (fd (posix w))))
          (fun _ st =>
             posix st.2 = posix w /\
             file (os st.2) (fd (posix w)) = file (os w) (fd (posix w)) /\
             length st.1 = length buf /\ ~ healthy (os w) (fd (posix w))))
    (buf, w).
Proof.
  revert off br buf w. induction fuel as [|fuel IH]; intros off br buf w Hoff Hbr Hfuel; [lia|].
  intros avail. unfold wp. cbn [read_loop].
  destruct (Nat.ltb_spec br (length buf)) as [Hlt|Hge].
  2: { cbn -[overlay]. rewrite (drop_ge buf br), (take_ge buf br) by lia. unfold read_count.
       rewrite overlay_empty, app_nil_r. cbn. split_and!; try done. lia. }
  destruct (sys_pread64 _ _ _ _) as [r k] eqn:Hsys.
  apply pread64_spec in Hsys as [Hf Hr]; [|lia..].
  destruct r as [[|b chunk']| |].
  - destruct Hr as (_ & Hh & _ & _ & Heof). cbn. specialize (Heof eq_refl).
    unfold avail. rewrite drop_ge by lia. rewrite overlay_nil, take_drop.
    unfold read_count. cbn. split_and!; try done. lia.
  - set (chunk := b :: chunk') in *. destruct Hr as (Hp & Hh & Hn & Hc & _).
    assert (0 < length chunk)%nat by (cbn; lia).
    specialize (IH (off + Z.of_nat (length chunk)) (br + length chunk)%nat
      (splice br chunk buf) {| posix := posix w; os := k |}).
    cbn zeta in IH. rewrite length_splice in IH by lia. cbn [posix os] in IH.
    specialize (IH ltac:(lia) ltac:(lia) ltac:(lia)). rewrite Hf in IH.
    rewrite Z2Nat.inj_add, Nat2Z.id, <- drop_drop in IH by lia. fold avail in IH, Hc.
    rewrite take_splice, drop_splice, <- drop_drop in IH by lia.
    pose proof (overlay_split avail (drop br buf) chunk Hc ltac:(rewrite length_drop; lia)) as Ho.
    pose proof (read_count_split avail (drop br buf) chunk Hc ltac:(rewrite length_drop; lia)) as Hrc.
    rewrite Ho, Hrc. eapply wp_post_mono; [exact IH|..].
    + intros n st (? & ? & -> & -> & ?). rewrite <- app_assoc. split_and!; auto. lia.
    + intros e st (? & ? & ? & ?). split_and!; auto.
  - destruct Hr as (Hp & Hh).
    specialize (IH off br buf {| posix := posix w; os := k |} ltac:(done) ltac:(lia)).
    cbn [posix os] in IH. specialize (IH ltac:(lia)). cbn zeta in IH. rewrite Hf in IH.
    eapply wp_post_mono; [exact IH|..]; naive_solver.
  - done.
Qed.

Lemma write_loop_wp fuel off bw buf w :
  0 <= off -> (bw <= length buf)%nat ->
  off + Z.of_nat (length buf - bw) <= Z.of_nat (length (file (os w) (fd (posix w)))) ->
  (length buf - bw + pending_interrupts (os w) < fuel)%nat ->
  wp (write_loop fuel off bw buf)
    (post (fun n w' =>
             posix w' = posix w /\ n = Z.of_nat (length buf) /\
             file (os w') (fd (posix w)) =
               splice (Z.to_nat off) (drop bw buf) (file (os w) (fd (posix w))) /\
             (healthy (os w) (fd (posix w)) -> healthy (os w') (fd (posix w))))
          (fun _ w' =>
             posix w' = posix w /\
             (exists torn, (length torn = length buf - bw)%nat /\
                file (os w') (fd (posix w)) =
                  splice (Z.to_nat off) torn (file (os w) (fd (posix w)))) /\
             ~ healthy (os w) (fd (posix w))))
    w.
Proof.
  revert off bw w. induction fuel as [|fuel IH]; intros off bw w Hoff Hbw Hin Hfuel; [lia|].
  unfold wp. cbn [write_loop]. destruct (Nat.ltb_spec bw (length buf)) as [Hlt|Hge].
  2: { cbn. rewrite (drop_ge buf bw) by lia. unfold splice. cbn.
       rewrite Nat.add_0_r, take_drop. by split_and!. }
  assert (Hrest : length (drop bw buf) = (length buf - bw)%nat) by apply length_drop.
  destruct (sys_pwrite64 _ _ _ _) as [r k] eqn:Hsys.
  apply pwrite64_spec in Hsys; [|lia|by eapply length_nonempty; [done|lia]|lia].
  destruct r as [n| |].
  - destruct Hsys as (Hp & Hh & Hn & Hf).
    assert (Ht : length (take n (drop bw buf)) = n) by (rewrite length_take; lia).
    specialize (IH (off + Z.of_nat n) (bw + n)%nat {| posix := posix w; os := k |}).
    cbn [posix os] in IH. rewrite Hf, length_splice in IH by (rewrite Ht; lia).
    specialize (IH ltac:(lia) ltac:(lia) ltac:(lia) ltac:(lia)).
    rewrite Z2Nat.inj_add, Nat2Z.id, <- drop_drop in IH by lia.
    eapply wp_post_mono; [exact IH|..].
    + intros m w' (? & -> & Hf' & ?). split_and!; auto. rewrite Hf'.
      rewrite splice_app by (rewrite ?Ht, ?length_drop; lia). by rewrite take_drop.
    + intros e w' (? & (torn & Hl & Hf') & ?). split_and!; auto.
      exists (take n (drop bw buf) ++ torn). rewrite length_app, Ht. split; [lia|].
      rewrite Hf'. rewrite splice_app by (rewrite Ht; lia). done.
  - destruct Hsys as (Hp & Hh & Hf).
    specialize (IH off bw {| posix := posix w; os := k |}). cbn [posix os] in IH.
    rewrite Hf in IH. eapply wp_post_mono; [apply IH; lia|..]; naive_solver.
  - destruct Hsys as (Hh & Hf). cbn. split_and!; [done| |done].
    exists (slice (Z.to_nat off) (length buf - bw) (file (os w) (fd (posix w)))).
    rewrite length_slice, splice_slice_id by lia. done.
Qed.

Lemma syscall_wp {A} (call : Z -> OS -> sysret A * OS) w Q :
  (forall r k, call (fd (posix w)) (os w) = (r, k) ->
     wp (ok_or_io_error r) Q {| posix := posix w; os := k |}) ->
  0 <= fd (posix w) ->
  wp (let* _ := posix_check_open in let* r := syscall call in ok_or_io_error r) Q w.
Proof.
  intros Hcall Hfd. unfold wp, posix_check_open, syscall, bindM in *.
  destruct (Z.ltb_spec (fd (posix w)) 0); [lia|].
  destruct (call _ _) as [r k]. by apply Hcall.
Qed.

Lemma closed_wp {A} (k : unit -> M W A) (Q : Result A -> W -> Prop) w :
  fd (posix w) < 0 -> Q (Err IoError) w -> wp (bindM posix_check_open k) Q w.
Proof.
  intros Hfd HQ. unfold wp, bindM, posix_check_open.
  by destruct (Z.ltb_spec (fd (posix w)) 0); [|lia].
Qed.

Lemma posix_read_contract off buf w :
  buf <> [] -> 0 <= off <= Z.of_nat (length (posix_contents w)) ->
  wp (posix_read off)
    (post (fun n st =>
             let avail := drop (Z.to_nat off) (posix_contents w) in
             posix_contents st.2 = posix_contents w /\
             n = read_count avail buf /\ st.1 = overlay avail buf /\
             (posix_good w -> posix_good st.2))
          (fun _ st => posix_contents st.2 = posix_contents w /\ length st.1 = length buf /\
             ~ posix_good w))
    (buf, w).
Proof.
  intros Hbuf Hoff. unfold wp, posix_read. destruct buf as [|b0 buf']; [done|].
  set (buf := b0 :: buf') in *. unfold posix_contents, posix_good in *.
  destruct (Z.ltb_spec (fd (posix w)) 0) as [Hfd|Hfd].
  { cbn -[buf]. destruct (Z.ltb_spec (fd (posix w)) 0); [|lia]. split_and!; [done..|lia]. }
  pose proof (file_bound (os w) (fd (posix w))).
  rewrite prim_cast_id by (unfold in_range, prim_min, prim_max; cbn; lia).
  pose proof (read_loop_wp (length buf + pending_interrupts (os w) + 1) off 0 buf w
    ltac:(lia) ltac:(lia) ltac:(lia)) as Hl.
  eapply wp_post_mono; [exact Hl|..].
  - intros n st (-> & Hf & -> & -> & Hh). cbn [drop take app].
    destruct (Z.ltb_spec (fd (posix w)) 0); [lia|]. rewrite drop_0. split_and!; [done|lia|done|].
    intros [? ?]. auto.
  - intros e st (-> & Hf & Hlen & Hh).
    destruct (Z.ltb_spec (fd (posix w)) 0); [lia|]. split_and!; [done..|tauto].
Qed.

Lemma posix_write_contract off buf w :
  buf <> [] -> 0 <= off ->
  off + Z.of_nat (length buf) <= Z.of_nat (length (posix_contents w)) ->
  wp (posix_write off buf)
    (post (fun n w' =>
             n = Z.of_nat (length buf) /\
             posix_contents w' = splice (Z.to_nat off) buf (posix_contents w) /\
             (posix_good w -> posix_good w'))
          (fun _ w' => (exists torn, length torn = length buf /\
             posix_contents w' = splice (Z.to_nat off) torn (posix_contents w)) /\
             ~ posix_good w))
    w.
Proof.
  intros Hbuf Hoff Hin. unfold wp, posix_write. destruct buf as [|b0 buf']; [done|].
  set (buf := b0 :: buf') in *. unfold posix_contents, posix_good in *.
  destruct (Z.ltb_spec (fd (posix w)) 0) as [Hfd|Hfd].
  { cbn in Hin. lia. }
  pose proof (file_bound (os w) (fd (posix w))).
  rewrite prim_cast_id by (unfold in_range, prim_min, prim_max; cbn in *; lia).
  pose proof (write_loop_wp (length buf + pending_interrupts (os w) + 1) off 0 buf w
    ltac:(lia) ltac:(lia) ltac:(lia) ltac:(lia)) as Hl.
  eapply wp_post_mono; [exact Hl|..].
  - intros n w' (-> & -> & Hf & Hh). destruct (Z.ltb_spec (fd (posix w)) 0); [lia|].
    rewrite drop_0 in Hf. split_and!; [done..|tauto].
  - intros e w' (-> & (torn & Ht & Hf) & Hh). destruct (Z.ltb_spec (fd (posix w)) 0); [lia|].
    split; [|tauto]. exists torn. split; [lia|done].
Qed.

Lemma posix_truncate_contract size w :
  0 <= size < 2 ^ 64 ->
  wp (posix_truncate size)
    (post (fun _ w' => posix_contents w' = resize (Z.to_nat size) x00 (posix_contents w) /\
             (posix_good w -> posix_good w'))
          (fun _ w' => posix_contents w' = posix_contents w /\
             (posix_good w -> file_limit < size))) w.
Proof.
  intros Hs. unfold posix_truncate. destruct (Z.lt_ge_cases (fd (posix w)) 0) as [Hfd|Hfd].
  { apply closed_wp; [done|]. cbn. split; [done|]. unfold posix_good. lia. }
  apply syscall_wp; [|done]. intros r k Hsys. apply ftruncate64_spec in Hsys.
  pose proof file_limit_bound. unfold posix_contents, posix_good.
  destruct (Z.ltb_spec (fd (posix w)) 0); [lia|].
  assert (Hc : size < 2 ^ 63 /\ prim_cast I64 size = size \/
               2 ^ 63 <= size /\ prim_cast I64 size < 0).
  { destruct (Z.lt_ge_cases size (2 ^ 63)); [left|right]; (split; [done|]).
    - apply prim_cast_id. unfold in_range, prim_min, prim_max. cbn. lia.
    - unfold prim_cast. cbn [prim_signed prim_bits].
      replace (size + 2 ^ (64 - 1)) with (size - 2 ^ 63 + 1 * 2 ^ 64) by lia.
      rewrite Z_mod_plus_full, Z.mod_small by lia. lia. }
  destruct r as [[]| |]; unfold wp; cbn -[Z.pow];
    destruct (Z.ltb_spec (fd (posix w)) 0); try lia.
  - destruct Hsys as (? & ? & Hf). destruct Hc as [[? Hc]|[? Hc]]; [|lia].
    rewrite Hc in Hf. split; [done|tauto].
  - destruct Hsys as [? ?]. split; [done|]. intros [? ?]. lia || (destruct Hc; intuition lia).
  - destruct Hsys as [? ?]. split; [done|]. intros [? ?]. lia || (destruct Hc; intuition lia).
Qed.

Lemma posix_file_size_contract w :
  wp posix_file_size
    (post (fun n w' => n = Z.of_nat (length (posix_contents w)) /\ n < 2 ^ 63 /\
             posix_contents w' = posix_contents w /\ (posix_good w -> posix_good w'))
          (fun _ w' => posix_contents w' = posix_contents w /\ ~ posix_good w)) w.
Proof.
  unfold posix_file_size. destruct (Z.lt_ge_cases (fd (posix w)) 0) as [Hfd|Hfd].
  { apply closed_wp; [done|]. cbn. split; [done|]. unfold posix_good. lia. }
  unfold wp, bindM, posix_check_open, syscall, posix_contents, posix_good.
  destruct (Z.ltb_spec (fd (posix w)) 0); [lia|].
  destruct (sys_lseek64_end _ _) as [r k] eqn:Hsys. apply lseek64_end_spec in Hsys as [Hf Hr].
  pose proof (file_bound (os w) (fd (posix w))).
  destruct r as [sz| |]; cbn -[Z.pow wrap64]; destruct (Z.ltb_spec (fd (posix w)) 0); try lia.
  - destruct Hr as [-> Hh]. rewrite wrap64_mod, Z.mod_small by lia.
    split_and!; [done|lia|done|tauto].
  - split; [done|tauto].
  - split; [done|tauto].
Qed.

Lemma posix_sync_contract w :
  wp posix_sync
    (post (fun _ w' => posix_contents w' = posix_contents w /\ (posix_good w -> posix_good w'))
          (fun _ w' => posix_contents w' = posix_contents w /\ ~ posix_good w)) w.
Proof.
  unfold posix_sync. destruct (Z.lt_ge_cases (fd (posix w)) 0) as [Hfd|Hfd].
  { apply closed_wp; [done|]. cbn. split; [done|]. unfold posix_good. lia. }
  apply syscall_wp; [|done]. intros r k Hsys. apply fsync_spec in Hsys as [Hf Hr].
  unfold posix_contents, posix_good.
  destruct r as [[]| |]; unfold wp; cbn; destruct (Z.ltb_spec (fd (posix w)) 0); try lia;
    (split; [done|tauto]).
Qed.

(** The POSIX backend meets the contract of [StorageIO]. *)
#[export] Instance PosixIO_laws : StorageIOLaws W := {
  io_contents := posix_contents;
  io_good := posix_good;
  io_limit := file_limit;
  io_limit_bound := file_limit_bound;
  io_read_spec := posix_read_contract;
  io_write_spec := posix_write_contract;
  io_truncate_spec := posix_truncate_contract;
  io_file_size_spec := posix_file_size_contract;
  io_sync_spec := posix_sync_contract;
}.
End contract.

(** ** A concrete kernel: three bytes per transfer, some calls interrupted *)

Module SimKernel.
Record t := { data : list byte; interrupts : nat }.
Definition limit : Z := 2 ^ 62.
(** Bytes moved by one transfer. *)
Definition burst (n : nat) : nat := Nat.min 3 n.
#[local] Arguments burst : simpl never.
Definition fits (k : t) : bool := Z.of_nat (length (data k)) <=? limit.
Definition tick (k : t) : t := {| data := data k; interrupts := pred (interrupts k) |}.
Definition set_data (f : list byte) (k : t) : t := {| data := f; interrupts := interrupts k |}.

(** Interrupt the call if an interrupt is due, else run it. *)
Definition guarded {A} (k : t) (body : sysret A * t) : sysret A * t :=
  if negb (fits k) then (SysFail, k)
  else match interrupts k with O => body | S _ => (SysEintr, tick k) end.

Definition pread (d : Z) (n : nat) (off : Z) (k : t) : sysret (list byte) * t :=
  guarded k (SysOk (take (burst n) (drop (Z.to_nat off) (data k))), k).
Definition pwrite (d : Z) (buf : list byte) (off : Z) (k : t) : sysret nat * t :=
  guarded k
    (if off + Z.of_nat (length buf) <=? Z.of_nat (length (data k))
     then (SysOk (burst (length buf)),
           set_data (splice (Z.to_nat off) (take (burst (length buf)) buf) (data k)) k)
     else (SysFail, k)).
Definition ftruncate (d size : Z) (k : t) : sysret unit * t :=
  if fits k && (0 <=? size) && (size <=? limit)
  then (SysOk tt, set_data (resize (Z.to_nat size) x00 (data k)) k) else (SysFail, k).
Definition lseek_end (d : Z) (k : t) : sysret Z * t :=
  if fits k then (SysOk (Z.of_nat (length (data k))), k) else (SysFail, k).
Definition fsync (d : Z) (k : t) : sysret unit * t :=
  if fits k then (SysOk tt, k) else (SysFail, k).

#[global] Instance ops : Kernel t := {
  sys_open _ _ k := (SysOk 3, k);
  sys_close _ k := (SysOk tt, k);
  sys_pread64 := pread;
  sys_pwrite64 := pwrite;
  sys_fsync := fsync;
  sys_fdatasync := fsync;
  sys_sync_file_range d _ _ := fsync d;
  sys_ftruncate64 := ftruncate;
  sys_lseek64_end := lseek_end;
  sys_mmap _ _ _ _ k := (SysFail, k);
  sys_munmap _ _ k := (SysFail, k);
  pending_interrupts := interrupts;
}.

Definition contents (k : t) (d : Z) : list byte := if fits k then data k else [].
Definition is_healthy (k : t) (d : Z) : Prop := fits k = true.

Lemma guarded_cases {A} (k : t) (body : sysret A * t) r k' :
  guarded k body = (r, k') ->
  (fits k = false /\ r = SysFail /\ k' = k) \/
  (fits k = true /\ (interrupts k' < interrupts k)%nat /\ r = SysEintr /\ k' = tick k) \/
  (fits k = true /\ body = (r, k')).
Proof.
  unfold guarded. destruct (fits k); cbn; [|naive_solver].
  destruct (interrupts k) eqn:Hi; [naive_solver|]. intros [= <- <-]. right; left.
  unfold tick. cbn. rewrite Hi. cbn. auto with lia.
Qed.

#[global] Program Instance laws : KernelLaws t :=
  { file := contents; healthy := is_healthy; file_limit := limit }.
Next Obligation. done. Qed.
Next Obligation.
  intros k d. unfold contents, fits, limit.
  destruct (Z.leb_spec (Z.of_nat (length (data k))) (2 ^ 62)); [lia|done].
Qed.
Next Obligation.
  intros d n off k r k' Hoff Hn Hsys. cbn in Hsys. unfold pread in Hsys.
  unfold contents, is_healthy, pending_interrupts. cbn.
  apply guarded_cases in Hsys as [(Hf & -> & ->)|[(Hf & Hi & -> & ->)|(Hf & Hb)]].
  - by rewrite Hf.
  - split; [done|]. split; [exact Hi|done].
  - injection Hb as <- <-. rewrite Hf. split; [done|]. split_and!; [done..| | |].
    + rewrite length_take. unfold burst. lia.
    + rewrite length_take. symmetry. destruct (Nat.le_ge_cases (burst n)
        (length (drop (Z.to_nat off) (data k)))) as [Hle|Hge].
      * by rewrite Nat.min_l.
      * rewrite Nat.min_r by done. rewrite !take_ge; done.
    + intros Hnil%(f_equal length). rewrite length_take, length_drop in Hnil.
      unfold burst in Hnil. cbn [length] in Hnil. lia.
Qed.
Next Obligation.
  intros d buf off k r k' Hoff Hbuf Hin Hsys. cbn in Hsys. unfold pwrite in Hsys.
  unfold contents, is_healthy, pending_interrupts in *. cbn.
  apply guarded_cases in Hsys as [(Hf & -> & ->)|[(Hf & Hi & -> & ->)|(Hf & Hb)]].
  - by rewrite Hf.
  - split; [exact Hi|done].
  - rewrite Hf in Hin. destruct (Z.leb_spec (off + Z.of_nat (length buf))
      (Z.of_nat (length (data k)))); [|lia]. injection Hb as <- <-.
    assert (0 < length buf)%nat by (destruct buf; [done|cbn; lia]).
    assert (Hf' : fits (set_data (splice (Z.to_nat off) (take (burst (length buf)) buf) (data k)) k) = true).
    { unfold fits in *. cbn. rewrite length_splice; [done|]. rewrite length_take. lia. }
    rewrite Hf, Hf'. unfold burst. split_and!; [done..|lia|lia|done].
Qed.
Next Obligation.
  intros d size k r k' Hsys. cbn in Hsys. unfold ftruncate in Hsys.
  unfold contents, is_healthy. destruct (fits k) eqn:Hf; cbn in Hsys.
  - destruct (Z.leb_spec 0 size), (Z.leb_spec size limit); injection Hsys as <- <-;
      try (rewrite Hf; split; [lia|done]).
    assert (Hf' : fits (set_data (resize (Z.to_nat size) x00 (data k)) k) = true).
    { unfold fits. cbn. rewrite length_resize. apply Z.leb_le. lia. }
    rewrite Hf'. by split_and!.
  - injection Hsys as <- <-. by rewrite Hf.
Qed.
Next Obligation.
  intros d k r k' Hsys. cbn in Hsys. unfold lseek_end in Hsys. unfold contents, is_healthy.
  destruct (fits k) eqn:Hf; injection Hsys as <- <-; rewrite Hf; done.
Qed.
Next Obligation.
  intros d k r k' Hsys. cbn in Hsys. unfold fsync in Hsys. unfold contents, is_healthy.
  destruct (fits k) eqn:Hf; injection Hsys as <- <-; rewrite Hf; done.
Qed.
End SimKernel.

(** ** Properties *)

(** C35: on every kernel that behaves as its manual pages say, with any pattern
    of short transfers and interrupts, a write inside an open file completes,
    and reading the same range back completes and returns the bytes written. *)
Theorem posix_write_read {OS} `{KernelLaws OS} (w : PosixW OS) (off : Z) (bytes buf : list byte) :
  posix_good w -> bytes <> [] -> length buf = length bytes ->
  0 <= off -> off + Z.of_nat (length bytes) <= Z.of_nat (length (posix_contents w)) ->
  exists w1 w2,
    posix_write off bytes w = (Ok (Z.of_nat (length bytes)), w1) /\
    posix_read off (buf, w1) = (Ok (Z.of_nat (length bytes)), (bytes, w2)).
Proof.
  intros Hg Hne Hlen Hoff Hin.
  destruct (wp_total _ _ _ _ (posix_write_contract off bytes w Hne Hoff Hin))
    as (n & w1 & Hw & -> & Hc & Hg1); [naive_solver|].
  assert (Hl1 : length (posix_contents w1) = length (posix_contents w))
    by (rewrite Hc, length_splice; lia).
  destruct (wp_total _ _ _ _ (posix_read_contract off buf w1
    ltac:(intros ->; destruct bytes; done) ltac:(lia)))
    as (n & [b2 w2] & Hr & _ & -> & Hb & _); [naive_solver|]. cbn in Hb. subst b2.
  exists w1, w2. split; [done|]. rewrite Hr.
  assert (Hav : drop (Z.to_nat off) (posix_contents w1) =
    bytes ++ drop (Z.to_nat off + length bytes) (posix_contents w)).
  { rewrite Hc. unfold splice. apply drop_app_length'. rewrite length_take. lia. }
  rewrite Hav, overlay_full by (rewrite length_app; lia). unfold read_count.
  rewrite length_app, Hlen, Nat.min_l by lia. do 2 f_equal. by rewrite take_app_length.
Qed.

Definition example_posix : PosixW SimKernel.t :=
  {| posix := {| fd := 3; path_name := "db" |};
     os := {| SimKernel.data := replicate 12 x00; SimKernel.interrupts := 2 |} |}.

Lemma posix_write_read_witness :
  exists w1 w2,
    posix_write 2 [x01; x02; x03; x04; x05] example_posix = (Ok 5, w1) /\
    posix_read 2 (replicate 5 x00, w1) = (Ok 5, ([x01; x02; x03; x04; x05], w2)).
Proof.
  assert (Hg : posix_good example_posix) by (split; [cbn; lia|reflexivity]).
  assert (Hin : 2 + Z.of_nat 5 <= Z.of_nat (length (posix_contents example_posix)))
    by (vm_compute; discriminate).
  apply (posix_write_read example_posix 2 [x01; x02; x03; x04; x05] (replicate 5 x00) Hg
    ltac:(discriminate) eq_refl ltac:(lia) Hin).
Defined.
