(* ===== verification/PageStore.v ===== *)
(** * PageStore: src/src/storage/page

    [PageStore] maps page ids to byte offsets of a [StorageIO] backend.  The
    object's [io] pointer is a flag (null or set); the backend it points to is
    the [device] of the world the operations run in.  [disk] is the abstraction:
    the list of pages the backend's bytes hold. *)
From S2P Require Import Prelude Utils StorageIO.

Record PageStoreConfig := { cfg_page_size : Z }.
Definition PageStoreConfig_default : PageStoreConfig := {| cfg_page_size := 8192 |}.

Record PageStore := { ps_io : bool; ps_config : PageStoreConfig }.
Definition PageStore_default : PageStore :=
  {| ps_io := false; ps_config := PageStoreConfig_default |}.

Record StoreW (S : Type) := { pstore : PageStore; device : S }.
Arguments pstore {S}.
Arguments device {S}.
Arguments Build_StoreW {S}.

Section operations.
Context {S : Type} `{StorageIO S}.
#[local] Abbreviation W := (StoreW S).

Definition set_pstore (p : PageStore) (w : W) : W := {| pstore := p; device := device w |}.
Definition set_device (d : S) (w : W) : W := {| pstore := pstore w; device := d |}.
Definition on_device {A} (m : M S A) : M W A := zoom device set_device m.

Definition page_size_of (w : W) : Z := cfg_page_size (ps_config (pstore w)).

Definition store_open (cfg : PageStoreConfig) : M W unit :=
  let* _ := assertM (0 <? cfg_page_size cfg) in
  modifyM (set_pstore {| ps_io := true; ps_config := cfg |}).

Definition store_close : M W unit :=
  modifyM (fun w => set_pstore {| ps_io := false; ps_config := ps_config (pstore w) |} w).

Definition store_check_open : M W unit := fun w =>
  if ps_io (pstore w) then (Ok tt, w) else (Err IoError, w).

Definition byte_size_for_page_count (count : Z) : M W Z := fun w =>
  let page_size_bytes := page_size_of w in
  let r := let? limit := prim_div U64 (2 ^ 64 - 1) page_size_bytes in
           if limit <? count then Err Overflow
           else Ok (wrap64 (count * page_size_bytes)) in
  (r, w).

Definition byte_offset_for_page (page_id : Z) : M W Z := byte_size_for_page_count page_id.

Definition page_count : M W Z :=
  let* _ := store_check_open in
  let* size := on_device io_file_size in
  let* page_size_bytes := getM page_size_of in
  let* rem := liftR (prim_rem U64 size page_size_bytes) in
  if negb (rem =? 0) then errM Corruption
  else liftR (prim_div U64 size page_size_bytes).

Definition validate_existing_page (page_id : Z) : M W unit :=
  let* _ := store_check_open in
  let* count := page_count in
  if count <=? page_id then errM PageNotFound else retM tt.

(** [io->read(offset, buf.subspan(0, page_size))]. *)
Definition read_subspan (offset : Z) : M (list byte * W) Z := fun '(buf, w) =>
  let n := Z.to_nat (page_size_of w) in
  let '(r, (page_buf, d)) := io_read offset (take n buf, device w) in
  (r, (page_buf ++ drop n buf, set_device d w)).

Definition on_store {A} (m : M W A) : M (list byte * W) A :=
  zoom snd (fun w st => (st.1, w)) m.

Definition read_page (page_id : Z) : M (list byte * W) unit :=
  let* page_size := getM (fun st => page_size_of st.2) in
  let* size := getM (fun st => Z.of_nat (length st.1)) in
  let* _ := assertM (page_size <=? size) in
  let* _ := on_store (validate_existing_page page_id) in
  let* offset := on_store (byte_offset_for_page page_id) in
  let* read_result := read_subspan offset in
  if negb (read_result =? page_size) then errM PageNotFound else retM tt.

Definition write_page (page_id : Z) (buf : list byte) : M W unit :=
  let* page_size := getM page_size_of in
  let* _ := assertM (page_size <=? Z.of_nat (length buf)) in
  let* _ := validate_existing_page page_id in
  let* offset := byte_offset_for_page page_id in
  let page_buf := take (Z.to_nat page_size) buf in
  let* write_result := on_device (io_write offset page_buf) in
  if negb (write_result =? page_size) then errM IoError else retM tt.

Definition allocate_page : M W Z :=
  let* _ := store_check_open in
  let* current_count := page_count in
  let new_count := wrap64 (current_count + 1) in
  let* new_size := byte_size_for_page_count new_count in
  let* _ := on_device (io_truncate new_size) in
  retM current_count.

Definition store_sync : M W unit :=
  let* _ := store_check_open in
  on_device io_sync.
End operations.

(** ** The abstraction and the operations' specifications *)

Section specification.
Context {S : Type} `{StorageIOLaws S}.
#[local] Abbreviation W := (StoreW S).
Implicit Types (w : W) (buf : list byte).

Definition page_bytes_nat w : nat := Z.to_nat (page_size_of w).

(** The pages held by the backend. *)
Definition disk w : list (list byte) := chunks (page_bytes_nat w) (io_contents (device w)).

(** Open, with a page size in range and a file of whole pages. *)
Record store_ok w : Prop := {
  so_open : ps_io (pstore w) = true;
  so_page_size : 0 < page_size_of w < 2 ^ 64;
  so_whole : length (io_contents (device w)) = (length (disk w) * page_bytes_nat w)%nat;
}.

Definition good w : Prop := io_good (device w).

(** Neither the object nor the bytes it names changed, and the backend is no
    worse than it was. *)
Definition same_store w w' : Prop :=
  pstore w' = pstore w /\ io_contents (device w') = io_contents (device w) /\
  (good w -> good w').

(** The same without the claim on the backend's health. *)
Definition same_disk w w' : Prop :=
  pstore w' = pstore w /\ io_contents (device w') = io_contents (device w).

Lemma same_disk_ok w w' : same_disk w w' -> store_ok w -> store_ok w' /\ disk w' = disk w.
Proof.
  unfold same_disk. intros [Hps Hc] [Ho Hp Hw].
  assert (Hd : disk w' = disk w) by (unfold disk, page_bytes_nat, page_size_of; by rewrite Hps, Hc).
  assert (Hsz : page_size_of w' = page_size_of w) by (unfold page_size_of; by rewrite Hps).
  split; [|done]. split; unfold page_bytes_nat in *; by rewrite ?Hps, ?Hsz, ?Hc, ?Hd.
Qed.

#[export] Instance same_store_preorder : PreOrder same_store.
Proof.
  unfold same_store. split; [done|].
  intros ??? (?&?&?) (?&?&?). split_and!; [congruence..|auto].
Qed.

Lemma same_store_weaken w w' : same_store w w' -> same_disk w w'.
Proof. unfold same_store, same_disk. naive_solver. Qed.
Lemma same_store_size w w' : same_store w w' -> page_size_of w' = page_size_of w.
Proof. unfold same_store, page_size_of. by intros [-> _]. Qed.
Lemma same_store_disk w w' : same_store w w' -> disk w' = disk w.
Proof. unfold same_store, disk, page_bytes_nat, page_size_of. by intros (-> & -> & _). Qed.
Lemma same_store_good w w' : same_store w w' -> good w -> good w'.
Proof. unfold same_store. naive_solver. Qed.
Lemma same_store_ok w w' : same_store w w' -> store_ok w -> store_ok w'.
Proof. intros Hs Hok. by apply (same_disk_ok w), Hok; apply same_store_weaken. Qed.

Lemma whole_div w :
  store_ok w ->
  (length (io_contents (device w)) / page_bytes_nat w)%nat = length (disk w).
Proof. intros _. unfold disk. by rewrite length_chunks. Qed.

Lemma disk_Forall w : Forall (fun p => length p = page_bytes_nat w) (disk w).
Proof. apply chunks_Forall. Qed.

Lemma on_device_wp {A} (m : M S A) Q w :
  wp m (fun r d => Q r (set_device d w)) (device w) -> wp (on_device m) Q w.
Proof. apply wp_zoom. Qed.

Lemma check_open_wp w (Q : Result unit -> W -> Prop) :
  store_ok w -> Q (Ok tt) w -> wp store_check_open Q w.
Proof. intros Hok HQ. unfold wp, store_check_open. by rewrite (so_open _ Hok). Qed.

Lemma file_size_wp w :
  wp (on_device io_file_size)
    (post (fun n w' => same_store w w' /\ n = Z.of_nat (length (io_contents (device w))) /\ n < 2 ^ 63)
          (fun _ w' => same_store w w' /\ ~ good w)) w.
Proof.
  apply on_device_wp. eapply wp_post_mono; [apply io_file_size_spec|..];
    unfold same_store, good; cbn; naive_solver.
Qed.

Lemma page_count_wp w :
  store_ok w ->
  wp page_count
    (post (fun n w' => same_store w w' /\ n = Z.of_nat (length (disk w)) /\
                       n * page_size_of w < 2 ^ 63)
          (fun _ w' => same_store w w' /\ ~ good w)) w.
Proof.
  intros Hok. unfold page_count. apply wp_bind, check_open_wp; [done|].
  eapply wp_post_bind; [apply file_size_wp| |done].
  intros n w' (Hs & -> & Hlt).
  apply wp_bind. unfold wp at 1, getM. cbn -[wp bindM].
  rewrite (same_store_size _ _ Hs).
  destruct Hok as [_ Hps Hwhole]. unfold page_bytes_nat in Hwhole.
  set (ps := page_size_of w) in *. set (len := length (io_contents (device w))) in *.
  assert (Hlen : Z.of_nat len = Z.of_nat (length (disk w)) * ps) by lia.
  rewrite prim_rem_u64 by lia. apply wp_bind. unfold wp at 1, liftR. cbn -[wp].
  rewrite Hlen, Z.mod_mul by lia. cbn -[wp].
  rewrite prim_div_u64 by lia. unfold wp, liftR. cbn.
  rewrite Z.div_mul by lia. split_and!; [done..|lia].
Qed.

(** An out-of-range id is the only reason a healthy backend rejects a page. *)
Lemma validate_wp w id :
  store_ok w ->
  wp (validate_existing_page id)
    (post (fun _ w' => same_store w w' /\ id < Z.of_nat (length (disk w)) /\
                       Z.of_nat (length (disk w)) * page_size_of w < 2 ^ 63)
          (fun e w' => same_store w w' /\
             (e = PageNotFound /\ Z.of_nat (length (disk w)) <= id \/ ~ good w))) w.
Proof.
  intros Hok. unfold validate_existing_page. apply wp_bind, check_open_wp; [done|].
  eapply wp_post_bind; [by apply page_count_wp| |cbn; naive_solver].
  intros n w' (Hs & -> & Hlt).
  destruct (Z.leb_spec (Z.of_nat (length (disk w))) id).
  - apply wp_err. cbn. auto.
  - apply wp_ret. cbn. auto.
Qed.

Lemma byte_offset_ok w count :
  store_ok w -> 0 <= count -> count * page_size_of w < 2 ^ 64 ->
  byte_size_for_page_count count w = (Ok (count * page_size_of w), w).
Proof.
  intros Hok Hc Hlt. unfold byte_size_for_page_count.
  destruct Hok as [_ Hps _]. rewrite prim_div_u64 by lia. cbn [bindR].
  destruct (Z.ltb_spec ((2 ^ 64 - 1) / page_size_of w) count) as [Hb|].
  - pose proof (Z.div_le_lower_bound (2 ^ 64 - 1) (page_size_of w) count). nia.
  - rewrite wrap64_mod, Z.mod_small by nia. done.
Qed.

Lemma disk_lookup w i :
  store_ok w -> (i < length (disk w))%nat ->
  disk w !! i = Some (slice (i * page_bytes_nat w) (page_bytes_nat w) (io_contents (device w))) /\
  (i * page_bytes_nat w + page_bytes_nat w <= length (io_contents (device w)))%nat.
Proof.
  intros Hok Hi. unfold disk in Hi. rewrite length_chunks in Hi.
  split; [|by apply chunk_bound]. unfold disk. by rewrite lookup_chunks, decide_True.
Qed.

Lemma on_store_wp {A} (m : M W A) Q buf w :
  wp m (fun r w' => Q r (buf, w')) w -> wp (on_store m) Q (buf, w).
Proof. intros. by apply wp_zoom. Qed.

Lemma length_head_page w buf :
  (page_bytes_nat w <= length buf)%nat ->
  length (take (Z.to_nat (page_size_of w)) buf) = page_bytes_nat w.
Proof. intros. rewrite length_take. unfold page_bytes_nat in *. lia. Qed.

Lemma page_offset w i :
  store_ok w -> Z.of_nat i * page_size_of w = Z.of_nat (i * page_bytes_nat w).
Proof. intros Hok. pose proof (so_page_size _ Hok). unfold page_bytes_nat. nia. Qed.

Lemma read_subspan_wp w i buf :
  store_ok w -> (i < length (disk w))%nat -> (page_bytes_nat w <= length buf)%nat ->
  wp (read_subspan (Z.of_nat i * page_size_of w))
    (post (fun n st => same_store w st.2 /\ n = page_size_of w /\ exists page,
             disk w !! i = Some page /\ st.1 = page ++ drop (page_bytes_nat w) buf)
          (fun _ st => same_store w st.2 /\ length st.1 = length buf /\ ~ good w /\
             (clean_reads S -> st.1 = buf)))
    (buf, w).
Proof.
  intros Hok Hi Hbuf. destruct (disk_lookup w i Hok Hi) as [Hlk Hle].
  pose proof (so_page_size _ Hok). pose proof (length_head_page w buf Hbuf) as Hlb.
  rewrite (page_offset w i Hok).
  assert (0 < page_bytes_nat w)%nat by (unfold page_bytes_nat; lia).
  pose proof (io_read_spec (Z.of_nat (i * page_bytes_nat w)) (take (Z.to_nat (page_size_of w)) buf)
    (device w) (length_nonempty _ _ Hlb ltac:(lia)) ltac:(lia)) as Hr.
  unfold wp, read_subspan in *.
  destruct (io_read _ _) as [[n|e|] [pb d]] eqn:Hio; cbn in Hr |- *; [| |done].
  - rewrite Nat2Z.id in Hr. destruct Hr as (Hc & -> & -> & Hg).
    assert (Hav : (page_bytes_nat w <= length (drop (i * page_bytes_nat w)
      (io_contents (device w))))%nat) by (rewrite length_drop; lia).
    unfold read_count. rewrite overlay_full by (rewrite Hlb; done).
    rewrite Hlb, Nat.min_l by done. split_and!.
    + by unfold same_store, good.
    + unfold page_bytes_nat. lia.
    + by eexists.
  - destruct Hr as (Hc & Hl & Hg). split_and!; [|rewrite length_app, Hl, Hlb, length_drop; unfold page_bytes_nat in *; lia|done|].
    + unfold same_store, good; cbn. naive_solver.
    + intros Hclean. apply Hclean in Hio. cbn in Hio. subst pb. apply take_drop.
Qed.

(** [read_page] fills the head of the buffer with the stored page; on any
    error the device is unchanged, and the buffer is untouched when the page
    does not exist or the device's failed reads transfer nothing. *)
Lemma read_page_wp w id buf :
  store_ok w -> 0 <= id -> (page_bytes_nat w <= length buf)%nat ->
  wp (read_page id)
    (post (fun _ st => same_store w st.2 /\ exists page,
             disk w !! Z.to_nat id = Some page /\
             st.1 = page ++ drop (page_bytes_nat w) buf)
          (fun e st => same_store w st.2 /\ length st.1 = length buf /\
             (e = PageNotFound /\ Z.of_nat (length (disk w)) <= id /\ st.1 = buf \/ ~ good w) /\
             (clean_reads S -> st.1 = buf)))
    (buf, w).
Proof.
  intros Hok Hid Hbuf. pose proof (so_page_size _ Hok). unfold read_page. wp_pure.
  apply wp_assert_bind; [unfold page_bytes_nat in Hbuf; cbn; lia|].
  apply wp_bind, on_store_wp. eapply wp_mono; [by apply validate_wp|].
  intros [[]|e|] w1; cbn -[wp bindM]; [|naive_solver|done]. intros (Hs1 & Hlt & Hsz).
  pose proof (same_store_ok _ _ Hs1 Hok) as Hok1.
  pose proof (same_store_size _ _ Hs1) as Hps1. pose proof (same_store_disk _ _ Hs1) as Hd1.
  apply wp_bind, on_store_wp. unfold byte_offset_for_page. eapply wp_eq.
  { apply byte_offset_ok; [done..|]. rewrite Hps1. nia. }
  cbn -[wp bindM]. assert (Hpb : page_bytes_nat w1 = page_bytes_nat w)
    by (unfold page_bytes_nat; by rewrite Hps1).
  replace id with (Z.of_nat (Z.to_nat id)) at 1 by lia.
  eapply wp_post_bind; [apply read_subspan_wp; [done|rewrite Hd1; lia|by rewrite Hpb]| |].
  - intros n [buf' w2] (Hs2 & -> & page & Hpg & Hb'). cbn in *.
    rewrite Hps1, Z.eqb_refl. apply wp_ret. cbn. rewrite Hd1, Hpb in *.
    split; [by etrans|eauto].
  - intros e [buf' w2] (Hs2 & Hl & Hg & Hcl). cbn in *. split_and!; [by etrans|done| |done].
    right. intros Hgw. by apply Hg, (same_store_good _ _ Hs1).
Qed.

(** The effect of a page write on the store. *)
Lemma splice_disk w d i page :
  store_ok w -> (i < length (disk w))%nat -> length page = page_bytes_nat w ->
  io_contents d = splice (i * page_bytes_nat w) page (io_contents (device w)) ->
  disk (set_device d w) = <[i:=page]> (disk w) /\ store_ok (set_device d w).
Proof.
  intros Hok Hi Hl Hc. destruct (disk_lookup w i Hok Hi) as [_ Hle].
  assert (Hd : disk (set_device d w) = <[i:=page]> (disk w)).
  { unfold disk, page_bytes_nat, page_size_of in *. cbn. rewrite Hc.
    apply chunks_splice; [done|]. by rewrite length_chunks in Hi. }
  split; [done|]. destruct Hok as [Ho Hp Hw]. split; [done..|].
  rewrite Hd, length_insert. unfold page_bytes_nat, page_size_of in *. cbn.
  rewrite Hc, length_splice by lia. done.
Qed.

Lemma extend_disk w d :
  store_ok w ->
  io_contents d = resize (length (disk w) * page_bytes_nat w + page_bytes_nat w) x00
                    (io_contents (device w)) ->
  disk (set_device d w) = disk w ++ [replicate (page_bytes_nat w) x00] /\
  store_ok (set_device d w).
Proof.
  intros Hok Hc. destruct Hok as [Ho Hp Hw].
  assert (Hd : disk (set_device d w) = disk w ++ [replicate (page_bytes_nat w) x00]).
  { unfold disk at 1. unfold page_bytes_nat, page_size_of in *. cbn. rewrite Hc.
    apply chunks_extend; [unfold page_size_of in Hp; lia|done]. }
  split; [done|]. split; [done..|]. rewrite Hd, length_app.
  unfold page_bytes_nat, page_size_of in *. cbn. rewrite Hc, length_resize. lia.
Qed.

(** A store that did not change is one whose page [i] was replaced by itself. *)
Lemma same_store_torn w w' i :
  store_ok w -> same_store w w' ->
  exists torn, length torn = page_bytes_nat w /\ disk w' = <[i:=torn]> (disk w).
Proof.
  intros Hok Hs. rewrite (same_store_disk _ _ Hs).
  destruct (disk w !! i) as [pg|] eqn:Hpg.
  - exists pg. split; [|by rewrite list_insert_id].
    by apply (Forall_lookup_1 _ _ _ _ (disk_Forall w) Hpg).
  - exists (replicate (page_bytes_nat w) x00). rewrite length_replicate. split; [done|].
    rewrite list_insert_ge; [done|]. by apply lookup_ge_None.
Qed.

(** The raw transfer of one page. *)
Lemma write_device_wp w i page :
  store_ok w -> (i < length (disk w))%nat -> length page = page_bytes_nat w ->
  wp (on_device (io_write (Z.of_nat i * page_size_of w) page))
    (post (fun n w' => n = page_size_of w /\ store_ok w' /\ pstore w' = pstore w /\
             disk w' = <[i := page]> (disk w) /\ (good w -> good w'))
          (fun _ w' => store_ok w' /\ pstore w' = pstore w /\
             (exists torn, length torn = page_bytes_nat w /\ disk w' = <[i := torn]> (disk w)) /\
             ~ good w)) w.
Proof.
  intros Hok Hi Hl. pose proof (so_page_size _ Hok).
  destruct (disk_lookup w i Hok Hi) as [_ Hle]. rewrite (page_offset w i Hok).
  assert (0 < page_bytes_nat w)%nat by (unfold page_bytes_nat; lia).
  apply on_device_wp. eapply wp_post_mono;
    [apply io_write_spec; [by eapply length_nonempty|lia|lia]|..]; rewrite Nat2Z.id.
  - intros n d (-> & Hc & Hg). destruct (splice_disk w d i page Hok Hi Hl Hc).
    split_and!; try done. unfold page_bytes_nat in Hl. lia.
  - intros e d ((torn & Ht & Hc) & Hg).
    destruct (splice_disk w d i torn Hok Hi ltac:(lia) Hc).
    split_and!; try done. exists torn. split; [lia|done].
Qed.

(** [write_page] replaces exactly one existing page; a failed write can tear
    that page and no other. *)
Lemma write_page_wp w id buf :
  store_ok w -> 0 <= id -> (page_bytes_nat w <= length buf)%nat ->
  wp (write_page id buf)
    (post (fun _ w' => store_ok w' /\ pstore w' = pstore w /\
             (Z.to_nat id < length (disk w))%nat /\
             disk w' = <[Z.to_nat id := take (page_bytes_nat w) buf]> (disk w) /\
             (good w -> good w'))
          (fun e w' => store_ok w' /\ pstore w' = pstore w /\
             (exists torn, length torn = page_bytes_nat w /\
                disk w' = <[Z.to_nat id := torn]> (disk w)) /\
             (e = PageNotFound /\ Z.of_nat (length (disk w)) <= id \/ ~ good w)))
    w.
Proof.
  intros Hok Hid Hbuf. pose proof (so_page_size _ Hok). unfold write_page. wp_pure.
  apply wp_assert_bind; [unfold page_bytes_nat in Hbuf; lia|].
  pose proof (length_head_page w buf Hbuf) as Hlb.
  eapply wp_post_bind; [by apply validate_wp| |].
  2: { intros e w' [Hs Hr]. cbn. split_and!; [by eapply same_store_ok|apply Hs| |done].
       by apply same_store_torn. }
  intros [] w1 (Hs1 & Hlt & Hsz).
  pose proof (same_store_ok _ _ Hs1 Hok) as Hok1.
  pose proof (same_store_size _ _ Hs1) as Hps1. pose proof (same_store_disk _ _ Hs1) as Hd1.
  assert (Hpb : page_bytes_nat w1 = page_bytes_nat w)
    by (unfold page_bytes_nat; by rewrite Hps1).
  unfold byte_offset_for_page. eapply wp_eq_bind.
  { apply byte_offset_ok; [done..|]. rewrite Hps1. nia. }
  replace id with (Z.of_nat (Z.to_nat id)) at 1 by lia.
  pose proof (same_store_good _ _ Hs1) as Hg1. destruct Hs1 as [Hp1 _].
  eapply wp_post_bind.
  { apply (write_device_wp w1); [done|rewrite Hd1; lia|by rewrite Hlb, Hpb]. }
  - intros n w2 (-> & Hok2 & Hp2 & Hd2 & Hg2). rewrite Hps1, Z.eqb_refl. apply wp_ret. cbn.
    rewrite Hd2, Hd1, Hp2, Hp1. split_and!; [done..|lia|done|auto].
  - intros e w2 (Hok2 & Hp2 & Ht & Hg2). cbn. rewrite Hp2, Hp1.
    rewrite Hpb, Hd1 in Ht. split_and!; [done..|auto].
Qed.

(** [allocate_page] appends one page of zeroes and returns its id. *)
Lemma allocate_page_wp w :
  store_ok w ->
  wp allocate_page
    (post (fun id w' => store_ok w' /\ pstore w' = pstore w /\
             id = Z.of_nat (length (disk w)) /\
             disk w' = disk w ++ [replicate (page_bytes_nat w) x00] /\
             (good w -> good w'))
          (fun _ w' => store_ok w' /\ pstore w' = pstore w /\ disk w' = disk w /\
             (good w -> io_limit < (Z.of_nat (length (disk w)) + 1) * page_size_of w))) w.
Proof.
  intros Hok. unfold allocate_page. apply wp_bind, check_open_wp; [done|].
  eapply wp_post_bind; [by apply page_count_wp| |].
  2: { intros e w' [Hs Hg]. cbn. split_and!; [by eapply same_store_ok|apply Hs| |done].
       by apply same_store_disk. }
  intros n w1 (Hs1 & -> & Hlt). pose proof (same_store_ok _ _ Hs1 Hok) as Hok1.
  pose proof (so_page_size _ Hok). pose proof (same_store_size _ _ Hs1) as Hps1.
  pose proof (same_store_disk _ _ Hs1) as Hd1. destruct Hs1 as (Hp1 & Hc1 & Hg1).
  set (n := length (disk w)) in *.
  rewrite wrap64_mod, Z.mod_small by nia.
  destruct (Z.lt_ge_cases ((Z.of_nat n + 1) * page_size_of w) (2 ^ 64)) as [Hin|Hout].
  - eapply wp_eq_bind; [apply byte_offset_ok; [done|lia|by rewrite Hps1]|]. rewrite Hps1.
    apply wp_bind, on_device_wp.
    eapply wp_mono; [apply io_truncate_spec; nia|].
    intros [[]|e|] d; cbn -[wp]; [| |done].
    + intros [Hc Hg]. apply wp_ret. cbn.
      destruct (extend_disk w1 d Hok1) as [Hd Hk].
      { rewrite Hc. f_equal. rewrite Hd1. unfold page_bytes_nat. rewrite Hps1. fold n. nia. }
      split_and!; [done..| |by intros ?; apply Hg, Hg1]. rewrite Hd, Hd1.
      unfold page_bytes_nat. by rewrite Hps1.
    + intros [Hc Hg]. assert (Hs : same_disk w1 (set_device d w1)) by done.
      destruct (same_disk_ok _ _ Hs Hok1).
      split_and!; [done..|by rewrite <- Hd1|by intros ?; apply Hg, Hg1].
  - apply wp_bind. unfold wp, byte_size_for_page_count. rewrite prim_div_u64, Hps1 by lia.
    cbn [bindR]. pose proof io_limit_bound.
    destruct (Z.ltb_spec ((2 ^ 64 - 1) / page_size_of w) (Z.of_nat n + 1)) as [Hb|Hb].
    + cbn. split_and!; [done..|lia].
    + pose proof (Z.mul_div_le (2 ^ 64 - 1) (page_size_of w)). nia.
Qed.

Lemma store_sync_wp w :
  store_ok w ->
  wp store_sync (post (fun _ w' => same_store w w')
                      (fun _ w' => same_disk w w' /\ ~ good w)) w.
Proof.
  intros Hok. unfold store_sync. apply wp_bind, check_open_wp; [done|].
  apply on_device_wp. eapply wp_post_mono; [apply io_sync_spec|..];
    unfold same_store, same_disk, good; cbn; naive_solver.
Qed.
End specification.

(** ** Properties *)

(** On a healthy backend a page write succeeds and a later read of any
    existing page returns the written bytes for that page and the old bytes for
    every other page. *)
Theorem write_read_page {S} `{StorageIOLaws S} (w : StoreW S) (id j : Z) (page old buf : list byte) :
  store_ok w -> good w ->
  0 <= id < Z.of_nat (length (disk w)) -> length page = page_bytes_nat w ->
  0 <= j -> disk w !! Z.to_nat j = Some old -> length buf = page_bytes_nat w ->
  exists w1 w2,
    write_page id page w = (Ok tt, w1) /\
    read_page j (buf, w1) = (Ok tt, (if j =? id then page else old, w2)) /\
    store_ok w2 /\ disk w2 = <[Z.to_nat id := page]> (disk w).
Proof.
  intros Hok Hg Hid Hpl Hj Hold Hbl.
  destruct (wp_total _ _ _ _ (write_page_wp w id page Hok ltac:(lia) ltac:(lia)))
    as ([] & w1 & Hw & Hok1 & Hp1 & _ & Hd1 & Hg1); [naive_solver lia|].
  rewrite take_ge in Hd1 by lia.
  assert (Hpb : page_bytes_nat w1 = page_bytes_nat w)
    by (unfold page_bytes_nat, page_size_of; by rewrite Hp1).
  assert (Hjl : (Z.to_nat j < length (disk w))%nat) by by eapply lookup_lt_Some.
  destruct (wp_total _ _ _ _ (read_page_wp w1 j buf Hok1 ltac:(lia) ltac:(lia)))
    as ([] & [b2 w2] & Hr & Hs2 & pg & Hpg & Hb2).
  { intros e st (_ & _ & Hbad & _). rewrite Hd1, length_insert in Hbad. naive_solver lia. }
  cbn in *. rewrite Hpb, drop_ge, app_nil_r in Hb2 by lia. subst b2.
  exists w1, w2. split_and!; [done| |by eapply same_store_ok|].
  - rewrite Hr. do 3 f_equal. rewrite Hd1, list_lookup_insert in Hpg.
    destruct (Z.eqb_spec j id) as [->|]; [rewrite decide_True in Hpg by lia|
      rewrite decide_False in Hpg by lia]; congruence.
  - rewrite <- Hd1. by apply same_store_disk.
Qed.

(** While the file stays within what the backend can hold, [allocate_page]
    succeeds: it returns the number of existing pages as the new id and appends
    one zeroed page, leaving the others as they were. *)
Theorem allocate_page_appends {S} `{StorageIOLaws S} (w : StoreW S) :
  store_ok w -> good w ->
  (Z.of_nat (length (disk w)) + 1) * page_size_of w <= io_limit ->
  exists w', allocate_page w = (Ok (Z.of_nat (length (disk w))), w') /\
    store_ok w' /\ good w' /\
    disk w' = disk w ++ [replicate (page_bytes_nat w) x00].
Proof.
  intros Hok Hg Hlim.
  destruct (wp_total _ _ _ _ (allocate_page_wp w Hok))
    as (id & w' & Ha & Hok' & _ & -> & Hd & Hg'); [naive_solver lia|].
  exists w'. split_and!; auto.
Qed.

(** A four-byte-page store over two pages, for the witnesses. *)
Definition example_store : StoreW MemDev.t :=
  {| pstore := {| ps_io := true; ps_config := {| cfg_page_size := 4 |} |};
     device := {| MemDev.bytes := [x01; x02; x03; x04; x05; x06; x07; x08]; MemDev.faults := [] |} |}.

Lemma example_store_ok : store_ok example_store.
Proof. split; [done|cbn; lia|done]. Qed.
Lemma example_store_good : good example_store.
Proof. split; [done|]. by vm_compute. Qed.

Lemma write_read_page_witness :
  exists w1 w2,
    write_page 1 [x0a; x0b; x0c; x0d] example_store = (Ok tt, w1) /\
    read_page 0 ([x00; x00; x00; x00], w1) = (Ok tt, ([x01; x02; x03; x04], w2)) /\
    store_ok w2 /\ disk w2 = [[x01; x02; x03; x04]; [x0a; x0b; x0c; x0d]].
Proof.
  assert (Hid : 0 <= 1 < Z.of_nat (length (disk example_store))) by (vm_compute; split; [discriminate|reflexivity]).
  destruct (write_read_page example_store 1 0 [x0a; x0b; x0c; x0d] [x01; x02; x03; x04]
    [x00; x00; x00; x00] example_store_ok example_store_good Hid eq_refl ltac:(lia)
    eq_refl eq_refl) as (w1 & w2 & Hw & Hr & Hok & Hd).
  exists w1, w2. split; [exact Hw|]. split; [exact Hr|]. split; [exact Hok|].
  rewrite Hd. reflexivity.
Defined.

Lemma allocate_page_appends_witness :
  exists w', allocate_page example_store = (Ok 2, w') /\ store_ok w' /\ good w' /\
    disk w' = [[x01; x02; x03; x04]; [x05; x06; x07; x08]; [x00; x00; x00; x00]].
Proof.
  assert (Hlim : (Z.of_nat (length (disk example_store)) + 1) * page_size_of example_store
    <= io_limit) by (vm_compute; discriminate).
  destruct (allocate_page_appends example_store example_store_ok example_store_good Hlim)
    as (w' & Ha & Hok & Hg & Hd).
  exists w'. split; [exact Ha|]. split; [exact Hok|]. split; [exact Hg|].
  rewrite Hd. reflexivity.
Defined.
