(* ===== verification/EvictionPolicy.v ===== *)
(** * EvictionPolicy: src/src/storage/buffer/eviction_policy.{hpp,cpp}

    The pluggable replacement policy as a class of operations, and the contract
    the buffer pool relies on.  A policy is [ep_coherent] with the resident page
    of each frame; every notification the pool sends keeps it so, and a victim
    is chosen exactly when some frame can be evicted. *)
From S2P Require Import Prelude Utils.

Inductive EvictionPolicyKind : Set := ClockSweep | LruK | Arc.
#[export] Instance EvictionPolicyKind_eq_dec : EqDecision EvictionPolicyKind.
Proof. solve_decision. Defined.

Record EvictionPolicyConfig := { kind : EvictionPolicyKind; lru_k_history : Z }.
Definition EvictionPolicyConfig_default : EvictionPolicyConfig :=
  {| kind := ClockSweep; lru_k_history := 2 |}.

Record EvictionFrameState := {
  efs_page_id : Z;
  efs_valid : bool;
  efs_pinned : bool;
}.

(** The virtual operations.  Frame indices are positions of a vector. *)
Class EvictionPolicy (P : Type) := {
  ep_reset : nat -> M P unit;
  ep_record_access : Z -> nat -> M P unit;
  ep_record_miss : Z -> M P unit;
  ep_record_load : Z -> nat -> M P unit;
  ep_record_evict : Z -> nat -> M P unit;
  ep_choose_victim : list EvictionFrameState -> M P nat;
}.

(** [detail::is_evictable]. *)
Definition is_evictable (frames : list EvictionFrameState) (frame_index : nat) : bool :=
  match frames !! frame_index with
  | None => false
  | Some frame => efs_valid frame && negb (efs_pinned frame)
  end.

Lemma is_evictable_lt frames i : is_evictable frames i = true -> (i < length frames)%nat.
Proof.
  unfold is_evictable. destruct (frames !! i) eqn:Hi; [|done].
  intros _. by eapply lookup_lt_Some.
Qed.

(** The page resident in each frame. *)
Definition resident_page (f : EvictionFrameState) : option Z :=
  if efs_valid f then Some (efs_page_id f) else None.
Definition resident (frames : list EvictionFrameState) : list (option Z) :=
  resident_page <$> frames.

Lemma length_resident frames : length (resident frames) = length frames.
Proof. apply length_fmap. Qed.

Lemma is_evictable_resident frames i :
  is_evictable frames i = true -> exists page, resident frames !! i = Some (Some page).
Proof.
  unfold is_evictable, resident. rewrite list_lookup_fmap.
  destruct (frames !! i) as [f|]; [|done]. cbn. unfold resident_page.
  destruct (efs_valid f); [eauto|done].
Qed.

(** What the pool relies on. *)
Class EvictionPolicyLaws (P : Type) `{EvictionPolicy P} := {
  ep_coherent : P -> list (option Z) -> Prop;
  ep_reset_spec n p :
    (0 < n)%nat ->
    wp (ep_reset n) (post (fun _ p' => ep_coherent p' (replicate n None)) (fun _ _ => False)) p;
  ep_access_spec p rs i page :
    ep_coherent p rs -> rs !! i = Some (Some page) ->
    wp (ep_record_access page i) (post (fun _ p' => ep_coherent p' rs) (fun _ _ => False)) p;
  ep_miss_spec p rs page :
    ep_coherent p rs ->
    wp (ep_record_miss page) (post (fun _ p' => ep_coherent p' rs) (fun _ _ => False)) p;
  ep_evict_spec p rs i page :
    ep_coherent p rs -> rs !! i = Some (Some page) ->
    wp (ep_record_evict page i)
      (post (fun _ p' => ep_coherent p' (<[i:=None]> rs)) (fun _ _ => False)) p;
  ep_load_spec p rs i page :
    ep_coherent p rs -> rs !! i = Some None -> Some page ∉ rs ->
    wp (ep_record_load page i)
      (post (fun _ p' => ep_coherent p' (<[i:=Some page]> rs)) (fun _ _ => False)) p;
  ep_choose_spec p frames :
    ep_coherent p (resident frames) -> frames <> [] ->
    wp (ep_choose_victim frames)
      (post (fun i p' => is_evictable frames i = true /\ ep_coherent p' (resident frames))
            (fun e p' => e = BufferPoolFull /\ ep_coherent p' (resident frames) /\
                         forall i, is_evictable frames i = false)) p;
}.
