(* ===== verification/ClockSweep.v ===== *)
(** * ClockSweep: src/src/storage/buffer/clock_sweep_policy.{hpp,cpp}

    The second-chance policy, and the proof that its bounded sweep (two turns of
    the clock) always finds a victim when there is one. *)
From S2P Require Import Prelude Utils EvictionPolicy.

Record ClockSweepPolicy := { referenced : list bool; clock_hand : nat }.
Definition ClockSweepPolicy_default : ClockSweepPolicy :=
  {| referenced := []; clock_hand := 0 |}.

Definition clock_reset (capacity : nat) : M ClockSweepPolicy unit :=
  let* _ := assertM (0 <? capacity)%nat in
  modifyM (fun _ => {| referenced := replicate capacity false; clock_hand := 0 |}).

(** [referenced[frame_index] = value]. *)
Definition set_referenced (frame_index : nat) (value : bool) (p : ClockSweepPolicy) :
    ClockSweepPolicy :=
  {| referenced := <[frame_index := value]> (referenced p); clock_hand := clock_hand p |}.

Definition clock_record_access (page_id : Z) (frame_index : nat) : M ClockSweepPolicy unit :=
  fun p => if (length (referenced p) <=? frame_index)%nat then (Err InvalidArgument, p)
           else (Ok tt, set_referenced frame_index true p).

Definition clock_record_miss (page_id : Z) : M ClockSweepPolicy unit := retM tt.

Definition clock_record_load (page_id : Z) (frame_index : nat) : M ClockSweepPolicy unit :=
  clock_record_access page_id frame_index.

Definition clock_record_evict (page_id : Z) (frame_index : nat) : M ClockSweepPolicy unit :=
  fun p => if (length (referenced p) <=? frame_index)%nat then (Err InvalidArgument, p)
           else (Ok tt, set_referenced frame_index false p).

(** [clock_hand = (clock_hand + 1) % frames.size()]. *)
Definition advance_hand (n : nat) (p : ClockSweepPolicy) : ClockSweepPolicy :=
  {| referenced := referenced p; clock_hand := (clock_hand p + 1) mod n |}.

(** The [for] loop with [scans] iterations left. *)
Fixpoint clock_sweep (scans : nat) (frames : list EvictionFrameState) : M ClockSweepPolicy nat :=
  match scans with
  | O => errM BufferPoolFull
  | S scans => fun p =>
      let frame_index := clock_hand p in
      if is_evictable frames frame_index then
        match referenced p !! frame_index with
        | None => (Fault, p)
        | Some true =>
            clock_sweep scans frames
              (advance_hand (length frames) (set_referenced frame_index false p))
        | Some false => (Ok frame_index, advance_hand (length frames) p)
        end
      else clock_sweep scans frames (advance_hand (length frames) p)
  end.

Definition clock_choose_victim (frames : list EvictionFrameState) : M ClockSweepPolicy nat :=
  fun p =>
    if (length frames =? 0)%nat || negb (length (referenced p) =? length frames)%nat
    then (Err InvalidArgument, p)
    else clock_sweep (length frames * 2) frames p.

#[export] Instance clock_ops : EvictionPolicy ClockSweepPolicy := {
  ep_reset := clock_reset;
  ep_record_access := clock_record_access;
  ep_record_miss := clock_record_miss;
  ep_record_load := clock_record_load;
  ep_record_evict := clock_record_evict;
  ep_choose_victim := clock_choose_victim;
}.

(** ** The sweep *)

Definition clock_coherent (p : ClockSweepPolicy) (rs : list (option Z)) : Prop :=
  length (referenced p) = length rs /\ (clock_hand p < length rs)%nat.

Section sweep.
Context (frames : list EvictionFrameState).
#[local] Abbreviation n := (length frames).
Implicit Types p : ClockSweepPolicy.

Definition clock_wf p : Prop := length (referenced p) = n /\ (clock_hand p < n)%nat.

(** The frame the hand points at after [d] more steps. *)
Definition hand_after p (d : nat) : nat := (clock_hand p + d) mod n.

Lemma advance_wf p : clock_wf p -> clock_wf (advance_hand n p).
Proof.
  intros [Hl Hh]. split; [done|]. cbn. apply Nat.mod_upper_bound. lia.
Qed.
Lemma clear_wf p i : clock_wf p -> clock_wf (set_referenced i false p).
Proof. intros [Hl Hh]. split; [|done]. cbn. by rewrite length_insert. Qed.

Lemma hand_after_0 p : clock_wf p -> hand_after p 0 = clock_hand p.
Proof. intros [_ Hh]. unfold hand_after. rewrite Nat.add_0_r. by apply Nat.mod_small. Qed.
Lemma hand_after_advance p d : hand_after (advance_hand n p) d = hand_after p (S d).
Proof.
  unfold hand_after. cbn. rewrite Nat.Div0.add_mod_idemp_l. f_equal. lia.
Qed.

(** The safety half: a victim is evictable and nothing but bits is touched. *)
Lemma clock_sweep_sound scans p :
  clock_wf p ->
  wp (clock_sweep scans frames)
    (post (fun i p' => is_evictable frames i = true /\ clock_wf p')
          (fun e p' => e = BufferPoolFull /\ clock_wf p')) p.
Proof.
  revert p. induction scans as [|scans IH]; intros p Hwf; [done|].
  unfold wp. cbn [clock_sweep]. destruct (is_evictable frames (clock_hand p)) eqn:He.
  - destruct Hwf as [Hl Hh].
    destruct (lookup_lt_is_Some_2 (referenced p) (clock_hand p)) as [b Hb]; [lia|].
    rewrite Hb. destruct b.
    + by apply IH, advance_wf, clear_wf.
    + cbn. split; [done|]. by apply advance_wf.
  - by apply IH, advance_wf.
Qed.

(** When a sweep of [scans] steps finds no victim, every evictable frame it
    passed was marked before and is unmarked after. *)
Lemma clock_sweep_exhausted scans p p' :
  clock_wf p -> clock_sweep scans frames p = (Err BufferPoolFull, p') ->
  (forall i, referenced p !! i = Some false -> referenced p' !! i = Some false) /\
  forall d, (d < scans)%nat -> is_evictable frames (hand_after p d) = true ->
    referenced p !! hand_after p d = Some true /\
    referenced p' !! hand_after p d = Some false.
Proof.
  revert p. induction scans as [|scans IH]; intros p Hwf Hs.
  { injection Hs as <-. split; [done|lia]. }
  cbn [clock_sweep] in Hs. destruct (is_evictable frames (clock_hand p)) eqn:He.
  - destruct (referenced p !! clock_hand p) as [[]|] eqn:Hr; [|done..].
    apply IH in Hs as [Hmono Hd]; [|by apply advance_wf, clear_wf]. cbn in Hmono.
    destruct Hwf as [Hl Hh]. split.
    + intros i Hi. apply Hmono. rewrite list_lookup_insert. case_decide; naive_solver.
    + intros [|d] Hlt Hev.
      * rewrite hand_after_0 in * by done. split; [done|]. apply Hmono.
        rewrite list_lookup_insert, decide_True by lia. done.
      * rewrite <- hand_after_advance in Hev |- *. destruct (Hd d ltac:(lia) Hev) as [H1 H2].
        split; [|done]. unfold hand_after in H1 |- *. cbn in H1 |- *.
        rewrite list_lookup_insert in H1. case_decide; naive_solver.
  - apply IH in Hs as [Hmono Hd]; [|by apply advance_wf]. split; [done|].
    intros [|d] Hlt Hev.
    + rewrite hand_after_0 in Hev by done. congruence.
    + rewrite <- hand_after_advance in Hev |- *. apply (Hd d ltac:(lia) Hev).
Qed.

Lemma clock_sweep_split a b p p' :
  clock_sweep (a + b) frames p = (Err BufferPoolFull, p') ->
  exists p1, clock_sweep a frames p = (Err BufferPoolFull, p1) /\
             clock_sweep b frames p1 = (Err BufferPoolFull, p').
Proof.
  revert p. induction a as [|a IH]; intros p Hs; [by exists p|].
  cbn [Nat.add clock_sweep] in Hs |- *.
  destruct (is_evictable frames (clock_hand p)); [|by apply IH].
  destruct (referenced p !! clock_hand p) as [[]|]; [by apply IH|done..].
Qed.

(** Any frame is reached within one turn. *)
Lemma hand_reaches p j :
  clock_wf p -> (j < n)%nat -> exists d, (d < n)%nat /\ hand_after p d = j.
Proof.
  intros [_ Hh] Hj. unfold hand_after. destruct (decide (clock_hand p <= j)%nat) as [Hle|Hgt].
  - exists (j - clock_hand p)%nat. split; [lia|].
    replace (clock_hand p + (j - clock_hand p))%nat with j by lia. by apply Nat.mod_small.
  - exists (length frames - clock_hand p + j)%nat. split; [lia|].
    replace (clock_hand p + (length frames - clock_hand p + j))%nat
      with (j + 1 * length frames)%nat by lia.
    rewrite Nat.Div0.mod_add. by apply Nat.mod_small.
Qed.

(** The liveness half: two turns suffice. *)
Lemma clock_sweep_complete p p' :
  clock_wf p -> clock_sweep (n * 2) frames p = (Err BufferPoolFull, p') ->
  forall i, is_evictable frames i = false.
Proof.
  intros Hwf Hs i. destruct (is_evictable frames i) eqn:He; [exfalso|done].
  pose proof (is_evictable_lt _ _ He) as Hi.
  replace (n * 2)%nat with (n + n)%nat in Hs by lia.
  apply clock_sweep_split in Hs as (p1 & Hs1 & Hs2).
  pose proof (clock_sweep_sound n p Hwf) as Hwf1. unfold wp in Hwf1. rewrite Hs1 in Hwf1.
  destruct Hwf1 as [_ Hwf1]. cbn in Hwf1.
  destruct (hand_reaches p i Hwf Hi) as (d & Hd & Hr).
  destruct (clock_sweep_exhausted _ _ _ Hwf Hs1) as [_ H1].
  specialize (H1 d Hd). rewrite Hr in H1. destruct (H1 He) as [_ Hclear].
  destruct (hand_reaches p1 i Hwf1 Hi) as (d' & Hd' & Hr').
  destruct (clock_sweep_exhausted _ _ _ Hwf1 Hs2) as [_ H2].
  specialize (H2 d' Hd'). rewrite Hr' in H2. destruct (H2 He). congruence.
Qed.
End sweep.

#[export] Program Instance clock_laws : EvictionPolicyLaws ClockSweepPolicy :=
  { ep_coherent := clock_coherent }.
Next Obligation.
  intros [|n] p Hn; [lia|]. unfold wp; cbn. unfold clock_coherent; cbn.
  rewrite !length_replicate. split; [done|lia].
Qed.
Next Obligation.
  intros p rs i page [Hl Hh] Hi%lookup_lt_Some. unfold wp; cbn. unfold clock_record_access.
  destruct (Nat.leb_spec (length (referenced p)) i); [lia|]. cbn.
  unfold clock_coherent. cbn. by rewrite length_insert.
Qed.
Next Obligation. done. Qed.
Next Obligation.
  intros p rs i page [Hl Hh] Hi%lookup_lt_Some. unfold wp; cbn. unfold clock_record_evict.
  destruct (Nat.leb_spec (length (referenced p)) i); [lia|]. cbn.
  unfold clock_coherent. cbn. by rewrite !length_insert.
Qed.
Next Obligation.
  intros p rs i page [Hl Hh] Hi%lookup_lt_Some _. unfold wp; cbn.
  unfold clock_record_load, clock_record_access.
  destruct (Nat.leb_spec (length (referenced p)) i); [lia|]. cbn.
  unfold clock_coherent. cbn. by rewrite !length_insert.
Qed.
Next Obligation.
  intros p frames [Hl Hh] Hne. rewrite length_resident in *.
  assert (Hwf : clock_wf frames p) by done.
  unfold wp; cbn. unfold clock_choose_victim.
  destruct (Nat.eqb_spec (length frames) 0); [by destruct frames|].
  rewrite Hl, Nat.eqb_refl. cbn [orb negb].
  pose proof (clock_sweep_sound frames (length frames * 2) p Hwf) as Hs. unfold wp in Hs.
  unfold clock_coherent. rewrite length_resident.
  destruct (clock_sweep _ frames p) as [[i|e|] p'] eqn:Hsw; cbn in Hs |- *; [done| |done].
  destruct Hs as [-> Hwf']. split_and!; [done|apply Hwf'..|].
  exact (clock_sweep_complete frames p p' Hwf Hsw).
Qed.

(** ** The second chance *)

Section second_chance.
Context (frames : list EvictionFrameState).
Implicit Types p : ClockSweepPolicy.

(** A successful sweep is an exhausted prefix followed by the hit. *)
Lemma clock_sweep_hit scans p i p' :
  clock_wf frames p -> clock_sweep scans frames p = (Ok i, p') ->
  exists d p1, (d < scans)%nat /\ clock_sweep d frames p = (Err BufferPoolFull, p1) /\
    i = hand_after frames p d /\ referenced p1 !! i = Some false.
Proof.
  revert p. induction scans as [|scans IH]; intros p Hwf Hs; [done|].
  assert (Hnext : forall q, clock_wf frames q -> clock_sweep scans frames q = (Ok i, p') ->
    (forall d, clock_sweep (S d) frames p = clock_sweep d frames q) ->
    (forall d, hand_after frames q d = hand_after frames p (S d)) ->
    exists d p1, (d < S scans)%nat /\ clock_sweep d frames p = (Err BufferPoolFull, p1) /\
      i = hand_after frames p d /\ referenced p1 !! i = Some false).
  { intros q Hq Hsq Hstep Hhand. destruct (IH q Hq Hsq) as (d & p1 & Hd & H1 & -> & H2).
    exists (S d), p1. rewrite Hstep, <- Hhand. auto with lia. }
  cbn [clock_sweep] in Hs, Hnext.
  destruct (is_evictable frames (clock_hand p)) eqn:He.
  - destruct (referenced p !! clock_hand p) as [[]|] eqn:Hr; [|..|done].
    + eapply Hnext; [|exact Hs|done|].
      * by apply advance_wf, clear_wf.
      * intros d. by rewrite hand_after_advance.
    + injection Hs as <- <-. exists 0%nat, p. rewrite hand_after_0 by done. auto with lia.
  - eapply Hnext; [by apply advance_wf|exact Hs|done|].
    intros d. by rewrite hand_after_advance.
Qed.

(** Only the bits of visited frames change. *)
Lemma clock_sweep_unvisited scans p p' i :
  clock_sweep scans frames p = (Err BufferPoolFull, p') ->
  clock_wf frames p ->
  (forall d, (d < scans)%nat -> hand_after frames p d <> i) ->
  referenced p' !! i = referenced p !! i.
Proof.
  revert p. induction scans as [|scans IH]; intros p Hs Hwf Hd; [by injection Hs as <-|].
  assert (Hd' : forall q, (forall d, hand_after frames q d = hand_after frames p (S d)) ->
    forall d, (d < scans)%nat -> hand_after frames q d <> i).
  { intros q Hq d Hlt. rewrite Hq. apply Hd. lia. }
  cbn [clock_sweep] in Hs. destruct (is_evictable frames (clock_hand p)).
  - destruct (referenced p !! clock_hand p) as [[]|]; [|done..].
    rewrite (IH _ Hs); [|by apply advance_wf, clear_wf|].
    + cbn. apply list_lookup_insert_ne. rewrite <- (hand_after_0 frames p Hwf). apply Hd. lia.
    + apply Hd'. intros d. by rewrite hand_after_advance.
  - rewrite (IH _ Hs); [done|by apply advance_wf|].
    apply Hd'. intros d. by rewrite hand_after_advance.
Qed.

Lemma hand_after_inj p d d' :
  clock_wf frames p -> (d < d' < length frames)%nat ->
  hand_after frames p d <> hand_after frames p d'.
Proof.
  intros [_ Hh] Hd Heq. unfold hand_after in Heq.
  pose proof (Nat.div_mod_eq (clock_hand p + d) (length frames)).
  pose proof (Nat.div_mod_eq (clock_hand p + d') (length frames)).
  rewrite Heq in *. set (q := ((clock_hand p + d) / length frames)%nat) in *.
  set (q' := ((clock_hand p + d') / length frames)%nat) in *.
  destruct (Nat.lt_trichotomy q q') as [|[|]]; nia.
Qed.
End second_chance.

(** C37: the clock always terminates within its two turns and gives a second
    chance.  When some frame is evictable a victim is returned, it is evictable,
    and if its reference bit was set then every evictable frame's bit was set;
    otherwise the answer is [BufferPoolFull]. *)
Theorem clock_second_chance (frames : list EvictionFrameState) (p : ClockSweepPolicy) :
  length (referenced p) = length frames -> (clock_hand p < length frames)%nat ->
  match clock_choose_victim frames p with
  | (Ok i, _) =>
      is_evictable frames i = true /\
      (referenced p !! i = Some true ->
       forall j, is_evictable frames j = true -> referenced p !! j = Some true)
  | (Err e, _) => e = BufferPoolFull /\ forall j, is_evictable frames j = false
  | (Fault, _) => False
  end.
Proof.
  intros Hl Hh. assert (Hwf : clock_wf frames p) by done.
  unfold clock_choose_victim. destruct (Nat.eqb_spec (length frames) 0); [lia|].
  rewrite Hl, Nat.eqb_refl. cbn [orb negb].
  pose proof (clock_sweep_sound frames (length frames * 2) p Hwf) as Hs. unfold wp in Hs.
  destruct (clock_sweep _ frames p) as [[i|e|] p'] eqn:Hsw; cbn in Hs; [| |done].
  - destruct Hs as [He _]. split; [done|]. intros Hmark j Hj.
    destruct (clock_sweep_hit _ _ _ _ _ Hwf Hsw) as (d & p1 & Hd & H1 & -> & Hclear).
    destruct (decide (d < length frames)%nat) as [Hlt|Hge].
    + rewrite (clock_sweep_unvisited _ _ _ _ _ H1 Hwf) in Hclear; [congruence|].
      intros d' Hd'. apply hand_after_inj; [done|lia].
    + destruct (hand_reaches frames p j Hwf (is_evictable_lt _ _ Hj)) as (dj & Hdj & Hrj).
      destruct (clock_sweep_exhausted _ _ _ _ Hwf H1) as [_ Hall].
      specialize (Hall dj ltac:(lia)). rewrite Hrj in Hall. by apply Hall.
  - destruct Hs as [-> _]. split; [done|]. exact (clock_sweep_complete frames p p' Hwf Hsw).
Qed.

Definition example_clock_frames : list EvictionFrameState :=
  [{| efs_page_id := 7; efs_valid := true; efs_pinned := true |};
   {| efs_page_id := 8; efs_valid := true; efs_pinned := false |};
   {| efs_page_id := 9; efs_valid := true; efs_pinned := false |}].

Lemma clock_second_chance_witness :
  clock_choose_victim example_clock_frames {| referenced := [true; true; false]; clock_hand := 1 |}
    = (Ok 2%nat, {| referenced := [true; false; false]; clock_hand := 0 |}) /\
  is_evictable example_clock_frames 2 = true.
Proof.
  split; [reflexivity|].
  apply (clock_second_chance example_clock_frames
    {| referenced := [true; true; false]; clock_hand := 1 |}); cbn; lia.
Defined.
