(* ===== verification/LruK.v ===== *)
(** * LruK: src/src/storage/buffer/lru_k_policy.{hpp,cpp}

    The LRU-K policy: the last K access times of every page ever loaded, and the
    victim with the oldest K-th last access (pages with a short history first). *)
From S2P Require Import Prelude Utils EvictionPolicy.

Record LruKPolicy := {
  k_history : Z;
  tick : Z;
  histories : gmap Z (list Z);
}.

Definition LruKPolicy_new (history_count : Z) : LruKPolicy :=
  {| k_history := history_count; tick := 0; histories := ∅ |}.

Definition lru_k_reset (capacity : nat) : M LruKPolicy unit :=
  let* _ := assertM (0 <? capacity)%nat in
  modifyM (fun p => {| k_history := k_history p; tick := 0; histories := ∅ |}).

(** [while (history.size() > k_history) history.pop_front()]. *)
Fixpoint pop_front_until (k : Z) (history : list Z) : list Z :=
  if Z.of_nat (length history) <=? k then history
  else match history with [] => [] | _ :: rest => pop_front_until k rest end.

Definition lru_k_record_access (page_id : Z) (frame_index : nat) : M LruKPolicy unit :=
  modifyM (fun p =>
    let now := wrap64 (tick p + 1) in
    let history := default [] (histories p !! page_id) ++ [now] in
    {| k_history := k_history p; tick := now;
       histories := <[page_id := pop_front_until (k_history p) history]> (histories p) |}).

Definition lru_k_record_miss (page_id : Z) : M LruKPolicy unit := retM tt.

Definition lru_k_record_load (page_id : Z) (frame_index : nat) : M LruKPolicy unit :=
  lru_k_record_access page_id frame_index.

Definition lru_k_record_evict (page_id : Z) (frame_index : nat) : M LruKPolicy unit := retM tt.

(** The locals of the scan: [found] with [victim], [victim_has_full_history]
    and [victim_score]. *)
Record LruKBest := { best_index : nat; best_full : bool; best_score : Z }.

(** The loop body for a frame with history [front :: rest]. *)
Definition lru_k_better (best : option LruKBest) (i : nat) (full : bool) (score : Z) :
    option LruKBest :=
  match best with
  | None => Some {| best_index := i; best_full := full; best_score := score |}
  | Some b =>
      if negb full && best_full b
      then Some {| best_index := i; best_full := full; best_score := score |}
      else if Bool.eqb full (best_full b) && (score <? best_score b)
      then Some {| best_index := i; best_full := best_full b; best_score := score |}
      else Some b
  end.

Fixpoint lru_k_scan (p : LruKPolicy) (frame_index : nat) (frames : list EvictionFrameState)
    (best : option LruKBest) : Result nat :=
  match frames with
  | [] => match best with None => Err BufferPoolFull | Some b => Ok (best_index b) end
  | frame :: rest =>
      if negb (efs_valid frame) || efs_pinned frame
      then lru_k_scan p (S frame_index) rest best
      else match histories p !! efs_page_id frame with
           | None | Some [] => Ok frame_index
           | Some ((score :: _) as history) =>
               lru_k_scan p (S frame_index) rest
                 (lru_k_better best frame_index (k_history p <=? Z.of_nat (length history)) score)
           end
  end.

Definition lru_k_choose_victim (frames : list EvictionFrameState) : M LruKPolicy nat :=
  fun p => (lru_k_scan p 0 frames None, p).

#[export] Instance lru_k_ops : EvictionPolicy LruKPolicy := {
  ep_reset := lru_k_reset;
  ep_record_access := lru_k_record_access;
  ep_record_miss := lru_k_record_miss;
  ep_record_load := lru_k_record_load;
  ep_record_evict := lru_k_record_evict;
  ep_choose_victim := lru_k_choose_victim;
}.

(** ** The choice *)

(** The rank of a page: no history first, then short histories, then full ones;
    within a class the older K-th last access first. *)
Definition lru_k_rank (p : LruKPolicy) (page : Z) : option (bool * Z) :=
  match histories p !! page with
  | None | Some [] => None
  | Some ((score :: _) as history) => Some (k_history p <=? Z.of_nat (length history), score)
  end.

Definition rank_le (a b : option (bool * Z)) : Prop :=
  match a, b with
  | None, _ => True
  | Some _, None => False
  | Some (fa, sa), Some (fb, sb) => (fa = false /\ fb = true) \/ (fa = fb /\ sa <= sb)
  end.

Lemma rank_le_refl a : rank_le a a.
Proof. destruct a as [[? ?]|]; cbn; [right; split; [done|lia]|done]. Qed.
Lemma rank_le_trans a b c : rank_le a b -> rank_le b c -> rank_le a c.
Proof.
  destruct a as [[[] ?]|], b as [[[] ?]|], c as [[[] ?]|]; cbn; try tauto;
    intros; destruct_or?; destruct_and?; try done; (left; split; done) || (right; split; [done|lia]).
Qed.

Section choice.
Context (p : LruKPolicy) (all : list EvictionFrameState).

Definition frame_rank (i : nat) : option (bool * Z) :=
  match all !! i with Some f => lru_k_rank p (efs_page_id f) | None => None end.

(** [best] summarises the frames before [i]. *)
Definition best_of (best : option LruKBest) (i : nat) : Prop :=
  match best with
  | None => forall j, (j < i)%nat -> is_evictable all j = false
  | Some b =>
      is_evictable all (best_index b) = true /\
      frame_rank (best_index b) = Some (best_full b, best_score b) /\
      forall j, (j < i)%nat -> is_evictable all j = true ->
        rank_le (frame_rank (best_index b)) (frame_rank j)
  end.

Lemma best_of_skip best i :
  best_of best i -> is_evictable all i = false -> best_of best (S i).
Proof.
  destruct best as [b|]; cbn.
  - intros (He & Hr & Hb) Hi. split_and!; [done..|]. intros j Hj Hje.
    destruct (decide (j = i)) as [->|]; [congruence|]. apply Hb; [lia|done].
  - intros Hb Hi j Hj. destruct (decide (j = i)) as [->|]; [done|]. apply Hb. lia.
Qed.

Lemma best_of_better best i full score :
  best_of best i -> is_evictable all i = true -> frame_rank i = Some (full, score) ->
  best_of (lru_k_better best i full score) (S i).
Proof.
  intros Hb Hi Hr.
  assert (Hnew : (forall j, (j < i)%nat -> is_evictable all j = true ->
    rank_le (Some (full, score)) (frame_rank j)) ->
    best_of (Some {| best_index := i; best_full := full; best_score := score |}) (S i)).
  { intros Hle. cbn. split_and!; [done..|]. intros j Hj Hje. rewrite Hr.
    destruct (decide (j = i)) as [->|]; [rewrite Hr; apply rank_le_refl|]. apply Hle; [lia|done]. }
  destruct best as [b|]; cbn in Hb; unfold lru_k_better.
  2: { apply Hnew. intros j Hj Hje. by rewrite Hb in Hje. }
  destruct Hb as (He & Hrb & Hbest). rewrite Hrb in Hbest.
  destruct (negb full && best_full b) eqn:Hc1.
  { apply Hnew. intros j Hj Hje. eapply rank_le_trans; [|by apply Hbest]. cbn.
    left. destruct full, (best_full b); done. }
  destruct (Bool.eqb full (best_full b) && (score <? best_score b)) eqn:Hc2.
  - apply andb_true_iff in Hc2 as [->%Bool.eqb_prop Hlt%Z.ltb_lt].
    apply Hnew. intros j Hj Hje. eapply rank_le_trans; [|by apply Hbest]. cbn.
    right. split; [done|lia].
  - cbn. split_and!; [done..|]. rewrite Hrb. intros j Hj Hje.
    destruct (decide (j = i)) as [->|]; [|apply Hbest; [lia|done]]. rewrite Hr. cbn.
    destruct full, (best_full b); cbn in *; try (left; done); try discriminate;
      right; (split; [done|]); apply Z.ltb_ge in Hc2; lia.
Qed.

Lemma lru_k_scan_spec i frames best :
  drop i all = frames -> best_of best i ->
  match lru_k_scan p i frames best with
  | Ok v => is_evictable all v = true /\
      forall j, is_evictable all j = true -> rank_le (frame_rank v) (frame_rank j)
  | Err e => e = BufferPoolFull /\ forall j, is_evictable all j = false
  | Fault => False
  end.
Proof.
  revert i best. induction frames as [|f rest IH]; intros i best Hd Hb.
  - assert (Hlen : (length all <= i)%nat).
    { apply (f_equal length) in Hd. rewrite length_drop in Hd. cbn in Hd. lia. }
    assert (Hlt : forall j, is_evictable all j = true -> (j < i)%nat).
    { intros j Hj%is_evictable_lt. lia. }
    destruct best as [b|]; cbn in Hb |- *.
    + destruct Hb as (He & Hr & Hbest). split; [done|]. auto.
    + split; [done|]. intros j. destruct (is_evictable all j) eqn:Hj; [|done].
      rewrite <- Hj. auto.
  - assert (Hi : all !! i = Some f) by (rewrite <- (Nat.add_0_r i), <- lookup_drop, Hd; done).
    assert (Hd' : drop (S i) all = rest) by (by rewrite <- Nat.add_1_r, <- drop_drop, Hd).
    cbn [lru_k_scan]. destruct (negb (efs_valid f) || efs_pinned f) eqn:Hskip.
    + apply IH; [done|]. apply best_of_skip; [done|]. unfold is_evictable. rewrite Hi.
      destruct (efs_valid f), (efs_pinned f); done.
    + assert (He : is_evictable all i = true).
      { unfold is_evictable. rewrite Hi. destruct (efs_valid f), (efs_pinned f); done. }
      assert (Hr : frame_rank i = lru_k_rank p (efs_page_id f)) by (unfold frame_rank; by rewrite Hi).
      unfold lru_k_rank in Hr.
      destruct (histories p !! efs_page_id f) as [[|score h]|];
        [split; [done|]; rewrite Hr; done| |split; [done|]; rewrite Hr; done].
      apply IH; [done|]. by apply best_of_better.
Qed.
End choice.

#[export] Program Instance lru_k_laws : EvictionPolicyLaws LruKPolicy :=
  { ep_coherent _ _ := True }.
Next Obligation. by intros [|n] p Hn; [lia|]. Qed.
Next Obligation. done. Qed.
Next Obligation. done. Qed.
Next Obligation. done. Qed.
Next Obligation. done. Qed.
Next Obligation.
  intros p frames _ _. unfold wp; cbn.
  pose proof (lru_k_scan_spec p frames 0 frames None eq_refl ltac:(cbn; lia)) as Hs.
  destruct (lru_k_scan p 0 frames None) as [v|e|]; cbn in *; tauto.
Qed.

(** C38: LRU-K returns a victim exactly when some frame is evictable, and the
    victim's rank (no recorded access, then fewer than K accesses, then full
    history; older K-th last access first) is minimal among evictable frames. *)
Theorem lru_k_victim_minimal (p : LruKPolicy) (frames : list EvictionFrameState) :
  match lru_k_choose_victim frames p with
  | (Ok v, p') => p' = p /\ is_evictable frames v = true /\
      forall j, is_evictable frames j = true ->
        rank_le (frame_rank p frames v) (frame_rank p frames j)
  | (Err e, _) => e = BufferPoolFull /\ forall j, is_evictable frames j = false
  | (Fault, _) => False
  end.
Proof.
  pose proof (lru_k_scan_spec p frames 0 frames None eq_refl ltac:(cbn; lia)) as Hs.
  unfold lru_k_choose_victim. destruct (lru_k_scan p 0 frames None); tauto.
Qed.

(** A history keeps exactly the last K access times. *)
Lemma pop_front_until_spec k h :
  0 <= k -> pop_front_until k h = drop (length h - Z.to_nat k) h.
Proof.
  intros Hk. induction h as [|x h IH].
  - cbn [pop_front_until]. rewrite drop_nil. by case_match.
  - cbn [pop_front_until]. destruct (Z.leb_spec (Z.of_nat (length (x :: h))) k) as [Hle|Hgt].
    + replace (length (x :: h) - Z.to_nat k)%nat with 0%nat by lia. done.
    + rewrite IH. cbn [length] in *.
      replace (S (length h) - Z.to_nat k)%nat with (S (length h - Z.to_nat k)) by lia. done.
Qed.
