(* ===== verification/Arc.v ===== *)
(** * Arc: src/src/storage/buffer/arc_policy.{hpp,cpp}

    The Adaptive Replacement Cache policy.  [arc_wf] ties the four lists to the
    location map; [arc_coherent] adds that the resident lists T1 and T2 are the
    pages in the pool's frames, which is what makes the victim search complete. *)
From S2P Require Import Prelude Utils EvictionPolicy.

Inductive Location : Set := T1 | T2 | B1 | B2.
#[export] Instance Location_eq_dec : EqDecision Location.
Proof. solve_decision. Defined.

Record ArcPolicy := {
  arc_capacity : nat;
  target_recent : nat;
  pending_b2_hit : bool;
  t1 : list Z;
  t2 : list Z;
  b1 : list Z;
  b2 : list Z;
  locations : gmap Z Location;
  resident_frames : gmap Z nat;
}.
Definition ArcPolicy_default : ArcPolicy :=
  {| arc_capacity := 0; target_recent := 0; pending_b2_hit := false;
     t1 := []; t2 := []; b1 := []; b2 := []; locations := ∅; resident_frames := ∅ |}.

(** The list of a location, and its replacement. *)
Definition arc_list (p : ArcPolicy) (l : Location) : list Z :=
  match l with T1 => t1 p | T2 => t2 p | B1 => b1 p | B2 => b2 p end.
Definition set_list (l : Location) (pages : list Z) (p : ArcPolicy) : ArcPolicy :=
  let pick l' old := if decide (l = l') then pages else old in
  {| arc_capacity := arc_capacity p; target_recent := target_recent p;
     pending_b2_hit := pending_b2_hit p;
     t1 := pick T1 (t1 p); t2 := pick T2 (t2 p); b1 := pick B1 (b1 p); b2 := pick B2 (b2 p);
     locations := locations p; resident_frames := resident_frames p |}.
Definition set_locations (m : gmap Z Location) (p : ArcPolicy) : ArcPolicy :=
  {| arc_capacity := arc_capacity p; target_recent := target_recent p;
     pending_b2_hit := pending_b2_hit p; t1 := t1 p; t2 := t2 p; b1 := b1 p; b2 := b2 p;
     locations := m; resident_frames := resident_frames p |}.
Definition set_resident (m : gmap Z nat) (p : ArcPolicy) : ArcPolicy :=
  {| arc_capacity := arc_capacity p; target_recent := target_recent p;
     pending_b2_hit := pending_b2_hit p; t1 := t1 p; t2 := t2 p; b1 := b1 p; b2 := b2 p;
     locations := locations p; resident_frames := m |}.
Definition set_target (target : nat) (hit : bool) (p : ArcPolicy) : ArcPolicy :=
  {| arc_capacity := arc_capacity p; target_recent := target;
     pending_b2_hit := hit; t1 := t1 p; t2 := t2 p; b1 := b1 p; b2 := b2 p;
     locations := locations p; resident_frames := resident_frames p |}.

Fixpoint erase_page (pages : list Z) (page_id : Z) : list Z :=
  match pages with
  | [] => []
  | x :: rest => if x =? page_id then rest else x :: erase_page rest page_id
  end.

Definition push_front_unique (pages : list Z) (page_id : Z) : list Z :=
  page_id :: erase_page pages page_id.

(** [remove_lru_ghost(ghosts, locations)] on the list at [l]. *)
Definition remove_lru_ghost (l : Location) (p : ArcPolicy) : ArcPolicy :=
  match last (arc_list p l) with
  | None => p
  | Some page_id =>
      set_locations (delete page_id (locations p))
        (set_list l (take (length (arc_list p l) - 1) (arc_list p l)) p)
  end.

Definition prune_ghosts (p : ArcPolicy) : ArcPolicy :=
  let p := while_loop (length (b1 p)) (fun p => arc_capacity p <? length (b1 p))%nat
             (remove_lru_ghost B1) p in
  let p := while_loop (length (b2 p)) (fun p => arc_capacity p <? length (b2 p))%nat
             (remove_lru_ghost B2) p in
  while_loop (length (b1 p) + length (b2 p))
    (fun p => arc_capacity p <? length (b1 p) + length (b2 p))%nat
    (fun p => if (length (b2 p) <=? length (b1 p))%nat
              then remove_lru_ghost B1 p else remove_lru_ghost B2 p) p.

(** [erase_page(from, id); push_front_unique(to, id); iter->second = to]. *)
Definition arc_move (page_id : Z) (from to : Location) (p : ArcPolicy) : ArcPolicy :=
  let p := set_list from (erase_page (arc_list p from) page_id) p in
  let p := set_list to (push_front_unique (arc_list p to) page_id) p in
  set_locations (<[page_id := to]> (locations p)) p.

(** [locations[id] = to; push_front_unique(to, id)]. *)
Definition arc_enter (page_id : Z) (to : Location) (p : ArcPolicy) : ArcPolicy :=
  let p := set_locations (<[page_id := to]> (locations p)) p in
  set_list to (push_front_unique (arc_list p to) page_id) p.

Definition arc_reset (new_capacity : nat) : M ArcPolicy unit :=
  let* _ := assertM (0 <? new_capacity)%nat in
  modifyM (fun _ =>
    {| arc_capacity := new_capacity; target_recent := 0; pending_b2_hit := false;
       t1 := []; t2 := []; b1 := []; b2 := []; locations := ∅; resident_frames := ∅ |}).

Definition arc_record_access (page_id : Z) (frame_index : nat) : M ArcPolicy unit :=
  modifyM (fun p =>
    let p := set_resident (<[page_id := frame_index]> (resident_frames p)) p in
    match locations p !! page_id with
    | None => arc_enter page_id T1 p
    | Some T1 => arc_move page_id T1 T2 p
    | Some T2 => set_list T2 (push_front_unique (t2 p) page_id) p
    | Some _ => p
    end).

Definition arc_record_miss (page_id : Z) : M ArcPolicy unit :=
  modifyM (fun p =>
    let p := set_target (target_recent p) false p in
    match locations p !! page_id with
    | Some B1 =>
        let delta := Nat.max 1 (length (b2 p) / Nat.max 1 (length (b1 p))) in
        set_target (Nat.min (arc_capacity p) (target_recent p + delta)) false p
    | Some B2 =>
        let delta := Nat.max 1 (length (b1 p) / Nat.max 1 (length (b2 p))) in
        set_target (if (delta <? target_recent p)%nat then target_recent p - delta else 0) true p
    | _ => p
    end).

Definition arc_record_load (page_id : Z) (frame_index : nat) : M ArcPolicy unit :=
  modifyM (fun p =>
    let p := set_resident (<[page_id := frame_index]> (resident_frames p)) p in
    match locations p !! page_id with
    | Some B1 => prune_ghosts (arc_move page_id B1 T2 p)
    | Some B2 => prune_ghosts (arc_move page_id B2 T2 p)
    | _ => prune_ghosts (arc_enter page_id T1 p)
    end).

Definition arc_record_evict (page_id : Z) (frame_index : nat) : M ArcPolicy unit :=
  modifyM (fun p =>
    let p := set_resident (delete page_id (resident_frames p)) p in
    match locations p !! page_id with
    | None => p
    | Some T1 => prune_ghosts (arc_move page_id T1 B1 p)
    | Some T2 => prune_ghosts (arc_move page_id T2 B2 p)
    | Some _ => prune_ghosts p
    end).

(** [choose_from_lru] walks the list from its back. *)
Fixpoint choose_in (p : ArcPolicy) (pages : list Z) (frames : list EvictionFrameState) :
    Result nat :=
  match pages with
  | [] => Err NotFound
  | page :: rest =>
      match resident_frames p !! page with
      | Some frame => if is_evictable frames frame then Ok frame else choose_in p rest frames
      | None => choose_in p rest frames
      end
  end.
Definition choose_from_lru (p : ArcPolicy) (pages : list Z) (frames : list EvictionFrameState) :
    Result nat := choose_in p (reverse pages) frames.

Definition arc_choose_victim (frames : list EvictionFrameState) : M ArcPolicy nat := fun p =>
  let prefer_recent := (target_recent p <? length (t1 p))%nat ||
                       (pending_b2_hit p && (length (t1 p) =? target_recent p)%nat) in
  let recent := choose_from_lru p (t1 p) frames in
  let frequent := choose_from_lru p (t2 p) frames in
  let r := if prefer_recent && is_ok recent then recent
           else if is_ok frequent then frequent
           else if is_ok recent then recent
           else Err BufferPoolFull in
  (r, p).

#[export] Instance arc_ops : EvictionPolicy ArcPolicy := {
  ep_reset := arc_reset;
  ep_record_access := arc_record_access;
  ep_record_miss := arc_record_miss;
  ep_record_load := arc_record_load;
  ep_record_evict := arc_record_evict;
  ep_choose_victim := arc_choose_victim;
}.

(** ** The invariant *)

Record arc_wf (p : ArcPolicy) : Prop := {
  wf_nodup l : NoDup (arc_list p l);
  wf_loc l page : page ∈ arc_list p l <-> locations p !! page = Some l;
}.

Lemma arc_list_set l l' pages p :
  arc_list (set_list l pages p) l' = if decide (l = l') then pages else arc_list p l'.
Proof. destruct l'; done. Qed.

Lemma elem_of_erase_page x pages page :
  NoDup pages -> x ∈ erase_page pages page <-> x ∈ pages /\ x <> page.
Proof.
  induction pages as [|y pages IH]; intros Hnd; cbn; [set_solver|].
  apply NoDup_cons in Hnd as [Hy Hnd]. destruct (Z.eqb_spec y page) as [->|].
  - set_solver.
  - rewrite !elem_of_cons, IH by done. set_solver.
Qed.

Lemma NoDup_erase_page pages page : NoDup pages -> NoDup (erase_page pages page).
Proof.
  induction pages as [|y pages IH]; intros Hnd; cbn; [done|].
  apply NoDup_cons in Hnd as [Hy Hnd]. destruct (Z.eqb_spec y page); [done|].
  apply NoDup_cons. rewrite elem_of_erase_page by done. naive_solver.
Qed.

Lemma NoDup_push_front pages page : NoDup pages -> NoDup (push_front_unique pages page).
Proof.
  intros Hnd. apply NoDup_cons. rewrite elem_of_erase_page by done.
  split; [naive_solver|by apply NoDup_erase_page].
Qed.

Lemma elem_of_push_front x pages page :
  NoDup pages -> x ∈ push_front_unique pages page <-> x = page \/ x ∈ pages.
Proof.
  intros Hnd. unfold push_front_unique. rewrite elem_of_cons, elem_of_erase_page by done.
  destruct (decide (x = page)); tauto.
Qed.

Lemma arc_move_wf page from to p :
  arc_wf p -> locations p !! page = Some from -> from <> to -> arc_wf (arc_move page from to p).
Proof.
  intros Hwf Hloc Hne. split.
  - intros l. unfold arc_move. cbn -[set_list]. change (arc_list (set_locations ?m ?q) l) with (arc_list q l).
    rewrite !arc_list_set. repeat case_decide; subst; try done;
      eauto using NoDup_push_front, NoDup_erase_page, wf_nodup.
  - intros l x. unfold arc_move. cbn -[set_list].
    change (arc_list (set_locations ?m ?q) l) with (arc_list q l).
    rewrite lookup_insert, !arc_list_set. pose proof (wf_loc p Hwf) as Hl.
    pose proof (wf_nodup p Hwf) as Hn.
    destruct (decide (to = l)) as [<-|Htl].
    + rewrite (decide_False (P := from = to)) by done. rewrite elem_of_push_front, Hl by done.
      case_decide; naive_solver.
    + destruct (decide (from = l)) as [<-|Hfl].
      * rewrite elem_of_erase_page, Hl by done. case_decide; naive_solver.
      * rewrite Hl. case_decide; naive_solver.
Qed.

Lemma arc_enter_wf page to p :
  arc_wf p -> locations p !! page = None -> arc_wf (arc_enter page to p).
Proof.
  intros Hwf Hloc. pose proof (wf_loc p Hwf) as Hl. pose proof (wf_nodup p Hwf) as Hn.
  assert (Hal : forall l, arc_list (set_locations (<[page:=to]> (locations p)) p) l = arc_list p l)
    by (by intros []).
  split; intros l; unfold arc_enter; cbn zeta; rewrite arc_list_set, !Hal.
  - case_decide; [by apply NoDup_push_front|done].
  - intros x. cbn. rewrite lookup_insert. case_decide as Htl.
    + subst l. rewrite elem_of_push_front, Hl by done. case_decide; naive_solver.
    + rewrite Hl. case_decide; naive_solver.
Qed.

(** ** Pruning the ghost lists *)

(** What a step on the ghost lists leaves alone. *)
Record ghost_step (p p' : ArcPolicy) : Prop := {
  gs_wf : arc_wf p';
  gs_t1 : t1 p' = t1 p;
  gs_t2 : t2 p' = t2 p;
  gs_resident : resident_frames p' = resident_frames p;
  gs_capacity : arc_capacity p' = arc_capacity p;
  gs_target : target_recent p' = target_recent p;
}.

Lemma ghost_step_trans p1 p2 p3 : ghost_step p1 p2 -> ghost_step p2 p3 -> ghost_step p1 p3.
Proof. intros [] []. split; congruence. Qed.

Lemma last_split {A} (l : list A) x :
  last l = Some x -> l = take (length l - 1) l ++ [x].
Proof.
  intros Hl. apply last_Some in Hl as [l' ->]. rewrite length_app; cbn [length].
  rewrite (ltac:(lia) : (length l' + 1 - 1 = length l')%nat), take_app_length. done.
Qed.

Lemma remove_lru_ghost_step l p :
  (l = B1 \/ l = B2) -> arc_wf p -> ghost_step p (remove_lru_ghost l p).
Proof.
  intros Hl Hwf. unfold remove_lru_ghost.
  destruct (last (arc_list p l)) as [x|] eqn:Hlast; [|by split].
  apply last_split in Hlast as Hsplit. set (front := take _ _) in *.
  pose proof (wf_nodup p Hwf l) as Hn. rewrite Hsplit in Hn.
  apply NoDup_app in Hn as (Hnf & Hdisj & _).
  assert (Hx : locations p !! x = Some l) by (apply (wf_loc p Hwf); rewrite Hsplit; set_solver).
  split; [|by destruct Hl; subst..]. split.
  - intros l'. change (arc_list (set_locations ?m ?q) l') with (arc_list q l').
    rewrite arc_list_set. case_decide; [done|apply (wf_nodup p Hwf)].
  - intros l' y. change (arc_list (set_locations ?m ?q) l') with (arc_list q l').
    rewrite arc_list_set. cbn [locations set_locations set_list].
    pose proof (wf_loc p Hwf l' y) as Hy. rewrite lookup_delete. case_decide as Hll.
    + subst l'. rewrite Hsplit in Hy. case_decide; set_solver.
    + rewrite Hy. case_decide; naive_solver.
Qed.

Lemma remove_lru_ghost_length l p :
  length (arc_list (remove_lru_ghost l p) l) = (length (arc_list p l) - 1)%nat /\
  forall l', l' <> l -> arc_list (remove_lru_ghost l p) l' = arc_list p l'.
Proof.
  unfold remove_lru_ghost. destruct (last (arc_list p l)) as [x|] eqn:Hlast.
  - split; intros; change (arc_list (set_locations ?m ?q) ?k) with (arc_list q k);
      rewrite arc_list_set; case_decide; try done. rewrite length_take. lia.
  - apply last_None in Hlast. rewrite Hlast. done.
Qed.

Lemma remove_b1_length p :
  length (b1 (remove_lru_ghost B1 p)) = (length (b1 p) - 1)%nat /\
  b2 (remove_lru_ghost B1 p) = b2 p.
Proof. destruct (remove_lru_ghost_length B1 p) as [? H]. split; [done|by apply (H B2)]. Qed.
Lemma remove_b2_length p :
  length (b2 (remove_lru_ghost B2 p)) = (length (b2 p) - 1)%nat /\
  b1 (remove_lru_ghost B2 p) = b1 p.
Proof. destruct (remove_lru_ghost_length B2 p) as [? H]. split; [done|by apply (H B1)]. Qed.

(** A while loop whose body is a ghost step is one. *)
Lemma ghost_loop fuel cond body p :
  (forall q, arc_wf q -> ghost_step q (body q)) -> arc_wf p ->
  ghost_step p (while_loop fuel cond body p).
Proof.
  intros Hbody Hwf. apply (while_loop_inv (ghost_step p)); [|by split].
  intros q Hq _. eapply ghost_step_trans; [done|]. apply Hbody, gs_wf with p, Hq.
Qed.

(** [prune_ghosts] terminates with at most [capacity] ghosts, and touches
    nothing but ghosts. *)
Lemma prune_ghosts_step p :
  arc_wf p ->
  ghost_step p (prune_ghosts p) /\
  (length (b1 (prune_ghosts p)) + length (b2 (prune_ghosts p)) <= arc_capacity p)%nat.
Proof.
  intros Hwf. unfold prune_ghosts. cbn zeta.
  set (p1 := while_loop (length (b1 p)) _ _ p).
  assert (H1 : ghost_step p p1)
    by (apply ghost_loop; auto using remove_lru_ghost_step).
  set (p2 := while_loop (length (b2 p1)) _ _ p1).
  assert (H2 : ghost_step p1 p2)
    by (apply ghost_loop; eauto using remove_lru_ghost_step, gs_wf).
  set (cond := fun q => (arc_capacity q <? length (b1 q) + length (b2 q))%nat).
  set (body := fun q => if (length (b2 q) <=? length (b1 q))%nat
                        then remove_lru_ghost B1 q else remove_lru_ghost B2 q).
  set (p3 := while_loop _ cond body p2).
  assert (H3 : ghost_step p2 p3).
  { apply ghost_loop; [|by eapply gs_wf]. intros q Hq. unfold body.
    case_match; auto using remove_lru_ghost_step. }
  assert (H13 : ghost_step p p3) by eauto using ghost_step_trans. split; [done|].
  assert (Hd : cond p3 = false).
  { apply (while_loop_done (fun q => length (b1 q) + length (b2 q))%nat); [|done].
    intros q Hq. unfold cond in Hq. apply Nat.ltb_lt in Hq. unfold body.
    destruct (Nat.leb_spec (length (b2 q)) (length (b1 q))).
    - destruct (remove_b1_length q) as [-> ->]. lia.
    - destruct (remove_b2_length q) as [-> ->]. lia. }
  unfold cond in Hd. apply Nat.ltb_ge in Hd. rewrite (gs_capacity _ _ H13) in Hd. lia.
Qed.

(** ** Coherence with the pool's frames *)

Definition arc_resident (p : ArcPolicy) (page : Z) : Prop := page ∈ t1 p \/ page ∈ t2 p.

Record arc_coherent (p : ArcPolicy) (rs : list (option Z)) : Prop := {
  ac_wf : arc_wf p;
  ac_frames page i : resident_frames p !! page = Some i <-> rs !! i = Some (Some page);
  ac_resident page : arc_resident p page <-> Some page ∈ rs;
  ac_capacity : arc_capacity p = length rs;
  ac_target : (target_recent p <= length rs)%nat;
  ac_ghosts : (length (b1 p) + length (b2 p) <= length rs)%nat;
}.

Lemma prune_ghosts_coherent p rs :
  arc_wf p ->
  (forall page i, resident_frames p !! page = Some i <-> rs !! i = Some (Some page)) ->
  (forall page, arc_resident p page <-> Some page ∈ rs) ->
  arc_capacity p = length rs -> (target_recent p <= length rs)%nat ->
  arc_coherent (prune_ghosts p) rs.
Proof.
  intros Hwf Hf Hr Hc Ht. destruct (prune_ghosts_step p Hwf) as [[Hw E1 E2 Er Ec Et] Hg].
  split; try done.
  - intros. by rewrite Er.
  - intros page. unfold arc_resident. rewrite E1, E2. apply Hr.
  - congruence.
  - lia.
  - lia.
Qed.

(** The pages a move or an entry makes resident. *)
Lemma arc_resident_loc p page :
  arc_wf p -> arc_resident p page <-> locations p !! page = Some T1 \/ locations p !! page = Some T2.
Proof.
  intros Hwf. unfold arc_resident.
  by rewrite (wf_loc p Hwf T1 page : page ∈ t1 p <-> _), (wf_loc p Hwf T2 page : page ∈ t2 p <-> _).
Qed.

Lemma locations_move page from to p :
  locations (arc_move page from to p) = <[page := to]> (locations p).
Proof. done. Qed.
Lemma locations_enter page to p :
  locations (arc_enter page to p) = <[page := to]> (locations p).
Proof. done. Qed.

Lemma set_resident_wf m p : arc_wf p -> arc_wf (set_resident m p).
Proof. intros [Hn Hl]. split; intros []; [exact (Hn T1)|exact (Hn T2)|exact (Hn B1)|exact (Hn B2)|
  exact (Hl T1)|exact (Hl T2)|exact (Hl B1)|exact (Hl B2)]. Qed.
Lemma set_target_wf t h p : arc_wf p -> arc_wf (set_target t h p).
Proof. intros [Hn Hl]. split; intros []; [exact (Hn T1)|exact (Hn T2)|exact (Hn B1)|exact (Hn B2)|
  exact (Hl T1)|exact (Hl T2)|exact (Hl B1)|exact (Hl B2)]. Qed.

Lemma arc_touch_wf page p :
  arc_wf p -> locations p !! page = Some T2 ->
  arc_wf (set_list T2 (push_front_unique (t2 p) page) p).
Proof.
  intros Hwf Hloc. pose proof (wf_loc p Hwf) as Hl. pose proof (wf_nodup p Hwf) as Hn.
  split; intros l; rewrite arc_list_set; case_decide as Hd; try subst l; try done.
  - apply NoDup_push_front, (Hn T2).
  - intros x. rewrite elem_of_push_front by apply (Hn T2).
    rewrite (Hl T2 x : x ∈ t2 p <-> _). cbn [locations set_list]. naive_solver.
Qed.

(** A state with the same resident frames is coherent when it is well formed,
    its T1 and T2 hold the same pages, and its bounds hold. *)
Lemma arc_coherent_same p p' rs :
  arc_coherent p rs -> arc_wf p' ->
  resident_frames p' = resident_frames p -> arc_capacity p' = arc_capacity p ->
  (forall x, arc_resident p' x <-> arc_resident p x) ->
  (target_recent p' <= length rs)%nat -> b1 p' = b1 p -> b2 p' = b2 p ->
  arc_coherent p' rs.
Proof.
  intros [] Hwf Hf Hc Hr Ht E1 E2. split; try done.
  - intros. by rewrite Hf.
  - intros. by rewrite Hr.
  - congruence.
  - by rewrite E1, E2.
Qed.

Lemma arc_coherent_loc p rs i page :
  arc_coherent p rs -> rs !! i = Some (Some page) ->
  locations p !! page = Some T1 \/ locations p !! page = Some T2.
Proof.
  intros Hc Hi. apply arc_resident_loc; [by eapply ac_wf|].
  apply (ac_resident _ _ Hc), list_elem_of_lookup. eauto.
Qed.

Lemma arc_access_coherent p rs i page :
  arc_coherent p rs -> rs !! i = Some (Some page) ->
  wp (arc_record_access page i) (post (fun _ p' => arc_coherent p' rs) (fun _ _ => False)) p.
Proof.
  intros Hc Hi. unfold wp, arc_record_access, modifyM. cbn [fst snd post].
  pose proof (ac_wf _ _ Hc) as Hwf.
  rewrite insert_id by (by apply (ac_frames _ _ Hc)).
  assert (Hsame : set_resident (resident_frames p) p = p) by (by destruct p).
  rewrite Hsame. destruct (arc_coherent_loc _ _ _ _ Hc Hi) as [Hl|Hl]; rewrite Hl.
  - assert (Hwf' : arc_wf (arc_move page T1 T2 p)) by (by apply arc_move_wf).
    apply (arc_coherent_same p); try done; [|by apply (ac_target _ _ Hc)].
    intros x. rewrite !arc_resident_loc, locations_move, lookup_insert by done.
    case_decide; naive_solver.
  - pose proof (arc_touch_wf _ _ Hwf Hl) as Hwf'.
    apply (arc_coherent_same p); try done; [|by apply (ac_target _ _ Hc)].
    intros x. by rewrite !arc_resident_loc.
Qed.

Lemma arc_miss_coherent p rs page :
  arc_coherent p rs ->
  wp (arc_record_miss page) (post (fun _ p' => arc_coherent p' rs) (fun _ _ => False)) p.
Proof.
  intros Hc. unfold wp, arc_record_miss, modifyM. cbn [fst snd post].
  assert (Hset : forall t h, (t <= length rs)%nat -> arc_coherent (set_target t h p) rs).
  { intros t h Ht. apply (arc_coherent_same p); try done. apply set_target_wf, Hc. }
  pose proof (ac_target _ _ Hc). pose proof (ac_capacity _ _ Hc).
  destruct (locations _ !! page) as [[]|]; [by apply Hset..| | |by apply Hset].
  - apply (Hset _ false). cbn [target_recent set_target arc_capacity b1 b2]. lia.
  - apply (Hset _ true). cbn [target_recent set_target arc_capacity b1 b2].
    destruct (_ <? _)%nat; lia.
Qed.

Lemma arc_evict_coherent p rs i page :
  arc_coherent p rs -> rs !! i = Some (Some page) ->
  wp (arc_record_evict page i)
    (post (fun _ p' => arc_coherent p' (<[i:=None]> rs)) (fun _ _ => False)) p.
Proof.
  intros Hc Hi. unfold wp, arc_record_evict, modifyM. cbn [fst snd post].
  set (q := set_resident (delete page (resident_frames p)) p).
  assert (Hwf : arc_wf q) by apply set_resident_wf, Hc.
  assert (Hinj : forall j, rs !! j = Some (Some page) -> j = i).
  { intros j Hj. apply (ac_frames _ _ Hc) in Hj. apply (ac_frames _ _ Hc) in Hi. congruence. }
  assert (Hf : forall x j, resident_frames q !! x = Some j <-> <[i:=None]> rs !! j = Some (Some x)).
  { intros x j. cbn [q resident_frames set_resident]. rewrite lookup_delete_Some.
    rewrite (ac_frames _ _ Hc), list_lookup_insert_Some.
    destruct (decide (i = j)); naive_solver. }
  assert (Hmove : forall from to, locations p !! page = Some from -> (from = T1 \/ from = T2) ->
      (to = B1 \/ to = B2) -> arc_coherent (prune_ghosts (arc_move page from to q)) (<[i:=None]> rs)).
  { intros from to Hl Hfrom Hto.
    assert (Hwf' : arc_wf (arc_move page from to q)) by (apply arc_move_wf; naive_solver).
    apply prune_ghosts_coherent; rewrite ?length_insert; try done; try apply Hc.
    intros x. rewrite arc_resident_loc, locations_move, lookup_insert by done.
    rewrite list_elem_of_lookup. setoid_rewrite <- Hf. cbn [q resident_frames locations set_resident].
    setoid_rewrite lookup_delete_Some. setoid_rewrite (ac_frames _ _ Hc).
    pose proof (ac_resident _ _ Hc x) as Hx.
    rewrite arc_resident_loc, list_elem_of_lookup in Hx by apply Hc.
    case_decide; naive_solver. }
  change (locations q) with (locations p).
  destruct (arc_coherent_loc _ _ _ _ Hc Hi) as [Hl|Hl]; rewrite Hl; apply Hmove; auto.
Qed.

Lemma arc_load_coherent p rs i page :
  arc_coherent p rs -> rs !! i = Some None -> Some page ∉ rs ->
  wp (arc_record_load page i)
    (post (fun _ p' => arc_coherent p' (<[i:=Some page]> rs)) (fun _ _ => False)) p.
Proof.
  intros Hc Hi Hnew. unfold wp, arc_record_load, modifyM. cbn [fst snd post].
  set (q := set_resident (<[page := i]> (resident_frames p)) p).
  assert (Hwf : arc_wf q) by apply set_resident_wf, Hc.
  assert (Hlt : (i < length rs)%nat) by (by eapply lookup_lt_Some).
  assert (Habs : forall j, rs !! j <> Some (Some page)).
  { intros j Hj. apply Hnew, list_elem_of_lookup. eauto. }
  assert (Hf : forall x j, resident_frames q !! x = Some j <->
                           <[i:=Some page]> rs !! j = Some (Some x)).
  { intros x j. cbn [q resident_frames set_resident].
    rewrite lookup_insert_Some, list_lookup_insert_Some, (ac_frames _ _ Hc).
    destruct (decide (i = j)); naive_solver. }
  assert (Hgo : forall q' to, arc_wf q' -> (to = T1 \/ to = T2) ->
      locations q' = <[page := to]> (locations p) -> resident_frames q' = resident_frames q ->
      arc_capacity q' = arc_capacity p -> target_recent q' = target_recent p ->
      arc_coherent (prune_ghosts q') (<[i:=Some page]> rs)).
  { intros q' to Hwf' Hto El Er Ec Et.
    apply prune_ghosts_coherent; rewrite ?length_insert; try done;
      [by rewrite Er| |by rewrite Ec; apply Hc|by rewrite Et; apply Hc].
    intros x. rewrite arc_resident_loc, El, lookup_insert by done.
    rewrite list_elem_of_lookup. setoid_rewrite <- Hf. cbn [q resident_frames set_resident].
    setoid_rewrite lookup_insert_Some. setoid_rewrite (ac_frames _ _ Hc).
    pose proof (ac_resident _ _ Hc x) as Hx.
    rewrite arc_resident_loc, list_elem_of_lookup in Hx by apply Hc.
    case_decide; naive_solver. }
  pose proof (ac_resident _ _ Hc page) as Hp. rewrite arc_resident_loc in Hp by apply Hc.
  change (locations q) with (locations p).
  destruct (locations p !! page) as [[]|] eqn:Hl;
    [destruct Hnew; apply Hp; by auto..| | |].
  - apply (Hgo _ T2); auto. by apply arc_move_wf.
  - apply (Hgo _ T2); auto. by apply arc_move_wf.
  - apply (Hgo _ T1); auto. by apply arc_enter_wf.
Qed.

(** ** Choosing a victim *)

Lemma choose_in_spec p pages frames :
  match choose_in p pages frames with
  | Ok i => is_evictable frames i = true
  | Err e => e = NotFound /\ forall page i, page ∈ pages -> resident_frames p !! page = Some i ->
               is_evictable frames i = false
  | Fault => False
  end.
Proof.
  induction pages as [|page pages IH]; cbn [choose_in]; [split; [done|set_solver]|].
  destruct (resident_frames p !! page) as [k|] eqn:Hk;
    [destruct (is_evictable frames k) eqn:Hev; [done|]|];
    (destruct (choose_in p pages frames) as [k'|e|]; [done| |done]);
    destruct IH as [-> Hno]; split; try done; intros page' i' [->|?]%elem_of_cons Hi; eauto;
    congruence.
Qed.

Lemma choose_from_lru_spec p pages frames :
  match choose_from_lru p pages frames with
  | Ok i => is_evictable frames i = true
  | Err e => e = NotFound /\ forall page i, page ∈ pages -> resident_frames p !! page = Some i ->
               is_evictable frames i = false
  | Fault => False
  end.
Proof.
  unfold choose_from_lru. pose proof (choose_in_spec p (reverse pages) frames) as H.
  destruct (choose_in _ _ _); [done| |done]. destruct H as [-> H]. split; [done|].
  intros page i Hp. apply H. by rewrite elem_of_reverse.
Qed.

Lemma arc_choose_coherent p frames :
  arc_coherent p (resident frames) ->
  wp (arc_choose_victim frames)
    (post (fun i p' => is_evictable frames i = true /\ arc_coherent p' (resident frames))
          (fun e p' => e = BufferPoolFull /\ arc_coherent p' (resident frames) /\
                       forall i, is_evictable frames i = false)) p.
Proof.
  intros Hc. unfold wp, arc_choose_victim. cbn [fst snd].
  pose proof (choose_from_lru_spec p (t1 p) frames) as H1.
  pose proof (choose_from_lru_spec p (t2 p) frames) as H2.
  set (prefer := orb _ _). clearbody prefer.
  destruct (choose_from_lru p (t1 p) frames) as [i1|e1|]; [| |done];
    (destruct (choose_from_lru p (t2 p) frames) as [i2|e2|]; [| |done]);
    destruct prefer; cbn; try done.
  all: split; [done|split; [done|]]; intros i; destruct (is_evictable frames i) eqn:Hev; [|done];
    destruct (is_evictable_resident _ _ Hev) as [page Hp];
    destruct H1 as [_ H1]; destruct H2 as [_ H2]; rewrite <- Hev;
    apply (ac_frames _ _ Hc) in Hp as Hfr;
    (assert (Hr : arc_resident p page) by (apply (ac_resident _ _ Hc), list_elem_of_lookup; eauto));
    destruct Hr; eauto.
Qed.

Lemma arc_reset_coherent n p :
  (0 < n)%nat ->
  wp (arc_reset n) (post (fun _ p' => arc_coherent p' (replicate n None)) (fun _ _ => False)) p.
Proof.
  intros Hn. unfold arc_reset. apply wp_assert_bind; [by apply Nat.ltb_lt|].
  unfold wp, modifyM. cbn. split; cbn; rewrite ?length_replicate; try lia.
  - split; [intros []; apply NoDup_nil_2|intros [] ?; cbn; rewrite lookup_empty; set_solver].
  - intros page i. rewrite lookup_empty, lookup_replicate. naive_solver.
  - intros page. unfold arc_resident. cbn. rewrite elem_of_replicate. set_solver.
Qed.

#[export] Instance arc_laws : EvictionPolicyLaws ArcPolicy := {
  ep_coherent := arc_coherent;
  ep_reset_spec := arc_reset_coherent;
  ep_access_spec := arc_access_coherent;
  ep_miss_spec := arc_miss_coherent;
  ep_evict_spec := arc_evict_coherent;
  ep_load_spec := arc_load_coherent;
  ep_choose_spec := fun p frames Hc _ => arc_choose_coherent p frames Hc;
}.

(** ** The policy as a state machine

    The notifications a pool of [capacity] frames can send: an access to a
    resident page, a miss, the eviction of a resident page, the load of an absent
    page into a free frame. *)
Inductive arc_reach (capacity : nat) : ArcPolicy -> list (option Z) -> Prop :=
  | reach_reset p0 p :
      arc_reset capacity p0 = (Ok tt, p) -> arc_reach capacity p (replicate capacity None)
  | reach_access p rs p' i page :
      arc_reach capacity p rs -> rs !! i = Some (Some page) ->
      arc_record_access page i p = (Ok tt, p') -> arc_reach capacity p' rs
  | reach_miss p rs p' page :
      arc_reach capacity p rs -> arc_record_miss page p = (Ok tt, p') -> arc_reach capacity p' rs
  | reach_evict p rs p' i page :
      arc_reach capacity p rs -> rs !! i = Some (Some page) ->
      arc_record_evict page i p = (Ok tt, p') -> arc_reach capacity p' (<[i:=None]> rs)
  | reach_load p rs p' i page :
      arc_reach capacity p rs -> rs !! i = Some None -> Some page ∉ rs ->
      arc_record_load page i p = (Ok tt, p') -> arc_reach capacity p' (<[i:=Some page]> rs).

Lemma arc_reach_coherent capacity p rs : arc_reach capacity p rs -> arc_coherent p rs.
Proof.
  induction 1 as [p0 p Hr|p rs p' i page _ IH Hi Hs|p rs p' page _ IH Hs
                 |p rs p' i page _ IH Hi Hs|p rs p' i page _ IH Hi Hnew Hs].
  - destruct capacity as [|n]; [done|].
    exact (wp_elim _ _ _ _ _ (arc_reset_coherent (S n) p0 ltac:(lia)) Hr).
  - exact (wp_elim _ _ _ _ _ (arc_access_coherent _ _ _ _ IH Hi) Hs).
  - exact (wp_elim _ _ _ _ _ (arc_miss_coherent _ _ _ IH) Hs).
  - exact (wp_elim _ _ _ _ _ (arc_evict_coherent _ _ _ _ IH Hi) Hs).
  - exact (wp_elim _ _ _ _ _ (arc_load_coherent _ _ _ _ IH Hi Hnew) Hs).
Qed.

Lemma arc_reach_length capacity p rs : arc_reach capacity p rs -> length rs = capacity.
Proof. induction 1; rewrite ?length_insert, ?length_replicate; done. Qed.

Lemma arc_resident_count p rs :
  arc_coherent p rs -> (length (t1 p) + length (t2 p) <= length rs)%nat.
Proof.
  intros Hc. pose proof (ac_wf _ _ Hc) as Hwf. rewrite <- length_app.
  rewrite <- (length_fmap Some). apply submseteq_length, NoDup_submseteq.
  - apply NoDup_fmap_2; [apply _|]. apply NoDup_app.
    split; [apply (wf_nodup _ Hwf T1)|split; [|apply (wf_nodup _ Hwf T2)]].
    intros x H1 H2. apply (wf_loc _ Hwf T1) in H1. apply (wf_loc _ Hwf T2) in H2. congruence.
  - intros x Hx. apply list_elem_of_fmap in Hx as (page & -> & Hx). apply (ac_resident _ _ Hc).
    by apply elem_of_app in Hx.
Qed.

(** C36: ARC's invariants hold in every state a pool can drive the policy to.
    T1 and T2 hold exactly the resident pages, each page is in at most one of
    the four lists and at most once, the recorded frame of a page is the frame it
    is in, T1 and T2 together hold at most [capacity] pages, so do the ghost
    lists, and the adaptation target stays within [capacity]. *)
Theorem arc_reachable_invariant (capacity : nat) (p : ArcPolicy) (rs : list (option Z)) :
  arc_reach capacity p rs ->
  (forall page, page ∈ t1 p ++ t2 p <-> Some page ∈ rs) /\
  NoDup (t1 p ++ t2 p ++ b1 p ++ b2 p) /\
  (forall page i, resident_frames p !! page = Some i <-> rs !! i = Some (Some page)) /\
  (length (t1 p) + length (t2 p) <= capacity)%nat /\
  (length (b1 p) + length (b2 p) <= capacity)%nat /\
  (target_recent p <= capacity)%nat.
Proof.
  intros Hr. pose proof (arc_reach_length _ _ _ Hr) as <-.
  apply arc_reach_coherent in Hr as Hc. pose proof (ac_wf _ _ Hc) as Hwf.
  split; [intros page; rewrite elem_of_app; apply Hc|].
  split; [|split; [apply Hc|split; [by apply arc_resident_count|split; apply Hc]]].
  assert (Hd : forall l l' x, x ∈ arc_list p l -> x ∈ arc_list p l' -> l = l').
  { intros l l' x H1%(wf_loc _ Hwf) H2%(wf_loc _ Hwf). congruence. }
  rewrite !NoDup_app. repeat split; try (first [apply (wf_nodup _ Hwf T1)|apply (wf_nodup _ Hwf T2)
    |apply (wf_nodup _ Hwf B1)|apply (wf_nodup _ Hwf B2)]).
  - intros x H1. rewrite !elem_of_app. intros [H|[H|H]];
      [by pose proof (Hd T1 T2 x H1 H)|by pose proof (Hd T1 B1 x H1 H)|by pose proof (Hd T1 B2 x H1 H)].
  - intros x H1. rewrite !elem_of_app. intros [H|H];
      [by pose proof (Hd T2 B1 x H1 H)|by pose proof (Hd T2 B2 x H1 H)].
  - intros x H1 H. by pose proof (Hd B1 B2 x H1 H).
Qed.

(** One frame: page 5 is loaded, evicted, and misses on the ghost; then page 5
    returns, straight into T2. *)
Definition example_arc : list (M ArcPolicy unit) :=
  [arc_reset 1; arc_record_load 5 0; arc_record_evict 5 0; arc_record_miss 5; arc_record_load 5 0].
Definition run_arc (ops : list (M ArcPolicy unit)) : ArcPolicy :=
  foldl (fun p op => (op p).2) ArcPolicy_default ops.

Lemma arc_reachable_invariant_witness :
  arc_reach 1 (run_arc example_arc) [Some 5] /\ t2 (run_arc example_arc) = [5] /\
  (length (t1 (run_arc example_arc)) + length (t2 (run_arc example_arc)) <= 1)%nat.
Proof.
  assert (Hr : arc_reach 1 (run_arc example_arc) [Some 5]).
  { apply (reach_load 1 (run_arc (take 4 example_arc)) [None] _ 0 5); [|done|set_solver|done].
    apply (reach_miss 1 (run_arc (take 3 example_arc)) [None] _ 5); [|done].
    apply (reach_evict 1 (run_arc (take 2 example_arc)) [Some 5] _ 0 5); [|done|done].
    apply (reach_load 1 (run_arc (take 1 example_arc)) [None] _ 0 5); [|done|set_solver|done].
    by apply (reach_reset 1 ArcPolicy_default). }
  split; [exact Hr|split; [reflexivity|]].
  destruct (arc_reachable_invariant 1 _ _ Hr) as (_ & _ & _ & H & _). exact H.
Defined.
