(* ===== verification/PolicyFactory.v ===== *)
(** * PolicyFactory: src/src/storage/buffer/eviction_policy.cpp

    [make_eviction_policy] returns one of the three policies behind the
    [EvictionPolicy] interface; [AnyPolicy] is that pointer, and its operations
    are the virtual calls. *)
From S2P Require Import Prelude Utils EvictionPolicy ClockSweep LruK Arc.

Inductive AnyPolicy : Type :=
  | PClockSweep (p : ClockSweepPolicy)
  | PLruK (p : LruKPolicy)
  | PArc (p : ArcPolicy).

(** [kind] is an enum class of three values, so the fallback after the switch is
    not reached. *)
Definition make_eviction_policy (config : EvictionPolicyConfig) : AnyPolicy :=
  match kind config with
  | EvictionPolicy.ClockSweep => PClockSweep ClockSweepPolicy_default
  | EvictionPolicy.LruK => PLruK (LruKPolicy_new (lru_k_history config))
  | EvictionPolicy.Arc => PArc ArcPolicy_default
  end.

(** A virtual call. *)
Definition dispatch {A} (m : forall P, EvictionPolicy P -> M P A) : M AnyPolicy A := fun p =>
  match p with
  | PClockSweep q => let '(r, q) := m _ clock_ops q in (r, PClockSweep q)
  | PLruK q => let '(r, q) := m _ lru_k_ops q in (r, PLruK q)
  | PArc q => let '(r, q) := m _ arc_ops q in (r, PArc q)
  end.

#[export] Instance any_ops : EvictionPolicy AnyPolicy := {
  ep_reset n := dispatch (fun P _ => ep_reset n);
  ep_record_access page i := dispatch (fun P _ => ep_record_access page i);
  ep_record_miss page := dispatch (fun P _ => ep_record_miss page);
  ep_record_load page i := dispatch (fun P _ => ep_record_load page i);
  ep_record_evict page i := dispatch (fun P _ => ep_record_evict page i);
  ep_choose_victim frames := dispatch (fun P _ => ep_choose_victim frames);
}.

Definition any_coherent (p : AnyPolicy) (rs : list (option Z)) : Prop :=
  match p with
  | PClockSweep q => ep_coherent q rs
  | PLruK q => ep_coherent q rs
  | PArc q => ep_coherent q rs
  end.

(** A call satisfies a postcondition when each policy's own operation does. *)
Lemma dispatch_wp {A} (m : forall P, EvictionPolicy P -> M P A) Q p :
  match p with
  | PClockSweep q => wp (m _ clock_ops) (fun r q' => Q r (PClockSweep q')) q
  | PLruK q => wp (m _ lru_k_ops) (fun r q' => Q r (PLruK q')) q
  | PArc q => wp (m _ arc_ops) (fun r q' => Q r (PArc q')) q
  end -> wp (dispatch m) Q p.
Proof. unfold wp, dispatch. by destruct p as [q|q|q]; destruct (m _ _ q). Qed.

Tactic Notation "by_policy" uconstr(spec) :=
  apply dispatch_wp;
  (eapply wp_mono; [eapply spec; eassumption|]);
  intros [] ?; cbn; done.

#[export] Program Instance any_laws : EvictionPolicyLaws AnyPolicy := {
  ep_coherent := any_coherent;
}.
Next Obligation. intros n p Hn. destruct p; by_policy (ep_reset_spec). Qed.
Next Obligation. intros p rs i page Hc Hi. destruct p; by_policy (ep_access_spec _ rs i). Qed.
Next Obligation. intros p rs page Hc. destruct p; by_policy (ep_miss_spec _ rs). Qed.
Next Obligation. intros p rs i page Hc Hi. destruct p; by_policy (ep_evict_spec _ rs i). Qed.
Next Obligation. intros p rs i page Hc Hi Hn. destruct p; by_policy (ep_load_spec _ rs i). Qed.
Next Obligation. intros p frames Hc Hf. destruct p; by_policy (ep_choose_spec). Qed.
