(* ===== verification/BufferPool.v ===== *)
(** * BufferPool: src/src/storage/buffer/buffer_pool.{hpp,cpp}

    The page cache.  A [Pool] holds the object's fields and the page store its
    [store] pointer refers to.  A [FrameHandle] does not own bytes: its span
    aliases the frame's vector, so reads and writes through a handle go to the
    pool's frame. *)
From S2P Require Import Prelude Utils StorageIO PageStore EvictionPolicy PolicyFactory.

Record BufferPoolConfig := { capacity_pages : Z; eviction : EvictionPolicyConfig }.
Definition BufferPoolConfig_default : BufferPoolConfig :=
  {| capacity_pages := 1024; eviction := EvictionPolicyConfig_default |}.

Record Frame := {
  f_page_id : Z;
  f_data : list byte;
  f_valid : bool;
  f_dirty : bool;
  f_pin_count : Z;
}.

(** [pool] is null or this pool; [bytes] is the span of [frames[index].data]. *)
Record FrameHandle := { h_pool : bool; h_index : nat; h_id : Z }.
Definition FrameHandle_released : FrameHandle := {| h_pool := false; h_index := 0; h_id := 0 |}.

Record Pool (S : Type) := {
  bp_store : bool;
  bp_config : BufferPoolConfig;
  page_bytes : Z;
  frames : list Frame;
  eviction_policy : option AnyPolicy;
  bp_world : StoreW S;
}.
Arguments bp_store {S}.
Arguments bp_config {S}.
Arguments page_bytes {S}.
Arguments frames {S}.
Arguments eviction_policy {S}.
Arguments bp_world {S}.
Arguments Build_Pool {S}.

(** The field updates of a frame. *)
Definition set_dirty (d : bool) (f : Frame) : Frame :=
  {| f_page_id := f_page_id f; f_data := f_data f; f_valid := f_valid f; f_dirty := d;
     f_pin_count := f_pin_count f |}.
Definition set_pin (n : Z) (f : Frame) : Frame :=
  {| f_page_id := f_page_id f; f_data := f_data f; f_valid := f_valid f; f_dirty := f_dirty f;
     f_pin_count := n |}.
Definition set_frame_data (bs : list byte) (f : Frame) : Frame :=
  {| f_page_id := f_page_id f; f_data := bs; f_valid := f_valid f; f_dirty := f_dirty f;
     f_pin_count := f_pin_count f |}.
(** [page_id = id; valid = true; dirty = d; pin_count = 1]. *)
Definition occupy (id : Z) (d : bool) (f : Frame) : Frame :=
  {| f_page_id := id; f_data := f_data f; f_valid := true; f_dirty := d; f_pin_count := 1 |}.
Definition pin (f : Frame) : Frame := set_pin (wrap64 (f_pin_count f + 1)) f.
Definition zero_fill (f : Frame) : Frame :=
  set_frame_data (replicate (length (f_data f)) x00) f.

Definition frame_state (f : Frame) : EvictionFrameState :=
  {| efs_page_id := f_page_id f; efs_valid := f_valid f; efs_pinned := 0 <? f_pin_count f |}.

Section operations.
Context {S : Type} `{StorageIO S}.
#[local] Abbreviation P := (Pool S).

Definition set_frames (fs : list Frame) (p : P) : P :=
  {| bp_store := bp_store p; bp_config := bp_config p; page_bytes := page_bytes p;
     frames := fs; eviction_policy := eviction_policy p; bp_world := bp_world p |}.
Definition set_policy (e : option AnyPolicy) (p : P) : P :=
  {| bp_store := bp_store p; bp_config := bp_config p; page_bytes := page_bytes p;
     frames := frames p; eviction_policy := e; bp_world := bp_world p |}.
Definition set_world (w : StoreW S) (p : P) : P :=
  {| bp_store := bp_store p; bp_config := bp_config p; page_bytes := page_bytes p;
     frames := frames p; eviction_policy := eviction_policy p; bp_world := w |}.

(** [frames[i]], and an assignment through the reference. *)
Definition frame_at (i : nat) : M P Frame := fun p =>
  match frames p !! i with Some f => (Ok f, p) | None => (Fault, p) end.
Definition update_frame (i : nat) (g : Frame -> Frame) : M P unit :=
  let* f := frame_at i in
  modifyM (fun p => set_frames (<[i := g f]> (frames p)) p).

(** [store->...] and [eviction_policy->...]. *)
Definition on_page_store {A} (m : M (StoreW S) A) : M P A := zoom bp_world set_world m.
Definition on_policy {A} (m : M AnyPolicy A) : M P A := fun p =>
  match eviction_policy p with
  | None => (Fault, p)
  | Some e => let '(r, e) := m e in (r, set_policy (Some e) p)
  end.

Definition pool_check_open : M P unit := fun p =>
  if bp_store p then (Ok tt, p) else (Err IoError, p).

(** The first index, from [i] on, of a frame satisfying a test. *)
Fixpoint find_index (test : Frame -> bool) (i : nat) (fs : list Frame) : option nat :=
  match fs with
  | [] => None
  | f :: fs => if test f then Some i else find_index test (i + 1) fs
  end.

Definition find_frame (page_id : Z) : M P nat := fun p =>
  match find_index (fun f => f_valid f && (f_page_id f =? page_id)) 0 (frames p) with
  | Some i => (Ok i, p)
  | None => (Err NotFound, p)
  end.

Definition choose_victim : M P nat := fun p =>
  match find_index (fun f => negb (f_valid f)) 0 (frames p) with
  | Some i => (Ok i, p)
  | None =>
      match eviction_policy p with
      | None => (Err IoError, p)
      | Some _ => on_policy (ep_choose_victim (frame_state <$> frames p)) p
      end
  end.

Definition write_back_if_dirty (i : nat) : M P unit :=
  let* frame := frame_at i in
  if negb (f_valid frame) || negb (f_dirty frame) then retM tt
  else
    let* _ := on_page_store (write_page (f_page_id frame) (f_data frame)) in
    update_frame i (set_dirty false).

(** [store->read_page(page_id, frames[i].data)]. *)
Definition read_into_frame (i : nat) (page_id : Z) : M P unit := fun p =>
  match frames p !! i with
  | None => (Fault, p)
  | Some f =>
      let '(r, (data, w)) := read_page page_id (f_data f, bp_world p) in
      (r, set_world w (set_frames (<[i := set_frame_data data f]> (frames p)) p))
  end.

Definition load_page_into_frame (frame_index : nat) (page_id : Z) : M P unit :=
  let* frame := frame_at frame_index in
  let* _ := write_back_if_dirty frame_index in
  let* _ := read_into_frame frame_index page_id in
  let* _ := if f_valid frame then on_policy (ep_record_evict (f_page_id frame) frame_index)
            else retM tt in
  let* _ := update_frame frame_index (occupy page_id false) in
  on_policy (ep_record_load page_id frame_index).

Definition load_blank_page_into_frame (frame_index : nat) (page_id : Z) : M P unit :=
  let* frame := frame_at frame_index in
  let* _ := write_back_if_dirty frame_index in
  let* _ := if f_valid frame then on_policy (ep_record_evict (f_page_id frame) frame_index)
            else retM tt in
  let* _ := update_frame frame_index (fun f => occupy page_id true (zero_fill f)) in
  on_policy (ep_record_load page_id frame_index).

Definition make_handle (frame_index : nat) : M P FrameHandle :=
  let* frame := frame_at frame_index in
  retM {| h_pool := true; h_index := frame_index; h_id := f_page_id frame |}.

Definition fetch (page_id : Z) : M P FrameHandle :=
  let* _ := pool_check_open in
  let* cached := attempt (find_frame page_id) in
  match cached with
  | Ok i =>
      let* _ := update_frame i pin in
      let* _ := on_policy (ep_record_access page_id i) in
      make_handle i
  | _ =>
      let* _ := on_policy (ep_record_miss page_id) in
      let* victim := choose_victim in
      let* _ := load_page_into_frame victim page_id in
      make_handle victim
  end.

Definition fetch_new (page_id : Z) : M P FrameHandle :=
  let* _ := pool_check_open in
  let* cached := attempt (find_frame page_id) in
  match cached with
  | Ok i =>
      let* _ := update_frame i (fun f => zero_fill (set_dirty true (pin f))) in
      let* _ := on_policy (ep_record_access page_id i) in
      make_handle i
  | _ =>
      let* _ := on_policy (ep_record_miss page_id) in
      let* victim := choose_victim in
      let* _ := load_blank_page_into_frame victim page_id in
      make_handle victim
  end.

(** Returns what becomes of the handle: it is released on success. *)
Definition unpin (handle : FrameHandle) (dirty : bool) : M P FrameHandle :=
  let* _ := pool_check_open in
  let* n := getM (fun p => length (frames p)) in
  if negb (h_pool handle) || (n <=? h_index handle)%nat then errM InvalidArgument
  else
    let* frame := frame_at (h_index handle) in
    if negb (f_valid frame) || (f_pin_count frame =? 0) then errM InvalidArgument
    else
      let* _ := if dirty then update_frame (h_index handle) (set_dirty true) else retM tt in
      let* _ := update_frame (h_index handle) (fun f => set_pin (wrap64 (f_pin_count f - 1)) f) in
      retM FrameHandle_released.

Definition flush (page_id : Z) : M P unit :=
  let* _ := pool_check_open in
  let* cached := attempt (find_frame page_id) in
  match cached with
  | Ok i => write_back_if_dirty i
  | _ => retM tt
  end.

Fixpoint flush_frames (indices : list nat) : M P unit :=
  match indices with
  | [] => retM tt
  | i :: rest => let* _ := write_back_if_dirty i in flush_frames rest
  end.

Definition flush_all : M P unit :=
  let* _ := pool_check_open in
  let* n := getM (fun p => length (frames p)) in
  let* _ := flush_frames (seq 0 n) in
  on_page_store store_sync.

Definition pool_open (cfg : BufferPoolConfig) : M P unit :=
  let* _ := assertM (0 <? capacity_pages cfg) in
  let* _ := modifyM (fun p =>
    {| bp_store := true; bp_config := cfg; page_bytes := page_size_of (bp_world p);
       frames := frames p; eviction_policy := Some (make_eviction_policy (eviction cfg));
       bp_world := bp_world p |}) in
  let* _ := on_policy (ep_reset (Z.to_nat (capacity_pages cfg))) in
  modifyM (fun p => set_frames
    (replicate (Z.to_nat (capacity_pages cfg))
       {| f_page_id := 0; f_data := replicate (Z.to_nat (page_bytes p)) x00; f_valid := false;
          f_dirty := false; f_pin_count := 0 |}) p).

Definition pool_close : M P unit :=
  let* opened := getM bp_store in
  let* _ := if opened then flush_all else retM tt in
  modifyM (fun p =>
    {| bp_store := false; bp_config := BufferPoolConfig_default; page_bytes := 0;
       frames := []; eviction_policy := None; bp_world := bp_world p |}).

Definition pool_capacity (p : P) : Z := capacity_pages (bp_config p).
Definition pool_page_size (p : P) : Z := page_bytes p.

(** [handle.data()]: the empty span when released, the frame's bytes otherwise;
    and stores through that span, which keep its size. *)
Definition handle_data (h : FrameHandle) : M P (list byte) :=
  if h_pool h then let* f := frame_at (h_index h) in retM (f_data f) else retM [].
Definition handle_write (h : FrameHandle) (bs : list byte) : M P unit :=
  let* old := handle_data h in
  let* _ := assertM (length bs =? length old)%nat in
  if h_pool h then update_frame (h_index h) (set_frame_data bs) else retM tt.
Definition handle_is_valid (h : FrameHandle) : bool := h_pool h.
(** [FrameHandle(FrameHandle&&)] and [operator=(FrameHandle&&)]: the target gets
    the source's fields and the source is released.  Neither touches the pool. *)
Definition handle_move (h : FrameHandle) : FrameHandle * FrameHandle := (h, FrameHandle_released).
End operations.
