(* ===== verification/BufferPoolSpec.v ===== *)
(** * BufferPoolSpec: the buffer pool refines the pages it caches

    [pool_wf] is the structural invariant; it survives every operation, failing
    devices included.  [logical] is what the pool's client sees: the frame's
    bytes for a resident page, the disk's bytes for the others.  [pool_clean]
    says that an unpinned frame that is not marked dirty agrees with the disk,
    which is what makes eviction invisible. *)
From S2P Require Import Prelude Utils StorageIO PageStore EvictionPolicy PolicyFactory BufferPool.

(** The page a frame holds. *)
Definition slot_page (f : Frame) : option Z := if f_valid f then Some (f_page_id f) else None.

Lemma resident_frames fs : resident (frame_state <$> fs) = slot_page <$> fs.
Proof. unfold resident. rewrite <- list_fmap_compose. done. Qed.

Lemma find_index_spec test k fs :
  match find_index test k fs with
  | Some i => exists j f, i = (k + j)%nat /\ fs !! j = Some f /\ test f = true
  | None => forall j f, fs !! j = Some f -> test f = false
  end.
Proof.
  revert k. induction fs as [|f fs IH]; intros k; cbn; [done|].
  destruct (test f) eqn:Ht; [exists 0%nat, f; split_and!; [lia|done|done]|].
  specialize (IH (k + 1)%nat). destruct (find_index test (k + 1) fs) as [i|].
  - destruct IH as (j & g & -> & Hj & Hg). exists (Datatypes.S j), g. split_and!; [lia|done|done].
  - intros [|j] g Hg; cbn in Hg; [congruence|eauto].
Qed.

Section specification.
Context {S : Type} `{StorageIOLaws S}.
#[local] Abbreviation P := (Pool S).
Implicit Types (p : P) (f : Frame) (i : nat).

Definition pages p : list (option Z) := slot_page <$> frames p.
Definition pdisk p : list (list byte) := disk (bp_world p).
Definition pool_good p : Prop := good (bp_world p).

Record pool_wf p : Prop := {
  pw_open : bp_store p = true;
  pw_store : store_ok (bp_world p);
  pw_bytes : page_bytes p = page_size_of (bp_world p);
  pw_frames : frames p <> [];
  pw_data i f : frames p !! i = Some f -> length (f_data f) = page_bytes_nat (bp_world p);
  pw_ids i f : frames p !! i = Some f -> f_valid f = true ->
    0 <= f_page_id f < Z.of_nat (length (pdisk p));
  pw_pins i f : frames p !! i = Some f -> 0 <= f_pin_count f < 2 ^ 64;
  pw_unique i j page :
    pages p !! i = Some (Some page) -> pages p !! j = Some (Some page) -> i = j;
  pw_policy : exists e, eviction_policy p = Some e /\ ep_coherent e (pages p);
}.

(** The frame's bytes are on disk or marked to be written there. *)
Definition synced p f : Prop :=
  f_dirty f = true \/ pdisk p !! Z.to_nat (f_page_id f) = Some (f_data f).
Definition pool_clean p : Prop :=
  forall i f, frames p !! i = Some f -> f_valid f = true -> f_pin_count f = 0 -> synced p f.

Definition cached p (n : nat) : option (list byte) :=
  match find_index (fun f => f_valid f && (f_page_id f =? Z.of_nat n)) 0 (frames p) with
  | Some i => f_data <$> frames p !! i
  | None => None
  end.
Definition logical p : list (list byte) :=
  imap (fun n page => default page (cached p n)) (pdisk p).

(** ** Reading the abstraction *)

Lemma pages_lookup p i : pages p !! i = slot_page <$> frames p !! i.
Proof. apply list_lookup_fmap. Qed.

Lemma pages_valid p i f :
  frames p !! i = Some f -> f_valid f = true -> pages p !! i = Some (Some (f_page_id f)).
Proof. intros Hi Hv. rewrite pages_lookup, Hi. cbn. unfold slot_page. by rewrite Hv. Qed.

Lemma pages_inv p i page :
  pages p !! i = Some (Some page) ->
  exists f, frames p !! i = Some f /\ f_valid f = true /\ f_page_id f = page.
Proof.
  rewrite pages_lookup. destruct (frames p !! i) as [f|]; cbn; [|done]. unfold slot_page.
  destruct (f_valid f) eqn:?; naive_solver.
Qed.

Lemma length_logical p : length (logical p) = length (pdisk p).
Proof. apply length_imap. Qed.

Lemma cached_resident p i f :
  pool_wf p -> frames p !! i = Some f -> f_valid f = true ->
  cached p (Z.to_nat (f_page_id f)) = Some (f_data f).
Proof.
  intros Hwf Hi Hv. pose proof (pw_ids _ Hwf _ _ Hi Hv). unfold cached.
  rewrite Z2Nat.id by lia.
  pose proof (find_index_spec (fun g => f_valid g && (f_page_id g =? f_page_id f)) 0 (frames p)) as Hf.
  destruct (find_index _ _ _) as [j|].
  - destruct Hf as (j' & g & -> & Hg & [Hgv Hgi%Z.eqb_eq]%andb_prop). cbn.
    assert (j' = i) as ->.
    { apply (pw_unique _ Hwf _ _ (f_page_id f)); [|by apply pages_valid].
      rewrite <- Hgi. by apply pages_valid. }
    by simplify_eq; rewrite Hi.
  - specialize (Hf _ _ Hi). rewrite Hv, Z.eqb_refl in Hf. done.
Qed.

Lemma cached_absent p n :
  Some (Z.of_nat n) ∉ pages p -> cached p n = None.
Proof.
  intros Hn. unfold cached.
  pose proof (find_index_spec (fun g => f_valid g && (f_page_id g =? Z.of_nat n)) 0 (frames p)) as Hf.
  destruct (find_index _ _ _) as [j|]; [|done].
  destruct Hf as (j' & g & -> & Hg & [Hgv Hgi%Z.eqb_eq]%andb_prop).
  destruct Hn. rewrite <- Hgi. apply list_elem_of_lookup. exists j'. by apply pages_valid.
Qed.

Lemma logical_lookup p n :
  logical p !! n = (fun page => default page (cached p n)) <$> pdisk p !! n.
Proof. unfold logical. by rewrite list_lookup_imap. Qed.

Lemma logical_resident p i f :
  pool_wf p -> frames p !! i = Some f -> f_valid f = true ->
  logical p !! Z.to_nat (f_page_id f) = Some (f_data f).
Proof.
  intros Hwf Hi Hv. rewrite logical_lookup, (cached_resident p i f) by done.
  pose proof (pw_ids _ Hwf _ _ Hi Hv).
  destruct (lookup_lt_is_Some_2 (pdisk p) (Z.to_nat (f_page_id f))) as [pg ->]; [lia|done].
Qed.

Lemma logical_absent p n :
  Some (Z.of_nat n) ∉ pages p -> logical p !! n = pdisk p !! n.
Proof.
  intros Hn. rewrite logical_lookup, cached_absent by done. by destruct (pdisk p !! n).
Qed.

(** Two pools present the same pages when their disks have the same length, each
    resident frame of the second shows what the first shows, and the pages that
    are not resident are on the second's disk. *)
Lemma logical_eq p p' :
  pool_wf p' -> length (pdisk p') = length (pdisk p) ->
  (forall i f, frames p' !! i = Some f -> f_valid f = true ->
     logical p !! Z.to_nat (f_page_id f) = Some (f_data f)) ->
  (forall n, Some (Z.of_nat n) ∉ pages p' -> pdisk p' !! n = logical p !! n) ->
  logical p' = logical p.
Proof.
  intros Hwf' Hlen Hres Habs. apply list_eq. intros n.
  destruct (decide (Some (Z.of_nat n) ∈ pages p')) as [Hin|Hout].
  - apply list_elem_of_lookup in Hin as [i Hi].
    apply pages_inv in Hi as (f & Hi & Hv & Hid).
    rewrite <- (Nat2Z.id n), <- Hid. rewrite (logical_resident p' i) by done. by rewrite (Hres i f).
  - rewrite logical_absent by done. by apply Habs.
Qed.

(** ** Updating one frame, the policy or the disk *)

Lemma pages_update p i f' :
  pages (set_frames (<[i:=f']> (frames p)) p) = <[i:=slot_page f']> (pages p).
Proof. unfold pages. cbn. by rewrite list_fmap_insert. Qed.

Lemma pages_update_same p i f f' :
  frames p !! i = Some f -> slot_page f' = slot_page f ->
  pages (set_frames (<[i:=f']> (frames p)) p) = pages p.
Proof.
  intros Hi Hs. rewrite pages_update. apply list_insert_id. rewrite pages_lookup, Hi, Hs. done.
Qed.

Lemma pool_wf_update p i f f' :
  pool_wf p -> frames p !! i = Some f -> slot_page f' = slot_page f ->
  length (f_data f') = length (f_data f) -> 0 <= f_pin_count f' < 2 ^ 64 ->
  pool_wf (set_frames (<[i:=f']> (frames p)) p).
Proof.
  intros Hwf Hi Hs Hd Hp. pose proof (pages_update_same _ _ _ _ Hi Hs) as Hpg.
  assert (Hlk : forall j g, <[i:=f']> (frames p) !! j = Some g ->
            j = i /\ g = f' \/ frames p !! j = Some g).
  { intros j g. rewrite list_lookup_insert_Some. naive_solver. }
  destruct Hwf as [? ? ? Hne Hda Hids Hpins Huniq Hpol].
  split; rewrite ?Hpg; try done; cbn [set_frames frames bp_world].
  - intros Hnil. apply Hne, nil_length_inv. by rewrite <- (length_insert _ i f'), Hnil.
  - intros j g [[-> ->]|Hg]%Hlk; [rewrite Hd|]; eauto.
  - intros j g [[-> ->]|Hg]%Hlk Hv; [|eauto].
    unfold slot_page in Hs. rewrite Hv in Hs. destruct (f_valid f) eqn:Hfv; [|done].
    injection Hs as Hs. rewrite Hs. eauto.
  - intros j g [[-> ->]|Hg]%Hlk; eauto.
Qed.

Lemma pool_wf_policy p e :
  pool_wf p -> ep_coherent e (pages p) -> pool_wf (set_policy (Some e) p).
Proof. intros [] He. split; try done. by exists e. Qed.

Lemma pool_wf_world p w :
  pool_wf p -> store_ok w -> pstore w = pstore (bp_world p) ->
  (length (pdisk p) <= length (disk w))%nat -> pool_wf (set_world w p).
Proof.
  intros [] Hok Hps Hlen.
  assert (Hsz : page_size_of w = page_size_of (bp_world p)) by (unfold page_size_of; by rewrite Hps).
  split; try done; cbn [set_world frames bp_world page_bytes].
  - congruence.
  - intros i f Hi. unfold page_bytes_nat. rewrite Hsz. by apply (pw_data0 i).
  - intros i f Hi Hv. specialize (pw_ids0 i f Hi Hv). unfold pdisk. cbn. lia.
Qed.

(** ** What an operation may not disturb *)

(** The client sees the same pages. *)
Definition transparent p p' : Prop := pool_clean p -> pool_clean p' /\ logical p' = logical p.

#[export] Instance transparent_preorder : PreOrder transparent.
Proof.
  unfold transparent. split; [done|]. intros p1 p2 p3 H12 H23 Hc.
  destruct (H12 Hc) as [Hc2 Hl2]. destruct (H23 Hc2) as [Hc3 Hl3]. split; [done|congruence].
Qed.

(** The page store object and the number of pages stay, and the backend is no
    worse than it was. *)
Definition same_base p p' : Prop :=
  pstore (bp_world p') = pstore (bp_world p) /\ length (pdisk p') = length (pdisk p).

#[export] Instance same_base_preorder : PreOrder same_base.
Proof. unfold same_base. split; [done|]. intros ??? [] []. split; congruence. Qed.

Lemma set_policy_transparent p e : transparent p (set_policy e p).
Proof. done. Qed.

Lemma on_policy_wp {A} (m : M AnyPolicy A) p e Q :
  eviction_policy p = Some e -> wp m (fun r e' => Q r (set_policy (Some e') p)) e ->
  wp (on_policy m) Q p.
Proof. intros He Hm. unfold wp, on_policy in *. rewrite He. by destruct (m e). Qed.

(** A notification: the policy becomes coherent with [rs]. *)
Lemma notify_wp (m : M AnyPolicy unit) p e rs :
  eviction_policy p = Some e ->
  wp m (post (fun _ e' => ep_coherent e' rs) (fun _ _ => False)) e ->
  wp (on_policy m)
    (post (fun _ p' => exists e', p' = set_policy (Some e') p /\ ep_coherent e' rs)
          (fun _ _ => False)) p.
Proof.
  intros He Hm. eapply on_policy_wp; [done|]. eapply wp_post_mono; [exact Hm|eauto|done].
Qed.

Lemma frame_at_bind {B} p i f (k : Frame -> M P B) Q :
  frames p !! i = Some f -> wp (k f) Q p -> wp (bindM (frame_at i) k) Q p.
Proof. intros Hi. apply wp_eq_bind. unfold frame_at. by rewrite Hi. Qed.

Lemma update_frame_eq p i f g :
  frames p !! i = Some f ->
  update_frame i g p = (Ok tt, set_frames (<[i := g f]> (frames p)) p).
Proof. intros Hi. unfold update_frame, bindM, frame_at. by rewrite Hi. Qed.

Lemma frames_unique p i j f g :
  pool_wf p -> frames p !! i = Some f -> frames p !! j = Some g ->
  f_valid f = true -> f_valid g = true -> f_page_id f = f_page_id g -> i = j.
Proof.
  intros Hwf Hi Hj Hf Hg Heq. apply (pw_unique _ Hwf _ _ (f_page_id f)).
  - by apply pages_valid.
  - rewrite Heq. by apply pages_valid.
Qed.

(** Replacing the disk's copy of a resident page is invisible. *)
Lemma disk_write_transparent p p' i f f' new :
  pool_wf p -> pool_wf p' -> frames p !! i = Some f ->
  frames p' = <[i:=f']> (frames p) -> f_valid f = true -> slot_page f' = slot_page f ->
  f_data f' = f_data f -> f_pin_count f' = f_pin_count f ->
  pdisk p' = <[Z.to_nat (f_page_id f) := new]> (pdisk p) -> synced p' f' ->
  transparent p p'.
Proof.
  intros Hwf Hwf' Hi Hfr Hv Hslot Hdata Hpin Hdisk Hsync Hclean.
  assert (Hv' : f_valid f' = true /\ f_page_id f' = f_page_id f).
  { unfold slot_page in Hslot. rewrite Hv in Hslot. destruct (f_valid f'); naive_solver. }
  destruct Hv' as [Hv' Hid'].
  assert (Hpg : pages p' = pages p).
  { unfold pages. rewrite Hfr, list_fmap_insert. apply list_insert_id.
    rewrite list_lookup_fmap, Hi. cbn. by rewrite Hslot. }
  assert (Hlk : forall j g, frames p' !! j = Some g ->
            j = i /\ g = f' \/ j <> i /\ frames p !! j = Some g).
  { intros j g. rewrite Hfr, list_lookup_insert_Some. naive_solver. }
  split.
  - intros j g [[-> ->]|[Hne Hj]]%Hlk Hgv Hgp; [done|].
    destruct (Hclean _ _ Hj Hgv Hgp) as [Hd|Hd]; [by left|right].
    rewrite Hdisk, list_lookup_insert_ne; [done|]. intros Heq.
    pose proof (pw_ids _ Hwf _ _ Hi Hv). pose proof (pw_ids _ Hwf _ _ Hj Hgv).
    apply Hne, (frames_unique p j i g f Hwf); [done..|lia].
  - apply logical_eq; [done|by rewrite Hdisk, length_insert| |].
    + intros j g [[-> ->]|[Hne Hj]]%Hlk Hgv.
      * rewrite Hid', Hdata. by apply (logical_resident p i).
      * by apply (logical_resident p j).
    + intros n Hn. rewrite Hpg in Hn. rewrite logical_absent, Hdisk by done.
      apply list_lookup_insert_ne. intros <-. apply Hn.
      pose proof (pw_ids _ Hwf _ _ Hi Hv). rewrite Z2Nat.id by lia.
      apply list_elem_of_lookup. exists i. by apply pages_valid.
Qed.

(** ** Write-back *)

Definition cleaned f : Frame := if f_valid f then set_dirty false f else f.

Lemma write_back_wp p i f :
  pool_wf p -> frames p !! i = Some f ->
  wp (write_back_if_dirty i)
    (post (fun _ p' => pool_wf p' /\ frames p' = <[i := cleaned f]> (frames p) /\
             eviction_policy p' = eviction_policy p /\ transparent p p' /\ same_base p p' /\
             (pool_good p -> pool_good p') /\
             (f_valid f = true -> synced p f ->
                pdisk p' !! Z.to_nat (f_page_id f) = Some (f_data f)))
          (fun e p' => pool_wf p' /\ frames p' = frames p /\ transparent p p' /\
             same_base p p' /\ ~ pool_good p)) p.
Proof.
  intros Hwf Hi. unfold write_back_if_dirty. eapply frame_at_bind; [done|].
  destruct (f_valid f) eqn:Hv; cbn [negb orb].
  2: { apply wp_ret. cbn. unfold cleaned. rewrite Hv. rewrite list_insert_id by done.
       split_and!; try done; reflexivity. }
  destruct (f_dirty f) eqn:Hd; cbn [negb].
  2: { apply wp_ret. cbn. unfold cleaned. rewrite Hv.
       assert (set_dirty false f = f) as -> by (destruct f; cbn in *; by subst).
       rewrite list_insert_id by done.
       split_and!; try done; try reflexivity. unfold synced. intros _ [Hx|Hx]; [congruence|done]. }
  pose proof (pw_ids _ Hwf _ _ Hi Hv) as Hid. pose proof (pw_data _ Hwf _ _ Hi) as Hlen.
  apply wp_bind, wp_zoom. eapply wp_mono.
  { apply write_page_wp; [by apply Hwf|lia|lia]. }
  intros [[]|e|] w; cbn [post]; [| |done].
  - intros (Hok & Hps & _ & Hdisk & Hg). rewrite take_ge in Hdisk by lia.
    set (p1 := set_world w p).
    assert (Hwf1 : pool_wf p1).
    { apply pool_wf_world; try done. by rewrite Hdisk, length_insert. }
    eapply wp_eq; [by apply update_frame_eq|]. cbn [post].
    set (p2 := set_frames _ p1).
    assert (Hwf2 : pool_wf p2).
    { apply (pool_wf_update p1 i f); try done. exact (pw_pins _ Hwf i f Hi). }
    assert (Hnew : pdisk p2 !! Z.to_nat (f_page_id f) = Some (f_data f)).
    { change (pdisk p2) with (disk w). rewrite Hdisk. apply list_lookup_insert_eq.
      unfold pdisk in Hid. lia. }
    unfold cleaned. rewrite Hv.
    split_and!; try done.
    + eapply (disk_write_transparent p p2 i f (set_dirty false f)); try done. right. exact Hnew.
    + split; [done|]. unfold pdisk. cbn. by rewrite Hdisk, length_insert.
  - intros (Hok & Hps & (torn & Htl & Hdisk) & Hwhy).
    assert (Hwf1 : pool_wf (set_world w p)).
    { apply pool_wf_world; try done. by rewrite Hdisk, length_insert. }
    split_and!; try done.
    + eapply (disk_write_transparent p _ i f f); try done; [|by left].
      by rewrite list_insert_id.
    + split; [done|]. unfold pdisk. cbn. by rewrite Hdisk, length_insert.
    + destruct Hwhy as [[_ Hge]|Hng]; [unfold pdisk in Hid; lia|done].
Qed.

(** ** Victims *)

(** Only the policy's bookkeeping changed. *)
Definition policy_step p p' : Prop :=
  exists e, p' = set_policy (Some e) p /\ ep_coherent e (pages p).

Lemma policy_step_refl p : pool_wf p -> policy_step p p.
Proof. intros Hwf. destruct (pw_policy _ Hwf) as (e & He & Hc). exists e. destruct p; cbn in *. by subst. Qed.

Lemma policy_step_wf p p' : pool_wf p -> policy_step p p' -> pool_wf p'.
Proof. intros Hwf (e & -> & He). by apply pool_wf_policy. Qed.

Lemma choose_victim_wp p :
  pool_wf p ->
  wp choose_victim
    (post (fun i p' => policy_step p p' /\
             exists f, frames p !! i = Some f /\ (f_valid f = true -> f_pin_count f = 0))
          (fun e p' => policy_step p p' /\ e = BufferPoolFull /\
             forall i f, frames p !! i = Some f -> f_valid f = true /\ 0 < f_pin_count f)) p.
Proof.
  intros Hwf. unfold wp, choose_victim.
  pose proof (find_index_spec (fun f => negb (f_valid f)) 0 (frames p)) as Hf.
  destruct (find_index _ _ _) as [i|]; cbn [fst snd post].
  { destruct Hf as (j & f & -> & Hj & Hv%negb_true_iff). split; [by apply policy_step_refl|].
    exists f. split; [done|congruence]. }
  destruct (pw_policy _ Hwf) as (e & He & Hc). rewrite He.
  assert (Hall : forall i f, frames p !! i = Some f -> f_valid f = true).
  { intros i f Hi. apply Hf in Hi. by apply negb_false_iff in Hi. }
  change (wp (on_policy (ep_choose_victim (frame_state <$> frames p)))
    (post (fun i p' => policy_step p p' /\
             exists f, frames p !! i = Some f /\ (f_valid f = true -> f_pin_count f = 0))
          (fun e p' => policy_step p p' /\ e = BufferPoolFull /\
             forall i f, frames p !! i = Some f -> f_valid f = true /\ 0 < f_pin_count f)) p).
  eapply on_policy_wp; [done|]. eapply wp_post_mono.
  { apply ep_choose_spec; [by rewrite resident_frames|]. pose proof (pw_frames _ Hwf).
    by destruct (frames p). }
  - intros i e' [Hev Hc']. rewrite resident_frames in Hc'. split; [by exists e'|].
    unfold is_evictable in Hev. rewrite list_lookup_fmap in Hev.
    destruct (frames p !! i) as [f|] eqn:Hi; [|done]. exists f. split; [done|]. intros _.
    cbn in Hev. apply andb_prop in Hev as [_ Hp%negb_true_iff%Z.ltb_ge].
    pose proof (pw_pins _ Hwf _ _ Hi). lia.
  - intros er e' (-> & Hc' & Hno). rewrite resident_frames in Hc'.
    split_and!; [by exists e'|done|]. intros i f Hi. split; [by eapply Hall|].
    specialize (Hno i). unfold is_evictable in Hno. rewrite list_lookup_fmap, Hi in Hno. cbn in Hno.
    rewrite (Hall _ _ Hi) in Hno. cbn in Hno. apply negb_false_iff, Z.ltb_lt in Hno. lia.
Qed.

(** ** Installing a page in a frame *)

(** [p'] is [p] with page [id], in frame [f'], in place of frame [g] at [i]. *)
Record installs p p' i g f' id : Prop := {
  in_old : frames p !! i = Some g;
  in_frames : frames p' = <[i:=f']> (frames p);
  in_open : bp_store p' = true;
  in_bytes : page_bytes p' = page_bytes p;
  in_store : store_ok (bp_world p');
  in_pstore : pstore (bp_world p') = pstore (bp_world p);
  in_disk : pdisk p' = pdisk p;
  in_valid : f_valid f' = true;
  in_id : f_page_id f' = id;
  in_pin : f_pin_count f' = 1;
  in_length : length (f_data f') = length (f_data g);
  in_range : 0 <= id < Z.of_nat (length (pdisk p));
  in_new : Some id ∉ pages p;
  in_policy : exists e, eviction_policy p' = Some e /\ ep_coherent e (<[i:=Some id]> (pages p));
}.

Section installs.
Context p p' i g f' id (Hwf : pool_wf p) (Hin : installs p p' i g f' id).

Lemma installs_pages : pages p' = <[i:=Some id]> (pages p).
Proof using Hin.
  unfold pages. rewrite (in_frames _ _ _ _ _ _ Hin), list_fmap_insert. unfold slot_page at 1.
  by rewrite (in_valid _ _ _ _ _ _ Hin), (in_id _ _ _ _ _ _ Hin).
Qed.

Lemma installs_frame : frames p' !! i = Some f'.
Proof using Hin.
  rewrite (in_frames _ _ _ _ _ _ Hin). apply list_lookup_insert_eq.
  eapply lookup_lt_Some, Hin.
Qed.

Lemma installs_lookup j h :
  frames p' !! j = Some h -> j = i /\ h = f' \/ j <> i /\ frames p !! j = Some h.
Proof using Hin. rewrite (in_frames _ _ _ _ _ _ Hin), list_lookup_insert_Some. naive_solver. Qed.

Lemma installs_wf : pool_wf p'.
Proof using Hwf Hin.
  pose proof installs_pages as Hpg. pose proof installs_lookup as Hlk.
  destruct Hin as [Hi Hfr Ho Hpb Hok Hps Hdisk Hv Hid Hpin Hlen Hrange Hnew Hpol].
  assert (Hsz : page_size_of (bp_world p') = page_size_of (bp_world p))
    by (unfold page_size_of; by rewrite Hps).
  split; try done; rewrite ?Hpg; try done.
  - rewrite Hpb, Hsz. apply Hwf.
  - intros Hnil. rewrite Hfr in Hnil. apply (f_equal length) in Hnil.
    rewrite length_insert in Hnil. apply lookup_lt_Some in Hi. cbn in Hnil. lia.
  - intros j h Hh. unfold page_bytes_nat. rewrite Hsz.
    apply Hlk in Hh as [[-> ->]|[_ Hh]]; [rewrite Hlen|]; by eapply (pw_data _ Hwf).
  - intros j h Hh Hhv. rewrite Hdisk. apply Hlk in Hh as [[-> ->]|[_ Hh]]; [by rewrite Hid|].
    by eapply (pw_ids _ Hwf).
  - intros j h [[-> ->]|[_ Hh]]%Hlk; [lia|by eapply (pw_pins _ Hwf)].
  - assert (Hno : forall j, pages p !! j <> Some (Some id))
      by (intros j Hj; apply Hnew, list_elem_of_lookup; eauto).
    intros j k page. rewrite !list_lookup_insert_Some.
    intros [(-> & Hpj & _)|(Hj & Hjp)] [(-> & Hpk & _)|(Hk & Hkp)]; simplify_eq; try done.
    + by destruct (Hno k).
    + by destruct (Hno j).
    + by apply (pw_unique _ Hwf _ _ page).
Qed.

Lemma installs_clean : pool_clean p -> pool_clean p'.
Proof using Hin.
  intros Hclean j h Hh Hhv Hhp. unfold synced. rewrite (in_disk _ _ _ _ _ _ Hin).
  apply installs_lookup in Hh as [[-> ->]|[_ Hh]].
  - rewrite (in_pin _ _ _ _ _ _ Hin) in Hhp. done.
  - by eapply Hclean.
Qed.

(** A page other than [id] that was resident still shows the same bytes, when
    the replaced frame's bytes are on disk. *)
Lemma installs_other n :
  (f_valid g = true -> pdisk p !! Z.to_nat (f_page_id g) = Some (f_data g)) ->
  n <> Z.to_nat id -> logical p' !! n = logical p !! n.
Proof using Hwf Hin.
  intros Hevict Hn. pose proof installs_wf as Hwf'. pose proof installs_pages as Hpg.
  destruct Hin as [Hi Hfr _ _ _ _ Hdisk _ _ _ _ Hrange Hnew _].
  destruct (decide (Some (Z.of_nat n) ∈ pages p')) as [Hres|Hout].
  - apply list_elem_of_lookup in Hres as [j Hj]. rewrite Hpg, list_lookup_insert_Some in Hj.
    destruct Hj as [(_ & [= Heq] & _)|(Hne & Hj)]; [lia|].
    apply pages_inv in Hj as (h & Hh & Hhv & Hhid).
    rewrite <- (Nat2Z.id n), <- Hhid. rewrite (logical_resident p j) by done.
    apply (logical_resident p' j); [done| |done]. by rewrite Hfr, list_lookup_insert_ne.
  - rewrite logical_absent, Hdisk by done.
    destruct (decide (Some (Z.of_nat n) ∈ pages p)) as [Hres|Hout2]; [|by rewrite logical_absent].
    apply list_elem_of_lookup in Hres as [j Hj].
    assert (j = i) as ->.
    { apply dec_stable. intros Hji. apply Hout, list_elem_of_lookup. exists j.
      rewrite Hpg, list_lookup_insert_ne; done. }
    apply pages_inv in Hj as (h & Hh & Hhv & Hhid). simplify_eq.
    pose proof (logical_resident p i g Hwf Hi Hhv) as Hlg. rewrite Hhid, Nat2Z.id in Hlg.
    rewrite Hlg. specialize (Hevict Hhv). by rewrite Hhid, Nat2Z.id in Hevict.
Qed.

Lemma installs_logical :
  (f_valid g = true -> pdisk p !! Z.to_nat (f_page_id g) = Some (f_data g)) ->
  logical p' = <[Z.to_nat id := f_data f']> (logical p).
Proof using Hwf Hin.
  intros Hevict. apply list_eq. intros n. destruct (decide (n = Z.to_nat id)) as [->|Hn].
  - rewrite list_lookup_insert_eq by (rewrite length_logical; pose proof (in_range _ _ _ _ _ _ Hin); lia).
    rewrite <- (in_id _ _ _ _ _ _ Hin).
    apply (logical_resident p' i); [apply installs_wf|apply installs_frame|apply Hin].
  - rewrite list_lookup_insert_ne by done. by apply installs_other.
Qed.
End installs.

(** The frame's page is reported evicted, if it held one. *)
Lemma evict_wp p i f e rs :
  eviction_policy p = Some e -> ep_coherent e rs -> rs !! i = Some (slot_page f) ->
  wp (if f_valid f then on_policy (ep_record_evict (f_page_id f) i) else retM tt)
    (post (fun _ p' => exists e', p' = set_policy (Some e') p /\ ep_coherent e' (<[i:=None]> rs))
          (fun _ _ => False)) p.
Proof.
  intros He Hc Hi. unfold slot_page in Hi. destruct (f_valid f).
  - eapply notify_wp; [done|]. by apply ep_evict_spec.
  - apply wp_ret. exists e. rewrite list_insert_id by done. split; [|done].
    destruct p; cbn in *. by subst.
Qed.

Lemma slot_cleaned f : slot_page (cleaned f) = slot_page f.
Proof. by destruct f as [? ? [] ? ?]. Qed.
Lemma cleaned_fields f :
  f_valid (cleaned f) = f_valid f /\ f_page_id (cleaned f) = f_page_id f /\
  f_data (cleaned f) = f_data f /\ f_pin_count (cleaned f) = f_pin_count f.
Proof. by destruct f as [? ? [] ? ?]. Qed.

(** The state left by a successful write-back, seen from the frames. *)
Lemma cleaned_pages p p1 i f :
  frames p !! i = Some f -> frames p1 = <[i:=cleaned f]> (frames p) ->
  frames p1 !! i = Some (cleaned f) /\ pages p1 = pages p.
Proof.
  intros Hi Hfr. split.
  - rewrite Hfr. apply list_lookup_insert_eq. by eapply lookup_lt_Some.
  - unfold pages. rewrite Hfr, list_fmap_insert, slot_cleaned. apply list_insert_id.
    by rewrite list_lookup_fmap, Hi.
Qed.

(** The tail shared by both loads: report the eviction, install, report the load. *)
Lemma install_tail_wp p1 p2 i f g f' id e (h : Frame -> Frame) :
  pool_wf p1 -> frames p1 !! i = Some g -> slot_page g = slot_page f ->
  eviction_policy p1 = Some e -> ep_coherent e (pages p1) ->
  bp_store p2 = true -> page_bytes p2 = page_bytes p1 -> store_ok (bp_world p2) ->
  pstore (bp_world p2) = pstore (bp_world p1) -> pdisk p2 = pdisk p1 ->
  eviction_policy p2 = Some e ->
  frames p2 = <[i:=f']> (frames p1) ->
  f_valid (h f') = true -> f_page_id (h f') = id -> f_pin_count (h f') = 1 ->
  length (f_data (h f')) = length (f_data g) ->
  0 <= id < Z.of_nat (length (pdisk p1)) -> Some id ∉ pages p1 ->
  wp (let* _ := if f_valid f then on_policy (ep_record_evict (f_page_id f) i) else retM tt in
      let* _ := update_frame i h in
      on_policy (ep_record_load id i))
    (post (fun _ p' => installs p1 p' i g (h f') id /\ bp_world p' = bp_world p2)
          (fun _ _ => False)) p2.
Proof.
  intros Hwf Hi Hslot He Hc Ho Hpb Hok Hps Hdisk He2 Hfr Hv Hid Hpin Hlen Hrange Hnew.
  assert (Hpi : pages p1 !! i = Some (slot_page f)) by (by rewrite pages_lookup, Hi; cbn; rewrite Hslot).
  assert (Hlt : (i < length (frames p1))%nat) by (by eapply lookup_lt_Some).
  assert (Hlt' : (i < length (pages p1))%nat) by (unfold pages; by rewrite length_fmap).
  eapply wp_post_bind; [by apply (evict_wp p2 i f e (pages p1))| |done].
  intros _ p3 (e3 & -> & Hc3).
  eapply wp_eq_bind.
  { apply update_frame_eq. cbn. rewrite Hfr. by apply list_lookup_insert_eq. }
  eapply wp_post_mono; [apply (notify_wp _ _ e3 (<[i:=Some id]> (pages p1))); [done|]|..|done].
  - rewrite <- (list_insert_insert_eq (pages p1) i (Some id) None).
    apply ep_load_spec; [done|by apply list_lookup_insert_eq|].
    rewrite list_elem_of_lookup. intros [j Hj]. apply list_lookup_insert_Some in Hj.
    destruct Hj as [(_ & ? & _)|(_ & Hj)]; [done|]. apply Hnew, list_elem_of_lookup. eauto.
  - intros _ p' (e5 & -> & Hc5). split; [|done]. split; try done; cbn.
    + by rewrite Hfr, list_insert_insert_eq.
    + by exists e5.
Qed.

Lemma same_frames_transparent p p' :
  frames p' = frames p -> pdisk p' = pdisk p -> transparent p p'.
Proof.
  intros Hfr Hd. unfold transparent, pool_clean, logical, synced, cached. by rewrite Hfr, Hd.
Qed.

(** A read that a healthy backend refuses leaves the frame as it was; a read
    that fails on the device may leave any bytes there, unless the device's
    failed reads transfer nothing. *)
Lemma read_into_frame_wp p i f id :
  pool_wf p -> frames p !! i = Some f -> 0 <= id ->
  wp (read_into_frame i id)
    (post (fun _ p' => exists page w, pdisk p !! Z.to_nat id = Some page /\
             length page = length (f_data f) /\ same_store (bp_world p) w /\
             p' = set_world w (set_frames (<[i:=set_frame_data page f]> (frames p)) p))
          (fun e p' => pool_wf p' /\ same_base p p' /\
             (exists data, frames p' = <[i:=set_frame_data data f]> (frames p)) /\
             (pool_good p -> e = PageNotFound /\ Z.of_nat (length (pdisk p)) <= id /\
                transparent p p' /\ pool_good p') /\
             (clean_reads S -> transparent p p'))) p.
Proof.
  intros Hwf Hi Hid. unfold wp, read_into_frame. rewrite Hi.
  assert (Hdl : length (f_data f) = page_bytes_nat (bp_world p)) by (by eapply (pw_data _ Hwf)).
  pose proof (read_page_wp (bp_world p) id (f_data f) ltac:(by apply Hwf) Hid ltac:(lia)) as Hr.
  unfold wp in Hr. destruct (read_page id (f_data f, bp_world p)) as [[[]|er|] [data w]];
    cbn [fst snd post] in *; [| |done].
  - destruct Hr as [Hs (page & Hpage & ->)]. rewrite drop_ge, app_nil_r by lia.
    exists page, w. split_and!; try done. rewrite Hdl.
    by apply (Forall_lookup_1 _ _ _ _ (disk_Forall (bp_world p)) Hpage).
  - destruct Hr as (Hs & Hl & Hwhy & Hcl). set (p2 := set_world _ _).
    assert (Hd2 : pdisk p2 = pdisk p) by (by apply same_store_disk).
    assert (Hsame : data = f_data f -> transparent p p2).
    { intros ->. apply same_frames_transparent; [|done]. cbn. rewrite list_insert_id; [done|].
      rewrite Hi. f_equal. by destruct f. }
    split_and!; [|split; [apply Hs|by rewrite Hd2]|by exists data| |by auto].
    + apply pool_wf_world; [|by eapply same_store_ok, (pw_store _ Hwf)|apply Hs|].
      * apply (pool_wf_update p i f); try done. exact (pw_pins _ Hwf i f Hi).
      * change (disk w) with (pdisk p2). by rewrite Hd2.
    + intros Hg. destruct Hwhy as [(-> & Hge & Hb)|Hng]; [|done].
      split_and!; [done|done|by apply Hsame|by eapply same_store_good].
Qed.

Lemma load_page_wp p i f id :
  pool_wf p -> frames p !! i = Some f -> (f_valid f = true -> f_pin_count f = 0) ->
  0 <= id -> Some id ∉ pages p ->
  wp (load_page_into_frame i id)
    (post (fun _ p' => pool_wf p' /\ transparent p p' /\ same_base p p' /\
             (pool_good p -> pool_good p') /\
             exists f', frames p' = <[i:=f']> (frames p) /\ f_valid f' = true /\
               f_page_id f' = id /\ f_pin_count f' = 1 /\ synced p' f')
          (fun e p' => pool_wf p' /\ same_base p p' /\
             (exists f', frames p' = <[i:=f']> (frames p) /\ f_valid f' = f_valid f /\
                f_pin_count f' = f_pin_count f) /\
             (pool_good p -> e = PageNotFound /\ Z.of_nat (length (pdisk p)) <= id /\
                transparent p p' /\ pool_good p') /\
             (clean_reads S -> transparent p p'))) p.
Proof.
  intros Hwf Hi Hunp Hid Hnew. unfold load_page_into_frame.
  destruct (pw_policy _ Hwf) as (e & He & Hc).
  eapply frame_at_bind; [done|].
  eapply wp_post_bind; [by apply write_back_wp| |].
  2: { intros er p1 (Hwf1 & Hfr1 & Ht1 & Hb1 & Hng). split_and!; try done. exists f.
       by rewrite Hfr1, list_insert_id. }
  intros _ p1 (Hwf1 & Hfr1 & He1 & Ht1 & Hb1 & Hg1 & Hev1).
  destruct (cleaned_pages p p1 i f Hi Hfr1) as [Hi1 Hpg1].
  destruct (cleaned_fields f) as (Hcv & Hcid & Hcd & Hcp).
  eapply wp_post_bind; [by apply (read_into_frame_wp p1 i (cleaned f) id)| |].
  2: { intros er p2 (Hwf2 & Hb2 & [data Hfr2] & Hgood & Hcl). destruct (Hb1) as [_ Hl1].
       split_and!; [done|by etrans| | |by intros Hcr; etrans; [|apply Hcl]].
       - exists (set_frame_data data (cleaned f)). by rewrite Hfr2, Hfr1, list_insert_insert_eq.
       - intros Hg. destruct (Hgood (Hg1 Hg)) as (-> & Hge & Ht & Hg2).
         split_and!; [done|lia|by etrans|done]. }
  intros _ p2 (page & w & Hpage & Hpl & Hs & ->).
  set (g2 := set_frame_data page (cleaned f)).
  eapply wp_post_mono; [eapply (install_tail_wp p1 _ i f (cleaned f) g2 id e)|..|done]; try done.
  - apply slot_cleaned.
  - congruence.
  - by rewrite Hpg1.
  - apply Hwf1.
  - by eapply same_store_ok, (pw_store _ Hwf1).
  - apply Hs.
  - by apply same_store_disk.
  - cbn. congruence.
  - apply lookup_lt_Some in Hpage. lia.
  - by rewrite Hpg1.
  - intros _ p' [Hin Hw]. pose proof (installs_wf _ _ _ _ _ _ Hwf1 Hin) as Hwf'.
    pose proof (in_disk _ _ _ _ _ _ Hin) as Hd'. destruct Hb1 as [Hps1 Hlen1].
    split_and!; [done| | | |].
    + intros Hclean. destruct (Ht1 Hclean) as [Hclean1 Hl1]. split; [by eapply installs_clean|].
      rewrite (installs_logical _ _ _ _ _ _ Hwf1 Hin), <- Hl1.
      * cbn. apply list_insert_id. rewrite logical_absent; [done|]. by rewrite Z2Nat.id, Hpg1 by lia.
      * rewrite Hcv, Hcid, Hcd. intros Hv. apply Hev1; [done|]. by eapply Hclean; eauto.
    + split; [|by rewrite Hd']. transitivity (pstore (bp_world p1)); [apply Hin|done].
    + intros Hg. unfold pool_good. rewrite Hw. eapply same_store_good; [exact Hs|]. by apply Hg1.
    + exists (occupy id false g2). split_and!; try done.
      * by rewrite (in_frames _ _ _ _ _ _ Hin), Hfr1, list_insert_insert_eq.
      * right. by rewrite Hd'.
Qed.

Lemma load_blank_wp p i f id :
  pool_wf p -> frames p !! i = Some f -> (f_valid f = true -> f_pin_count f = 0) ->
  0 <= id < Z.of_nat (length (pdisk p)) -> Some id ∉ pages p ->
  wp (load_blank_page_into_frame i id)
    (post (fun _ p' => pool_wf p' /\ same_base p p' /\ (pool_good p -> pool_good p') /\
             frames p' = <[i := occupy id true (zero_fill f)]> (frames p) /\
             (pool_clean p -> pool_clean p' /\
                logical p' = <[Z.to_nat id := f_data (zero_fill f)]> (logical p)))
          (fun e p' => pool_wf p' /\ same_base p p' /\ frames p' = frames p /\ transparent p p' /\
             ~ pool_good p)) p.
Proof.
  intros Hwf Hi Hunp Hid Hnew. unfold load_blank_page_into_frame.
  destruct (pw_policy _ Hwf) as (e & He & Hc).
  eapply frame_at_bind; [done|].
  eapply wp_post_bind; [by apply write_back_wp| |].
  2: { intros er p1 (Hwf1 & Hfr1 & Ht1 & Hb1 & Hng). by split_and!. }
  intros _ p1 (Hwf1 & Hfr1 & He1 & Ht1 & Hb1 & Hg1 & Hev1).
  destruct (cleaned_pages p p1 i f Hi Hfr1) as [Hi1 Hpg1].
  destruct (cleaned_fields f) as (Hcv & Hcid & Hcd & Hcp). destruct Hb1 as [Hps1 Hlen1].
  eapply wp_post_mono; [eapply (install_tail_wp p1 p1 i f (cleaned f) (cleaned f) id e)|..|done];
    try done; try (by apply Hwf1).
  - apply slot_cleaned.
  - congruence.
  - by rewrite Hpg1.
  - congruence.
  - by rewrite list_insert_id.
  - cbn. by rewrite length_replicate.
  - lia.
  - by rewrite Hpg1.
  - intros _ p' [Hin Hw]. pose proof (in_disk _ _ _ _ _ _ Hin) as Hd'.
    split_and!; [by eapply installs_wf| | | |].
    + split; [|by rewrite Hd']. transitivity (pstore (bp_world p1)); [apply Hin|done].
    + intros Hg. unfold pool_good. rewrite Hw. by apply Hg1.
    + rewrite (in_frames _ _ _ _ _ _ Hin), Hfr1, list_insert_insert_eq.
      f_equal. unfold occupy. cbn. by rewrite Hcd.
    + intros Hclean. destruct (Ht1 Hclean) as [Hclean1 Hl1]. split; [by eapply installs_clean|].
      rewrite (installs_logical _ _ _ _ _ _ Hwf1 Hin), Hl1; [cbn; by rewrite Hcd|].
      rewrite Hcv, Hcid, Hcd. intros Hv. apply Hev1; [done|]. by eapply Hclean; eauto.
Qed.

(** ** The client operations *)

Lemma pool_check_open_bind {B} p (k : unit -> M P B) Q :
  pool_wf p -> wp (k tt) Q p -> wp (bindM pool_check_open k) Q p.
Proof. intros Hwf. apply wp_eq_bind. unfold pool_check_open. by rewrite (pw_open _ Hwf). Qed.

Lemma find_frame_cases p id :
  (exists i f, find_frame id p = (Ok i, p) /\ frames p !! i = Some f /\ f_valid f = true /\
     f_page_id f = id) \/
  (find_frame id p = (Err NotFound, p) /\ Some id ∉ pages p).
Proof.
  unfold find_frame.
  pose proof (find_index_spec (fun g => f_valid g && (f_page_id g =? id)) 0 (frames p)) as Hf.
  destruct (find_index _ _ _) as [j|].
  - left. destruct Hf as (j' & g & -> & Hg & [Hgv Hgi%Z.eqb_eq]%andb_prop). by exists j', g.
  - right. split; [done|]. rewrite list_elem_of_lookup. intros [i Hi].
    apply pages_inv in Hi as (f & Hi & Hv & Hid). apply Hf in Hi. rewrite Hv, Hid, Z.eqb_refl in Hi. done.
Qed.

Definition pins p : list Z := f_pin_count <$> frames p.
(** No frame is pinned [2^64 - 1] times. *)
Definition pins_ok p : Prop := forall i f, frames p !! i = Some f -> f_pin_count f + 1 < 2 ^ 64.

Lemma make_handle_wp p i f (Q : Result FrameHandle -> P -> Prop) :
  frames p !! i = Some f ->
  Q (Ok {| h_pool := true; h_index := i; h_id := f_page_id f |}) p -> wp (make_handle i) Q p.
Proof. intros Hi HQ. eapply frame_at_bind; [done|]. exact HQ. Qed.

Lemma wrap64_range v : 0 <= wrap64 v < 2 ^ 64.
Proof. rewrite wrap64_mod. apply Z.mod_pos_bound. lia. Qed.
Lemma wrap64_small v : 0 <= v < 2 ^ 64 -> wrap64 v = v.
Proof. intros. rewrite wrap64_mod. by apply Z.mod_small. Qed.

(** Changing the pin count, or the bytes, of a pinned resident frame. *)
Lemma update_pinned p i f f' :
  pool_wf p -> frames p !! i = Some f -> f_valid f = true -> slot_page f' = slot_page f ->
  length (f_data f') = length (f_data f) -> 0 <= f_pin_count f' < 2 ^ 64 ->
  let p' := set_frames (<[i:=f']> (frames p)) p in
  pool_wf p' /\
  (pool_clean p -> (f_pin_count f' = 0 -> synced p f') -> pool_clean p') /\
  logical p' = <[Z.to_nat (f_page_id f) := f_data f']> (logical p).
Proof.
  intros Hwf Hi Hv Hs Hl Hp p'.
  pose proof (pool_wf_update p i f f' Hwf Hi Hs Hl Hp) as Hwf'.
  assert (Hv' : f_valid f' = true /\ f_page_id f' = f_page_id f).
  { unfold slot_page in Hs. rewrite Hv in Hs. destruct (f_valid f'); naive_solver. }
  destruct Hv' as [Hv' Hid']. pose proof (pw_ids _ Hwf _ _ Hi Hv) as Hid.
  assert (Hi' : frames p' !! i = Some f').
  { apply list_lookup_insert_eq. by eapply lookup_lt_Some. }
  split_and!; [done| |].
  - intros Hc Hsy j g Hj Hgv Hgp. apply list_lookup_insert_Some in Hj as [(-> & <- & _)|[Hne Hj]];
      [by apply Hsy|by eapply Hc].
  - apply list_eq. intros n. destruct (decide (n = Z.to_nat (f_page_id f))) as [->|Hn].
    + rewrite list_lookup_insert_eq by (rewrite length_logical; lia).
      rewrite <- Hid'. by apply (logical_resident p' i).
    + rewrite list_lookup_insert_ne by done. rewrite !logical_lookup. change (pdisk p') with (pdisk p).
      f_equal. destruct (decide (Some (Z.of_nat n) ∈ pages p)) as [Hin|Hout].
      * apply list_elem_of_lookup in Hin as [j Hj]. apply pages_inv in Hj as (g & Hj & Hgv & Hgid).
        rewrite <- (Nat2Z.id n), <- Hgid in Hn. rewrite <- (Nat2Z.id n), <- Hgid.
        rewrite (cached_resident p j g), (cached_resident p' j g); try done.
        rewrite <- Hj. apply list_lookup_insert_ne. intros <-. naive_solver.
      * rewrite !cached_absent; [done|done|]. unfold p'. by rewrite (pages_update_same p i f f').
Qed.

Lemma logical_insert_id p i f :
  pool_wf p -> frames p !! i = Some f -> f_valid f = true ->
  <[Z.to_nat (f_page_id f) := f_data f]> (logical p) = logical p.
Proof. intros. apply list_insert_id. by eapply logical_resident. Qed.

(** What a fetch returns: frame [i] holds page [id] with one more pin; the other
    frames are as they were. *)
Definition fetched p p' (h : FrameHandle) id : Prop :=
  exists i f f', h = {| h_pool := true; h_index := i; h_id := id |} /\
    frames p !! i = Some f /\ frames p' = <[i:=f']> (frames p) /\
    f_valid f' = true /\ f_page_id f' = id /\
    (f_valid f = true /\ f_page_id f = id /\ f_pin_count f' = wrap64 (f_pin_count f + 1) /\
       (synced p f -> synced p' f') \/
     (f_valid f = true -> f_pin_count f = 0) /\ f_pin_count f' = 1 /\ synced p' f').

Lemma record_access_wp p i f :
  pool_wf p -> frames p !! i = Some f -> f_valid f = true ->
  wp (on_policy (ep_record_access (f_page_id f) i))
    (post (fun _ p' => policy_step p p') (fun _ _ => False)) p.
Proof.
  intros Hwf Hi Hv. destruct (pw_policy _ Hwf) as (e & He & Hc).
  eapply notify_wp; [done|]. apply ep_access_spec; [done|]. by apply pages_valid.
Qed.

Lemma record_miss_wp p id :
  pool_wf p ->
  wp (on_policy (ep_record_miss id)) (post (fun _ p' => policy_step p p') (fun _ _ => False)) p.
Proof.
  intros Hwf. destruct (pw_policy _ Hwf) as (e & He & Hc).
  eapply notify_wp; [done|]. by apply ep_miss_spec.
Qed.

Lemma policy_step_trans p1 p2 p3 : policy_step p1 p2 -> policy_step p2 p3 -> policy_step p1 p3.
Proof. intros (e1 & -> & H1) (e2 & -> & H2). by exists e2. Qed.

Definition all_pinned p : Prop :=
  forall i f, frames p !! i = Some f -> f_valid f = true /\ 0 < f_pin_count f.

(** The search for a frame on a miss. *)
Lemma miss_victim_wp {B} p id (k : nat -> M P B) Q :
  pool_wf p ->
  (forall i f p1, policy_step p p1 -> frames p !! i = Some f ->
     (f_valid f = true -> f_pin_count f = 0) -> wp (k i) Q p1) ->
  (forall p1, policy_step p p1 -> all_pinned p -> Q (Err BufferPoolFull) p1) ->
  wp (let* _ := on_policy (ep_record_miss id) in let* victim := choose_victim in k victim) Q p.
Proof.
  intros Hwf HO HE. eapply wp_post_bind; [by apply record_miss_wp| |done].
  intros [] p1 Hs1. cbv beta in Hs1. pose proof (policy_step_wf _ _ Hwf Hs1) as Hwf1.
  assert (Hfr : frames p1 = frames p) by (by destruct Hs1 as (e & Heq & _); rewrite Heq).
  eapply wp_post_bind; [by apply choose_victim_wp|..].
  - intros i p2 (Hs2 & f & Hi & Hu). rewrite Hfr in Hi. eapply HO; [|done|done].
    by eapply policy_step_trans.
  - intros e p2 (Hs2 & -> & Hall). rewrite Hfr in Hall. apply HE; [|exact Hall].
    by eapply policy_step_trans.
Qed.

Definition fetch_failed p p' (e : Error) id : Prop :=
  pool_wf p' /\ same_base p p' /\ pins p' = pins p /\
  (pool_good p -> pool_good p' /\ transparent p p' /\
     (e = BufferPoolFull /\ all_pinned p \/
      e = PageNotFound /\ Z.of_nat (length (pdisk p)) <= id)) /\
  (clean_reads S -> transparent p p').

Lemma fetch_wp p id :
  pool_wf p -> 0 <= id ->
  wp (fetch id)
    (post (fun h p' => pool_wf p' /\ same_base p p' /\ (pool_good p -> pool_good p') /\
             (pins_ok p -> transparent p p') /\ fetched p p' h id)
          (fun e p' => fetch_failed p p' e id)) p.
Proof.
  intros Hwf Hid. unfold fetch. apply pool_check_open_bind; [done|].
  destruct (find_frame_cases p id) as [(i & f & Hff & Hi & Hv & <-)|[Hff Hnew]];
    (eapply wp_eq_bind; [unfold attempt; by rewrite Hff|]).
  - eapply wp_eq_bind; [by apply update_frame_eq|]. set (p1 := set_frames _ p).
    destruct (update_pinned p i f (pin f) Hwf Hi Hv) as (Hwf1 & Hc1 & Hl1);
      [done|done|apply wrap64_range|].
    assert (Hi1 : frames p1 !! i = Some (pin f))
      by (apply list_lookup_insert_eq; by eapply lookup_lt_Some).
    eapply wp_post_bind; [by apply (record_access_wp p1 i (pin f))| |done].
    intros [] p2 Hs. cbv beta in Hs. pose proof (policy_step_wf _ _ Hwf1 Hs) as Hwf2. destruct Hs as (e & -> & He).
    eapply make_handle_wp; [done|]. cbn [post]. split_and!; try done.
    + intros Hpo Hclean. cbn in Hl1. rewrite (logical_insert_id p i f) in Hl1 by done.
      split; [|exact Hl1]. apply Hc1; [done|]. unfold pin. cbn [f_pin_count set_pin]. specialize (Hpo _ _ Hi).
      pose proof (pw_pins _ Hwf _ _ Hi). rewrite wrap64_small by lia. lia.
    + exists i, f, (pin f). split_and!; try done. left. done.
  - apply miss_victim_wp; [done|..].
    + intros i f p1 Hs Hi Hu. pose proof (policy_step_wf _ _ Hwf Hs) as Hwf1.
      destruct Hs as (e & -> & He).
      eapply wp_post_bind; [by apply (load_page_wp _ i f id)|..].
      * intros _ p2 (Hwf2 & Ht & Hb & Hg & f' & Hfr & Hv' & Hid' & Hp' & Hsy).
        eapply make_handle_wp.
        { rewrite Hfr. cbn. apply list_lookup_insert_eq. by eapply lookup_lt_Some. }
        cbn [post]. split_and!; try done. exists i, f, f'. rewrite Hid'. split_and!; auto 10.
      * intros er p2 (Hwf2 & Hb & (f' & Hfr & Hv' & Hp') & Hg & Hcl). split_and!; try done.
        -- unfold pins. rewrite Hfr, list_fmap_insert, Hp'. cbn. apply list_insert_id.
           by rewrite list_lookup_fmap, Hi.
        -- intros Hgd. destruct (Hg Hgd) as (-> & Hge & Ht & Hg2). auto.
    + intros p1 (e & -> & He) Hall. split_and!; try done; [by apply pool_wf_policy|].
      intros Hg. split_and!; [done|apply set_policy_transparent|by left].
Qed.

(** [fetch_new] presents a zeroed page. *)
Lemma fetch_new_wp p id :
  pool_wf p -> 0 <= id < Z.of_nat (length (pdisk p)) ->
  wp (fetch_new id)
    (post (fun h p' => pool_wf p' /\ same_base p p' /\ (pool_good p -> pool_good p') /\
             (pool_clean p -> pins_ok p -> pool_clean p' /\
                logical p' = <[Z.to_nat id := replicate (page_bytes_nat (bp_world p)) x00]> (logical p)) /\
             fetched p p' h id)
          (fun e p' => pool_wf p' /\ same_base p p' /\ pins p' = pins p /\
             transparent p p' /\ (pool_good p -> e = BufferPoolFull /\ all_pinned p /\ pool_good p'))) p.
Proof.
  intros Hwf Hid. unfold fetch_new. apply pool_check_open_bind; [done|].
  destruct (find_frame_cases p id) as [(i & f & Hff & Hi & Hv & <-)|[Hff Hnew]];
    (eapply wp_eq_bind; [unfold attempt; by rewrite Hff|]).
  - eapply wp_eq_bind; [by apply update_frame_eq|]. set (f' := zero_fill (set_dirty true (pin f))). set (p1 := set_frames _ p).
    pose proof (pw_data _ Hwf _ _ Hi) as Hlen.
    destruct (update_pinned p i f f' Hwf Hi Hv) as (Hwf1 & Hc1 & Hl1);
      [done|cbn; apply length_replicate|apply wrap64_range|].
    assert (Hi1 : frames p1 !! i = Some f')
      by (apply list_lookup_insert_eq; by eapply lookup_lt_Some).
    eapply wp_post_bind; [by apply (record_access_wp p1 i f')| |done].
    intros [] p2 Hs. cbv beta in Hs. pose proof (policy_step_wf _ _ Hwf1 Hs) as Hwf2. destruct Hs as (e & -> & He).
    eapply make_handle_wp; [done|]. cbn [post]. split_and!; try done.
    + intros Hclean _. cbn in Hl1. rewrite Hlen in Hl1. split; [|exact Hl1].
      apply Hc1; [done|]. intros _. by left.
    + exists i, f, f'. split_and!; try done. left. split_and!; try done. by left.
  - apply miss_victim_wp; [done|..].
    + intros i f p1 Hs Hi Hu. pose proof (policy_step_wf _ _ Hwf Hs) as Hwf1.
      destruct Hs as (e & -> & He). pose proof (pw_data _ Hwf _ _ Hi) as Hlen.
      eapply wp_post_bind; [by apply (load_blank_wp _ i f id)|..].
      * intros _ p2 (Hwf2 & Hb & Hg & Hfr & Hl). eapply make_handle_wp.
        { rewrite Hfr. cbn. apply list_lookup_insert_eq. by eapply lookup_lt_Some. }
        cbn [post]. split_and!; try done.
        -- intros Hclean _. cbn in Hl. rewrite Hlen in Hl. by apply Hl.
        -- eexists i, f, _. split_and!; try done. right. split_and!; try done. by left.
      * intros er p2 (Hwf2 & Hb & Hfr & Ht & Hng). split_and!; try done. unfold pins. by rewrite Hfr.
    + intros p1 (e & -> & He) Hall. split_and!; try done. by apply pool_wf_policy.
Qed.

Lemma unpin_wp p h dirty f :
  pool_wf p -> h_pool h = true -> frames p !! h_index h = Some f -> f_valid f = true ->
  0 < f_pin_count f ->
  wp (unpin h dirty)
    (post (fun h' p' => h' = FrameHandle_released /\ pool_wf p' /\ bp_world p' = bp_world p /\
             logical p' = logical p /\
             (pool_clean p -> f_pin_count f = 1 -> dirty = true \/ synced p f -> pool_clean p') /\
             exists f', frames p' = <[h_index h := f']> (frames p) /\
               f_pin_count f' = f_pin_count f - 1)
          (fun _ _ => False)) p.
Proof.
  intros Hwf Hh Hi Hv Hp. unfold unpin. apply pool_check_open_bind; [done|]. wp_pure.
  assert (Hlt : (h_index h < length (frames p))%nat) by (by eapply lookup_lt_Some).
  rewrite Hh. cbn [negb orb]. destruct (Nat.leb_spec (length (frames p)) (h_index h)); [lia|].
  eapply frame_at_bind; [done|]. rewrite Hv. cbn [negb orb].
  destruct (Z.eqb_spec (f_pin_count f) 0); [lia|].
  pose proof (pw_pins _ Hwf _ _ Hi) as Hpr.
  set (f1 := if dirty then set_dirty true f else f).
  eapply (wp_eq_bind _ tt (set_frames (<[h_index h := f1]> (frames p)) p)).
  { unfold f1. destruct dirty; [by apply update_frame_eq|].
    rewrite list_insert_id by done. by destruct p. }
  eapply wp_eq_bind; [apply update_frame_eq; by apply list_lookup_insert_eq|].
  cbn [set_frames frames]. rewrite list_insert_insert_eq.
  set (f2 := set_pin _ f1). apply wp_ret. cbn [post].
  assert (Hf2 : f_pin_count f2 = f_pin_count f - 1).
  { assert (Hp1 : f_pin_count f1 = f_pin_count f) by (unfold f1; by destruct dirty).
    unfold f2. cbn [set_pin f_pin_count]. rewrite Hp1. apply wrap64_small. lia. }
  assert (Hd2 : f_data f2 = f_data f) by (unfold f2, f1; by destruct dirty).
  assert (Hid2 : f_page_id f2 = f_page_id f) by (unfold f2, f1; by destruct dirty).
  destruct (update_pinned p (h_index h) f f2 Hwf Hi Hv) as (Hwf2 & Hc2 & Hl2).
  { unfold f2, f1, slot_page. by destruct dirty. }
  { by rewrite Hd2. }
  { lia. }
  split_and!; try done.
  - etrans; [exact Hl2|]. rewrite Hd2. by apply (logical_insert_id p (h_index h)).
  - intros Hclean Hp1 Hs. apply Hc2; [done|]. intros _. unfold synced. rewrite Hd2, Hid2.
    unfold f2, f1. destruct dirty; [by left|]. by destruct Hs.
  - by exists f2.
Qed.

Lemma handle_write_wp p h f bs :
  pool_wf p -> h_pool h = true -> frames p !! h_index h = Some f -> f_valid f = true ->
  0 < f_pin_count f -> length bs = page_bytes_nat (bp_world p) ->
  wp (handle_write h bs)
    (post (fun _ p' => pool_wf p' /\ bp_world p' = bp_world p /\ (pool_clean p -> pool_clean p') /\
             logical p' = <[Z.to_nat (f_page_id f) := bs]> (logical p) /\
             frames p' = <[h_index h := set_frame_data bs f]> (frames p))
          (fun _ _ => False)) p.
Proof.
  intros Hwf Hh Hi Hv Hp Hl. pose proof (pw_data _ Hwf _ _ Hi) as Hlen.
  unfold handle_write, handle_data. rewrite Hh. unfold bindM at 2.
  apply wp_bind. eapply wp_eq; [unfold frame_at; by rewrite Hi|].
  apply wp_assert_bind; [apply Nat.eqb_eq; lia|].
  eapply wp_eq; [by apply update_frame_eq|]. cbn [post].
  destruct (update_pinned p (h_index h) f (set_frame_data bs f) Hwf Hi Hv) as (Hwf2 & Hc2 & Hl2);
    [done|cbn; lia|exact (pw_pins _ Hwf _ _ Hi)|].
  split_and!; try done. intros Hclean. apply Hc2; [done|]. cbn. lia.
Qed.

(** ** Flushing *)

Lemma cleaned_idem f : cleaned (cleaned f) = cleaned f.
Proof. by destruct f as [? ? [] ? ?]. Qed.

(** Every frame is kept or cleaned, and those at [l] are cleaned. *)
Definition flushed (l : list nat) p p' : Prop :=
  length (frames p') = length (frames p) /\
  forall j f', frames p' !! j = Some f' ->
    exists f, frames p !! j = Some f /\ (f' = f \/ f' = cleaned f) /\ (j ∈ l -> f' = cleaned f).

Lemma flushed_pins l p p' : flushed l p p' -> pins p' = pins p.
Proof.
  intros [Hlen Hf]. apply list_eq. intros j. unfold pins. rewrite !list_lookup_fmap.
  destruct (frames p' !! j) as [f'|] eqn:Hj; cbn.
  - destruct (Hf _ _ Hj) as (f & Hfj & Heq & _). rewrite Hfj. cbn.
    destruct (cleaned_fields f) as (_ & _ & _ & Hp). by destruct Heq as [->| ->]; rewrite ?Hp.
  - apply lookup_ge_None in Hj. rewrite (proj2 (lookup_ge_None _ _)) by lia. done.
Qed.

Definition kept p p' : Prop :=
  pool_wf p' /\ transparent p p' /\ same_base p p' /\ pins p' = pins p.

Lemma flush_frames_wp l p :
  pool_wf p -> (forall j, j ∈ l -> (j < length (frames p))%nat) ->
  wp (flush_frames l)
    (post (fun _ p' => kept p p' /\ (pool_good p -> pool_good p') /\ flushed l p p')
          (fun _ p' => kept p p' /\ ~ pool_good p)) p.
Proof.
  revert p. induction l as [|i l IH]; intros p Hwf Hl; cbn [flush_frames].
  { apply wp_ret. cbn. unfold kept. split_and!; try done; try reflexivity.
    split; [done|]. intros j f Hj. exists f. split_and!; auto. set_solver. }
  destruct (lookup_lt_is_Some_2 (frames p) i) as [f Hi]; [set_solver|].
  eapply wp_post_bind; [by apply write_back_wp|..].
  2: { intros e p1 (Hwf1 & Hfr & Ht & Hb & Hg). unfold kept. split_and!; try done. unfold pins.
       by rewrite Hfr. }
  intros _ p1 (Hwf1 & Hfr & _ & Ht & Hb & Hg & _).
  assert (Hfl1 : flushed [i] p p1).
  { unfold flushed. rewrite Hfr, length_insert. split; [done|]. intros j f' Hj.
    apply list_lookup_insert_Some in Hj as [(<- & <- & _)|[Hne Hj]]; [exists f; by auto|].
    exists f'. split_and!; auto. set_solver. }
  eapply wp_post_mono; [apply IH; [done|]|..].
  - intros j Hj. rewrite (proj1 Hfl1). apply Hl. set_solver.
  - intros _ p2 ((Hwf2 & Ht2 & Hb2 & Hp2) & Hg2 & Hfl2). unfold kept. split_and!; auto.
    + by etrans.
    + by etrans.
    + rewrite Hp2. by eapply flushed_pins.
    + destruct Hfl1 as [Hlen1 Hf1], Hfl2 as [Hlen2 Hf2]. split; [congruence|].
      intros j f' Hj. destruct (Hf2 _ _ Hj) as (g & Hg' & Heq & Hin).
      destruct (Hf1 _ _ Hg') as (f0 & Hf0 & Heq0 & Hin0). exists f0. split; [done|].
      rewrite elem_of_cons. setoid_rewrite list_elem_of_singleton in Hin0.
      destruct Heq as [->| ->], Heq0 as [->| ->]; rewrite ?cleaned_idem in *; naive_solver.
  - intros e p2 ((Hwf2 & Ht2 & Hb2 & Hp2) & Hng). unfold kept. split_and!; auto.
    + by etrans.
    + by etrans.
    + rewrite Hp2. by eapply flushed_pins.
Qed.

Lemma same_store_kept p w :
  pool_wf p -> same_disk (bp_world p) w -> kept p (set_world w p) /\ pdisk (set_world w p) = pdisk p.
Proof.
  intros Hwf Hs. destruct (same_disk_ok _ _ Hs ltac:(apply Hwf)) as [Hok Hd].
  assert (Hd' : pdisk (set_world w p) = pdisk p) by done.
  split; [|done]. unfold kept. split_and!; [|by apply same_frames_transparent|by split; [apply Hs|rewrite Hd']|done].
  apply pool_wf_world; [done|done|apply Hs|]. by rewrite Hd.
Qed.

Definition quiescent p : Prop := forall i f, frames p !! i = Some f -> f_pin_count f = 0.

(** On a pool nobody holds a page of, a successful [flush_all] makes the disk
    equal to what the client sees. *)
Lemma flush_all_wp p :
  pool_wf p ->
  wp flush_all
    (post (fun _ p' => kept p p' /\ (pool_good p -> pool_good p') /\
             (pool_clean p -> quiescent p -> pdisk p' = logical p))
          (fun _ p' => kept p p' /\ ~ pool_good p)) p.
Proof.
  intros Hwf. unfold flush_all. apply pool_check_open_bind; [done|]. wp_pure.
  eapply wp_post_bind; [apply flush_frames_wp; [done|]|..].
  { intros j Hj. apply elem_of_seq in Hj. lia. }
  2: { intros e p1 [Hk Hg]. done. }
  intros _ p1 ((Hwf1 & Ht1 & Hb1 & Hp1) & Hg1 & Hlen1 & Hf1).
  apply wp_zoom. eapply wp_mono; [apply store_sync_wp; apply Hwf1|].
  intros [[]|e|] w; cbn [post]; [| |done].
  - intros Hs. destruct (same_store_kept p1 w Hwf1 (same_store_weaken _ _ Hs)) as [(Hwf2 & Ht2 & Hb2 & Hp2) Hd2].
    split_and!.
    + unfold kept. split_and!; [done|by etrans..|by rewrite Hp2].
    + intros Hg. by eapply same_store_good; [exact Hs|]; apply Hg1.
    + intros Hc Hq. rewrite Hd2. destruct (Ht1 Hc) as [Hc1 <-]. apply list_eq. intros n.
      destruct (decide (Some (Z.of_nat n) ∈ pages p1)) as [Hin|Hout];
        [|by rewrite logical_absent].
      apply list_elem_of_lookup in Hin as [j Hj]. apply pages_inv in Hj as (f' & Hj & Hv & Hid).
      rewrite <- (Nat2Z.id n), <- Hid, (logical_resident p1 j) by done.
      destruct (Hf1 _ _ Hj) as (f & Hfj & _ & Hcl).
      assert (Heq : f' = cleaned f) by (apply Hcl, elem_of_seq; apply lookup_lt_Some in Hfj; lia).
      destruct (cleaned_fields f) as (Hcv & _ & _ & Hcp).
      assert (Hsy : synced p1 f')
        by (apply (Hc1 j); [done|done|]; subst f'; rewrite Hcp; by eapply Hq).
      destruct Hsy as [Hdirty|Hdisk]; [|done].
      subst f'. rewrite Hcv in Hv. unfold cleaned in Hdirty. by rewrite Hv in Hdirty.
  - intros [Hs Hg]. destruct (same_store_kept p1 w Hwf1 Hs) as [(Hwf2 & Ht2 & Hb2 & Hp2) Hd2].
    split; [|by intros Hgp; apply Hg, Hg1].
    unfold kept. split_and!; [done|by etrans..|by rewrite Hp2].
Qed.

Lemma flush_wp p id :
  pool_wf p ->
  wp (flush id)
    (post (fun _ p' => kept p p' /\ (pool_good p -> pool_good p'))
          (fun _ p' => kept p p' /\ ~ pool_good p)) p.
Proof.
  intros Hwf. unfold flush. apply pool_check_open_bind; [done|].
  destruct (find_frame_cases p id) as [(i & f & Hff & Hi & Hv & <-)|[Hff Hnew]];
    (eapply wp_eq_bind; [unfold attempt; by rewrite Hff|]).
  - eapply wp_post_mono; [by apply write_back_wp|..].
    + intros _ p' (Hwf' & Hfr & _ & Ht & Hb & Hg & _). unfold kept. split_and!; try done.
      unfold pins. rewrite Hfr, list_fmap_insert. apply list_insert_id.
      destruct (cleaned_fields f) as (_ & _ & _ & ->). by rewrite list_lookup_fmap, Hi.
    + intros e p' (Hwf' & Hfr & Ht & Hb & Hg). unfold kept. split_and!; try done.
      unfold pins. by rewrite Hfr.
  - apply wp_ret. unfold kept. cbn. split_and!; done || reflexivity.
Qed.

(** ** Opening, closing, and pages added to the file *)

Lemma pool_open_wp (p : P) cfg :
  store_ok (bp_world p) -> 0 < capacity_pages cfg ->
  wp (pool_open cfg)
    (post (fun _ p' => pool_wf p' /\ pool_clean p' /\ quiescent p' /\ bp_world p' = bp_world p /\
             logical p' = pdisk p /\ Z.of_nat (length (frames p')) = capacity_pages cfg)
          (fun _ _ => False)) p.
Proof.
  intros Hok Hcap. unfold pool_open. apply wp_assert_bind; [by apply Z.ltb_lt|]. wp_pure.
  set (n := Z.to_nat (capacity_pages cfg)). set (p1 := Build_Pool _ _ _ _ _ _).
  eapply wp_post_bind; [apply (notify_wp _ p1 (make_eviction_policy (eviction cfg)) (replicate n None)); [done|apply ep_reset_spec; lia]| |done].
  intros _ p2 (e & -> & He). unfold wp, modifyM. cbn [fst snd post].
  set (blank := Build_Frame _ _ _ _ _). set (p3 := set_frames _ _).
  assert (Hlk : forall i f, frames p3 !! i = Some f -> f = blank).
  { intros i f Hi. by apply lookup_replicate in Hi as [-> _]. }
  assert (Hpg : pages p3 = replicate n None) by (unfold pages; cbn; by rewrite fmap_replicate).
  assert (Habs : forall page, Some page ∉ pages p3).
  { intros page. rewrite Hpg, elem_of_replicate. by intros [? _]. }
  split_and!; [split|..]; try done; try (intros i f Hi; apply Hlk in Hi as ->; cbn; done).
  - cbn. destruct n eqn:Hn; [lia|done].
  - intros i f Hi. apply Hlk in Hi as ->. cbn. by rewrite length_replicate.
  - intros i j page Hi. destruct (Habs page). apply list_elem_of_lookup. eauto.
  - exists e. by rewrite Hpg.
  - apply list_eq. intros k. by rewrite logical_absent.
  - cbn. rewrite length_replicate. lia.
Qed.

Lemma pool_close_wp p :
  pool_wf p -> pool_clean p -> quiescent p ->
  wp pool_close
    (post (fun _ p' => bp_store p' = false /\ store_ok (bp_world p') /\ pdisk p' = logical p /\
             pstore (bp_world p') = pstore (bp_world p) /\ (pool_good p -> pool_good p'))
          (fun _ p' => kept p p' /\ ~ pool_good p)) p.
Proof.
  intros Hwf Hc Hq. unfold pool_close. wp_pure. rewrite (pw_open _ Hwf).
  eapply wp_post_bind; [by apply flush_all_wp| |done].
  intros _ p1 ((Hwf1 & _ & [Hps _] & _) & Hg & Hd). unfold wp, modifyM. cbn.
  split_and!; [done|apply Hwf1|by apply Hd|done|done].
Qed.

(** The file grew by pages the pool has not seen. *)
Lemma pool_grow p w extra :
  pool_wf p -> store_ok w -> pstore w = pstore (bp_world p) -> disk w = pdisk p ++ extra ->
  pool_wf (set_world w p) /\ (pool_clean p -> pool_clean (set_world w p)) /\
  logical (set_world w p) = logical p ++ extra.
Proof.
  intros Hwf Hok Hps Hd.
  assert (Hwf' : pool_wf (set_world w p)) by (apply pool_wf_world; try done; rewrite Hd, length_app; lia).
  split_and!; [done| |].
  - intros Hc i f Hi Hv Hp. destruct (Hc i f Hi Hv Hp) as [?|Hdisk]; [by left|right].
    change (pdisk (set_world w p)) with (disk w). rewrite Hd. by apply lookup_app_l_Some.
  - apply list_eq. intros n. rewrite lookup_app, !logical_lookup.
    change (pdisk (set_world w p)) with (disk w). change (cached (set_world w p) n) with (cached p n).
    rewrite Hd, lookup_app, length_logical. destruct (pdisk p !! n) as [pg|] eqn:Hn; [done|]. cbn.
    rewrite cached_absent; [by destruct (extra !! _)|]. rewrite list_elem_of_lookup. intros [i Hi].
    apply pages_inv in Hi as (f & Hi & Hv & Hid). pose proof (pw_ids _ Hwf _ _ Hi Hv).
    apply lookup_ge_None in Hn. lia.
Qed.

(** ** Between operations: nobody holds a page *)

Record steady p : Prop := {
  rd_wf : pool_wf p;
  rd_clean : pool_clean p;
  rd_quiescent : quiescent p;
}.
(** ... and the device is healthy. *)
Record ready p : Prop := {
  rd_steady :> steady p;
  rd_good : pool_good p;
}.

(** The client holds page [id] in frame [f], and no other page. *)
Record holding p (h : FrameHandle) (id : Z) f : Prop := {
  hd_wf : pool_wf p;
  hd_clean : pool_clean p;
  hd_pool : h_pool h = true;
  hd_id : h_id h = id;
  hd_frame : frames p !! h_index h = Some f;
  hd_valid : f_valid f = true;
  hd_page : f_page_id f = id;
  hd_pin : f_pin_count f = 1;
  hd_others j g : j <> h_index h -> frames p !! j = Some g -> f_pin_count g = 0;
}.
Record held p (h : FrameHandle) (id : Z) f : Prop := {
  hd_holding :> holding p h id f;
  hd_good : pool_good p;
}.

Lemma steady_not_full p : steady p -> ~ all_pinned p.
Proof.
  intros Hr Hall. pose proof (pw_frames _ (rd_wf _ Hr)) as Hne.
  destruct (frames p) as [|f fs] eqn:Hfs; [done|].
  assert (Hf : frames p !! 0%nat = Some f) by (by rewrite Hfs).
  pose proof (rd_quiescent _ Hr _ _ Hf). apply Hall in Hf. lia.
Qed.

Lemma steady_pins_ok p : steady p -> pins_ok p.
Proof. intros Hr i f Hi. rewrite (rd_quiescent _ Hr _ _ Hi). lia. Qed.

(** The pool is as quiet as it was when nothing was pinned or released. *)
Lemma steady_pins p p' :
  steady p -> pool_wf p' -> transparent p p' -> pins p' = pins p ->
  steady p' /\ logical p' = logical p.
Proof.
  intros Hr Hwf Ht Hp. destruct (Ht (rd_clean _ Hr)) as [Hc Hl]. split; [|done].
  split; try done. intros i f Hi.
  assert (Hpi : pins p' !! i = Some (f_pin_count f)) by (unfold pins; by rewrite list_lookup_fmap, Hi).
  rewrite Hp in Hpi. unfold pins in Hpi. rewrite list_lookup_fmap in Hpi.
  destruct (frames p !! i) as [g|] eqn:Hgi; [|done]. injection Hpi as <-. by eapply (rd_quiescent _ Hr).
Qed.

Lemma fetched_holding p p' h id :
  steady p -> pool_wf p' -> pool_clean p' -> fetched p p' h id ->
  exists f, holding p' h id f /\ synced p' f.
Proof.
  intros Hr Hwf Hc (i & f & f' & -> & Hi & Hfr & Hv & Hid & Hcase). exists f'.
  assert (Hq : f_pin_count f = 0) by (by eapply rd_quiescent).
  assert (Hlt : (i < length (frames p))%nat) by (by eapply lookup_lt_Some).
  split; [split|]; try done; cbn.
  - rewrite Hfr. by apply list_lookup_insert_eq.
  - destruct Hcase as [(_ & _ & -> & _)|(_ & -> & _)]; [|done]. rewrite Hq. done.
  - intros j g Hne. rewrite Hfr, list_lookup_insert_ne by done. by apply rd_quiescent.
  - destruct Hcase as [(Hfv & _ & _ & Hsy)|(_ & _ & Hsy)]; [|done].
    apply Hsy. by eapply (rd_clean _ Hr).
Qed.

(** A fetch between operations, on any device. *)
Lemma fetch_steady p id :
  steady p -> 0 <= id ->
  wp (fetch id)
    (post (fun h p' => exists f, holding p' h id f /\ synced p' f /\ same_base p p' /\
             (pool_good p -> pool_good p') /\ logical p' = logical p /\
             logical p !! Z.to_nat id = Some (f_data f))
          (fun e p' => same_base p p' /\
             (pool_good p -> pool_good p' /\ steady p' /\ logical p' = logical p /\
                e = PageNotFound /\ Z.of_nat (length (logical p)) <= id) /\
             (clean_reads S -> steady p' /\ logical p' = logical p))) p.
Proof.
  intros Hr Hid. eapply wp_post_mono; [apply fetch_wp; [apply Hr|done]|..].
  - intros h p' (Hwf' & Hb & Hg & Ht & Hf).
    destruct (Ht (steady_pins_ok _ Hr) (rd_clean _ Hr)) as [Hc' Hl].
    destruct (fetched_holding p p' h id Hr Hwf' Hc' Hf) as (f & Hh & Hsy).
    exists f. split_and!; try done. rewrite <- Hl, <- (hd_page _ _ _ _ Hh).
    apply (logical_resident p' (h_index h)); [done|apply Hh|apply Hh].
  - intros e p' (Hwf' & Hb & Hp & Hwhy & Hcl). split_and!; [done| |].
    + intros Hg. destruct (Hwhy Hg) as (Hg' & Ht & [[_ Hall]|[-> Hge]]);
        [by destruct (steady_not_full p Hr)|].
      destruct (steady_pins p p' Hr Hwf' Ht Hp). rewrite length_logical. by split_and!.
    + intros Hcr. apply steady_pins; auto.
Qed.

Lemma fetch_ready p id :
  ready p -> 0 <= id < Z.of_nat (length (logical p)) ->
  exists h p' f, fetch id p = (Ok h, p') /\ held p' h id f /\ synced p' f /\ same_base p p' /\
    logical p' = logical p /\ logical p !! Z.to_nat id = Some (f_data f).
Proof.
  intros Hr Hid.
  destruct (wp_total _ _ _ _ (fetch_steady p id Hr ltac:(lia)))
    as (h & p' & Hf & f & Hh & Hsy & Hb & Hg & Hl & Hd).
  { intros e p' (_ & Hwhy & _). destruct (Hwhy (rd_good _ Hr)) as (_ & _ & _ & _ & Hge). lia. }
  exists h, p', f. split_and!; try done. split; [done|]. apply Hg, Hr.
Qed.

(** Past the end of the file the fetch is refused, and nothing changes. *)
Lemma fetch_missing p id :
  ready p -> Z.of_nat (length (logical p)) <= id ->
  exists p', fetch id p = (Err PageNotFound, p') /\ ready p' /\ same_base p p' /\
    logical p' = logical p.
Proof.
  intros Hr Hid. pose proof (fetch_steady p id Hr ltac:(lia)) as Hfw. unfold wp in Hfw.
  destruct (fetch id p) as [[h|e|] p']; cbn in Hfw; [| |done].
  - destruct Hfw as (f & _ & _ & _ & _ & _ & Hd). apply lookup_lt_Some in Hd. lia.
  - destruct Hfw as (Hb & Hwhy & _).
    destruct (Hwhy (rd_good _ Hr)) as (Hg' & Hs & Hl & -> & _). exists p'. by split_and!.
Qed.

Lemma fetch_new_steady p id :
  steady p -> 0 <= id < Z.of_nat (length (logical p)) ->
  wp (fetch_new id)
    (post (fun h p' => exists f, holding p' h id f /\ synced p' f /\ same_base p p' /\
             (pool_good p -> pool_good p') /\
             logical p' = <[Z.to_nat id := replicate (page_bytes_nat (bp_world p)) x00]> (logical p) /\
             f_data f = replicate (page_bytes_nat (bp_world p)) x00)
          (fun e p' => same_base p p' /\ steady p' /\ logical p' = logical p /\ ~ pool_good p)) p.
Proof.
  intros Hr Hid. rewrite length_logical in Hid.
  eapply wp_post_mono; [apply fetch_new_wp; [apply Hr|done]|..].
  - intros h p' (Hwf' & Hb & Hg & Ht & Hf).
    destruct (Ht (rd_clean _ Hr) (steady_pins_ok _ Hr)) as [Hc' Hl].
    destruct (fetched_holding p p' h id Hr Hwf' Hc' Hf) as (f & Hh & Hsy).
    exists f. split_and!; try done.
    pose proof (logical_resident p' (h_index h) f Hwf' (hd_frame _ _ _ _ Hh) (hd_valid _ _ _ _ Hh)) as Hlf.
    rewrite (hd_page _ _ _ _ Hh), Hl, list_lookup_insert_eq in Hlf by (rewrite length_logical; lia).
    by injection Hlf as <-.
  - intros e p' (Hwf' & Hb & Hp & Ht & Hwhy).
    destruct (steady_pins p p' Hr Hwf' Ht Hp). split_and!; try done.
    intros Hg. destruct (Hwhy Hg) as (_ & Hall & _). by destruct (steady_not_full p Hr).
Qed.

Lemma fetch_new_ready p id :
  ready p -> 0 <= id < Z.of_nat (length (logical p)) ->
  exists h p' f, fetch_new id p = (Ok h, p') /\ held p' h id f /\ synced p' f /\ same_base p p' /\
    logical p' = <[Z.to_nat id := replicate (page_bytes_nat (bp_world p)) x00]> (logical p) /\
    f_data f = replicate (page_bytes_nat (bp_world p)) x00.
Proof.
  intros Hr Hid.
  destruct (wp_total _ _ _ _ (fetch_new_steady p id Hr Hid))
    as (h & p' & Hf & f & Hh & Hsy & Hb & Hg & Hl & Hd);
    [intros e p' (_ & _ & _ & Hng); apply Hng, Hr|].
  exists h, p', f. split_and!; try done. split; [done|]. apply Hg, Hr.
Qed.

Lemma unpin_holding p h id f dirty :
  holding p h id f -> dirty = true \/ synced p f ->
  exists p', unpin h dirty p = (Ok FrameHandle_released, p') /\ steady p' /\
    bp_world p' = bp_world p /\ logical p' = logical p.
Proof.
  intros Hh Hd.
  assert (Hpin := hd_pin _ _ _ _ Hh).
  destruct (wp_total _ _ _ _ (unpin_wp p h dirty f (hd_wf _ _ _ _ Hh) (hd_pool _ _ _ _ Hh)
    (hd_frame _ _ _ _ Hh) (hd_valid _ _ _ _ Hh) ltac:(lia)))
    as (h' & p' & Hu & -> & Hwf' & Hw & Hl & Hc & f' & Hfr & Hp'); [by intros ?? []|].
  exists p'. split_and!; [done| |done..].
  split; [done|by apply Hc; [apply Hh|..]|].
  intros j g. rewrite Hfr. intros [(_ & <- & _)|[Hne Hj]]%list_lookup_insert_Some; [lia|].
  by eapply hd_others.
Qed.

Lemma same_world_base p p' : bp_world p' = bp_world p -> same_base p p' /\ (pool_good p -> pool_good p').
Proof. intros Hw. unfold same_base, pool_good, pdisk. by rewrite Hw. Qed.

Lemma unpin_held p h id f dirty :
  held p h id f -> dirty = true \/ synced p f ->
  exists p', unpin h dirty p = (Ok FrameHandle_released, p') /\ ready p' /\ same_base p p' /\
    logical p' = logical p.
Proof.
  intros Hh Hd. destruct (unpin_holding p h id f dirty Hh Hd) as (p' & Hu & Hs & Hw & Hl).
  destruct (same_world_base p p' Hw) as [Hb Hg]. exists p'. split_and!; try done.
  split; [done|]. apply Hg, Hh.
Qed.

Lemma handle_write_holding p h id f bs :
  holding p h id f -> length bs = page_bytes_nat (bp_world p) ->
  exists p', handle_write h bs p = (Ok tt, p') /\ holding p' h id (set_frame_data bs f) /\
    bp_world p' = bp_world p /\ logical p' = <[Z.to_nat id := bs]> (logical p).
Proof.
  intros Hh Hl. assert (Hpin := hd_pin _ _ _ _ Hh).
  destruct (wp_total _ _ _ _ (handle_write_wp p h f bs (hd_wf _ _ _ _ Hh) (hd_pool _ _ _ _ Hh)
    (hd_frame _ _ _ _ Hh) (hd_valid _ _ _ _ Hh) ltac:(lia) Hl))
    as ([] & p' & Hu & Hwf' & Hw & Hc & Hlg & Hfr); [by intros ?? []|].
  exists p'. split_and!; [done| |done|by rewrite <- (hd_page _ _ _ _ Hh)].
  split; try (by apply Hh); try done.
  - apply Hc, Hh.
  - rewrite Hfr. apply list_lookup_insert_eq. eapply lookup_lt_Some, Hh.
  - intros j g Hne. rewrite Hfr, list_lookup_insert_ne by done. by eapply hd_others.
Qed.

Lemma handle_write_held p h id f bs :
  held p h id f -> length bs = page_bytes_nat (bp_world p) ->
  exists p', handle_write h bs p = (Ok tt, p') /\ held p' h id (set_frame_data bs f) /\
    same_base p p' /\ logical p' = <[Z.to_nat id := bs]> (logical p).
Proof.
  intros Hh Hl. destruct (handle_write_holding p h id f bs Hh Hl) as (p' & Hu & Hh' & Hw & Hlg).
  destruct (same_world_base p p' Hw) as [Hb Hg]. exists p'. split_and!; try done.
  split; [done|]. apply Hg, Hh.
Qed.

Lemma handle_data_held p h id f : holding p h id f -> handle_data h p = (Ok (f_data f), p).
Proof.
  intros Hh. unfold handle_data, bindM, frame_at.
  by rewrite (hd_pool _ _ _ _ Hh), (hd_frame _ _ _ _ Hh).
Qed.

End specification.
