(* ===== verification/BufferPoolClient.v ===== *)
(** * BufferPoolClient: what the buffer pool promises its clients

    A client reads and writes pages through handles, one at a time, and flushes.
    [spec_op] is the contract: a client of the pool cannot tell it from a plain
    list of pages.  Devices that fail are the subject of [PoolSafety] and
    [PoolFailures]. *)
From S2P Require Import Prelude Utils StorageIO PageStore EvictionPolicy PolicyFactory BufferPool.
From S2P Require Import BufferPoolSpec.

(** The uses of the pool, as the storage engine makes them. *)
Inductive PageOp : Type :=
  | PRead (id : Z)
  | PWrite (id : Z) (bs : list byte)
  | PNew (id : Z) (bs : list byte)
  | PFlush (id : Z)
  | PFlushAll.

Section client.
Context {S : Type} `{StorageIO S}.
#[local] Abbreviation P := (Pool S).

Definition run_op (op : PageOp) : M P (list byte) :=
  match op with
  | PRead id =>
      let* h := fetch id in
      let* bs := handle_data h in
      let* _ := unpin h false in
      retM bs
  | PWrite id bs =>
      let* h := fetch id in
      let* _ := handle_write h bs in
      let* _ := unpin h true in
      retM []
  | PNew id bs =>
      let* h := fetch_new id in
      let* _ := handle_write h bs in
      let* _ := unpin h true in
      retM []
  | PFlush id => let* _ := flush id in retM []
  | PFlushAll => let* _ := flush_all in retM []
  end.

(** Run a sequence; an error does not stop the client. *)
Fixpoint run_ops (ops : list PageOp) (p : P) : list (Result (list byte)) * P :=
  match ops with
  | [] => ([], p)
  | op :: rest => let '(r, p) := run_op op p in let '(rs, p) := run_ops rest p in (r :: rs, p)
  end.
End client.

(** The same sequence on a list of pages. *)
Definition spec_op (op : PageOp) (pages : list (list byte)) : Result (list byte) * list (list byte) :=
  match op with
  | PRead id =>
      match pages !! Z.to_nat id with Some bs => (Ok bs, pages) | None => (Err PageNotFound, pages) end
  | PWrite id bs =>
      match pages !! Z.to_nat id with
      | Some _ => (Ok [], <[Z.to_nat id := bs]> pages)
      | None => (Err PageNotFound, pages)
      end
  | PNew id bs => (Ok [], <[Z.to_nat id := bs]> pages)
  | PFlush _ | PFlushAll => (Ok [], pages)
  end.
Fixpoint spec_ops (ops : list PageOp) (pages : list (list byte)) :
    list (Result (list byte)) * list (list byte) :=
  match ops with
  | [] => ([], pages)
  | op :: rest =>
      let '(r, pages) := spec_op op pages in
      let '(rs, pages) := spec_ops rest pages in (r :: rs, pages)
  end.

(** Page-sized writes to page ids; a new page is one the file has. *)
Definition op_ok (ps count : nat) (op : PageOp) : Prop :=
  match op with
  | PRead id => 0 <= id
  | PWrite id bs => 0 <= id /\ length bs = ps
  | PNew id bs => 0 <= id < Z.of_nat count /\ length bs = ps
  | PFlush _ | PFlushAll => True
  end.

Section refinement.
Context {S : Type} `{StorageIOLaws S}.
#[local] Abbreviation P := (Pool S).
Implicit Types (p : P).

Lemma same_base_bytes p p' :
  same_base p p' -> page_bytes_nat (bp_world p') = page_bytes_nat (bp_world p).
Proof. unfold same_base, page_bytes_nat, page_size_of. by intros [-> _]. Qed.

Lemma kept_ready p p' :
  ready p -> kept p p' -> pool_good p' -> ready p' /\ logical p' = logical p.
Proof.
  intros Hr (Hwf & Ht & _ & Hp) Hg. destruct (steady_pins p p' Hr Hwf Ht Hp). by split.
Qed.

Lemma write_held p h id f bs :
  held p h id f -> length bs = page_bytes_nat (bp_world p) ->
  exists p', (let* _ := handle_write h bs in let* _ := unpin h true in retM []) p
               = (Ok (@nil byte), p') /\
    ready p' /\ same_base p p' /\ logical p' = <[Z.to_nat id := bs]> (logical p).
Proof.
  intros Hh Hl. destruct (handle_write_held p h id f bs Hh Hl) as (p1 & Hw & Hh1 & Hb1 & Hl1).
  destruct (unpin_held p1 h id _ true Hh1 ltac:(by left)) as (p2 & Hu & Hr & Hb2 & Hl2).
  exists p2. unfold bindM. rewrite Hw, Hu. split_and!; [done|done|by etrans|by rewrite Hl2].
Qed.

Lemma run_op_refines p op :
  ready p -> op_ok (page_bytes_nat (bp_world p)) (length (logical p)) op ->
  exists r p', run_op op p = (r, p') /\ spec_op op (logical p) = (r, logical p') /\
    ready p' /\ same_base p p'.
Proof.
  intros Hr Hop. destruct op as [id|id bs|id bs|id|]; cbn [op_ok run_op spec_op] in *.
  - destruct (Z.lt_ge_cases id (Z.of_nat (length (logical p)))) as [Hlt|Hge].
    + destruct (fetch_ready p id Hr ltac:(lia)) as (h & p1 & f & Hf & Hh & Hsy & Hb & Hl & Hd).
      destruct (unpin_held p1 h id f false Hh ltac:(by right)) as (p2 & Hu & Hr2 & Hb2 & Hl2).
      exists (Ok (f_data f)), p2. unfold bindM. rewrite Hf, (handle_data_held _ _ _ _ Hh), Hu, Hd.
      split_and!; [done|by rewrite Hl2, Hl|done|by etrans].
    + destruct (fetch_missing p id Hr Hge) as (p1 & Hf & Hr1 & Hb & Hl).
      exists (Err PageNotFound), p1. unfold bindM. rewrite Hf, (lookup_ge_None_2 (logical p)) by lia.
      by rewrite Hl.
  - destruct Hop as [Hid Hlen].
    destruct (Z.lt_ge_cases id (Z.of_nat (length (logical p)))) as [Hlt|Hge].
    + destruct (fetch_ready p id Hr ltac:(lia)) as (h & p1 & f & Hf & Hh & Hsy & Hb & Hl & Hd).
      destruct (write_held p1 h id f bs Hh) as (p2 & Hw & Hr2 & Hb2 & Hl2);
        [by rewrite (same_base_bytes _ _ Hb)|].
      exists (Ok []), p2. unfold bindM at 1. rewrite Hf, Hw, Hd.
      split_and!; [done|by rewrite Hl2, Hl|done|by etrans].
    + destruct (fetch_missing p id Hr Hge) as (p1 & Hf & Hr1 & Hb & Hl).
      exists (Err PageNotFound), p1. unfold bindM. rewrite Hf, (lookup_ge_None_2 (logical p)) by lia.
      by rewrite Hl.
  - destruct Hop as [Hid Hlen].
    destruct (fetch_new_ready p id Hr ltac:(lia)) as (h & p1 & f & Hf & Hh & Hsy & Hb & Hl & Hd).
    destruct (write_held p1 h id f bs Hh) as (p2 & Hw & Hr2 & Hb2 & Hl2);
      [by rewrite (same_base_bytes _ _ Hb)|].
    exists (Ok []), p2. unfold bindM at 1. rewrite Hf, Hw.
    split_and!; [done| |done|by etrans]. by rewrite Hl2, Hl, list_insert_insert_eq.
  - destruct (wp_total _ _ _ _ (flush_wp p id (rd_wf _ Hr))) as ([] & p1 & Hf & Hk & Hg);
      [intros e p' [_ Hng]; apply Hng, Hr|].
    destruct (kept_ready p p1 Hr Hk (Hg (rd_good _ Hr))) as [Hr1 Hl1].
    exists (Ok []), p1. unfold bindM. rewrite Hf, Hl1. split_and!; try done. apply Hk.
  - destruct (wp_total _ _ _ _ (flush_all_wp p (rd_wf _ Hr))) as ([] & p1 & Hf & Hk & Hg & _);
      [intros e p' [_ Hng]; apply Hng, Hr|].
    destruct (kept_ready p p1 Hr Hk (Hg (rd_good _ Hr))) as [Hr1 Hl1].
    exists (Ok []), p1. unfold bindM. rewrite Hf, Hl1. split_and!; try done. apply Hk.
Qed.

Lemma run_ops_refines ops p rs p' :
  ready p -> Forall (op_ok (page_bytes_nat (bp_world p)) (length (logical p))) ops ->
  run_ops ops p = (rs, p') ->
  spec_ops ops (logical p) = (rs, logical p') /\ ready p' /\ same_base p p'.
Proof.
  revert p rs. induction ops as [|op ops IH]; intros p rs Hr Hops Hrun; cbn in *.
  { simplify_eq. by split_and!. }
  apply Forall_cons in Hops as [Hop Hops].
  destruct (run_op_refines p op Hr Hop) as (r & p1 & Hrun1 & Hspec & Hr1 & Hb1).
  rewrite Hrun1 in Hrun. rewrite Hspec. destruct (run_ops ops p1) as [rs1 p2] eqn:Hrun2. simplify_eq.
  destruct (IH p1 rs1 Hr1) as (Hs2 & Hr2 & Hb2); [|done|].
  { rewrite (same_base_bytes _ _ Hb1). destruct Hb1 as [_ Hlen].
    by rewrite length_logical, Hlen, <- length_logical. }
  rewrite Hs2. split_and!; [done|done|by etrans].
Qed.
End refinement.

(** C11: the buffer pool refines a plain list of pages.  Whatever the replacement
    policy evicts, a client that reads, writes and creates pages through handles
    and flushes gets, result by result, what the list of pages gives; and when
    the pool is closed the file holds exactly that list. *)
Theorem pool_refines_pages {S} `{StorageIOLaws S} (p : Pool S) (ops : list PageOp) :
  ready p -> Forall (op_ok (page_bytes_nat (bp_world p)) (length (logical p))) ops ->
  exists p' p'',
    run_ops ops p = ((spec_ops ops (logical p)).1, p') /\
    pool_close p' = (Ok tt, p'') /\ store_ok (bp_world p'') /\
    disk (bp_world p'') = (spec_ops ops (logical p)).2.
Proof.
  intros Hr Hops. destruct (run_ops ops p) as [rs p'] eqn:Hrun.
  destruct (run_ops_refines ops p rs p' Hr Hops Hrun) as (Hs & Hr' & _).
  destruct (wp_total _ _ _ _ (pool_close_wp p' (rd_wf _ Hr') (rd_clean _ Hr') (rd_quiescent _ Hr')))
    as ([] & p'' & Hc & _ & Hok & Hd & _); [intros e q [_ Hng]; apply Hng, Hr'|].
  exists p', p''. rewrite Hs. split_and!; try done.
Qed.

(** A pool of two frames over a file of three two-byte pages. *)
Definition example_disk : StoreW MemDev.t :=
  {| pstore := {| ps_io := true; ps_config := {| cfg_page_size := 2 |} |};
     device := {| MemDev.bytes := [x01; x02; x03; x04; x05; x06]; MemDev.faults := [] |} |}.
Definition example_config (k : EvictionPolicyKind) : BufferPoolConfig :=
  {| capacity_pages := 2; eviction := {| kind := k; lru_k_history := 2 |} |}.
Definition closed_pool {S} (w : StoreW S) : Pool S :=
  {| bp_store := false; bp_config := BufferPoolConfig_default; page_bytes := 0; frames := [];
     eviction_policy := None; bp_world := w |}.
Definition opened_pool {S} `{StorageIO S} (w : StoreW S) (k : EvictionPolicyKind) : Pool S :=
  (pool_open (example_config k) (closed_pool w)).2.

Lemma example_disk_ok : store_ok example_disk.
Proof. split; [done|cbn; lia|done]. Qed.
Lemma example_disk_good : good example_disk.
Proof. split; [done|]. by vm_compute. Qed.

Lemma opened_ready {S} `{StorageIOLaws S} (w : StoreW S) k :
  store_ok w -> good w -> ready (opened_pool w k) /\ logical (opened_pool w k) = disk w /\
  bp_world (opened_pool w k) = w.
Proof.
  intros Hok Hg.
  destruct (wp_total _ _ _ _ (pool_open_wp (closed_pool w) (example_config k) Hok ltac:(cbn; lia)))
    as ([] & p & Ho & Hwf & Hc & Hq & Hw & Hl & _); [by intros ?? []|].
  unfold opened_pool. rewrite Ho. cbn [snd]. split_and!; [|done|done].
  split; try done. unfold pool_good. by rewrite Hw.
Qed.

Definition example_ops : list PageOp :=
  [PRead 0; PWrite 1 [x0a; x0b]; PNew 2 [x0c; x0d]; PRead 0; PRead 1; PFlush 2; PRead 7].

Lemma pool_refines_pages_witness :
  Forall (op_ok 2 3) example_ops /\
  exists p' p'',
    run_ops example_ops (opened_pool example_disk EvictionPolicy.Arc) =
      ([Ok [x01; x02]; Ok []; Ok []; Ok [x01; x02]; Ok [x0a; x0b]; Ok []; Err PageNotFound], p') /\
    pool_close p' = (Ok tt, p'') /\ store_ok (bp_world p'') /\
    disk (bp_world p'') = [[x01; x02]; [x0a; x0b]; [x0c; x0d]].
Proof.
  destruct (opened_ready example_disk EvictionPolicy.Arc example_disk_ok example_disk_good)
    as (Hr & Hl & Hw).
  assert (Hops : Forall (op_ok 2 3) example_ops) by (repeat constructor; cbn; lia).
  split; [exact Hops|].
  assert (Hops' : Forall (op_ok (page_bytes_nat (bp_world (opened_pool example_disk EvictionPolicy.Arc)))
    (length (logical (opened_pool example_disk EvictionPolicy.Arc)))) example_ops)
    by (rewrite Hl, Hw; exact Hops).
  destruct (pool_refines_pages (opened_pool example_disk EvictionPolicy.Arc) example_ops Hr Hops')
    as (p' & p'' & Hrun & Hc & Hok & Hd).
  rewrite Hl in Hrun, Hd. exists p', p''. split; [exact Hrun|]. split; [exact Hc|].
  split; [exact Hok|]. exact Hd.
Defined.

(** ** A failed read *)

(** A device that fails by a script. *)
Definition failing_disk (script : list bool) : StoreW MemDev.t :=
  {| pstore := {| ps_io := true; ps_config := {| cfg_page_size := 2 |} |};
     device := {| MemDev.bytes := [x01; x02; x03; x04; x05; x06]; MemDev.faults := script |} |}.
Lemma failing_disk_ok script : store_ok (failing_disk script).
Proof. split; [done|cbn; lia|done]. Qed.

Definition one_frame : BufferPoolConfig :=
  {| capacity_pages := 1; eviction := EvictionPolicyConfig_default |}.

(** What the structure does not protect.  A read that fails part-way overwrites
    the bytes of the page it was to replace, and that page stays in the cache:
    page 0 is read and released, the read of page 1 fails, and the next read of
    page 0 returns a mixture although the file is intact. *)
Theorem failed_read_corrupts_cached_page :
  let p := (pool_open one_frame (closed_pool (failing_disk [false; false; false; true]))).2 in
  let '(rs, p') := run_ops [PRead 0; PRead 1; PRead 0] p in
  rs = [Ok [x01; x02]; Err IoError; Ok [x03; x02]] /\
  disk (bp_world p') !! 0%nat = Some [x01; x02].
Proof. vm_compute. done. Qed.
