(* ===== verification/PoolSafety.v ===== *)
(** * PoolSafety: no sequence of pool calls faults

    src/src/storage/buffer/buffer_pool.cpp under every behaviour of the device and
    of the caller: the pool may be opened, closed and opened again in between, calls
    reach a closed pool, handles may be stale or foreign, and page ids may lie beyond
    the end of the file.  [sound] is what of [pool_wf] survives all that. *)
From S2P Require Import Prelude Utils StorageIO PageStore EvictionPolicy PolicyFactory BufferPool.
From S2P Require Import BufferPoolSpec BufferPoolClient.

Section safety.
Context {S : Type} `{StorageIOLaws S}.
#[local] Abbreviation P := (Pool S).
Implicit Types (p : P) (f : Frame) (i : nat).

(** An open pool: frames of the page size, no page in two frames, and a policy that
    knows which pages are in which frames.  Unlike in [pool_wf] a frame may be for a
    page the file does not have. *)
Record sound p : Prop := {
  sn_open : bp_store p = true;
  sn_store : store_ok (bp_world p);
  sn_frames : frames p <> [];
  sn_data i f : frames p !! i = Some f -> length (f_data f) = page_bytes_nat (bp_world p);
  sn_ids i f : frames p !! i = Some f -> f_valid f = true -> 0 <= f_page_id f;
  sn_unique i j page : pages p !! i = Some (Some page) -> pages p !! j = Some (Some page) -> i = j;
  sn_policy : exists e, eviction_policy p = Some e /\ ep_coherent e (pages p);
}.
(** A pool between calls: closed, or open and sound. *)
Definition pool_safe p : Prop := store_ok (bp_world p) /\ (bp_store p = true -> sound p).

(** A call that keeps [I], whatever it answers, and does not fault. *)
#[local] Abbreviation safely I m := (wp m (post (fun _ p' => I p') (fun _ p' => I p'))).

Lemma sound_safe p : sound p -> pool_safe p.
Proof. intros Hs. split; [apply (sn_store _ Hs)|done]. Qed.

Lemma sound_update p i f f' :
  sound p -> frames p !! i = Some f -> slot_page f' = slot_page f ->
  length (f_data f') = length (f_data f) -> sound (set_frames (<[i:=f']> (frames p)) p).
Proof.
  intros [Ho Hst Hne Hda Hids Hu Hp] Hi Hs Hd. pose proof (pages_update_same _ _ _ _ Hi Hs) as Hpg.
  split; rewrite ?Hpg; try done; cbn [set_frames frames bp_world].
  - intros Hnil. apply Hne, nil_length_inv. by rewrite <- (length_insert _ i f'), Hnil.
  - intros j g [(_ & <- & _)|[_ Hg]]%list_lookup_insert_Some; [rewrite Hd|]; eauto.
  - intros j g [(-> & <- & _)|[_ Hg]]%list_lookup_insert_Some Hv; [|eauto].
    unfold slot_page in Hs. rewrite Hv in Hs. destruct (f_valid f) eqn:Hfv; [|done]. injection Hs as ->. eauto.
Qed.

Lemma sound_world p w : sound p -> store_ok w -> pstore w = pstore (bp_world p) -> sound (set_world w p).
Proof.
  intros [] Hok Hps. split; try done. cbn [set_world frames bp_world].
  unfold page_bytes_nat, page_size_of. rewrite Hps. done.
Qed.

Lemma sound_policy p e : sound p -> ep_coherent e (pages p) -> sound (set_policy (Some e) p).
Proof. intros [] He. split; try done. by exists e. Qed.

(** ** The steps *)

(** A notification that leaves the resident pages as they are. *)
Lemma notify_safe p (m : M AnyPolicy unit) :
  sound p -> (forall e, ep_coherent e (pages p) ->
    wp m (post (fun _ e' => ep_coherent e' (pages p)) (fun _ _ => False)) e) ->
  wp (on_policy m) (post (fun _ p' => sound p' /\ frames p' = frames p) (fun _ _ => False)) p.
Proof.
  intros Hs Hm. destruct (sn_policy _ Hs) as (e & He & Hc).
  eapply wp_post_mono; [by apply (notify_wp m p e (pages p)); [|apply Hm]| |done].
  intros _ p' (e' & -> & He'). split; [by apply sound_policy|done].
Qed.

Lemma write_back_safe p i f :
  sound p -> frames p !! i = Some f ->
  wp (write_back_if_dirty i)
    (post (fun _ p' => sound p' /\ frames p' = <[i := cleaned f]> (frames p)) (fun _ p' => sound p')) p.
Proof.
  intros Hs Hi. unfold write_back_if_dirty. eapply frame_at_bind; [done|]. unfold cleaned.
  destruct (f_valid f) eqn:Hv; cbn [negb orb].
  2: { apply wp_ret. cbn. by rewrite list_insert_id. }
  destruct (f_dirty f) eqn:Hd; cbn [negb].
  2: { apply wp_ret. cbn. rewrite list_insert_id; [done|]. rewrite Hi. f_equal. destruct f; cbn in *; by subst. }
  apply wp_bind, wp_zoom. eapply wp_mono.
  { apply write_page_wp; [apply (sn_store _ Hs)|by apply (sn_ids _ Hs i f)|by rewrite (sn_data _ Hs i f)]. }
  intros [[]|e|] w; cbn [post]; [| |done].
  - intros (Hok & Hps & _). pose proof (sound_world p w Hs Hok Hps) as Hs1.
    eapply wp_eq; [by apply update_frame_eq|]. cbn [post]. split; [|done].
    by apply (sound_update (set_world w p) i f).
  - intros (Hok & Hps & _). by apply sound_world.
Qed.

Lemma choose_victim_safe p :
  sound p ->
  wp choose_victim
    (post (fun i p' => sound p' /\ frames p' = frames p /\ (i < length (frames p))%nat) (fun _ p' => sound p')) p.
Proof.
  intros Hs. unfold wp, choose_victim.
  pose proof (find_index_spec (fun f => negb (f_valid f)) 0 (frames p)) as Hf.
  destruct (find_index _ _ _) as [i|]; cbn [fst snd post].
  { destruct Hf as (j & f & -> & Hj & _). split_and!; [done|done|by eapply lookup_lt_Some]. }
  destruct (sn_policy _ Hs) as (e & He & Hc). rewrite He.
  change (wp (on_policy (ep_choose_victim (frame_state <$> frames p)))
    (post (fun i p' => sound p' /\ frames p' = frames p /\ (i < length (frames p))%nat) (fun _ p' => sound p')) p).
  eapply on_policy_wp; [done|]. eapply wp_post_mono.
  { apply ep_choose_spec; [by rewrite resident_frames|]. pose proof (sn_frames _ Hs). by destruct (frames p). }
  - intros i e' [Hev Hc']. rewrite resident_frames in Hc'. split; [by apply sound_policy|]. split; [done|].
    unfold is_evictable in Hev. rewrite list_lookup_fmap in Hev.
    destruct (frames p !! i) as [f|] eqn:Hi; [|done]. by eapply lookup_lt_Some.
  - intros er e' (_ & Hc' & _). rewrite resident_frames in Hc'. by apply sound_policy.
Qed.

Lemma read_into_frame_safe p i f id :
  sound p -> frames p !! i = Some f -> 0 <= id ->
  wp (read_into_frame i id)
    (post (fun _ p' => sound p' /\ exists data, length data = length (f_data f) /\
             frames p' = <[i := set_frame_data data f]> (frames p)) (fun _ p' => sound p')) p.
Proof.
  intros Hs Hi Hid. unfold wp, read_into_frame. rewrite Hi. pose proof (sn_data _ Hs _ _ Hi) as Hdl.
  pose proof (read_page_wp (bp_world p) id (f_data f) (sn_store _ Hs) Hid ltac:(lia)) as Hr.
  assert (Hset : forall data w, same_store (bp_world p) w -> length data = length (f_data f) ->
    sound (set_world w (set_frames (<[i:=set_frame_data data f]> (frames p)) p))).
  { intros data w Hw Hl. apply sound_world; [by apply (sound_update p i f)| |apply Hw].
    by eapply same_store_ok, (sn_store _ Hs). }
  unfold wp in Hr. destruct (read_page id (f_data f, bp_world p)) as [[[]|er|] [data w]];
    cbn [fst snd post] in *; [| |done].
  - destruct Hr as [Hw (page & Hpage & ->)]. rewrite drop_ge, app_nil_r by lia.
    assert (Hl : length page = length (f_data f))
      by (rewrite Hdl; apply (Forall_lookup_1 _ _ _ _ (disk_Forall (bp_world p)) Hpage)).
    split; [by apply Hset|by exists page].
  - destruct Hr as (Hw & Hl & _). by apply Hset.
Qed.

(** Page [id] replaces the page of frame [i]. *)
Lemma replace_safe p i f g id (h : Frame -> Frame) :
  sound p -> frames p !! i = Some f -> slot_page g = slot_page f -> 0 <= id -> Some id ∉ pages p ->
  f_valid (h f) = true -> f_page_id (h f) = id -> length (f_data (h f)) = length (f_data f) ->
  wp (let* _ := if f_valid g then on_policy (ep_record_evict (f_page_id g) i) else retM tt in
      let* _ := update_frame i h in
      on_policy (ep_record_load id i))
    (post (fun _ p' => sound p' /\ length (frames p') = length (frames p)) (fun _ _ => False)) p.
Proof.
  intros Hs Hi Hg Hid Hnew Hv Hpid Hlen. destruct (sn_policy _ Hs) as (e & He & Hc).
  assert (Hpi : pages p !! i = Some (slot_page g)) by (by rewrite pages_lookup, Hi, Hg).
  assert (Hlt : (i < length (pages p))%nat) by (by eapply lookup_lt_Some).
  eapply wp_post_bind; [by apply (evict_wp p i g e (pages p))| |done]. intros _ p1 (e1 & -> & Hc1).
  eapply wp_eq_bind; [by apply update_frame_eq|].
  assert (Hno : forall j, pages p !! j <> Some (Some id)).
  { intros j Hj. apply Hnew, list_elem_of_lookup. by exists j. }
  eapply wp_post_mono; [apply (notify_wp _ _ e1 (<[i:=Some id]> (pages p))); [done|]|..|done].
  - rewrite <- (list_insert_insert_eq (pages p) i (Some id) None).
    apply ep_load_spec; [done|by apply list_lookup_insert_eq|]. rewrite list_elem_of_lookup.
    intros [j [(_ & ? & _)|[_ Hj]]%list_lookup_insert_Some]; [done|by eapply Hno].
  - intros _ p' (e2 & -> & Hc2). destruct Hs as [Ho Hst Hne Hda Hids Hu Hp].
    set (p' := set_policy _ _).
    assert (Hpg : pages p' = <[i:=Some id]> (pages p)).
    { unfold pages. cbn. rewrite list_fmap_insert. unfold slot_page at 1. by rewrite Hv, Hpid. }
    split; [|cbn; by rewrite length_insert]. split; rewrite ?Hpg; try done; cbn [p' set_policy set_frames frames bp_world].
    + intros Hnil. apply Hne, nil_length_inv. by rewrite <- (length_insert _ i (h f)), Hnil.
    + intros j k [(_ & <- & _)|[_ Hk]]%list_lookup_insert_Some; [rewrite Hlen|]; eauto.
    + intros j k [(_ & <- & _)|[_ Hk]]%list_lookup_insert_Some Hkv; [by rewrite Hpid|eauto].
    + intros j k page. rewrite !list_lookup_insert_Some.
      intros [(-> & Hpj & _)|(Hj & Hjp)] [(-> & Hpk & _)|(Hk & Hkp)]; simplify_eq; try done.
      * by destruct (Hno k).
      * by destruct (Hno j).
      * by apply (Hu j k page).
    + by exists e2.
Qed.

Lemma load_page_safe p i f id :
  sound p -> frames p !! i = Some f -> 0 <= id -> Some id ∉ pages p ->
  wp (load_page_into_frame i id)
    (post (fun _ p' => sound p' /\ length (frames p') = length (frames p)) (fun _ p' => sound p')) p.
Proof.
  intros Hs Hi Hid Hnew. unfold load_page_into_frame. eapply frame_at_bind; [done|].
  eapply wp_post_bind; [by apply write_back_safe| |done]. intros _ p1 [Hs1 Hfr1].
  destruct (cleaned_pages p p1 i f Hi Hfr1) as [Hi1 Hpg1].
  eapply wp_post_bind; [by apply (read_into_frame_safe p1 i (cleaned f) id)| |done].
  intros _ p2 (Hs2 & data & Hl & Hfr2).
  assert (Hi2 : frames p2 !! i = Some (set_frame_data data (cleaned f))).
  { rewrite Hfr2. apply list_lookup_insert_eq. by eapply lookup_lt_Some. }
  eapply wp_post_mono; [eapply (replace_safe p2 i _ f id); [done|exact Hi2|..]| |done]; try done.
  - symmetry. change (slot_page (set_frame_data data (cleaned f))) with (slot_page (cleaned f)). apply slot_cleaned.
  - assert (Hpg2 : pages p2 = pages p1).
    { unfold pages. rewrite Hfr2, list_fmap_insert. apply list_insert_id. by rewrite list_lookup_fmap, Hi1. }
    by rewrite Hpg2, Hpg1.
  - intros _ p' [Hs' Hl']. split; [done|]. by rewrite Hl', Hfr2, Hfr1, !length_insert.
Qed.

Lemma load_blank_safe p i f id :
  sound p -> frames p !! i = Some f -> 0 <= id -> Some id ∉ pages p ->
  wp (load_blank_page_into_frame i id)
    (post (fun _ p' => sound p' /\ length (frames p') = length (frames p)) (fun _ p' => sound p')) p.
Proof.
  intros Hs Hi Hid Hnew. unfold load_blank_page_into_frame. eapply frame_at_bind; [done|].
  eapply wp_post_bind; [by apply write_back_safe| |done]. intros _ p1 [Hs1 Hfr1].
  destruct (cleaned_pages p p1 i f Hi Hfr1) as [Hi1 Hpg1].
  eapply wp_post_mono; [eapply (replace_safe p1 i _ f id); [done|exact Hi1|..]| |done]; try done.
  - symmetry. apply slot_cleaned.
  - by rewrite Hpg1.
  - cbn. by rewrite length_replicate.
  - intros _ p' [Hs' Hl']. split; [done|]. by rewrite Hl', Hfr1, length_insert.
Qed.

(** ** The member functions *)

(** The frame for page [id], which no frame holds yet. *)
Lemma miss_safe {B} p id (k : nat -> M P B) (I : P -> Prop) :
  sound p -> (forall p', sound p' -> I p') ->
  (forall i f p1, sound p1 -> frames p1 = frames p -> frames p !! i = Some f -> safely I (k i) p1) ->
  safely I (let* _ := on_policy (ep_record_miss id) in let* victim := choose_victim in k victim) p.
Proof.
  intros Hs HI Hk. eapply wp_post_bind; [apply notify_safe; [done|]; intros e He; by apply ep_miss_spec| |done].
  intros _ p1 [Hs1 Hfr1]. eapply wp_post_bind; [by apply choose_victim_safe| |].
  - intros i p2 (Hs2 & Hfr2 & Hi). rewrite Hfr1 in *. apply lookup_lt_is_Some_2 in Hi as [f Hi]. by eapply Hk.
  - intros e p2 Hs2. by apply HI.
Qed.

Lemma make_handle_safe p i (I : P -> Prop) : I p -> (i < length (frames p))%nat -> safely I (make_handle i) p.
Proof.
  intros HI Hi. apply lookup_lt_is_Some_2 in Hi as [f Hi]. by eapply make_handle_wp.
Qed.

Lemma sound_check_open {B} p (k : unit -> M P B) Q :
  sound p -> wp (k tt) Q p -> wp (bindM pool_check_open k) Q p.
Proof. intros Hs. apply wp_eq_bind. unfold pool_check_open. by rewrite (sn_open _ Hs). Qed.

(** One more pin, and what else happens to a cached frame. *)
Lemma access_safe p i f id (h : Frame -> Frame) :
  sound p -> frames p !! i = Some f -> f_valid f = true -> f_page_id f = id ->
  slot_page (h f) = slot_page f -> length (f_data (h f)) = length (f_data f) ->
  safely sound (let* _ := update_frame i h in let* _ := on_policy (ep_record_access id i) in make_handle i) p.
Proof.
  intros Hs Hi Hv Hid Hslot Hl. eapply wp_eq_bind; [by apply update_frame_eq|]. set (p1 := set_frames _ p).
  pose proof (sound_update p i f (h f) Hs Hi Hslot Hl) as Hs1.
  eapply wp_post_bind; [apply (notify_safe p1); [done|]|..|done].
  - intros e He. apply ep_access_spec; [done|]. unfold p1. rewrite (pages_update_same p i f) by done.
    rewrite <- Hid. by apply pages_valid.
  - intros _ p2 [Hs2 Hfr2]. apply make_handle_safe; [done|]. rewrite Hfr2. cbn. rewrite length_insert.
    by eapply lookup_lt_Some.
Qed.

Lemma fetch_safe p id : sound p -> 0 <= id -> safely sound (fetch id) p.
Proof.
  intros Hs Hid. unfold fetch. apply sound_check_open; [done|].
  destruct (find_frame_cases p id) as [(i & f & Hff & Hi & Hv & Hfid)|[Hff Hnew]];
    (eapply wp_eq_bind; [unfold attempt; by rewrite Hff|]).
  - by apply (access_safe p i f).
  - apply miss_safe; [done|done|]. intros i f p1 Hs1 Hfr1 Hi. rewrite <- Hfr1 in Hi.
    eapply wp_post_bind; [eapply (load_page_safe p1 i f id); [done..|]| |done].
    + unfold pages. by rewrite Hfr1.
    + intros _ p2 [Hs2 Hl]. apply make_handle_safe; [done|]. rewrite Hl. by eapply lookup_lt_Some.
Qed.

Lemma fetch_new_safe p id : sound p -> 0 <= id -> safely sound (fetch_new id) p.
Proof.
  intros Hs Hid. unfold fetch_new. apply sound_check_open; [done|].
  destruct (find_frame_cases p id) as [(i & f & Hff & Hi & Hv & Hfid)|[Hff Hnew]];
    (eapply wp_eq_bind; [unfold attempt; by rewrite Hff|]).
  - apply (access_safe p i f); try done. cbn. apply length_replicate.
  - apply miss_safe; [done|done|]. intros i f p1 Hs1 Hfr1 Hi. rewrite <- Hfr1 in Hi.
    eapply wp_post_bind; [eapply (load_blank_safe p1 i f id); [done..|]| |done].
    + unfold pages. by rewrite Hfr1.
    + intros _ p2 [Hs2 Hl]. apply make_handle_safe; [done|]. rewrite Hl. by eapply lookup_lt_Some.
Qed.

(** A handle that is stale or foreign is refused, or counts for the frame's page. *)
Lemma unpin_safe p h dirty : sound p -> safely sound (unpin h dirty) p.
Proof.
  intros Hs. unfold unpin. apply sound_check_open; [done|]. wp_pure.
  destruct (negb (h_pool h)); cbn [orb]; [by apply wp_err|].
  destruct (Nat.leb_spec (length (frames p)) (h_index h)) as [|Hlt]; [by apply wp_err|].
  apply lookup_lt_is_Some_2 in Hlt as [f Hi]. eapply frame_at_bind; [done|].
  destruct (negb (f_valid f) || _); [by apply wp_err|].
  set (f1 := if dirty then set_dirty true f else f).
  eapply (wp_eq_bind _ tt (set_frames (<[h_index h := f1]> (frames p)) p)).
  { unfold f1. destruct dirty; [by apply update_frame_eq|]. rewrite list_insert_id by done. by destruct p. }
  eapply wp_eq_bind; [apply update_frame_eq; apply list_lookup_insert_eq; by eapply lookup_lt_Some|].
  cbn [set_frames frames]. rewrite list_insert_insert_eq. apply wp_ret. cbn [post].
  apply (sound_update p (h_index h) f); [done|done|..]; unfold f1; by destruct dirty.
Qed.

Lemma flush_safe p id : sound p -> safely sound (flush id) p.
Proof.
  intros Hs. unfold flush. apply sound_check_open; [done|].
  destruct (find_frame_cases p id) as [(i & f & Hff & Hi & _)|[Hff _]];
    (eapply wp_eq_bind; [unfold attempt; by rewrite Hff|]); [|by apply wp_ret].
  eapply wp_post_mono; [by apply write_back_safe|by intros _ p' [? _]|done].
Qed.

Lemma flush_frames_safe l p :
  sound p -> Forall (fun i => (i < length (frames p))%nat) l -> safely sound (flush_frames l) p.
Proof.
  revert p. induction l as [|i l IH]; intros p Hs Hall; [by apply wp_ret|]. cbn [flush_frames].
  apply Forall_cons in Hall as [Hi Hall]. apply lookup_lt_is_Some_2 in Hi as [f Hi].
  eapply wp_post_bind; [by apply write_back_safe| |done]. intros _ p1 [Hs1 Hfr1].
  apply IH; [done|]. by rewrite Hfr1, length_insert.
Qed.

Lemma flush_all_safe p : sound p -> safely sound flush_all p.
Proof.
  intros Hs. unfold flush_all. apply sound_check_open; [done|]. wp_pure.
  eapply wp_post_bind; [apply flush_frames_safe; [done|]| |done].
  { apply Forall_forall. intros i [_ Hi]%elem_of_seq. lia. }
  intros [] p1 Hs1. apply wp_zoom. eapply wp_post_mono; [apply store_sync_wp, (sn_store _ Hs1)|..].
  - intros [] w Hw. apply sound_world; [done| |apply Hw]. by eapply same_store_ok, (sn_store _ Hs1).
  - intros e w [Hw _]. apply sound_world; [done| |apply Hw]. by destruct (same_disk_ok _ _ Hw (sn_store _ Hs1)).
Qed.

(** ** Sequences of calls *)

Inductive PoolCall : Type :=
  | CallOpen (cfg : BufferPoolConfig)
  | CallClose
  | CallFetch (id : Z)
  | CallFetchNew (id : Z)
  | CallUnpin (h : FrameHandle) (dirty : bool)
  | CallFlush (id : Z)
  | CallFlushAll.

Definition run_call (c : PoolCall) : M P unit :=
  match c with
  | CallOpen cfg => pool_open cfg
  | CallClose => pool_close
  | CallFetch id => let* _ := fetch id in retM tt
  | CallFetchNew id => let* _ := fetch_new id in retM tt
  | CallUnpin h dirty => let* _ := unpin h dirty in retM tt
  | CallFlush id => flush id
  | CallFlushAll => flush_all
  end.

Fixpoint run_calls (cs : list PoolCall) (p : P) : list (Result unit) * P :=
  match cs with
  | [] => ([], p)
  | c :: rest => let '(r, p) := run_call c p in let '(rs, p) := run_calls rest p in (r :: rs, p)
  end.

(** [open] asserts that there is a frame; page ids are unsigned. *)
Definition pool_call_ok (c : PoolCall) : Prop :=
  match c with
  | CallOpen cfg => 0 < capacity_pages cfg
  | CallFetch id | CallFetchNew id => 0 <= id
  | _ => True
  end.

(** A closed pool refuses all but [open] and [close]. *)
Lemma closed_call p c :
  bp_store p = false ->
  match c with CallOpen _ | CallClose => True | _ => run_call c p = (Err IoError, p) end.
Proof.
  intros Hp. destruct c; try done; cbn [run_call]; unfold fetch, fetch_new, unpin, flush, flush_all, bindM, pool_check_open;
    by rewrite Hp.
Qed.

Lemma close_safe p : pool_safe p -> safely pool_safe pool_close p.
Proof.
  intros [Hst Hs]. unfold pool_close. wp_pure. destruct (bp_store p) eqn:Ho.
  - eapply wp_post_bind; [by apply flush_all_safe, Hs| |].
    + intros [] p1 Hs1. unfold wp, modifyM. cbn. split; [apply (sn_store _ Hs1)|done].
    + intros e p1 Hs1. by apply sound_safe.
  - eapply wp_eq_bind; [done|]. unfold wp, modifyM. by cbn.
Qed.

Lemma open_safe p cfg : pool_safe p -> 0 < capacity_pages cfg -> safely pool_safe (pool_open cfg) p.
Proof.
  intros [Hst _] Hcap. eapply wp_post_mono; [by apply pool_open_wp| |done]. intros _ p' (Hwf & _). apply sound_safe.
  destruct Hwf as [G1 G2 G3 G4 G5 G6 G7 G8 G9]. split; try done. intros i f Hi Hv. by apply (G6 i f).
Qed.

Lemma run_call_safe p c : pool_safe p -> pool_call_ok c -> safely pool_safe (run_call c) p.
Proof.
  intros Hp Hc.
  assert (Hopen : forall {A} (m : M P A), (sound p -> safely sound m p) -> bp_store p = true -> safely pool_safe m p).
  { intros A m Hm Ho. eapply wp_post_mono; [by apply Hm, (proj2 Hp)|..]; intros; by apply sound_safe. }
  assert (Hunit : forall {A} (m : M P A), safely pool_safe m p -> safely pool_safe (let* _ := m in retM tt) p).
  { intros A m Hm. eapply wp_post_bind; [exact Hm|..]; [|done]. intros a p' Hp'. by apply wp_ret. }
  destruct (bp_store p) eqn:Ho.
  - destruct c as [cfg| |id|id|h dirty|id|]; cbn [run_call pool_call_ok] in *.
    + by apply open_safe.
    + by apply close_safe.
    + apply Hunit, Hopen; [|done]. intros. by apply fetch_safe.
    + apply Hunit, Hopen; [|done]. intros. by apply fetch_new_safe.
    + apply Hunit, Hopen; [|done]. intros. by apply unpin_safe.
    + apply Hopen; [|done]. intros. by apply flush_safe.
    + apply Hopen; [|done]. intros. by apply flush_all_safe.
  - pose proof (closed_call p c Ho) as Hcl.
    destruct c; try (eapply wp_eq; [exact Hcl|done]); [by apply open_safe|by apply close_safe].
Qed.
End safety.

(** C33: no behaviour of the device or the caller makes the pool fault.  However the
    backend fails, any sequence of opens, closes, fetches of any page, unpins of any
    handle and flushes, on a pool that may be closed at any point of it, answers every
    call with a result or an error; in particular a victim is found whenever a frame is
    not pinned, no loop of the policies runs on, and no frame is indexed outside the
    pool.  The pool is left closed, or open with its frames, its page ids and its
    policy consistent. *)
Theorem pool_never_faults {S} `{StorageIOLaws S} (p : Pool S) (cs : list PoolCall) :
  pool_safe p -> Forall pool_call_ok cs ->
  (Fault ∉ (run_calls cs p).1) /\ length (run_calls cs p).1 = length cs /\ pool_safe (run_calls cs p).2.
Proof.
  revert p. induction cs as [|c cs IH]; intros p Hp Hcs; cbn; [split_and!; [set_solver|done..]|].
  apply Forall_cons in Hcs as [Hc Hcs]. pose proof (run_call_safe p c Hp Hc) as Hw. unfold wp in Hw.
  destruct (run_call c p) as [r p1]. cbn [fst snd] in Hw.
  assert (Hr : r <> Fault /\ pool_safe p1) by (by destruct r). destruct Hr as [Hr Hp1].
  destruct (IH p1 Hp1 Hcs) as (Hno & Hl & Hp2). destruct (run_calls cs p1). cbn in *.
  split_and!; [set_solver|by rewrite Hl|done].
Qed.

(** On a device whose first write fails: a page of the file, one beyond its end, a
    handle used twice, a close that fails, calls on the closed pool, and reopening. *)
Definition example_calls : list PoolCall :=
  [CallFetch 1; CallOpen (example_config EvictionPolicy.ClockSweep); CallFetchNew 0;
   CallUnpin {| h_pool := true; h_index := 0; h_id := 0 |} true;
   CallUnpin {| h_pool := true; h_index := 0; h_id := 0 |} true; CallClose; CallFetch 9; CallFetchNew 9;
   CallClose; CallFlush 9; CallFetch 1; CallClose;
   CallOpen (example_config EvictionPolicy.LruK); CallFetch 1; CallClose; CallFetch 1].

Lemma pool_never_faults_witness :
  let p := closed_pool (failing_disk [false; true]) in
  (run_calls example_calls p).1 =
    [Err IoError; Ok tt; Ok tt; Ok tt; Err InvalidArgument; Err IoError; Err PageNotFound; Ok tt;
     Err PageNotFound; Err PageNotFound; Ok tt; Err PageNotFound; Ok tt; Ok tt; Ok tt; Err IoError] /\
  pool_safe (run_calls example_calls p).2.
Proof.
  intros p. split; [vm_compute; reflexivity|].
  apply (pool_never_faults p example_calls).
  - split; [apply failing_disk_ok|done].
  - repeat constructor; vm_compute; congruence.
Defined.
