(* ===== verification/PoolFailures.v ===== *)
(** * PoolFailures: the buffer pool on a device that fails

    [BufferPoolClient] shows that no failure breaks the pool's structure and that
    a read which fails part-way can spoil a cached page.  Here is the other half:
    on a device whose failed reads transfer nothing ([clean_reads]) no failure
    loses a page.  Writes may tear, and sizes, syncs and reads may be refused at
    any time; every call answers as the list of pages does or reports an error
    and changes nothing the client can see. *)
From S2P Require Import Prelude Utils StorageIO PageStore EvictionPolicy PolicyFactory BufferPool.
From S2P Require Import BufferPoolSpec BufferPoolClient.

(** ** A scripted device whose failed reads transfer nothing

    Everything else is [MemDev]: a failing write stores half of its bytes. *)
Module CleanDev.
Record t := { inner : MemDev.t }.

Definition set_inner (m : MemDev.t) (_ : t) : t := {| inner := m |}.
Definition lift {A} (m : M MemDev.t A) : M t A := zoom inner set_inner m.

Definition read (off : Z) : M (list byte * t) Z := fun '(buf, d) =>
  let '(r, (buf', m)) := MemDev.read off (buf, inner d) in
  (r, (match r with Ok _ => buf' | _ => buf end, {| inner := m |})).

#[global] Instance ops : StorageIO t := {
  io_open path cfg := lift (io_open path cfg);
  io_close := lift io_close;
  io_read := read;
  io_write off buf := lift (MemDev.write off buf);
  io_sync := lift MemDev.sync;
  io_datasync := lift MemDev.sync;
  io_truncate size := lift (MemDev.truncate size);
  io_file_size := lift MemDev.file_size;
}.

#[global] Program Instance laws : StorageIOLaws t :=
  { io_contents d := MemDev.bytes (inner d); io_good d := MemDev.good (inner d);
    io_limit := MemDev.max_size }.
Next Obligation. done. Qed.
Next Obligation.
  intros off buf [m] Hbuf Hoff. pose proof (io_read_spec off buf m Hbuf Hoff) as Hr.
  unfold wp in *. cbn -[MemDev.read]. cbn -[MemDev.read] in Hr.
  destruct (MemDev.read off (buf, m)) as [[n|e|] [buf' m']]; cbn in *; [exact Hr| |done].
  by destruct Hr as (Hc & _ & Hg).
Qed.
Next Obligation. intros off buf [m] Hbuf Hoff Hle. apply wp_zoom. exact (io_write_spec off buf m Hbuf Hoff Hle). Qed.
Next Obligation. intros size [m] Hs. apply wp_zoom. exact (io_truncate_spec size m Hs). Qed.
Next Obligation. intros [m]. apply wp_zoom. exact (io_file_size_spec m). Qed.
Next Obligation. intros [m]. apply wp_zoom. exact (io_sync_spec m). Qed.

Lemma clean : clean_reads t.
Proof.
  intros off buf [m] e st. cbn -[MemDev.read]. destruct (MemDev.read off (buf, m)) as [[n|e'|] [buf' m']]; cbn;
    by intros [= <- <-].
Qed.
End CleanDev.

(** ** What a failing device lets the client see *)

(** [answered ops pages rs final]: the answers [rs] to [ops], in order, are those
    of the list of pages, or errors that leave it alone; [final] is what the
    operations answered without an error have made of [pages]. *)
Inductive answered : list PageOp -> list (list byte) -> list (Result (list byte)) ->
    list (list byte) -> Prop :=
  | answered_nil pages : answered [] pages [] pages
  | answered_done op ops pages r pages' rs final :
      spec_op op pages = (r, pages') -> answered ops pages' rs final ->
      answered (op :: ops) pages (r :: rs) final
  | answered_failed op ops pages e rs final :
      answered ops pages rs final -> answered (op :: ops) pages (Err e :: rs) final.

Section failures.
Context {S : Type} `{StorageIOLaws S} (Hclean : clean_reads S).
#[local] Abbreviation P := (Pool S).
Implicit Types (p : P).

(** An operation took effect, or reported an error and changed nothing. *)
Definition served p (op : PageOp) (r : Result (list byte)) p' : Prop :=
  steady p' /\ same_base p p' /\
  (spec_op op (logical p) = (r, logical p') \/ (exists e, r = Err e) /\ logical p' = logical p).

Lemma kept_steady p p' : steady p -> kept p p' -> steady p' /\ logical p' = logical p /\ same_base p p'.
Proof. intros Hs (Hwf & Ht & Hb & Hp). by destruct (steady_pins p p' Hs Hwf Ht Hp). Qed.

Lemma write_holding p h id f bs :
  holding p h id f -> length bs = page_bytes_nat (bp_world p) ->
  exists p', (let* _ := handle_write h bs in let* _ := unpin h true in retM []) p
               = (Ok (@nil byte), p') /\
    steady p' /\ same_base p p' /\ logical p' = <[Z.to_nat id := bs]> (logical p).
Proof using Type.
  intros Hh Hl. destruct (handle_write_holding p h id f bs Hh Hl) as (p1 & Hw & Hh1 & Hw1 & Hl1).
  destruct (unpin_holding p1 h id _ true Hh1 ltac:(by left)) as (p2 & Hu & Hs & Hw2 & Hl2).
  exists p2. unfold bindM. rewrite Hw, Hu. split_and!; [done|done| |by rewrite Hl2].
  apply same_world_base. congruence.
Qed.

(** The fetch of a client operation: the page, or an error. *)
Lemma fetch_served p op id (k : FrameHandle -> M P (list byte)) :
  steady p -> 0 <= id ->
  (forall h p1 f, holding p1 h id f -> synced p1 f -> same_base p p1 -> logical p1 = logical p ->
     logical p !! Z.to_nat id = Some (f_data f) -> wp (k h) (served p op) p1) ->
  wp (let* h := fetch id in k h) (served p op) p.
Proof using Hclean.
  intros Hs Hid Hk. eapply wp_post_bind; [by apply fetch_steady|..].
  - intros h p1 (f & Hh & Hsy & Hb & _ & Hl & Hd). by eapply Hk.
  - intros e p1 (Hb & _ & Hcl). destruct (Hcl Hclean) as [Hs1 Hl1]. split_and!; try done. right. eauto.
Qed.

Lemma flush_served p op (m : M P unit) :
  steady p -> (forall pages, spec_op op pages = (Ok [], pages)) ->
  wp m (post (fun _ p' => kept p p') (fun _ p' => kept p p')) p ->
  wp (let* _ := m in retM []) (served p op) p.
Proof.
  intros Hs Hspec Hm. eapply wp_post_bind; [exact Hm|..].
  - intros [] p' Hk. destruct (kept_steady p p' Hs Hk) as (Hs' & Hl & Hb). apply wp_ret.
    split_and!; try done. left. by rewrite Hspec, Hl.
  - intros e p' Hk. destruct (kept_steady p p' Hs Hk) as (Hs' & Hl & Hb). split_and!; try done. right. eauto.
Qed.

Lemma run_op_served p op :
  steady p -> op_ok (page_bytes_nat (bp_world p)) (length (logical p)) op ->
  wp (run_op op) (served p op) p.
Proof using Hclean.
  intros Hs Hop. destruct op as [id|id bs|id bs|id|]; cbn [op_ok run_op] in *.
  - apply fetch_served; [done|done|]. intros h p1 f Hh Hsy Hb Hl Hd.
    destruct (unpin_holding p1 h id f false Hh ltac:(by right)) as (p2 & Hu & Hs2 & Hw2 & Hl2).
    eapply wp_eq_bind; [by eapply handle_data_held|]. eapply wp_eq_bind; [exact Hu|]. apply wp_ret.
    split_and!; [done|etrans; [done|by apply same_world_base]|]. left. cbn. by rewrite Hd, Hl2, Hl.
  - destruct Hop as [Hid Hlen]. apply fetch_served; [done|done|]. intros h p1 f Hh Hsy Hb Hl Hd.
    destruct (write_holding p1 h id f bs Hh) as (p2 & Hw & Hs2 & Hb2 & Hl2);
      [by rewrite (same_base_bytes _ _ Hb)|].
    eapply wp_eq; [exact Hw|]. split_and!; [done|by etrans|]. left. cbn. by rewrite Hd, Hl2, Hl.
  - destruct Hop as [Hid Hlen]. eapply wp_post_bind; [by apply fetch_new_steady|..].
    + intros h p1 (f & Hh & _ & Hb & _ & Hl & _).
      destruct (write_holding p1 h id f bs Hh) as (p2 & Hw & Hs2 & Hb2 & Hl2);
        [by rewrite (same_base_bytes _ _ Hb)|].
      eapply wp_eq; [exact Hw|]. split_and!; [done|by etrans|]. left. cbn.
      by rewrite Hl2, Hl, list_insert_insert_eq.
    + intros e p1 (Hb & Hs1 & Hl & _). split_and!; try done. right. eauto.
  - apply flush_served; [done|done|]. eapply wp_post_mono; [apply flush_wp, Hs|..]; naive_solver.
  - apply flush_served; [done|done|]. eapply wp_post_mono; [apply flush_all_wp, Hs|..]; naive_solver.
Qed.

Lemma run_ops_served ops p :
  steady p -> Forall (op_ok (page_bytes_nat (bp_world p)) (length (logical p))) ops ->
  let '(rs, p') := run_ops ops p in
  answered ops (logical p) rs (logical p') /\ steady p' /\ same_base p p'.
Proof using Hclean.
  revert p. induction ops as [|op ops IH]; intros p Hs Hops; cbn; [split_and!; [constructor|done|done]|].
  apply Forall_cons in Hops as [Hop Hops].
  pose proof (run_op_served p op Hs Hop) as Hw. unfold wp in Hw.
  destruct (run_op op p) as [r p1]. destruct Hw as (Hs1 & Hb1 & Hcase). cbn [fst snd] in *.
  specialize (IH p1 Hs1). destruct (run_ops ops p1) as [rs p2]. destruct IH as (Ha & Hs2 & Hb2).
  { rewrite (same_base_bytes _ _ Hb1). destruct Hb1 as [_ Hlen].
    by rewrite length_logical, Hlen, <- length_logical. }
  split_and!; [|done|by etrans]. destruct Hcase as [Hspec|[[e ->] Hl]].
  - by eapply answered_done.
  - apply answered_failed. by rewrite <- Hl.
Qed.
End failures.

(** C10: device failures lose no acknowledged write.  The device may refuse or tear
    any transfer as long as its failed reads transfer nothing.  Then every read,
    write, creation and flush answers as the list of pages does or reports an
    error and leaves the list alone; a close that succeeds leaves the file equal
    to the list the acknowledged writes made, a close that fails leaves the pool
    open with the same list, and once the device is healthy the close succeeds. *)
Theorem pool_survives_failures {S} `{StorageIOLaws S} (p : Pool S) (ops : list PageOp) :
  clean_reads S -> steady p ->
  Forall (op_ok (page_bytes_nat (bp_world p)) (length (logical p))) ops ->
  let '(rs, p') := run_ops ops p in
  answered ops (logical p) rs (logical p') /\ steady p' /\
  match pool_close p' with
  | (Ok _, p'') => store_ok (bp_world p'') /\ disk (bp_world p'') = logical p'
  | (Err _, p'') => steady p'' /\ logical p'' = logical p' /\ ~ good (bp_world p')
  | (Fault, _) => False
  end.
Proof.
  intros Hclean Hs Hops. pose proof (run_ops_served Hclean ops p Hs Hops) as Hrun.
  destruct (run_ops ops p) as [rs p']. destruct Hrun as (Ha & Hs' & _). split_and!; [done|done|].
  pose proof (pool_close_wp p' (rd_wf _ Hs') (rd_clean _ Hs') (rd_quiescent _ Hs')) as Hc.
  unfold wp in Hc. destruct (pool_close p') as [[[]|e|] p'']; cbn [fst snd post] in Hc; [| |done].
  - destruct Hc as (_ & Hok & Hd & _). done.
  - destruct Hc as [Hk Hng]. destruct (kept_steady p' p'' Hs' Hk) as (Hs2 & Hl2 & _). done.
Qed.

(** A file of three two-byte pages on a device with a script of failures. *)
Definition failing_clean_disk (script : list bool) : StoreW CleanDev.t :=
  {| pstore := {| ps_io := true; ps_config := {| cfg_page_size := 2 |} |};
     device := {| CleanDev.inner :=
       {| MemDev.bytes := [x01; x02; x03; x04; x05; x06]; MemDev.faults := script |} |} |}.
Lemma failing_clean_disk_ok script : store_ok (failing_clean_disk script).
Proof. split; [done|cbn; lia|done]. Qed.

Lemma opened_steady {S} `{StorageIOLaws S} (w : StoreW S) k :
  store_ok w -> steady (opened_pool w k) /\ logical (opened_pool w k) = disk w /\
  bp_world (opened_pool w k) = w.
Proof.
  intros Hok.
  destruct (wp_total _ _ _ _ (pool_open_wp (closed_pool w) (example_config k) Hok ltac:(cbn; lia)))
    as ([] & p & Ho & Hwf & Hc & Hq & Hw & Hl & _); [by intros ?? []|].
  unfold opened_pool. rewrite Ho. by split_and!.
Qed.

Definition failing_ops : list PageOp :=
  [PWrite 1 [x0a; x0b]; PWrite 0 [x0c; x0d]; PRead 2; PRead 1; PFlushAll; PRead 2; PRead 0].
(** The write-back of page 1 tears it twice, once for a fetch and once for the flush,
    a read fails, and then a write of the close. *)
Definition failing_script : list bool :=
  [false; false; false; false; false; true; false; true; false; false; true; true; true; false].
#[local] Abbreviation failing_pool :=
  (opened_pool (failing_clean_disk failing_script) EvictionPolicy.ClockSweep).

Lemma pool_survives_failures_witness :
  let p' := (run_ops failing_ops failing_pool).2 in
  (run_ops failing_ops failing_pool).1 =
    [Ok []; Ok []; Err IoError; Ok [x0a; x0b]; Err IoError; Err IoError; Ok [x0c; x0d]] /\
  disk (bp_world p') !! 1%nat = Some [x0a; x04] /\
  (pool_close p').1 = Err IoError /\
  steady (pool_close p').2 /\ logical (pool_close p').2 = [[x0c; x0d]; [x0a; x0b]; [x05; x06]].
Proof.
  destruct (opened_steady (failing_clean_disk failing_script) EvictionPolicy.ClockSweep
    (failing_clean_disk_ok _)) as (Hs & Hl & Hw).
  assert (Hops : Forall (op_ok (page_bytes_nat (bp_world failing_pool)) (length (logical failing_pool)))
    failing_ops) by (rewrite Hl, Hw; repeat constructor; cbn; lia).
  pose proof (pool_survives_failures failing_pool failing_ops CleanDev.clean Hs Hops) as Hrun.
  assert (Hc : (pool_close (run_ops failing_ops failing_pool).2).1 = Err IoError)
    by (vm_compute; reflexivity).
  assert (Hfinal : logical (run_ops failing_ops failing_pool).2 = [[x0c; x0d]; [x0a; x0b]; [x05; x06]])
    by (vm_compute; reflexivity).
  cbn zeta. split; [vm_compute; reflexivity|]. split; [vm_compute; reflexivity|]. split; [exact Hc|].
  destruct (run_ops failing_ops failing_pool) as [rs p']. cbn [fst snd] in *.
  destruct Hrun as (_ & _ & Hclose). destruct (pool_close p') as [r p'']. cbn [fst snd] in *.
  rewrite Hc in Hclose. destruct Hclose as (Hs2 & Hl2 & _). split; [exact Hs2|].
  rewrite Hl2. exact Hfinal.
Defined.
