(* ===== verification/HeapPage.v ===== *)
(** * HeapPage: src/src/storage/engine/heap/page.{hpp,cpp}

    The slotted page, byte for byte.  A page is the span's bytes; an index
    outside the span is a [Fault].  [page_tuples] is the abstraction: one entry
    per slot, [None] for a deleted one. *)
From S2P Require Import Prelude Utils.

Definition PAGE_HEADER_SIZE : nat := 28.
Definition SLOT_SIZE : nat := 4.
Definition CHECKSUM_OFFSET : nat := 0.
Definition FLAGS_OFFSET : nat := 4.
Definition SLOT_COUNT_OFFSET : nat := 6.
Definition FREE_START_OFFSET : nat := 8.
Definition FREE_END_OFFSET : nat := 10.
Definition PAGE_ID_OFFSET : nat := 12.
Definition MAX_U16 : Z := 65535.

Record Slot := { s_offset : Z; s_len : Z }.

#[local] Abbreviation page := (list byte).

(** [page[i]], reading and writing. *)
Definition load_byte (p : page) (i : nat) : Result Z :=
  match p !! i with Some b => Ok (byte_to_Z b) | None => Fault end.
Definition store_byte (i : nat) (b : byte) : M page unit := fun p =>
  if (i <? length p)%nat then (Ok tt, <[i := b]> p) else (Fault, p).
Fixpoint store_bytes (off : nat) (bs : list byte) : M page unit :=
  match bs with
  | [] => retM tt
  | b :: bs => let* _ := store_byte off b in store_bytes (off + 1) bs
  end.
(** [std::ranges::copy(bs, page.subspan(off, bs.size()).begin())]. *)
Definition copy_into (off : nat) (bs : list byte) : M page unit := fun p =>
  if (off + length bs <=? length p)%nat then (Ok tt, splice off bs p) else (Fault, p).
(** A [std::span<const std::byte>] view of the page. *)
Definition viewM {A} (f : page -> Result A) : M page A := fun p => (f p, p).

Definition fits_u16 (value : Z) : bool := value <=? MAX_U16.

Definition read_u16 (p : page) (offset : nat) : Result Z :=
  let? lo := load_byte p offset in
  let? hi := load_byte p (offset + 1) in
  Ok (wrap16 (Z.lor lo (wrap16 (Z.shiftl hi 8)))).

Definition write_u16 (offset : nat) (value : Z) : M page unit :=
  let* _ := store_byte offset (Z_to_byte (Z.land value 255)) in
  store_byte (offset + 1) (Z_to_byte (Z.land (Z.shiftr value 8) 255)).

Definition write_u32_zero (offset : nat) : M page unit := store_bytes offset (replicate 4 x00).
Definition write_u64 (offset : nat) (value : Z) : M page unit := store_bytes offset (le_encode 8 value).

Definition slot_offset (slot_idx : Z) : nat := PAGE_HEADER_SIZE + Z.to_nat slot_idx * SLOT_SIZE.

Definition validate_page_size (p : page) : Result unit :=
  if (length p <? PAGE_HEADER_SIZE)%nat || (MAX_U16 <? Z.of_nat (length p))
  then Err InvalidArgument else Ok tt.

Definition slot_count (p : page) : Result Z :=
  let? _ := validate_page_size p in read_u16 p SLOT_COUNT_OFFSET.

Definition read_slot (p : page) (slot_idx : Z) : Result Slot :=
  let? count := slot_count p in
  if count <=? slot_idx then Err InvalidArgument
  else
    let offset := slot_offset slot_idx in
    let? o := read_u16 p offset in
    let? l := read_u16 p (offset + 2) in
    Ok {| s_offset := o; s_len := l |}.

Definition write_slot (slot_idx : Z) (slot : Slot) : M page unit :=
  let offset := slot_offset slot_idx in
  let* _ := write_u16 offset (s_offset slot) in
  write_u16 (offset + 2) (s_len slot).

Definition initialize_page (page_id : Z) : M page unit :=
  let* _ := viewM validate_page_size in
  let* size := getM (fun p => length p) in
  let* _ := modifyM (fun p => replicate (length p) x00) in
  let* _ := write_u32_zero CHECKSUM_OFFSET in
  let* _ := write_u16 FLAGS_OFFSET 0 in
  let* _ := write_u16 SLOT_COUNT_OFFSET 0 in
  let* _ := write_u16 FREE_START_OFFSET (wrap16 (Z.of_nat PAGE_HEADER_SIZE)) in
  let* _ := write_u16 FREE_END_OFFSET (wrap16 (Z.of_nat size)) in
  write_u64 PAGE_ID_OFFSET page_id.

Definition free_space (p : page) : Result Z :=
  let? _ := validate_page_size p in
  let? free_start := read_u16 p FREE_START_OFFSET in
  let? free_end := read_u16 p FREE_END_OFFSET in
  if free_end <? free_start then Err Corruption else Ok (free_end - free_start).

Definition can_insert (p : page) (tuple_size : Z) : Result bool :=
  if negb (fits_u16 tuple_size) then Ok false
  else
    let? space := free_space p in
    Ok (wrap64 (tuple_size + Z.of_nat SLOT_SIZE) <=? space).

Definition page_insert_tuple (tuple : list byte) : M page Z :=
  let size := Z.of_nat (length tuple) in
  let* can_fit := viewM (fun p => can_insert p size) in
  if negb can_fit then errM OutOfMemory
  else
    let* count := viewM (fun p => read_u16 p SLOT_COUNT_OFFSET) in
    let* free_end := viewM (fun p => read_u16 p FREE_END_OFFSET) in
    let tuple_offset := wrap16 (free_end - size) in
    let* _ := copy_into (Z.to_nat tuple_offset) tuple in
    let* _ := write_slot count {| s_offset := tuple_offset; s_len := wrap16 size |} in
    let new_count := wrap16 (count + 1) in
    let* _ := write_u16 SLOT_COUNT_OFFSET new_count in
    let* _ := write_u16 FREE_START_OFFSET
                (wrap16 (Z.of_nat PAGE_HEADER_SIZE + new_count * Z.of_nat SLOT_SIZE)) in
    let* _ := write_u16 FREE_END_OFFSET tuple_offset in
    retM count.

Definition page_delete_tuple (slot_idx : Z) : M page unit :=
  let* slot := viewM (fun p => read_slot p slot_idx) in
  if s_len slot =? 0 then errM NotFound
  else write_slot slot_idx {| s_offset := 0; s_len := 0 |}.

Definition page_overwrite_tuple (slot_idx : Z) (tuple : list byte) : M page unit :=
  let* slot := viewM (fun p => read_slot p slot_idx) in
  if s_len slot =? 0 then errM NotFound
  else if negb (s_len slot =? Z.of_nat (length tuple)) then errM InvalidArgument
  else
    let* size := getM (fun p => Z.of_nat (length p)) in
    if size <? s_offset slot + s_len slot then errM Corruption
    else copy_into (Z.to_nat (s_offset slot)) tuple.

Definition page_read_tuple (p : page) (slot_idx : Z) : Result (list byte) :=
  let? slot := read_slot p slot_idx in
  if s_len slot =? 0 then Err NotFound
  else if Z.of_nat (length p) <? s_offset slot + s_len slot then Err Corruption
  else Ok (slice (Z.to_nat (s_offset slot)) (Z.to_nat (s_len slot)) p).

Definition is_live_slot (p : page) (slot_idx : Z) : Result bool :=
  let? slot := read_slot p slot_idx in
  Ok (negb (s_len slot =? 0)).

(** ** Fields *)

Lemma store_bytes_eq off bs p :
  (off + length bs <= length p)%nat -> store_bytes off bs p = (Ok tt, splice off bs p).
Proof.
  revert off p. induction bs as [|b bs IH]; intros off p Hl; cbn [store_bytes length] in *.
  - unfold retM. f_equal. unfold splice. cbn. rewrite Nat.add_0_r. by rewrite take_drop.
  - unfold bindM, store_byte. destruct (Nat.ltb_spec off (length p)); [|lia].
    rewrite IH by (rewrite length_insert; lia). f_equal.
    rewrite <- (splice_insert off b p) by lia.
    rewrite (splice_app off (off + 1) [b] bs p); cbn; [done|lia..].
Qed.

Lemma write_u16_eq off v p :
  (off + 2 <= length p)%nat -> write_u16 off v p = (Ok tt, splice off (le_encode 2 v) p).
Proof.
  intros Hl. transitivity (store_bytes off (le_encode 2 v) p); [|by apply store_bytes_eq].
  change (le_encode 2 v) with [Z_to_byte (Z.land (Z.shiftr v 0) 255); Z_to_byte (Z.land (Z.shiftr v 8) 255)].
  rewrite Z.shiftr_0_r. unfold write_u16, bindM. cbn [store_bytes].
  unfold bindM, store_byte. destruct (Nat.ltb_spec off (length p)); [|lia].
  rewrite length_insert. destruct (Nat.ltb_spec (off + 1) (length p)); [done|lia].
Qed.

(** The 16-bit field at an offset. *)
Definition field (p : page) (off : nat) : Z := le_value (slice off 2 p).

Lemma field_range p off : (off + 2 <= length p)%nat -> 0 <= field p off < 65536.
Proof.
  intros Hl. pose proof (le_value_range (slice off 2 p)) as Hr.
  rewrite length_slice in Hr by done. exact Hr.
Qed.

Lemma slice_two (p : page) off :
  (off + 2 <= length p)%nat ->
  exists b0 b1, p !! off = Some b0 /\ p !! (off + 1)%nat = Some b1 /\ slice off 2 p = [b0; b1].
Proof.
  intros Hl. destruct (lookup_lt_is_Some_2 p off) as [b0 H0]; [lia|].
  destruct (lookup_lt_is_Some_2 p (off + 1)) as [b1 H1]; [lia|].
  exists b0, b1. split_and!; try done. apply list_eq. intros i. rewrite lookup_slice.
  destruct i as [|[|i]]; cbn; [by rewrite Nat.add_0_r|done|].
  destruct (decide _); [lia|done].
Qed.

Lemma read_u16_eq p off : (off + 2 <= length p)%nat -> read_u16 p off = Ok (field p off).
Proof.
  intros Hl. destruct (slice_two p off Hl) as (b0 & b1 & H0 & H1 & Hs).
  unfold read_u16, load_byte, field. rewrite H0, H1, Hs. cbn [bindR le_value].
  pose proof (byte_to_Z_range b0). pose proof (byte_to_Z_range b1).
  rewrite !wrap16_mod, Z.shiftl_mul_pow2 by lia. change (2 ^ 8) with 256.
  rewrite (Z.mod_small (byte_to_Z b1 * 256)) by lia.
  assert (Hlor : Z.lor (byte_to_Z b0) (byte_to_Z b1 * 256) = byte_to_Z b0 + byte_to_Z b1 * 256).
  { pose proof (lor_shiftl_add (byte_to_Z b0) (byte_to_Z b1) 8 ltac:(lia) ltac:(lia)) as Hadd.
    by rewrite Z.shiftl_mul_pow2 in Hadd by lia. }
  rewrite Hlor, Z.mod_small by lia. f_equal. lia.
Qed.

Lemma field_splice_eq p off v :
  (off + 2 <= length p)%nat -> 0 <= v < 65536 -> field (splice off (le_encode 2 v) p) off = v.
Proof.
  intros Hl Hv. unfold field. pose proof (slice_splice_eq off (le_encode 2 v) p) as Hs.
  rewrite length_le_encode in Hs. rewrite Hs by done.
  rewrite le_value_encode. by apply Z.mod_small.
Qed.

Lemma field_splice_ne p off bs off' :
  (off + length bs <= length p)%nat -> (off' + 2 <= off \/ off + length bs <= off')%nat ->
  field (splice off bs p) off' = field p off'.
Proof. intros Hl Hd. unfold field. by rewrite slice_splice_ne. Qed.

(** ** Sequences of writes *)

Definition apply_writes (ws : list (nat * list byte)) (p : page) : page :=
  foldl (fun p w => splice w.1 w.2 p) p ws.
Definition write_in (size : nat) (w : nat * list byte) : Prop := (w.1 + length w.2 <= size)%nat.
Definition write_away (off n : nat) (w : nat * list byte) : Prop :=
  (off + n <= w.1 \/ w.1 + length w.2 <= off)%nat.

Lemma length_writes ws p :
  Forall (write_in (length p)) ws -> length (apply_writes ws p) = length p.
Proof.
  revert p. induction ws as [|w ws IH]; intros p Hin; [done|].
  apply Forall_cons in Hin as [Hw Hws].
  change (apply_writes (w :: ws) p) with (apply_writes ws (splice w.1 w.2 p)).
  rewrite IH; rewrite length_splice; done.
Qed.

Lemma slice_writes_ne ws p off n :
  Forall (write_in (length p)) ws -> Forall (write_away off n) ws ->
  slice off n (apply_writes ws p) = slice off n p.
Proof.
  revert p. induction ws as [|w ws IH]; intros p Hin Ha; [done|].
  change (apply_writes (w :: ws) p) with (apply_writes ws (splice w.1 w.2 p)).
  apply Forall_cons in Hin as [Hw Hws]. apply Forall_cons in Ha as [Hwa Hwsa].
  rewrite IH; [|by rewrite length_splice|done]. by apply slice_splice_ne.
Qed.

Lemma slice_writes_hit ws1 ws2 off bs p :
  Forall (write_in (length p)) (ws1 ++ (off, bs) :: ws2) ->
  Forall (write_away off (length bs)) ws2 ->
  slice off (length bs) (apply_writes (ws1 ++ (off, bs) :: ws2) p) = bs.
Proof.
  intros Hin Ha. unfold apply_writes. rewrite foldl_app. cbn.
  apply Forall_app in Hin as [H1 [Hw H2]%Forall_cons].
  pose proof (length_writes ws1 p H1) as Hl. unfold apply_writes in Hl. set (q := foldl _ p ws1) in *.
  assert (Hlen : length (splice off bs q) = length p) by (rewrite length_splice; [done|by rewrite Hl]).
  transitivity (slice off (length bs) (splice off bs q)); [|apply slice_splice_eq; by rewrite Hl].
  apply (slice_writes_ne ws2 (splice off bs q)); [by rewrite Hlen|done].
Qed.

(** ** The abstraction *)

Definition count_of (p : page) : Z := field p SLOT_COUNT_OFFSET.
Definition free_start_of (p : page) : Z := field p FREE_START_OFFSET.
Definition free_end_of (p : page) : Z := field p FREE_END_OFFSET.
Definition slot_pos (i : nat) : nat := (28 + i * 4)%nat.
Definition slot_at (p : page) (i : nat) : Slot :=
  {| s_offset := field p (slot_pos i); s_len := field p (slot_pos i + 2) |}.
Definition slot_live (s : Slot) : Prop := s_len s <> 0.
Definition slot_tuple (p : page) (s : Slot) : option (list byte) :=
  if s_len s =? 0 then None else Some (slice (Z.to_nat (s_offset s)) (Z.to_nat (s_len s)) p).
Definition slots_of (p : page) : list Slot := slot_at p <$> seq 0 (Z.to_nat (count_of p)).
Definition page_tuples (p : page) : list (option (list byte)) := slot_tuple p <$> slots_of p.

Definition slot_fits (p : page) (s : Slot) : Prop :=
  slot_live s -> free_end_of p <= s_offset s /\ s_offset s + s_len s <= Z.of_nat (length p).
Definition slots_apart (s s' : Slot) : Prop :=
  slot_live s -> slot_live s' ->
  s_offset s + s_len s <= s_offset s' \/ s_offset s' + s_len s' <= s_offset s.

Record page_wf (p : page) : Prop := {
  pg_size : (28 <= length p)%nat /\ Z.of_nat (length p) <= 65535;
  pg_start : free_start_of p = 28 + 4 * count_of p;
  pg_free : free_start_of p <= free_end_of p <= Z.of_nat (length p);
  pg_slots i s : slots_of p !! i = Some s -> slot_fits p s;
  pg_apart i j s s' :
    slots_of p !! i = Some s -> slots_of p !! j = Some s' -> i <> j -> slots_apart s s';
}.

(** Bytes left for one more slot and its tuple. *)
Definition room (p : page) : Z := free_end_of p - free_start_of p.

Lemma page_count_range p : page_wf p -> 0 <= count_of p /\ 28 + 4 * count_of p <= Z.of_nat (length p).
Proof.
  intros [Hs Hst Hf _ _]. pose proof (field_range p SLOT_COUNT_OFFSET ltac:(unfold SLOT_COUNT_OFFSET; lia)).
  unfold count_of in *. lia.
Qed.

Lemma length_slots p : length (slots_of p) = Z.to_nat (count_of p).
Proof. unfold slots_of. by rewrite length_fmap, length_seq. Qed.
Lemma length_page_tuples p : length (page_tuples p) = Z.to_nat (count_of p).
Proof. unfold page_tuples. by rewrite length_fmap, length_slots. Qed.

Lemma slots_lookup p i :
  slots_of p !! i = if decide (i < Z.to_nat (count_of p))%nat then Some (slot_at p i) else None.
Proof.
  unfold slots_of. rewrite list_lookup_fmap. case_decide.
  - rewrite lookup_seq_lt by done. done.
  - rewrite lookup_seq_ge by lia. done.
Qed.

Lemma slot_at_range p i :
  page_wf p -> (i < Z.to_nat (count_of p))%nat ->
  (slot_pos i + 4 <= length p)%nat /\ 0 <= s_offset (slot_at p i) < 65536 /\
  0 <= s_len (slot_at p i) < 65536.
Proof.
  intros Hwf Hi. pose proof (page_count_range p Hwf). unfold slot_pos.
  split; [lia|]. unfold slot_at, slot_pos. cbn. split; apply field_range; lia.
Qed.

Lemma slot_range p i s :
  page_wf p -> slots_of p !! i = Some s -> 0 <= s_offset s < 65536 /\ 0 <= s_len s < 65536.
Proof.
  intros Hwf Hs. rewrite slots_lookup in Hs. case_decide; [|done]. injection Hs as <-.
  by apply slot_at_range.
Qed.

(** ** Reading *)

Lemma validate_ok p : page_wf p -> validate_page_size p = Ok tt.
Proof.
  intros [Hs _ _ _ _]. unfold validate_page_size, PAGE_HEADER_SIZE, MAX_U16.
  destruct (Nat.ltb_spec (length p) 28); [lia|]. destruct (Z.ltb_spec 65535 (Z.of_nat (length p))); [lia|done].
Qed.

Lemma slot_count_ok p : page_wf p -> slot_count p = Ok (count_of p).
Proof.
  intros Hwf. unfold slot_count. rewrite validate_ok by done. cbn [bindR].
  apply read_u16_eq. pose proof (pg_size _ Hwf). unfold SLOT_COUNT_OFFSET. lia.
Qed.

Lemma read_slot_ok p i :
  page_wf p -> 0 <= i ->
  read_slot p i = match slots_of p !! Z.to_nat i with Some s => Ok s | None => Err InvalidArgument end.
Proof.
  intros Hwf Hi. unfold read_slot. rewrite slot_count_ok by done. cbn [bindR].
  rewrite slots_lookup. pose proof (page_count_range p Hwf).
  destruct (Z.leb_spec (count_of p) i); case_decide; try lia; [done|].
  destruct (slot_at_range p (Z.to_nat i) Hwf) as (Hp & _ & _); [lia|].
  change (slot_offset i) with (slot_pos (Z.to_nat i)). rewrite !read_u16_eq by lia. done.
Qed.

Lemma tuples_lookup p i :
  page_tuples p !! i = slot_tuple p <$> slots_of p !! i.
Proof. apply list_lookup_fmap. Qed.

(** The three outcomes of a lookup of slot [i]. *)
Lemma page_read_tuple_ok p i :
  page_wf p -> 0 <= i ->
  page_read_tuple p i =
    match page_tuples p !! Z.to_nat i with
    | Some (Some t) => Ok t
    | Some None => Err NotFound
    | None => Err InvalidArgument
    end.
Proof.
  intros Hwf Hi. unfold page_read_tuple. rewrite read_slot_ok, tuples_lookup by done.
  destruct (slots_of p !! Z.to_nat i) as [s|] eqn:Hs; [|done]. cbn [bindR fmap option_fmap option_map].
  unfold slot_tuple. destruct (Z.eqb_spec (s_len s) 0) as [|Hl]; [done|].
  destruct (pg_slots _ Hwf _ _ Hs Hl) as [_ Hle].
  destruct (Z.ltb_spec (Z.of_nat (length p)) (s_offset s + s_len s)); [lia|done].
Qed.

Lemma is_live_slot_ok p i :
  page_wf p -> 0 <= i ->
  is_live_slot p i =
    match page_tuples p !! Z.to_nat i with
    | Some o => Ok (bool_decide (is_Some o))
    | None => Err InvalidArgument
    end.
Proof.
  intros Hwf Hi. unfold is_live_slot. rewrite read_slot_ok, tuples_lookup by done.
  destruct (slots_of p !! Z.to_nat i) as [s|] eqn:Hs; [|done]. cbn [bindR fmap option_fmap option_map].
  unfold slot_tuple. by destruct (Z.eqb_spec (s_len s) 0).
Qed.

Lemma free_space_ok p : page_wf p -> free_space p = Ok (room p).
Proof.
  intros Hwf. pose proof (pg_size _ Hwf). pose proof (pg_free _ Hwf) as Hf. unfold free_space.
  rewrite validate_ok by done. cbn [bindR].
  rewrite !read_u16_eq by (unfold FREE_START_OFFSET, FREE_END_OFFSET; lia). cbn [bindR].
  fold (free_start_of p) (free_end_of p). destruct (Z.ltb_spec (free_end_of p) (free_start_of p)); [lia|done].
Qed.

Lemma can_insert_ok p size :
  page_wf p -> 0 <= size < 2 ^ 63 -> can_insert p size = Ok (size + 4 <=? room p).
Proof.
  intros Hwf Hs. pose proof (pg_size _ Hwf). pose proof (pg_free _ Hwf) as Hf.
  pose proof (page_count_range p Hwf). pose proof (pg_start _ Hwf).
  unfold can_insert, fits_u16, MAX_U16, room. destruct (Z.leb_spec size 65535); cbn [negb].
  - rewrite free_space_ok by done. cbn [bindR]. unfold room.
    rewrite wrap64_mod, Z.mod_small by (change (Z.of_nat SLOT_SIZE) with 4; lia). done.
  - f_equal. symmetry. apply Z.leb_gt. lia.
Qed.

(** ** Writing *)

Lemma write_u16_writes ws p off v :
  Forall (write_in (length p)) ws -> (off + 2 <= length p)%nat ->
  write_u16 off v (apply_writes ws p) = (Ok tt, apply_writes (ws ++ [(off, le_encode 2 v)]) p).
Proof.
  intros Hin Hl. rewrite write_u16_eq by (by rewrite length_writes).
  unfold apply_writes. by rewrite foldl_app.
Qed.

Lemma write_slot_writes ws p i s :
  Forall (write_in (length p)) ws -> (slot_pos (Z.to_nat i) + 4 <= length p)%nat ->
  write_slot i s (apply_writes ws p) =
    (Ok tt, apply_writes (ws ++ [(slot_pos (Z.to_nat i), le_encode 2 (s_offset s));
                                 ((slot_pos (Z.to_nat i) + 2)%nat, le_encode 2 (s_len s))]) p).
Proof.
  intros Hin Hl. unfold write_slot. change (slot_offset i) with (slot_pos (Z.to_nat i)).
  erewrite bind_ok by (apply write_u16_writes; [done|lia]).
  rewrite write_u16_writes; [by rewrite <- app_assoc| |lia].
  apply Forall_app. split; [done|]. apply Forall_singleton. unfold write_in. cbn [fst snd].
  rewrite length_le_encode. lia.
Qed.

Lemma field_writes_ne ws p off :
  Forall (write_in (length p)) ws -> Forall (write_away off 2) ws ->
  field (apply_writes ws p) off = field p off.
Proof. intros Hin Ha. unfold field. by rewrite slice_writes_ne. Qed.

Lemma field_writes_hit ws1 ws2 off v p :
  Forall (write_in (length p)) (ws1 ++ (off, le_encode 2 v) :: ws2) ->
  Forall (write_away off 2) ws2 -> 0 <= v < 65536 ->
  field (apply_writes (ws1 ++ (off, le_encode 2 v) :: ws2) p) off = v.
Proof.
  intros Hin Ha Hv. unfold field.
  pose proof (slice_writes_hit ws1 ws2 off (le_encode 2 v) p Hin Ha) as Hs.
  rewrite length_le_encode in Hs. rewrite Hs, le_value_encode. by apply Z.mod_small.
Qed.

Ltac page_offsets :=
  unfold SLOT_COUNT_OFFSET, FREE_START_OFFSET, FREE_END_OFFSET, PAGE_HEADER_SIZE, SLOT_SIZE,
    slot_pos, write_in, write_away in *;
  cbn [fst snd]; rewrite ?length_le_encode; try lia.
Ltac page_forall := repeat (apply Forall_cons; split); [page_offsets..|apply Forall_nil; done].

(** Slots that keep their fields, over bytes that keep their tuples. *)
Lemma slot_at_same ws p i :
  Forall (write_in (length p)) ws -> Forall (write_away (slot_pos i) 4) ws ->
  slot_at (apply_writes ws p) i = slot_at p i.
Proof.
  intros Hin Ha. unfold slot_at. f_equal; apply field_writes_ne; try done.
  - eapply Forall_impl; [exact Ha|]. unfold write_away. lia.
  - eapply Forall_impl; [exact Ha|]. unfold write_away. lia.
Qed.

Lemma slot_tuple_same ws p s :
  Forall (write_in (length p)) ws ->
  (slot_live s -> Forall (write_away (Z.to_nat (s_offset s)) (Z.to_nat (s_len s))) ws) ->
  slot_tuple (apply_writes ws p) s = slot_tuple p s.
Proof.
  intros Hin Ha. unfold slot_tuple. destruct (Z.eqb_spec (s_len s) 0) as [|Hl]; [done|].
  f_equal. apply slice_writes_ne; [done|]. by apply Ha.
Qed.

Section insert.
Context (p : page) (t : list byte) (Hwf : page_wf p).
#[local] Abbreviation size := (Z.of_nat (length t)).
Context (Hroom : size + 4 <= room p).

#[local] Abbreviation n := (Z.to_nat (count_of p)).
#[local] Abbreviation off := (free_end_of p - size).

Definition insert_writes : list (nat * list byte) :=
  [(Z.to_nat off, t); (slot_pos n, le_encode 2 off); ((slot_pos n + 2)%nat, le_encode 2 size);
   (6%nat, le_encode 2 (count_of p + 1)); (8%nat, le_encode 2 (28 + (count_of p + 1) * 4));
   (10%nat, le_encode 2 off)].

Lemma insert_bounds :
  0 <= count_of p /\ Z.of_nat (slot_pos n) + 4 <= off /\ free_end_of p <= Z.of_nat (length p) <= 65535 /\
  free_start_of p = Z.of_nat (slot_pos n).
Proof using Hwf Hroom.
  pose proof (page_count_range p Hwf). pose proof (pg_start _ Hwf). pose proof (pg_free _ Hwf).
  pose proof (pg_size _ Hwf). unfold room, slot_pos in *. lia.
Qed.

Lemma insert_in : Forall (write_in (length p)) insert_writes.
Proof using Hwf Hroom. pose proof insert_bounds. unfold insert_writes. page_forall. Qed.

Lemma page_insert_eq :
  page_insert_tuple t p = (Ok (count_of p), apply_writes insert_writes p).
Proof using Hwf Hroom.
  pose proof insert_bounds as (Hc & Hoff & Hfe & Hfs). pose proof insert_in as Hin.
  unfold page_insert_tuple, viewM. unfold bindM at 1. rewrite can_insert_ok by (try done; lia).
  destruct (Z.leb_spec (size + 4) (room p)); [|lia]. cbn [negb].
  unfold bindM at 1. rewrite read_u16_eq by page_offsets.
  unfold bindM at 1. rewrite read_u16_eq by page_offsets.
  fold (count_of p) (free_end_of p).
  rewrite (wrap16_mod off), (Z.mod_small off) by lia.
  unfold bindM at 1, copy_into. destruct (Nat.leb_spec (Z.to_nat off + length t) (length p)); [|lia].
  rewrite (wrap16_mod size), (Z.mod_small size) by lia.
  rewrite (wrap16_mod (count_of p + 1)), (Z.mod_small (count_of p + 1)) by page_offsets.
  rewrite (wrap16_mod (Z.of_nat PAGE_HEADER_SIZE + _)), Z.mod_small by page_offsets.
  change (splice (Z.to_nat off) t p) with (apply_writes [(Z.to_nat off, t)] p).
  erewrite bind_ok by (apply write_slot_writes; [page_forall|page_offsets]).
  do 3 erewrite bind_ok by (apply write_u16_writes; [cbn [app s_offset s_len]; page_forall|page_offsets]).
  cbn [app s_offset s_len]. unfold retM, insert_writes. done.
Qed.

Lemma insert_count : count_of (apply_writes insert_writes p) = count_of p + 1.
Proof using Hwf Hroom.
  pose proof insert_bounds. apply (field_writes_hit (take 3 insert_writes) (drop 4 insert_writes));
    [exact insert_in|unfold insert_writes; cbn [drop]; page_forall|page_offsets].
Qed.

Lemma insert_free_start : free_start_of (apply_writes insert_writes p) = 28 + 4 * (count_of p + 1).
Proof using Hwf Hroom.
  pose proof insert_bounds. rewrite Z.mul_comm.
  apply (field_writes_hit (take 4 insert_writes) (drop 5 insert_writes));
    [exact insert_in|unfold insert_writes; cbn [drop]; page_forall|page_offsets].
Qed.

Lemma insert_free_end : free_end_of (apply_writes insert_writes p) = off.
Proof using Hwf Hroom.
  pose proof insert_bounds.
  apply (field_writes_hit (take 5 insert_writes) []); [exact insert_in|done|page_offsets].
Qed.

Lemma insert_slots :
  slots_of (apply_writes insert_writes p) =
    slots_of p ++ [{| s_offset := off; s_len := size |}].
Proof using Hwf Hroom.
  pose proof insert_bounds as (Hc & Hoff & Hfe & Hfs). pose proof insert_in as Hin.
  unfold slots_of. rewrite insert_count.
  replace (Z.to_nat (count_of p + 1)) with (n + 1)%nat by lia. rewrite seq_app, fmap_app. f_equal.
  - apply list_fmap_ext. intros k i Hi. apply lookup_seq in Hi.
    apply slot_at_same; [done|]. unfold insert_writes. page_forall.
  - rewrite Nat.add_0_l. cbn [seq fmap list_fmap]. f_equal. unfold slot_at. f_equal.
    + apply (field_writes_hit (take 1 insert_writes) (drop 2 insert_writes));
        [exact Hin|unfold insert_writes; cbn [drop]; page_forall|page_offsets].
    + apply (field_writes_hit (take 2 insert_writes) (drop 3 insert_writes));
        [exact Hin|unfold insert_writes; cbn [drop]; page_forall|page_offsets].
Qed.

Lemma insert_tuples :
  (0 < length t)%nat ->
  page_tuples (apply_writes insert_writes p) = page_tuples p ++ [Some t].
Proof using Hwf Hroom.
  intros Hne. pose proof insert_bounds as (Hc & Hoff & Hfe & Hfs). pose proof insert_in as Hin.
  unfold page_tuples at 1. rewrite insert_slots, fmap_app. f_equal.
  - apply list_fmap_ext. intros i s Hi. apply slot_tuple_same; [done|]. intros Hl.
    destruct (pg_slots _ Hwf _ _ Hi Hl). unfold insert_writes. page_forall.
  - cbn [fmap list_fmap]. unfold slot_tuple. cbn [s_len s_offset].
    destruct (Z.eqb_spec size 0); [lia|]. rewrite Nat2Z.id. do 2 f_equal.
    apply (slice_writes_hit [] (drop 1 insert_writes)); [exact Hin|].
    unfold insert_writes. cbn [drop]. page_forall.
Qed.

Lemma insert_wf : page_wf (apply_writes insert_writes p).
Proof using Hwf Hroom.
  pose proof insert_bounds as (Hc & Hoff & Hfe & Hfs). pose proof insert_in as Hin.
  split; rewrite ?insert_free_start, ?insert_free_end, ?insert_count, ?insert_slots,
    ?(length_writes _ _ Hin).
  - apply Hwf.
  - lia.
  - unfold slot_pos in *. lia.
  - intros i s Hi. unfold slot_fits. rewrite insert_free_end, (length_writes _ _ Hin). intros Hl.
    apply lookup_app_Some in Hi as [Hi|[_ Hi]].
    + destruct (pg_slots _ Hwf _ _ Hi Hl). lia.
    + apply list_lookup_singleton_Some in Hi as [_ <-]. cbn [s_offset s_len]. lia.
  - intros i j s s' Hi Hj Hne.
    apply lookup_app_Some in Hi as [Hi|[Hgi Hi]]; apply lookup_app_Some in Hj as [Hj|[Hgj Hj]].
    + by eapply (pg_apart _ Hwf i j).
    + apply list_lookup_singleton_Some in Hj as [_ <-]. intros Hl _.
      destruct (pg_slots _ Hwf _ _ Hi Hl). cbn [s_offset s_len]. lia.
    + apply list_lookup_singleton_Some in Hi as [_ <-]. intros _ Hl.
      destruct (pg_slots _ Hwf _ _ Hj Hl). cbn [s_offset s_len]. lia.
    + apply list_lookup_singleton_Some in Hi as [? _], Hj as [? _]. lia.
Qed.
End insert.

Lemma insert_room p t :
  page_wf p -> Z.of_nat (length t) + 4 <= room p ->
  room (apply_writes (insert_writes p t) p) = room p - (Z.of_nat (length t) + 4).
Proof.
  intros Hwf Hr. unfold room at 1. rewrite insert_free_end, insert_free_start by done.
  unfold room. rewrite (pg_start _ Hwf). lia.
Qed.

Lemma page_insert_full p t :
  page_wf p -> Z.of_nat (length t) < 2 ^ 63 -> room p < Z.of_nat (length t) + 4 ->
  page_insert_tuple t p = (Err OutOfMemory, p).
Proof.
  intros Hwf Hl Hr. unfold page_insert_tuple, bindM, viewM.
  rewrite can_insert_ok by (try done; lia).
  destruct (Z.leb_spec (Z.of_nat (length t) + 4) (room p)); [lia|done].
Qed.

(** ** Deleting *)

Section delete.
Context (p : page) (i : Z) (s : Slot) (Hwf : page_wf p) (Hi : 0 <= i)
  (Hs : slots_of p !! Z.to_nat i = Some s).

Definition delete_writes : list (nat * list byte) :=
  [(slot_pos (Z.to_nat i), le_encode 2 0); ((slot_pos (Z.to_nat i) + 2)%nat, le_encode 2 0)].

Lemma delete_bounds :
  (Z.to_nat i < Z.to_nat (count_of p))%nat /\ Z.of_nat (slot_pos (Z.to_nat i)) + 4 <= free_start_of p /\
  free_start_of p <= free_end_of p <= Z.of_nat (length p).
Proof using Hwf Hs.
  rewrite slots_lookup in Hs. case_decide; [|done]. pose proof (pg_start _ Hwf). pose proof (pg_free _ Hwf).
  unfold slot_pos. lia.
Qed.

Lemma delete_in : Forall (write_in (length p)) delete_writes.
Proof using Hwf Hs. pose proof delete_bounds. unfold delete_writes. page_forall. Qed.

Lemma delete_header off :
  (off + 2 <= 28)%nat -> field (apply_writes delete_writes p) off = field p off.
Proof using Hwf Hs.
  intros Hoff. apply field_writes_ne; [exact delete_in|]. unfold delete_writes. page_forall.
Qed.

Lemma delete_slots :
  slots_of (apply_writes delete_writes p) =
    <[Z.to_nat i := {| s_offset := 0; s_len := 0 |}]> (slots_of p).
Proof using Hwf Hs.
  pose proof delete_bounds as (Hlt & _). pose proof delete_in as Hin.
  apply list_eq. intros k. rewrite slots_lookup.
  assert (Hcnt : count_of (apply_writes delete_writes p) = count_of p)
    by (apply delete_header; unfold SLOT_COUNT_OFFSET; lia). rewrite Hcnt.
  destruct (decide (k = Z.to_nat i)) as [->|Hk].
  - rewrite list_lookup_insert_eq by (by rewrite length_slots). rewrite decide_True by done.
    f_equal. unfold slot_at. f_equal.
    + apply (field_writes_hit [] (drop 1 delete_writes)); [exact Hin| |lia].
      unfold delete_writes. cbn [drop]. page_forall.
    + apply (field_writes_hit (take 1 delete_writes) []); [exact Hin|done|lia].
  - rewrite list_lookup_insert_ne by done. rewrite slots_lookup. case_decide; [|done]. f_equal.
    apply slot_at_same; [done|]. unfold delete_writes. page_forall.
Qed.

Lemma page_delete_eq :
  page_delete_tuple i p = if s_len s =? 0 then (Err NotFound, p) else (Ok tt, apply_writes delete_writes p).
Proof using Hwf Hi Hs.
  pose proof delete_bounds. unfold page_delete_tuple, viewM. unfold bindM.
  rewrite read_slot_ok, Hs by done. destruct (s_len s =? 0); [done|].
  change p with (apply_writes [] p) at 1. rewrite write_slot_writes; [done|done|page_offsets].
Qed.

Lemma delete_tuples :
  page_tuples (apply_writes delete_writes p) = <[Z.to_nat i := None]> (page_tuples p).
Proof using Hwf Hs.
  pose proof delete_bounds as (_ & Hp & Hf). pose proof delete_in as Hin.
  unfold page_tuples at 1. rewrite delete_slots. unfold page_tuples.
  rewrite list_fmap_insert. f_equal. apply list_fmap_ext. intros k s' Hk.
  apply slot_tuple_same; [done|]. intros Hl. destruct (pg_slots _ Hwf _ _ Hk Hl).
  unfold delete_writes. page_forall.
Qed.

Lemma delete_wf : page_wf (apply_writes delete_writes p).
Proof using Hwf Hs.
  pose proof delete_bounds as (Hlt & _). pose proof delete_in as Hin. pose proof (length_writes _ _ Hin) as Hl.
  assert (Hlk : forall k s', <[Z.to_nat i := {| s_offset := 0; s_len := 0 |}]> (slots_of p) !! k = Some s' ->
            s_len s' = 0 \/ slots_of p !! k = Some s').
  { intros k s' Hk. apply list_lookup_insert_Some in Hk as [(_ & <- & _)|[_ Hk]]; auto. }
  split; unfold free_start_of, free_end_of, count_of, slot_fits; rewrite ?Hl, ?delete_slots.
  - apply Hwf.
  - rewrite !delete_header by page_offsets. apply Hwf.
  - rewrite !delete_header by page_offsets. apply Hwf.
  - intros k s' [Hz|Hk]%Hlk; [by intros Hlive|]. unfold free_end_of.
    rewrite !delete_header by page_offsets. by apply (pg_slots _ Hwf k).
  - intros k j s1 s2 [Hz|Hk]%Hlk [Hz'|Hj]%Hlk Hne; try (intros ??; done).
    by apply (pg_apart _ Hwf k j).
Qed.
End delete.

(** ** Overwriting in place *)

Section overwrite.
Context (p : page) (i : Z) (s : Slot) (t : list byte) (Hwf : page_wf p) (Hi : 0 <= i)
  (Hs : slots_of p !! Z.to_nat i = Some s) (Hlive : slot_live s)
  (Ht : Z.of_nat (length t) = s_len s).

Definition overwrite_writes : list (nat * list byte) := [(Z.to_nat (s_offset s), t)].

Lemma overwrite_bounds :
  free_end_of p <= s_offset s /\ s_offset s + s_len s <= Z.of_nat (length p) /\
  28 <= free_start_of p <= free_end_of p /\
  (forall k, (k < Z.to_nat (count_of p))%nat -> Z.of_nat (slot_pos k) + 4 <= free_start_of p).
Proof using Hwf Hs Hlive.
  clear Hi Ht. destruct (pg_slots _ Hwf _ _ Hs Hlive). pose proof (pg_start _ Hwf). pose proof (pg_free _ Hwf).
  pose proof (page_count_range p Hwf). unfold slot_pos. split_and!; lia.
Qed.

Lemma overwrite_in : Forall (write_in (length p)) overwrite_writes.
Proof using Hwf Hs Hlive Ht. pose proof overwrite_bounds. unfold overwrite_writes. page_forall. Qed.

Lemma overwrite_header off :
  (off + 2 <= 28)%nat -> field (apply_writes overwrite_writes p) off = field p off.
Proof using Hwf Hs Hlive Ht.
  intros Hoff. pose proof overwrite_bounds as (? & ? & ? & _).
  apply field_writes_ne; [exact overwrite_in|]. unfold overwrite_writes. page_forall.
Qed.

Lemma overwrite_slots : slots_of (apply_writes overwrite_writes p) = slots_of p.
Proof using Hwf Hs Hlive Ht.
  pose proof overwrite_bounds as (? & ? & ? & Hpos). unfold slots_of, count_of.
  rewrite overwrite_header by page_offsets. apply list_fmap_ext. intros j k Hk. apply lookup_seq in Hk.
  specialize (Hpos k). unfold count_of in Hpos. apply slot_at_same; [exact overwrite_in|].
  unfold overwrite_writes. page_forall.
Qed.

Lemma page_overwrite_eq : page_overwrite_tuple i t p = (Ok tt, apply_writes overwrite_writes p).
Proof using Hwf Hi Hs Hlive Ht.
  pose proof overwrite_bounds as (? & ? & ? & _). unfold page_overwrite_tuple, viewM.
  erewrite bind_ok by (rewrite read_slot_ok, Hs by done; done).
  destruct (Z.eqb_spec (s_len s) 0); [done|].
  rewrite (proj2 (Z.eqb_eq _ _) (eq_sym Ht)). cbn [negb]. unfold bindM, getM.
  destruct (Z.ltb_spec (Z.of_nat (length p)) (s_offset s + s_len s)); [lia|].
  unfold copy_into. destruct (Nat.leb_spec (Z.to_nat (s_offset s) + length t) (length p)); [done|lia].
Qed.

Lemma overwrite_tuples :
  page_tuples (apply_writes overwrite_writes p) = <[Z.to_nat i := Some t]> (page_tuples p).
Proof using Hwf Hs Hlive Ht.
  pose proof overwrite_bounds as (? & ? & ? & _). pose proof overwrite_in as Hin.
  apply list_eq. intros k. rewrite tuples_lookup, overwrite_slots.
  destruct (decide (k = Z.to_nat i)) as [->|Hk].
  - rewrite Hs. rewrite list_lookup_insert_eq.
    2: { rewrite length_page_tuples, <- length_slots. by eapply lookup_lt_Some. }
    cbn [fmap option_fmap option_map]. unfold slot_tuple. destruct (Z.eqb_spec (s_len s) 0); [done|].
    do 2 f_equal. rewrite <- Ht, Nat2Z.id. by apply (slice_writes_hit [] []).
  - rewrite list_lookup_insert_ne, tuples_lookup by done.
    destruct (slots_of p !! k) as [s'|] eqn:Hs'; [|done]. cbn [fmap option_fmap option_map]. f_equal.
    apply slot_tuple_same; [done|]. intros Hl'.
    destruct (pg_slots _ Hwf _ _ Hs' Hl'). pose proof (slot_range p k s' Hwf Hs').
    destruct (pg_apart _ Hwf _ _ _ _ Hs' Hs Hk Hl' Hlive); unfold overwrite_writes; page_forall.
Qed.

Lemma overwrite_wf : page_wf (apply_writes overwrite_writes p).
Proof using Hwf Hs Hlive Ht.
  pose proof (length_writes _ _ overwrite_in) as Hl.
  split; unfold free_start_of, free_end_of, count_of, slot_fits; rewrite ?Hl, ?overwrite_slots;
    unfold free_end_of; rewrite ?overwrite_header by page_offsets; apply Hwf.
Qed.
End overwrite.

(** ** Initialising *)

Lemma page_tuples_empty p : count_of p = 0 -> page_tuples p = [].
Proof. intros Hc. unfold page_tuples, slots_of. by rewrite Hc. Qed.

Definition init_writes (size : nat) (id : Z) : list (nat * list byte) :=
  [(0%nat, replicate 4 x00); (4%nat, le_encode 2 0); (6%nat, le_encode 2 0);
   (8%nat, le_encode 2 28); (10%nat, le_encode 2 (Z.of_nat size)); (12%nat, le_encode 8 id)].
Definition fresh_page (size : nat) (id : Z) : page :=
  apply_writes (init_writes size id) (replicate size x00).

Lemma initialize_eq p id :
  (28 <= length p)%nat -> Z.of_nat (length p) <= 65535 ->
  initialize_page id p = (Ok tt, fresh_page (length p) id).
Proof.
  intros Hl Hu. unfold initialize_page, fresh_page. set (z := replicate (length p) x00).
  assert (Hz : length z = length p) by apply length_replicate.
  erewrite bind_ok.
  2: { unfold viewM, validate_page_size, PAGE_HEADER_SIZE, MAX_U16.
       destruct (Nat.ltb_spec (length p) 28); [lia|].
       destruct (Z.ltb_spec 65535 (Z.of_nat (length p))); [lia|]. done. }
  erewrite bind_ok by done. erewrite bind_ok by done. fold z.
  rewrite !wrap16_mod, !Z.mod_small by page_offsets.
  erewrite bind_ok by (apply store_bytes_eq; rewrite length_replicate; unfold CHECKSUM_OFFSET; lia).
  change (splice CHECKSUM_OFFSET _ z) with (apply_writes [(0%nat, replicate 4 x00)] z).
  do 4 erewrite bind_ok by (apply write_u16_writes; [cbn [app]; unfold FLAGS_OFFSET in *;
    repeat (apply Forall_cons; split); [page_offsets; rewrite ?length_replicate; lia..|by apply Forall_nil]
    |unfold FLAGS_OFFSET; page_offsets]).
  unfold write_u64. rewrite store_bytes_eq; [done|].
  rewrite length_le_encode, length_writes; [unfold PAGE_ID_OFFSET; lia|].
  cbn [app]. unfold FLAGS_OFFSET. repeat (apply Forall_cons; split);
    [page_offsets; rewrite ?length_replicate; lia..|by apply Forall_nil].
Qed.

Lemma fresh_page_spec size id :
  (28 <= size)%nat -> Z.of_nat size <= 65535 ->
  page_wf (fresh_page size id) /\ page_tuples (fresh_page size id) = [] /\
  room (fresh_page size id) = Z.of_nat size - 28 /\ length (fresh_page size id) = size.
Proof.
  intros Hl Hu. unfold fresh_page. set (z := replicate size x00).
  assert (Hz : length z = size) by apply length_replicate.
  assert (Hin : Forall (write_in (length z)) (init_writes size id)).
  { unfold init_writes. repeat (apply Forall_cons; split);
      [page_offsets; rewrite ?length_replicate; lia..|by apply Forall_nil]. }
  set (p := apply_writes _ z).
  assert (Hc : count_of p = 0).
  { apply (field_writes_hit (take 2 (init_writes size id)) (drop 3 (init_writes size id)));
      [exact Hin|cbn [drop init_writes]; page_forall|lia]. }
  assert (Hs : free_start_of p = 28).
  { apply (field_writes_hit (take 3 (init_writes size id)) (drop 4 (init_writes size id)));
      [exact Hin|cbn [drop init_writes]; page_forall|lia]. }
  assert (He : free_end_of p = Z.of_nat size).
  { apply (field_writes_hit (take 4 (init_writes size id)) (drop 5 (init_writes size id)));
      [exact Hin|cbn [drop init_writes]; page_forall|lia]. }
  assert (Hlen : length p = size) by (unfold p; by rewrite length_writes).
  assert (Hno : slots_of p = []) by (unfold slots_of; by rewrite Hc).
  split_and!; [|by apply page_tuples_empty|unfold room; lia|done].
  split; rewrite ?Hno; [lia|lia|lia|..]; intros; by rewrite lookup_nil in *.
Qed.

(** ** The page as a list of optional tuples *)

Inductive PageCall : Type :=
  | CInsert (t : list byte)
  | CDelete (i : Z)
  | COverwrite (i : Z) (t : list byte)
  | CRead (i : Z).
Inductive PageAnswer : Type := ASlot (i : Z) | ADone | ABytes (bs : list byte).

Definition run_page_call (c : PageCall) : M page PageAnswer :=
  match c with
  | CInsert t => let* i := page_insert_tuple t in retM (ASlot i)
  | CDelete i => let* _ := page_delete_tuple i in retM ADone
  | COverwrite i t => let* _ := page_overwrite_tuple i t in retM ADone
  | CRead i => let* bs := viewM (fun p => page_read_tuple p i) in retM (ABytes bs)
  end.

(** The contract: the tuples by slot and the bytes left. *)
Definition spec_page_call (c : PageCall) (st : list (option (list byte)) * Z) :
    Result PageAnswer * (list (option (list byte)) * Z) :=
  let '(ts, budget) := st in
  match c with
  | CInsert t =>
      if Z.of_nat (length t) + 4 <=? budget
      then (Ok (ASlot (Z.of_nat (length ts))), (ts ++ [Some t], budget - (Z.of_nat (length t) + 4)))
      else (Err OutOfMemory, st)
  | CDelete i =>
      match ts !! Z.to_nat i with
      | None => (Err InvalidArgument, st)
      | Some None => (Err NotFound, st)
      | Some (Some _) => (Ok ADone, (<[Z.to_nat i := None]> ts, budget))
      end
  | COverwrite i t =>
      match ts !! Z.to_nat i with
      | None => (Err InvalidArgument, st)
      | Some None => (Err NotFound, st)
      | Some (Some old) =>
          if (length old =? length t)%nat then (Ok ADone, (<[Z.to_nat i := Some t]> ts, budget))
          else (Err InvalidArgument, st)
      end
  | CRead i =>
      match ts !! Z.to_nat i with
      | None => (Err InvalidArgument, st)
      | Some None => (Err NotFound, st)
      | Some (Some bs) => (Ok (ABytes bs), st)
      end
  end.

(** Slot numbers are unsigned, tuples are not empty and fit in memory. *)
Definition page_call_ok (c : PageCall) : Prop :=
  match c with
  | CInsert t => (0 < length t)%nat /\ Z.of_nat (length t) < 2 ^ 63
  | CDelete i | CRead i => 0 <= i
  | COverwrite i t => 0 <= i
  end.

Definition page_state (p : page) : list (option (list byte)) * Z := (page_tuples p, room p).

Lemma page_insert_spec p t :
  page_wf p -> page_call_ok (CInsert t) ->
  exists r p', page_insert_tuple t p = (r, p') /\ page_wf p' /\ length p' = length p /\
    if Z.of_nat (length t) + 4 <=? room p
    then r = Ok (Z.of_nat (length (page_tuples p))) /\ page_tuples p' = page_tuples p ++ [Some t] /\
         room p' = room p - (Z.of_nat (length t) + 4)
    else r = Err OutOfMemory /\ p' = p.
Proof.
  intros Hwf [Hne Hl]. destruct (Z.leb_spec (Z.of_nat (length t) + 4) (room p)) as [Hr|Hr].
  - eexists _, _. split_and!; [by apply page_insert_eq|by apply insert_wf|
      apply length_writes; by apply insert_in|..|by apply insert_room].
    + rewrite length_page_tuples, Z2Nat.id; [done|]. by apply page_count_range.
    + by apply insert_tuples.
  - eexists _, _. split_and!; [by apply page_insert_full|done..].
Qed.

Lemma page_delete_spec p i :
  page_wf p -> 0 <= i ->
  exists r p', page_delete_tuple i p = (r, p') /\ page_wf p' /\ length p' = length p /\
    room p' = room p /\
    match page_tuples p !! Z.to_nat i with
    | None => r = Err InvalidArgument /\ p' = p
    | Some None => r = Err NotFound /\ p' = p
    | Some (Some _) => r = Ok tt /\ page_tuples p' = <[Z.to_nat i := None]> (page_tuples p)
    end.
Proof.
  intros Hwf Hi. rewrite tuples_lookup. destruct (slots_of p !! Z.to_nat i) as [s|] eqn:Hs.
  - rewrite (page_delete_eq p i s) by done. cbn [fmap option_fmap option_map]. unfold slot_tuple.
    destruct (s_len s =? 0); eexists _, _; split_and!; try done.
    + by eapply delete_wf.
    + apply length_writes. by eapply delete_in.
    + unfold room, free_end_of, free_start_of.
      by rewrite !(delete_header p i s) by (try done; page_offsets).
    + by eapply delete_tuples.
  - eexists _, _. split_and!; [|done..]. unfold page_delete_tuple, viewM, bindM.
    by rewrite read_slot_ok, Hs by done.
Qed.

Lemma page_overwrite_spec p i t :
  page_wf p -> 0 <= i ->
  exists r p', page_overwrite_tuple i t p = (r, p') /\ page_wf p' /\ length p' = length p /\
    room p' = room p /\
    match page_tuples p !! Z.to_nat i with
    | None => r = Err InvalidArgument /\ p' = p
    | Some None => r = Err NotFound /\ p' = p
    | Some (Some old) =>
        if (length old =? length t)%nat
        then r = Ok tt /\ page_tuples p' = <[Z.to_nat i := Some t]> (page_tuples p)
        else r = Err InvalidArgument /\ p' = p
    end.
Proof.
  intros Hwf Hi. rewrite tuples_lookup. destruct (slots_of p !! Z.to_nat i) as [s|] eqn:Hs.
  2: { eexists _, _. split_and!; [|done..]. unfold page_overwrite_tuple, viewM, bindM.
       by rewrite read_slot_ok, Hs by done. }
  cbn [fmap option_fmap option_map]. unfold slot_tuple.
  destruct (Z.eqb_spec (s_len s) 0) as [Hz|Hlive].
  { eexists _, _. split_and!; [|done..]. unfold page_overwrite_tuple, viewM, bindM.
    rewrite read_slot_ok, Hs by done. by rewrite Hz. }
  destruct (pg_slots _ Hwf _ _ Hs Hlive) as [_ Hle]. destruct (slot_range p _ s Hwf Hs) as [Ho Hl].
  rewrite length_slice by lia.
  destruct (Nat.eqb_spec (Z.to_nat (s_len s)) (length t)) as [Heq|Hne].
  - assert (Ht : Z.of_nat (length t) = s_len s) by lia.
    eexists _, _. split_and!; [by eapply page_overwrite_eq|by eapply overwrite_wf|
      apply length_writes; by eapply overwrite_in| |done|by eapply overwrite_tuples].
    unfold room, free_end_of, free_start_of.
    by rewrite !(overwrite_header p i s t) by (try done; page_offsets).
  - eexists _, _. split_and!; [|done..]. unfold page_overwrite_tuple, viewM, bindM.
    rewrite read_slot_ok, Hs by done. destruct (Z.eqb_spec (s_len s) 0); [done|].
    destruct (Z.eqb_spec (s_len s) (Z.of_nat (length t))); [lia|done].
Qed.

Fixpoint run_page_calls (cs : list PageCall) (p : page) : list (Result PageAnswer) * page :=
  match cs with
  | [] => ([], p)
  | c :: cs => let '(r, p) := run_page_call c p in let '(rs, p) := run_page_calls cs p in (r :: rs, p)
  end.
Fixpoint spec_page_calls (cs : list PageCall) (st : list (option (list byte)) * Z) :
    list (Result PageAnswer) * (list (option (list byte)) * Z) :=
  match cs with
  | [] => ([], st)
  | c :: cs =>
      let '(r, st) := spec_page_call c st in let '(rs, st) := spec_page_calls cs st in (r :: rs, st)
  end.

Lemma run_page_call_refines p c :
  page_wf p -> page_call_ok c ->
  exists r p', run_page_call c p = (r, p') /\ page_wf p' /\
    spec_page_call c (page_state p) = (r, page_state p').
Proof.
  intros Hwf Hok. unfold page_state. destruct c as [t|i|i t|i]; cbn [run_page_call spec_page_call].
  - destruct (page_insert_spec p t Hwf Hok) as (r & p' & Hrun & Hwf' & _ & Hcase).
    destruct (_ <=? _); destruct_and! Hcase; subst;
      eexists _, _; (split_and!; [by unfold bindM; rewrite Hrun|done|]); [congruence|done].
  - destruct (page_delete_spec p i Hwf Hok) as (r & p' & Hrun & Hwf' & _ & Hroom & Hcase).
    rewrite <- Hroom. destruct (page_tuples p !! Z.to_nat i) as [[?|]|];
      destruct_and! Hcase; subst;
      eexists _, _; (split_and!; [by unfold bindM; rewrite Hrun|done|congruence]).
  - destruct (page_overwrite_spec p i t Hwf Hok) as (r & p' & Hrun & Hwf' & _ & Hroom & Hcase).
    rewrite <- Hroom. destruct (page_tuples p !! Z.to_nat i) as [[old|]|];
      [destruct (_ =? _)%nat|..]; destruct_and! Hcase; subst;
      eexists _, _; (split_and!; [by unfold bindM; rewrite Hrun|done|congruence]).
  - unfold bindM, viewM. rewrite page_read_tuple_ok by done.
    destruct (page_tuples p !! Z.to_nat i) as [[?|]|]; by eexists _, p.
Qed.

(** C31: the slotted page refines a list of optional tuples with a byte budget.
    On a well-formed page any sequence of inserts, deletes, in-place overwrites
    and reads gives, answer by answer and error by error, what the list gives;
    no call reads or writes outside the page, and the page stays well formed. *)
Theorem page_refines_tuples (p : list byte) (cs : list PageCall) :
  page_wf p -> Forall page_call_ok cs ->
  page_wf (run_page_calls cs p).2 /\
  spec_page_calls cs (page_state p) =
    ((run_page_calls cs p).1, page_state (run_page_calls cs p).2).
Proof.
  revert p. induction cs as [|c cs IH]; intros p Hwf Hok; [done|].
  apply Forall_cons in Hok as [Hc Hcs]. cbn [run_page_calls spec_page_calls].
  destruct (run_page_call_refines p c Hwf Hc) as (r & p' & Hrun & Hwf' & Hspec).
  rewrite Hrun, Hspec. destruct (IH p' Hwf' Hcs) as [Hwf2 Hs2]. rewrite Hs2.
  destruct (run_page_calls cs p'). done.
Qed.

Definition example_page_calls : list PageCall :=
  [CInsert [x01; x02; x03]; CInsert [x04]; CDelete 0; CRead 1; COverwrite 1 [x09]; CRead 1; CRead 0;
   CDelete 5; CInsert (replicate 20 x07)].

Lemma page_refines_tuples_witness :
  page_wf (fresh_page 48 7) /\
  (run_page_calls example_page_calls (fresh_page 48 7)).1 =
    [Ok (ASlot 0); Ok (ASlot 1); Ok ADone; Ok (ABytes [x04]); Ok ADone; Ok (ABytes [x09]);
     Err NotFound; Err InvalidArgument; Err OutOfMemory] /\
  page_wf (run_page_calls example_page_calls (fresh_page 48 7)).2.
Proof.
  destruct (fresh_page_spec 48 7 ltac:(lia) ltac:(lia)) as (Hwf & _).
  split; [exact Hwf|]. split; [vm_compute; reflexivity|].
  apply (page_refines_tuples (fresh_page 48 7) example_page_calls Hwf).
  repeat constructor; cbn; lia.
Defined.
