(* ===== verification/PageSafety.v ===== *)
(** * PageSafety: the page operations on arbitrary bytes

    src/src/storage/engine/heap/page.cpp run on a page that was not written by this
    code (a damaged file).  Nothing checks the header when a page is fetched; this
    file settles, for every byte string, which operations index outside the page. *)
From S2P Require Import Prelude Utils HeapPage.

#[local] Abbreviation page := (list byte).

Definition valid_size (p : page) : Prop := (28 <= length p)%nat /\ Z.of_nat (length p) <= 65535.

(** The directory entry of slot [i], which the header counts, is not in the page. *)
Definition entry_outside (p : page) (i : Z) : Prop :=
  valid_size p /\ i < count_of p /\ (length p < slot_pos (Z.to_nat i) + 4)%nat.
(** The header promises [n] free bytes that are not all in the page. *)
Definition free_outside (p : page) (n : Z) : Prop :=
  valid_size p /\ n + 4 <= free_end_of p - free_start_of p /\
  (Z.of_nat (length p) < free_end_of p \/ (length p < slot_pos (Z.to_nat (count_of p)) + 4)%nat).

#[export] Instance valid_size_dec p : Decision (valid_size p).
Proof. unfold valid_size. apply _. Defined.
#[export] Instance entry_outside_dec p i : Decision (entry_outside p i).
Proof. unfold entry_outside. apply _. Defined.
#[export] Instance free_outside_dec p n : Decision (free_outside p n).
Proof. unfold free_outside. apply _. Defined.

Definition faults {A} (r : Result A) : Prop := r = Fault.

Lemma read_u16_total p off :
  read_u16 p off = if decide (off + 2 <= length p)%nat then Ok (field p off) else Fault.
Proof.
  case_decide as Hd; [by apply read_u16_eq|]. unfold read_u16, load_byte.
  destruct (p !! off) as [b0|] eqn:H0; [|done]. cbn [bindR].
  by rewrite (lookup_ge_None_2 p (off + 1)) by lia.
Qed.

Lemma validate_total p :
  validate_page_size p = if decide (valid_size p) then Ok tt else Err InvalidArgument.
Proof.
  unfold validate_page_size, valid_size, PAGE_HEADER_SIZE, MAX_U16.
  destruct (Nat.ltb_spec (length p) 28), (Z.ltb_spec 65535 (Z.of_nat (length p))); cbn;
    case_decide; try done; lia.
Qed.

Lemma slot_count_total p :
  slot_count p = if decide (valid_size p) then Ok (count_of p) else Err InvalidArgument.
Proof.
  unfold slot_count. rewrite validate_total. case_decide as Hv; [|done]. cbn [bindR].
  apply read_u16_eq. destruct Hv. unfold SLOT_COUNT_OFFSET. lia.
Qed.

(** [read_slot] on any bytes. *)
Lemma read_slot_total p i :
  read_slot p i =
    if decide (valid_size p) then
      if count_of p <=? i then Err InvalidArgument
      else if decide (entry_outside p i) then Fault else Ok (slot_at p (Z.to_nat i))
    else Err InvalidArgument.
Proof.
  unfold read_slot. rewrite slot_count_total. case_decide as Hv; [|done]. cbn [bindR].
  destruct (Z.leb_spec (count_of p) i) as [Hc|Hc]; [done|].
  change (slot_offset i) with (slot_pos (Z.to_nat i)). rewrite !read_u16_total.
  unfold entry_outside, valid_size, slot_pos in *. repeat case_decide; cbn; try done; lia.
Qed.

Lemma read_slot_faults p i : faults (read_slot p i) <-> entry_outside p i.
Proof.
  unfold faults. rewrite read_slot_total. split.
  - case_decide; [|done]. destruct (count_of p <=? i); [done|]. by case_decide.
  - intros Ho. pose proof Ho as (Hv & Hc & _). rewrite decide_True by done.
    destruct (Z.leb_spec (count_of p) i); [lia|]. by rewrite decide_True.
Qed.

Lemma read_slot_inside p i s :
  read_slot p i = Ok s -> s = slot_at p (Z.to_nat i) /\ (slot_pos (Z.to_nat i) + 4 <= length p)%nat.
Proof.
  rewrite read_slot_total. case_decide as Hv; [|done].
  destruct (Z.leb_spec (count_of p) i) as [Hc|Hc]; [done|]. case_decide as Ho; [done|]. intros [= <-].
  split; [done|]. destruct (decide (slot_pos (Z.to_nat i) + 4 <= length p)%nat); [done|].
  destruct Ho. split_and!; [done|done|lia].
Qed.

(** A write inside the page does not fault. *)
Lemma write_slot_inside i s p :
  (slot_pos (Z.to_nat i) + 4 <= length p)%nat ->
  exists p', write_slot i s p = (Ok tt, p') /\ length p' = length p.
Proof.
  intros Hin. unfold write_slot. change (slot_offset i) with (slot_pos (Z.to_nat i)).
  erewrite bind_ok by (apply write_u16_eq; lia).
  assert (Hl : length (splice (slot_pos (Z.to_nat i)) (le_encode 2 (s_offset s)) p) = length p)
    by (rewrite length_splice; [done|rewrite length_le_encode; lia]).
  rewrite write_u16_eq by (rewrite Hl; lia). eexists. split; [done|].
  rewrite length_splice; [done|rewrite Hl, length_le_encode; lia].
Qed.

Lemma write_u16_outside off v p : (length p < off + 2)%nat -> (write_u16 off v p).1 = Fault.
Proof.
  intros Hout. unfold write_u16, bindM, store_byte.
  destruct (Nat.ltb_spec off (length p)); [|done]. rewrite length_insert.
  by destruct (Nat.ltb_spec (off + 1) (length p)); [lia|].
Qed.
Lemma write_slot_outside i s p :
  (length p < slot_pos (Z.to_nat i) + 4)%nat -> (write_slot i s p).1 = Fault.
Proof.
  intros Hout. unfold write_slot. change (slot_offset i) with (slot_pos (Z.to_nat i)).
  destruct (Nat.le_gt_cases (slot_pos (Z.to_nat i) + 2) (length p)) as [Hin|Hgt].
  - erewrite bind_ok by (by apply write_u16_eq). apply write_u16_outside.
    rewrite length_splice; rewrite ?length_le_encode; lia.
  - pose proof (write_u16_outside (slot_pos (Z.to_nat i)) (s_offset s) p ltac:(lia)) as Hf. unfold bindM.
    by destruct (write_u16 _ _ p) as [[]?].
Qed.

(** After [read_slot] the other operations check what they index. *)
Lemma is_live_faults p i : faults (is_live_slot p i) <-> entry_outside p i.
Proof.
  rewrite <- read_slot_faults. unfold faults, is_live_slot. by destruct (read_slot p i).
Qed.
Lemma read_tuple_faults p i : faults (page_read_tuple p i) <-> entry_outside p i.
Proof.
  rewrite <- read_slot_faults. unfold faults, page_read_tuple. destruct (read_slot p i) as [s|er|]; cbn; try done.
  destruct (s_len s =? 0); [done|]. by destruct (_ <? _).
Qed.
Lemma delete_tuple_faults p i : faults (page_delete_tuple i p).1 <-> entry_outside p i.
Proof.
  rewrite <- read_slot_faults. unfold faults, page_delete_tuple, bindM at 1, viewM.
  destruct (read_slot p i) as [s|er|] eqn:Hs; cbn; try done. destruct (s_len s =? 0); [done|].
  apply read_slot_inside in Hs as [_ Hin].
  by destruct (write_slot_inside i {| s_offset := 0; s_len := 0 |} p Hin) as (p' & -> & _).
Qed.
Lemma overwrite_tuple_faults p i t : faults (page_overwrite_tuple i t p).1 <-> entry_outside p i.
Proof.
  rewrite <- read_slot_faults. unfold faults, page_overwrite_tuple, bindM at 1, viewM.
  destruct (read_slot p i) as [s|er|] eqn:Hs; cbn; try done. destruct (s_len s =? 0); [done|].
  destruct (Z.eqb_spec (s_len s) (Z.of_nat (length t))) as [Hl|]; [|done]. cbn.
  destruct (Z.ltb_spec (Z.of_nat (length p)) (s_offset s + s_len s)); [done|]. unfold copy_into.
  apply read_slot_inside in Hs as [-> Hin].
  pose proof (field_range p (slot_pos (Z.to_nat i)) ltac:(lia)).
  destruct (Nat.leb_spec (Z.to_nat (s_offset (slot_at p (Z.to_nat i))) + length t) (length p)); [done|].
  unfold slot_at in *. cbn in *. lia.
Qed.

Lemma free_space_total p :
  free_space p =
    if decide (valid_size p) then
      if free_end_of p <? free_start_of p then Err Corruption else Ok (free_end_of p - free_start_of p)
    else Err InvalidArgument.
Proof.
  unfold free_space. rewrite validate_total. case_decide as Hv; [|done]. destruct Hv. cbn [bindR].
  rewrite !read_u16_eq by (unfold FREE_START_OFFSET, FREE_END_OFFSET; lia). done.
Qed.

Lemma header_fields p : valid_size p ->
  0 <= count_of p < 65536 /\ 0 <= free_start_of p < 65536 /\ 0 <= free_end_of p < 65536.
Proof.
  intros [Hl _]. unfold count_of, free_start_of, free_end_of, SLOT_COUNT_OFFSET, FREE_START_OFFSET, FREE_END_OFFSET.
  split_and!; apply field_range; lia.
Qed.

Lemma can_insert_true p n :
  0 <= n ->
  can_insert p n = Ok true <-> valid_size p /\ n + 4 <= free_end_of p - free_start_of p.
Proof.
  intros Hn. unfold can_insert, fits_u16, MAX_U16. rewrite free_space_total.
  destruct (Z.leb_spec n 65535) as [Hm|Hm]; cbn [negb].
  - case_decide as Hv; [|split; [done|by intros [? _]]].
    destruct (header_fields p Hv) as (_ & Hs & He).
    destruct (Z.ltb_spec (free_end_of p) (free_start_of p)); cbn [bindR]; [split; [done|intros [_ ?]; lia]|].
    rewrite wrap64_mod, Z.mod_small by (unfold SLOT_SIZE; lia). unfold SLOT_SIZE.
    destruct (Z.leb_spec (n + Z.of_nat 4) (free_end_of p - free_start_of p)); naive_solver lia.
  - split; [done|]. intros [Hv Hle]. destruct (header_fields p Hv) as (_ & Hs & He). lia.
Qed.

Lemma can_insert_safe p n : can_insert p n <> Fault.
Proof.
  unfold can_insert. rewrite free_space_total. destruct (negb (fits_u16 n)); [done|].
  case_decide; [|done]. by destruct (free_end_of p <? free_start_of p).
Qed.

(** The writes of [insert_tuple] once the free space was accepted. *)
Lemma insert_writes p t :
  valid_size p -> Z.of_nat (length t) + 4 <= free_end_of p - free_start_of p ->
  faults (page_insert_tuple t p).1 <->
    Z.of_nat (length p) < free_end_of p \/ (length p < slot_pos (Z.to_nat (count_of p)) + 4)%nat.
Proof.
  intros Hv Hfree. destruct (header_fields p Hv) as (Hcnt & Hst & Hen). pose proof Hv as [Hsz _].
  assert (Hcan : can_insert p (Z.of_nat (length t)) = Ok true) by (apply can_insert_true; [lia|done]).
  unfold page_insert_tuple, faults. erewrite bind_ok by (unfold viewM; by rewrite Hcan). cbn [negb].
  erewrite bind_ok by (unfold viewM; rewrite read_u16_eq by (unfold SLOT_COUNT_OFFSET; lia); done).
  erewrite bind_ok by (unfold viewM; rewrite read_u16_eq by (unfold FREE_END_OFFSET; lia); done).
  fold (free_end_of p). fold (count_of p).
  assert (Hw : wrap16 (free_end_of p - Z.of_nat (length t)) = free_end_of p - Z.of_nat (length t))
    by (rewrite wrap16_mod; apply Z.mod_small; lia). rewrite Hw.
  unfold bindM at 1, copy_into.
  destruct (Nat.leb_spec (Z.to_nat (free_end_of p - Z.of_nat (length t)) + length t) (length p)) as [Hin|Hout];
    [|split; [intros _; left; lia|done]].
  assert (Hl : length (splice (Z.to_nat (free_end_of p - Z.of_nat (length t))) t p) = length p)
    by (by apply length_splice).
  set (q := splice _ t p) in *.
  destruct (Nat.le_gt_cases (slot_pos (Z.to_nat (count_of p)) + 4) (length p)) as [Hs|Hs].
  - split; [|lia]. intros Hf. exfalso. revert Hf.
    destruct (write_slot_inside (count_of p) {| s_offset := free_end_of p - Z.of_nat (length t);
      s_len := wrap16 (Z.of_nat (length t)) |} q ltac:(lia)) as (q1 & Hq1 & Hl1).
    erewrite bind_ok by exact Hq1. unfold SLOT_COUNT_OFFSET, FREE_START_OFFSET, FREE_END_OFFSET.
    erewrite bind_ok by (apply write_u16_eq; lia).
    erewrite bind_ok by (apply write_u16_eq; rewrite length_splice; rewrite ?length_le_encode; lia).
    erewrite bind_ok; [done|]. apply write_u16_eq.
    repeat (rewrite length_splice; rewrite ?length_le_encode); lia.
  - split; [intros _; by right|intros _]. unfold bindM at 1.
    pose proof (write_slot_outside (count_of p) {| s_offset := free_end_of p - Z.of_nat (length t);
      s_len := wrap16 (Z.of_nat (length t)) |} q ltac:(lia)) as Hf.
    by destruct (write_slot _ _ q) as [[] ?].
Qed.

(** [insert_tuple] trusts the free-space bounds of the header. *)
Lemma insert_tuple_faults p t : faults (page_insert_tuple t p).1 <-> free_outside p (Z.of_nat (length t)).
Proof.
  unfold free_outside. pose proof (can_insert_true p (Z.of_nat (length t)) ltac:(lia)) as Hcan.
  destruct (can_insert p (Z.of_nat (length t))) as [[]|er|] eqn:Hc.
  - destruct (proj1 Hcan eq_refl) as [Hv Hfree]. rewrite insert_writes by done. naive_solver.
  - unfold faults, page_insert_tuple, bindM at 1, viewM at 1. rewrite Hc. cbn. naive_solver.
  - unfold faults, page_insert_tuple, bindM at 1, viewM at 1. rewrite Hc. cbn. naive_solver.
  - by destruct (can_insert_safe p (Z.of_nat (length t))).
Qed.

(** C32: which page operations leave the page, on any bytes.  Reading, testing,
    deleting and overwriting slot [i] index outside the page exactly when the
    header counts a slot whose directory entry does not lie in the page; inserting
    does exactly when the header promises free space the page does not have.
    Everything else is refused with an error. *)
Theorem page_faults_exactly (p : list byte) (i : Z) (t : list byte) :
  (is_live_slot p i = Fault <-> entry_outside p i) /\
  (page_read_tuple p i = Fault <-> entry_outside p i) /\
  ((page_delete_tuple i p).1 = Fault <-> entry_outside p i) /\
  ((page_overwrite_tuple i t p).1 = Fault <-> entry_outside p i) /\
  ((page_insert_tuple t p).1 = Fault <-> free_outside p (Z.of_nat (length t))) /\
  slot_count p <> Fault /\ free_space p <> Fault /\ can_insert p (Z.of_nat (length t)) <> Fault.
Proof.
  split_and!; [apply is_live_faults|apply read_tuple_faults|apply delete_tuple_faults|
    apply overwrite_tuple_faults|apply insert_tuple_faults| | |apply can_insert_safe].
  - rewrite slot_count_total. by case_decide.
  - rewrite free_space_total. case_decide; [|done]. by destruct (free_end_of p <? free_start_of p).
Qed.
