(* ===== verification/HeapEngine.v ===== *)
(** * HeapEngine: src/src/storage/engine

    [engine.hpp] (the tuple-level interface), [heap/heap_engine.cpp] (the heap
    row store over the buffer pool) and [engine_factory.cpp].  These are the
    methods run one at a time; [HeapConcurrent] runs them under the latch.  The engine's
    [page_store] pointer and its pool's refer to the same store, the [bp_world]
    of the pool. *)
From S2P Require Import Prelude Utils StorageIO PageStore EvictionPolicy PolicyFactory BufferPool.
From S2P Require Import HeapPage.

(** ** engine.hpp *)

Record EngineConfig := {
  ec_page_size : Z;
  buffer_pool_pages : Z;
  buffer_eviction : EvictionPolicyConfig;
}.
Definition EngineConfig_default : EngineConfig :=
  {| ec_page_size := 8192; buffer_pool_pages := 1024; buffer_eviction := EvictionPolicyConfig_default |}.

Record TupleId := { t_page_id : Z; t_slot_idx : Z }.
#[export] Instance TupleId_eq_dec : EqDecision TupleId.
Proof. solve_decision. Defined.
Record Tuple := { tup_id : TupleId; tup_data : list byte }.
(** [ScanHandle::value]. *)
Definition ScanHandle : Type := Z.

(** The virtual interface; a scan's handle is passed by reference. *)
Class StorageEngine (E : Type) := {
  se_open : EngineConfig -> M E unit;
  se_close : M E unit;
  se_insert_tuple : list byte -> M E TupleId;
  se_delete_tuple : TupleId -> M E unit;
  se_update_tuple : TupleId -> list byte -> M E TupleId;
  se_begin_scan : M E ScanHandle;
  se_scan_next : M (ScanHandle * E) (option Tuple);
  se_end_scan : M (ScanHandle * E) unit;
  se_page_size : E -> Z;
}.

(** ** heap_engine.cpp *)

Definition CURSOR_SLOT_BASE : Z := 65536.
Definition CURSOR_PAGE_MASK : Z := 4294967295.

Definition encode_cursor (page_id slot_idx : Z) : ScanHandle :=
  wrap64 (wrap64 (Z.land page_id CURSOR_PAGE_MASK * CURSOR_SLOT_BASE) + slot_idx).
Definition cursor_page_id (handle : ScanHandle) : Z :=
  Z.land (handle / CURSOR_SLOT_BASE) CURSOR_PAGE_MASK.
Definition cursor_slot_idx (handle : ScanHandle) : Z := wrap16 (handle mod CURSOR_SLOT_BASE).

Record HeapEngine (S : Type) := {
  page_store : bool;
  he_config : EngineConfig;
  buffer_pool : Pool S;
  opened : bool;
}.
Arguments page_store {S}.
Arguments he_config {S}.
Arguments buffer_pool {S}.
Arguments opened {S}.
Arguments Build_HeapEngine {S}.

Section operations.
Context {S : Type} `{StorageIO S}.
#[local] Abbreviation E := (HeapEngine S).

Definition set_pool (p : Pool S) (e : E) : E :=
  {| page_store := page_store e; he_config := he_config e; buffer_pool := p; opened := opened e |}.
Definition on_pool {A} (m : M (Pool S) A) : M E A := zoom buffer_pool set_pool m.
Definition on_heap_store {A} (m : M (StoreW S) A) : M E A := on_pool (on_page_store m).

(** [heap::f(frame->data(), ...)] on a const span and on a mutable one. *)
Definition view_page {A} (h : FrameHandle) (f : list byte -> Result A) : M E A :=
  let* data := on_pool (handle_data h) in liftR (f data).
Definition edit_page {A} (h : FrameHandle) (m : M (list byte) A) : M E A :=
  let* data := on_pool (handle_data h) in
  let '(r, data') := m data in
  let* _ := on_pool (handle_write h data') in
  liftR r.

Definition heap_open (cfg : EngineConfig) : M E unit :=
  let* _ := assertM (0 <? ec_page_size cfg) in
  let* _ := modifyM (fun e =>
    {| page_store := true; he_config := cfg; buffer_pool := buffer_pool e; opened := opened e |}) in
  let* status := attempt (on_pool (pool_open
    {| capacity_pages := buffer_pool_pages cfg; eviction := buffer_eviction cfg |})) in
  match status with
  | Ok _ => modifyM (fun e =>
      {| page_store := page_store e; he_config := he_config e; buffer_pool := buffer_pool e;
         opened := true |})
  | Err er =>
      let* _ := modifyM (fun e =>
        {| page_store := false; he_config := he_config e; buffer_pool := buffer_pool e;
           opened := opened e |}) in
      errM er
  | Fault => faultM
  end.

Definition heap_close : M E unit :=
  let* is_open := getM opened in
  if negb is_open then retM tt
  else
    let* status := attempt (on_pool pool_close) in
    let* _ := modifyM (fun e =>
      {| page_store := false; he_config := he_config e; buffer_pool := buffer_pool e;
         opened := false |}) in
    liftR status.

Definition heap_check_open : M E unit := fun e =>
  if negb (opened e) || negb (page_store e) then (Err IoError, e) else (Ok tt, e).

Definition unpin_clean (h : FrameHandle) : M E FrameHandle := on_pool (unpin h false).

(** [if (!r) { if (auto status = unpin_clean(h); !status) return status; return r.error(); }] *)
Definition or_unpin {A} (h : FrameHandle) (m : M E A) : M E A :=
  let* r := attempt m in
  match r with
  | Ok a => retM a
  | Err er => let* _ := unpin_clean h in errM er
  | Fault => faultM
  end.

Definition insert_into_existing_page (page_id : Z) (tuple : list byte) : M E (option TupleId) :=
  let* frame := on_pool (fetch page_id) in
  let* can_fit := or_unpin frame
    (view_page frame (fun p => can_insert p (Z.of_nat (length tuple)))) in
  if negb can_fit then
    let* _ := on_pool (unpin frame false) in retM None
  else
    let* slot := or_unpin frame (edit_page frame (page_insert_tuple tuple)) in
    let* _ := on_pool (unpin frame true) in
    retM (Some {| t_page_id := page_id; t_slot_idx := slot |}).

Definition insert_into_new_page (tuple : list byte) : M E TupleId :=
  let* config := getM he_config in
  let page_capacity := wrap64 (ec_page_size config - Z.of_nat PAGE_HEADER_SIZE) in
  if page_capacity <? wrap64 (Z.of_nat (length tuple) + Z.of_nat SLOT_SIZE) then errM OutOfMemory
  else
    let* allocated := on_heap_store allocate_page in
    let* frame := on_pool (fetch_new allocated) in
    let* _ := or_unpin frame (edit_page frame (initialize_page allocated)) in
    let* slot := or_unpin frame (edit_page frame (page_insert_tuple tuple)) in
    let* _ := on_pool (unpin frame true) in
    retM {| t_page_id := allocated; t_slot_idx := slot |}.

(** The loop over the existing pages; [fuel] bounds the remaining pages. *)
Fixpoint insert_loop (fuel : nat) (page_id count : Z) (tuple : list byte) : M E TupleId :=
  match fuel with
  | O => faultM
  | Datatypes.S fuel =>
      if count <=? page_id then insert_into_new_page tuple
      else
        let* inserted := insert_into_existing_page page_id tuple in
        match inserted with
        | Some id => retM id
        | None => insert_loop fuel (wrap64 (page_id + 1)) count tuple
        end
  end.

Definition heap_insert_tuple (tuple : list byte) : M E TupleId :=
  let* _ := assertM (negb (length tuple =? 0)%nat) in
  let* _ := heap_check_open in
  let* count := on_heap_store page_count in
  insert_loop (Z.to_nat count + 1) 0 count tuple.

Definition heap_delete_tuple (id : TupleId) : M E unit :=
  let* _ := heap_check_open in
  let* handle := on_pool (fetch (t_page_id id)) in
  let* _ := or_unpin handle (edit_page handle (page_delete_tuple (t_slot_idx id))) in
  let* _ := on_pool (unpin handle true) in
  retM tt.

Definition heap_update_tuple (id : TupleId) (tuple : list byte) : M E TupleId :=
  let* _ := heap_delete_tuple id in
  heap_insert_tuple tuple.

Definition heap_begin_scan : M E ScanHandle :=
  let* _ := heap_check_open in
  retM (encode_cursor 0 0).

(** Operations that also have the scan handle at hand. *)
#[local] Abbreviation ES := (ScanHandle * HeapEngine S)%type.
Definition on_engine {A} (m : M E A) : M ES A := zoom snd (fun e st => (st.1, e)) m.
Definition set_handle (v : ScanHandle) : M ES unit := modifyM (fun st => (v, st.2)).

Definition scan_slot (frame : FrameHandle) (page_id slot_idx : Z) : M ES (option Tuple) :=
  let* live := on_engine (or_unpin frame (view_page frame (fun p => is_live_slot p slot_idx))) in
  if negb live then retM None
  else
    let* data := on_engine (or_unpin frame (view_page frame (fun p => page_read_tuple p slot_idx))) in
    let* _ := set_handle (encode_cursor page_id (wrap16 (slot_idx + 1))) in
    let* _ := on_engine (unpin_clean frame) in
    retM (Some {| tup_id := {| t_page_id := page_id; t_slot_idx := slot_idx |}; tup_data := data |}).

Fixpoint scan_slots (fuel : nat) (frame : FrameHandle) (page_id slot_idx slots : Z) :
    M ES (option Tuple) :=
  match fuel with
  | O => faultM
  | Datatypes.S fuel =>
      if slots <=? slot_idx then retM None
      else
        let* tuple := scan_slot frame page_id slot_idx in
        match tuple with
        | Some t => retM (Some t)
        | None => scan_slots fuel frame page_id (wrap16 (slot_idx + 1)) slots
        end
  end.

Fixpoint scan_pages (fuel : nat) (page_id count : Z) : M ES (option Tuple) :=
  match fuel with
  | O => faultM
  | Datatypes.S fuel =>
      if count <=? page_id then retM None
      else
        let* frame := on_engine (on_pool (fetch page_id)) in
        let* slots := on_engine (or_unpin frame (view_page frame slot_count)) in
        let* handle := getM fst in
        let slot_idx := if page_id =? cursor_page_id handle then cursor_slot_idx handle else 0 in
        let* tuple := scan_slots (Z.to_nat (slots - slot_idx) + 1) frame page_id slot_idx slots in
        match tuple with
        | Some t => retM (Some t)
        | None =>
            let* _ := on_engine (unpin_clean frame) in
            let* _ := set_handle (encode_cursor (wrap64 (page_id + 1)) 0) in
            scan_pages fuel (wrap64 (page_id + 1)) count
        end
  end.

Definition heap_scan_next : M ES (option Tuple) :=
  let* _ := on_engine heap_check_open in
  let* count := on_engine (on_heap_store page_count) in
  let* handle := getM fst in
  let start := cursor_page_id handle in
  scan_pages (Z.to_nat (count - start) + 1) start count.

Definition heap_end_scan : M ES unit := set_handle (encode_cursor 0 0).

Definition heap_page_size (e : E) : Z := ec_page_size (he_config e).

#[export] Instance heap_ops : StorageEngine E := {
  se_open := heap_open;
  se_close := heap_close;
  se_insert_tuple := heap_insert_tuple;
  se_delete_tuple := heap_delete_tuple;
  se_update_tuple := heap_update_tuple;
  se_begin_scan := heap_begin_scan;
  se_scan_next := heap_scan_next;
  se_end_scan := heap_end_scan;
  se_page_size := heap_page_size;
}.

(** ** engine_factory.cpp: a fresh engine over the page store, or the error of
    its [open]. *)
Definition HeapEngine_new (w : StoreW S) : E :=
  {| page_store := false; he_config := EngineConfig_default;
     buffer_pool := {| bp_store := false; bp_config := BufferPoolConfig_default; page_bytes := 0;
                       frames := []; eviction_policy := None; bp_world := w |};
     opened := false |}.
Definition open_engine (relation_oid : Z) (relation_name : string) (config : EngineConfig)
    (w : StoreW S) : Result E :=
  let '(status, e) := heap_open config (HeapEngine_new w) in
  let? _ := status in Ok e.
End operations.
