(* ===== verification/HeapEngineSpec.v ===== *)
(** * HeapEngineSpec: the heap engine stores a finite map of tuples

    On a healthy device every operation runs to completion with the pool
    quiescent again; [heap_lookup] is the map from tuple ids to tuples the
    engine implements, [all_tuples] the order in which a scan visits it. *)
From S2P Require Import Prelude Utils StorageIO PageStore EvictionPolicy PolicyFactory BufferPool.
From S2P Require Import BufferPoolSpec HeapPage HeapEngine.

Section specification.
Context {S : Type} `{StorageIOLaws S}.
#[local] Abbreviation E := (HeapEngine S).
Implicit Types (e : E) (t : list byte).

Definition heap_pages e : list (list byte) := logical (buffer_pool e).
Definition heap_page_bytes e : nat := page_bytes_nat (bp_world (buffer_pool e)).

Record heap_ok e : Prop := {
  ho_opened : opened e = true;
  ho_store : page_store e = true;
  ho_ready : ready (buffer_pool e);
  ho_pages : Forall page_wf (heap_pages e);
  ho_config : ec_page_size (he_config e) = Z.of_nat (heap_page_bytes e);
  ho_size : 28 <= Z.of_nat (heap_page_bytes e) <= 65535;
}.

(** What every operation keeps. *)
Definition same_engine e e' : Prop :=
  he_config e' = he_config e /\ pstore (bp_world (buffer_pool e')) = pstore (bp_world (buffer_pool e)).

#[export] Instance same_engine_preorder : PreOrder same_engine.
Proof. unfold same_engine. split; [done|]. intros ??? [] []. split; congruence. Qed.

Lemma same_engine_bytes e e' : same_engine e e' -> heap_page_bytes e' = heap_page_bytes e.
Proof. unfold same_engine, heap_page_bytes, page_bytes_nat, page_size_of. by intros [_ ->]. Qed.

(** The engine around a new pool state. *)
Lemma heap_ok_pool e p :
  heap_ok e -> ready p -> Forall page_wf (logical p) ->
  pstore (bp_world p) = pstore (bp_world (buffer_pool e)) ->
  heap_ok (set_pool p e) /\ same_engine e (set_pool p e).
Proof.
  intros [] Hr Hp Hps.
  assert (Hs : same_engine e (set_pool p e)) by done.
  pose proof (same_engine_bytes _ _ Hs) as Hb. split; [|done]. split; rewrite ?Hb; done.
Qed.

Lemma set_pool_twice e p p' : set_pool p' (set_pool p e) = set_pool p' e.
Proof. done. Qed.
Lemma set_pool_pool e p : buffer_pool (set_pool p e) = p.
Proof. done. Qed.

Lemma on_pool_eq {A} (m : M (Pool S) A) e r p :
  m (buffer_pool e) = (r, p) -> on_pool m e = (r, set_pool p e).
Proof. unfold on_pool, zoom. by intros ->. Qed.

Lemma heap_check_open_ok e : heap_ok e -> heap_check_open e = (Ok tt, e).
Proof. intros Hok. unfold heap_check_open. by rewrite (ho_opened _ Hok), (ho_store _ Hok). Qed.

(** ** Working on a held page *)

Section holding_page.
Context (e : E) (h : FrameHandle) (id : Z) (f : Frame) (Hh : holding (buffer_pool e) h id f).

Lemma view_page_eq {A} (g : list byte -> Result A) : view_page h g e = (g (f_data f), e).
Proof using Hh.
  unfold view_page. erewrite bind_ok by (apply on_pool_eq; exact (handle_data_held _ _ _ _ Hh)).
  unfold liftR. f_equal. by destruct e.
Qed.

Lemma edit_page_holding {A} (m : M (list byte) A) r bs :
  m (f_data f) = (r, bs) -> length bs = heap_page_bytes e ->
  exists p', edit_page h m e = (r, set_pool p' e) /\ holding p' h id (set_frame_data bs f) /\
    bp_world p' = bp_world (buffer_pool e) /\ logical p' = <[Z.to_nat id := bs]> (heap_pages e).
Proof using Hh.
  intros Hm Hl. destruct (handle_write_holding _ _ _ _ bs Hh Hl) as (p' & Hw & Hh' & Hb & Hlg).
  exists p'. split_and!; try done. unfold edit_page.
  erewrite bind_ok by (apply on_pool_eq; exact (handle_data_held _ _ _ _ Hh)). rewrite Hm.
  erewrite bind_ok by (apply on_pool_eq; exact Hw). done.
Qed.

Lemma on_pool_unpin_holding dirty :
  dirty = true \/ synced (buffer_pool e) f ->
  exists p', on_pool (unpin h dirty) e = (Ok FrameHandle_released, set_pool p' e) /\ steady p' /\
    bp_world p' = bp_world (buffer_pool e) /\ logical p' = heap_pages e.
Proof using Hh.
  intros Hd. destruct (unpin_holding _ _ _ _ dirty Hh Hd) as (p' & Hu & Hr & Hb & Hl).
  exists p'. split_and!; try done. by apply on_pool_eq.
Qed.

Lemma or_unpin_view_ok {A} (g : list byte -> Result A) a :
  g (f_data f) = Ok a -> or_unpin h (view_page h g) e = (Ok a, e).
Proof using Hh.
  intros Hg. unfold or_unpin. erewrite bind_ok by (unfold attempt; by rewrite view_page_eq, Hg). done.
Qed.

Lemma or_unpin_edit_holding {A} (m : M (list byte) A) a bs :
  m (f_data f) = (Ok a, bs) -> length bs = heap_page_bytes e ->
  exists p', or_unpin h (edit_page h m) e = (Ok a, set_pool p' e) /\
    holding p' h id (set_frame_data bs f) /\ bp_world p' = bp_world (buffer_pool e) /\
    logical p' = <[Z.to_nat id := bs]> (heap_pages e).
Proof using Hh.
  intros Hm Hl. destruct (edit_page_holding m (Ok a) bs Hm Hl) as (p' & He & Hh' & Hb & Hlg).
  exists p'. split_and!; try done. unfold or_unpin.
  erewrite bind_ok by (unfold attempt; by rewrite He). done.
Qed.

(** A successful edit, after which the page is given back as dirty. *)
Lemma edit_and_unpin_holding {A} (m : M (list byte) A) a bs :
  m (f_data f) = (Ok a, bs) -> length bs = heap_page_bytes e ->
  exists p', steady p' /\ bp_world p' = bp_world (buffer_pool e) /\
    logical p' = <[Z.to_nat id := bs]> (heap_pages e) /\
    forall B (k : A -> M E B),
      (let* x := or_unpin h (edit_page h m) in let* _ := on_pool (unpin h true) in k x) e
        = k a (set_pool p' e).
Proof using Hh.
  intros Hm Hl. destruct (or_unpin_edit_holding m a bs Hm Hl) as (p1 & He & Hh1 & Hb1 & Hl1).
  destruct (unpin_holding _ _ _ _ true Hh1 ltac:(by left)) as (p2 & Hu & Hr & Hb2 & Hl2).
  exists p2. split_and!; [done|by rewrite Hb2|by rewrite Hl2|]. intros B k.
  erewrite bind_ok by exact He. erewrite bind_ok by (apply on_pool_eq; exact Hu). done.
Qed.

(** A failed edit that left the bytes alone gives the page back unchanged. *)
Lemma or_unpin_edit_err_holding {A} (m : M (list byte) A) er :
  synced (buffer_pool e) f -> m (f_data f) = (Err er, f_data f) ->
  exists p', or_unpin h (edit_page h m) e = (Err er, set_pool p' e) /\ steady p' /\
    bp_world p' = bp_world (buffer_pool e) /\ logical p' = heap_pages e.
Proof using Hh.
  intros Hs Hm.
  assert (Hfd : length (f_data f) = heap_page_bytes e).
  { eapply pw_data; [apply Hh|]. apply Hh. }
  destruct (edit_page_holding m (Err er) (f_data f) Hm Hfd) as (p1 & He & Hh1 & Hb1 & Hl1).
  assert (Hs1 : synced p1 (set_frame_data (f_data f) f))
    by (unfold synced, pdisk; rewrite Hb1; by destruct f).
  destruct (unpin_holding p1 h id _ false Hh1 (or_intror Hs1)) as (p2 & Hu & Hr & Hb2 & Hl2).
  exists p2. split_and!; [|done|by rewrite Hb2|].
  - unfold or_unpin. erewrite bind_ok by (unfold attempt; by rewrite He).
    unfold unpin_clean. erewrite bind_ok by (apply on_pool_eq; exact Hu). done.
  - rewrite Hl2, Hl1. apply list_insert_id.
    rewrite <- (hd_page _ _ _ _ Hh). eapply logical_resident; apply Hh.
Qed.
End holding_page.

(** The same on a healthy device, which stays healthy. *)
Section held_page.
Context (e : E) (h : FrameHandle) (id : Z) (f : Frame) (Hh : held (buffer_pool e) h id f).

Lemma ready_world p :
  steady p -> bp_world p = bp_world (buffer_pool e) -> ready p /\ same_base (buffer_pool e) p.
Proof using Hh.
  intros Hs Hw. destruct (same_world_base _ _ Hw) as [Hb Hg]. split; [|done]. split; [done|]. apply Hg, Hh.
Qed.

Lemma on_pool_unpin dirty :
  dirty = true \/ synced (buffer_pool e) f ->
  exists p', on_pool (unpin h dirty) e = (Ok FrameHandle_released, set_pool p' e) /\ ready p' /\
    same_base (buffer_pool e) p' /\ logical p' = heap_pages e.
Proof using Hh.
  intros Hd. destruct (on_pool_unpin_holding e h id f Hh dirty Hd) as (p' & Hu & Hs & Hw & Hl).
  exists p'. by destruct (ready_world p' Hs Hw).
Qed.

Lemma or_unpin_edit_ok {A} (m : M (list byte) A) a bs :
  m (f_data f) = (Ok a, bs) -> length bs = heap_page_bytes e ->
  exists p', or_unpin h (edit_page h m) e = (Ok a, set_pool p' e) /\
    held p' h id (set_frame_data bs f) /\ same_base (buffer_pool e) p' /\
    logical p' = <[Z.to_nat id := bs]> (heap_pages e).
Proof using Hh.
  intros Hm Hl. destruct (or_unpin_edit_holding e h id f Hh m a bs Hm Hl) as (p' & He & Hh' & Hw & Hlg).
  destruct (same_world_base _ _ Hw) as [Hb Hg]. exists p'. split_and!; try done.
  split; [done|]. apply Hg, Hh.
Qed.

Lemma edit_and_unpin {A} (m : M (list byte) A) a bs :
  m (f_data f) = (Ok a, bs) -> length bs = heap_page_bytes e ->
  exists p', ready p' /\ same_base (buffer_pool e) p' /\
    logical p' = <[Z.to_nat id := bs]> (heap_pages e) /\
    forall B (k : A -> M E B),
      (let* x := or_unpin h (edit_page h m) in let* _ := on_pool (unpin h true) in k x) e
        = k a (set_pool p' e).
Proof using Hh.
  intros Hm Hl. destruct (edit_and_unpin_holding e h id f Hh m a bs Hm Hl) as (p' & Hs & Hw & Hlg & Hrun).
  exists p'. by destruct (ready_world p' Hs Hw).
Qed.

Lemma or_unpin_edit_err {A} (m : M (list byte) A) er :
  synced (buffer_pool e) f -> m (f_data f) = (Err er, f_data f) ->
  exists p', or_unpin h (edit_page h m) e = (Err er, set_pool p' e) /\ ready p' /\
    same_base (buffer_pool e) p' /\ logical p' = heap_pages e.
Proof using Hh.
  intros Hsy Hm. destruct (or_unpin_edit_err_holding e h id f Hh m er Hsy Hm) as (p' & He & Hs & Hw & Hl).
  exists p'. by destruct (ready_world p' Hs Hw).
Qed.
End held_page.

Lemma heap_fetch e id :
  heap_ok e -> 0 <= id < Z.of_nat (length (heap_pages e)) ->
  exists h p f, on_pool (fetch id) e = (Ok h, set_pool p e) /\ held p h id f /\ synced p f /\
    same_base (buffer_pool e) p /\ logical p = heap_pages e /\
    heap_pages e !! Z.to_nat id = Some (f_data f) /\ page_wf (f_data f).
Proof.
  intros Hok Hid.
  destruct (fetch_ready _ id (ho_ready _ Hok) Hid) as (h & p & f & Hf & Hh & Hs & Hb & Hl & Hd).
  exists h, p, f. split_and!; try done; [by apply on_pool_eq|].
  by apply (Forall_lookup_1 _ _ _ _ (ho_pages _ Hok) Hd).
Qed.

Lemma heap_fetch_missing e id :
  heap_ok e -> Z.of_nat (length (heap_pages e)) <= id ->
  exists e', on_pool (fetch id) e = (Err PageNotFound, e') /\ heap_ok e' /\ same_engine e e' /\
    heap_pages e' = heap_pages e.
Proof.
  intros Hok Hid.
  destruct (fetch_missing _ id (ho_ready _ Hok) Hid) as (p & Hf & Hr & [Hb _] & Hl).
  exists (set_pool p e).
  destruct (heap_ok_pool e p Hok Hr) as [Hok' Hs]; [by rewrite Hl; apply Hok|done|].
  split_and!; try done. by apply on_pool_eq.
Qed.

Lemma heap_page_count e :
  heap_ok e ->
  exists e', on_heap_store page_count e = (Ok (Z.of_nat (length (heap_pages e))), e') /\
    heap_ok e' /\ same_engine e e' /\ heap_pages e' = heap_pages e /\
    Z.of_nat (length (heap_pages e)) < 2 ^ 63.
Proof.
  intros Hok. pose proof (ho_ready _ Hok) as Hr. set (p := buffer_pool e) in *.
  assert (Hso : store_ok (bp_world p)) by apply Hr.
  destruct (wp_total _ _ _ _ (page_count_wp (bp_world p) Hso)) as (n & w & Hc & Hs & -> & Hlt);
    [intros er w [_ Hg]; apply Hg, Hr|].
  destruct (same_store_kept p w (rd_wf _ Hr) (same_store_weaken _ _ Hs)) as [Hk Hd].
  assert (Hg' : pool_good (set_world w p)) by (eapply same_store_good; [exact Hs|apply Hr]).
  assert (Hr' : ready (set_world w p)).
  { split; [split; [apply Hk|by apply Hk, Hr|apply Hr]|done]. }
  assert (Hl : logical (set_world w p) = logical p) by (apply Hk, Hr).
  exists (set_pool (set_world w p) e).
  destruct (heap_ok_pool e (set_world w p) Hok Hr') as [Hok' Hse]; [rewrite Hl; apply Hok|apply Hs|].
  unfold heap_pages. rewrite length_logical. split_and!; try done.
  - apply on_pool_eq. unfold on_page_store, zoom. fold p. by rewrite Hc.
  - pose proof (so_page_size _ Hso). unfold p in *. fold (pdisk (buffer_pool e)) in Hlt. nia.
Qed.

(** ** Inserting *)

Definition fits (t : list byte) (pg : list byte) : bool := Z.of_nat (length t) + 4 <=? room pg.
Definition tuple_ok (t : list byte) : Prop := (0 < length t)%nat /\ Z.of_nat (length t) < 2 ^ 63.

(** Page [id] gained [t] in a new last slot. *)
Definition appended e e' (id : Z) (t : list byte) : Prop :=
  exists pg pg', heap_pages e !! Z.to_nat id = Some pg /\
    heap_pages e' = <[Z.to_nat id := pg']> (heap_pages e) /\
    page_tuples pg' = page_tuples pg ++ [Some t].

Lemma page_bytes_held e p h id f :
  holding p h id f -> same_base (buffer_pool e) p -> length (f_data f) = heap_page_bytes e.
Proof.
  intros Hh [Hps _]. unfold heap_page_bytes, page_bytes_nat, page_size_of. rewrite <- Hps.
  eapply pw_data; apply Hh.
Qed.

Lemma insert_existing_spec e id t :
  heap_ok e -> tuple_ok t -> 0 <= id < Z.of_nat (length (heap_pages e)) ->
  exists r e', insert_into_existing_page id t e = (Ok r, e') /\ heap_ok e' /\ same_engine e e' /\
    exists pg, heap_pages e !! Z.to_nat id = Some pg /\
      if fits t pg
      then r = Some {| t_page_id := id; t_slot_idx := Z.of_nat (length (page_tuples pg)) |} /\
           appended e e' id t
      else r = None /\ heap_pages e' = heap_pages e.
Proof.
  intros Hok Ht Hid.
  destruct (heap_fetch e id Hok Hid) as (h & p & f & Hf & Hh & Hsy & Hb & Hl & Hpg & Hwf).
  unfold insert_into_existing_page, fits. erewrite bind_ok by exact Hf.
  erewrite bind_ok.
  2: { apply (or_unpin_view_ok (set_pool p e) h id f Hh). apply can_insert_ok; [done|]. unfold tuple_ok in Ht. lia. }
  pose proof (page_bytes_held e p h id f Hh Hb) as Hlen.
  destruct (page_insert_spec (f_data f) t Hwf Ht) as (r & bs & Hins & Hwf' & Hbl & Hcase).
  destruct (Z.leb_spec (Z.of_nat (length t) + 4) (room (f_data f))) as [Hfit|Hno]; cbn [negb].
  - destruct Hcase as (-> & Htup & _).
    destruct (edit_and_unpin (set_pool p e) h id f Hh _ _ _ Hins) as (p2 & Hr2 & Hb2 & Hl2 & Hrun).
    { change (length bs = page_bytes_nat (bp_world p)). rewrite Hbl. eapply pw_data; apply Hh. }
    assert (Hlg : logical p2 = <[Z.to_nat id := bs]> (heap_pages e)).
    { rewrite Hl2. unfold heap_pages. by rewrite set_pool_pool, Hl. }
    destruct (heap_ok_pool e p2 Hok Hr2) as [Hok' Hse].
    { rewrite Hlg. apply Forall_insert; [apply Hok|done]. }
    { etrans; [apply Hb2|]. apply Hb. }
    eexists _, (set_pool p2 e). split_and!; [by rewrite Hrun|done|done|].
    exists (f_data f). split; [done|].
    destruct (Z.leb_spec (Z.of_nat (length t) + 4) (room (f_data f))); [|lia].
    split; [done|]. exists (f_data f), bs. done.
  - destruct (on_pool_unpin (set_pool p e) _ _ _ Hh false ltac:(by right)) as (p2 & Hu & Hr2 & Hb2 & Hl2).
    assert (Hlg : logical p2 = heap_pages e) by (rewrite Hl2; unfold heap_pages; by rewrite set_pool_pool, Hl).
    destruct (heap_ok_pool e p2 Hok Hr2) as [Hok' Hse].
    { rewrite Hlg. apply Hok. }
    { etrans; [apply Hb2|]. apply Hb. }
    eexists None, (set_pool p2 e). split_and!; [|done|done|].
    + erewrite bind_ok by exact Hu. done.
    + exists (f_data f). split; [done|]. destruct (Z.leb_spec (Z.of_nat (length t) + 4) (room (f_data f))); [lia|].
      done.
Qed.

(** The largest tuple an empty page takes. *)
Definition max_tuple e : Z := Z.of_nat (heap_page_bytes e) - 32.
(** The file can grow by a page. *)
Definition can_grow e : Prop :=
  (Z.of_nat (length (heap_pages e)) + 1) * Z.of_nat (heap_page_bytes e) <= io_limit.

Lemma heap_allocate e :
  heap_ok e -> can_grow e ->
  exists p w, on_heap_store allocate_page e
      = (Ok (Z.of_nat (length (heap_pages e))), set_pool p e) /\
    p = set_world w (buffer_pool e) /\ ready p /\
    pstore (bp_world p) = pstore (bp_world (buffer_pool e)) /\
    logical p = heap_pages e ++ [replicate (heap_page_bytes e) x00].
Proof.
  intros Hok Hgrow. pose proof (ho_ready _ Hok) as Hr. set (p := buffer_pool e) in *.
  assert (Hso : store_ok (bp_world p)) by apply Hr. unfold can_grow, heap_pages in Hgrow.
  rewrite length_logical in Hgrow. fold p in Hgrow.
  assert (Hps : Z.of_nat (heap_page_bytes e) = page_size_of (bp_world p)).
  { pose proof (so_page_size _ Hso). unfold heap_page_bytes, page_bytes_nat. fold p. lia. }
  rewrite Hps in Hgrow.
  destruct (wp_total _ _ _ _ (allocate_page_wp (bp_world p) Hso))
    as (id & w & Ha & Hok' & Hpst & -> & Hd & Hg).
  { intros er w (_ & _ & _ & Hlim). specialize (Hlim (rd_good _ Hr)). unfold pdisk in Hgrow. lia. }
  destruct (pool_grow p w _ (rd_wf _ Hr) Hok' Hpst Hd) as (Hwf' & Hc' & Hl').
  exists (set_world w p), w. split_and!; try done.
  - unfold heap_pages. rewrite length_logical. apply on_pool_eq. unfold on_page_store, zoom. fold p.
    by rewrite Ha.
  - split; [split; [done|apply Hc', Hr|apply Hr]|apply Hg, Hr].
Qed.

Lemma insert_new_too_large e t :
  heap_ok e -> tuple_ok t -> max_tuple e < Z.of_nat (length t) ->
  insert_into_new_page t e = (Err OutOfMemory, e).
Proof.
  intros Hok Ht Hlt. unfold insert_into_new_page, bindM, getM, tuple_ok, max_tuple in *.
  pose proof (ho_size _ Hok). rewrite (ho_config _ Hok).
  change (Z.of_nat PAGE_HEADER_SIZE) with 28. change (Z.of_nat SLOT_SIZE) with 4.
  rewrite !wrap64_small by lia. destruct (Z.ltb_spec (Z.of_nat (heap_page_bytes e) - 28) (Z.of_nat (length t) + 4));
    [done|lia].
Qed.

Lemma insert_new_spec e t :
  heap_ok e -> tuple_ok t -> Z.of_nat (length t) <= max_tuple e -> can_grow e ->
  exists e' pg, insert_into_new_page t e =
      (Ok {| t_page_id := Z.of_nat (length (heap_pages e)); t_slot_idx := 0 |}, e') /\
    heap_ok e' /\ same_engine e e' /\ heap_pages e' = heap_pages e ++ [pg] /\
    page_tuples pg = [Some t].
Proof.
  intros Hok Ht Hle Hgrow. pose proof (ho_size _ Hok) as Hsz. unfold insert_into_new_page, max_tuple in *.
  erewrite bind_ok by done. rewrite (ho_config _ Hok).
  change (Z.of_nat PAGE_HEADER_SIZE) with 28. change (Z.of_nat SLOT_SIZE) with 4.
  destruct Ht as [Hne Hmax]. rewrite !wrap64_small by lia.
  destruct (Z.ltb_spec (Z.of_nat (heap_page_bytes e) - 28) (Z.of_nat (length t) + 4)); [lia|].
  destruct (heap_allocate e Hok Hgrow) as (p & w & Ha & Hpw & Hr & Hps & Hl).
  erewrite bind_ok by exact Ha. set (id := Z.of_nat (length (heap_pages e))) in *.
  assert (Hpb : page_bytes_nat (bp_world p) = heap_page_bytes e).
  { unfold heap_page_bytes, page_bytes_nat, page_size_of. by rewrite Hps. }
  destruct (fetch_new_ready p id Hr) as (h & p1 & f & Hf & Hh & Hsy & Hb1 & Hl1 & Hd1).
  { rewrite Hl, length_app. cbn. lia. }
  rewrite Hpb in Hl1, Hd1.
  erewrite bind_ok by (apply on_pool_eq; exact Hf). rewrite set_pool_twice.
  assert (Hb1' : heap_page_bytes (set_pool p1 e) = heap_page_bytes e).
  { unfold heap_page_bytes. cbn. unfold page_bytes_nat, page_size_of in *. destruct Hb1 as [-> _]. done. }
  assert (Hfl : length (f_data f) = heap_page_bytes e) by (by rewrite Hd1, length_replicate).
  pose proof (initialize_eq (f_data f) id ltac:(lia) ltac:(lia)) as Hinit. rewrite Hfl in Hinit.
  destruct (fresh_page_spec (heap_page_bytes e) id ltac:(lia) ltac:(lia)) as (Hwf0 & Ht0 & Hroom0 & Hlen0).
  destruct (or_unpin_edit_ok (set_pool p1 e) h id f Hh _ _ _ Hinit) as (p2 & He2 & Hh2 & Hb2 & Hl2);
    [by rewrite Hb1'|].
  erewrite bind_ok by exact He2. rewrite set_pool_twice.
  destruct (page_insert_spec _ t Hwf0 (conj Hne Hmax)) as (r & bs & Hins & Hwf' & Hbl & Hcase).
  destruct (Z.leb_spec (Z.of_nat (length t) + 4) (room (fresh_page (heap_page_bytes e) id))); [|lia].
  destruct Hcase as (-> & Htup & _). rewrite Ht0 in Htup.
  destruct (edit_and_unpin (set_pool p2 e) h id _ Hh2 (page_insert_tuple t) _ _ Hins)
    as (p4 & Hr4 & Hb4 & Hl4 & Hrun).
  { rewrite Hbl, Hlen0. unfold heap_page_bytes. cbn. unfold page_bytes_nat, page_size_of.
    destruct Hb2 as [-> _]. exact (eq_sym Hb1'). }
  rewrite Hrun, set_pool_twice.
  assert (Hlg : logical p4 = heap_pages e ++ [bs]).
  { rewrite Hl4. unfold heap_pages at 1. rewrite set_pool_pool, Hl2. unfold heap_pages at 1.
    rewrite set_pool_pool, Hl1, Hl, !list_insert_insert_eq. unfold id. rewrite Nat2Z.id.
    rewrite insert_app_r_alt, Nat.sub_diag by lia. done. }
  destruct (heap_ok_pool e p4 Hok Hr4) as [Hok' Hse].
  { rewrite Hlg. apply Forall_app. split; [apply Hok|by apply Forall_singleton]. }
  { etrans; [apply Hb4|]. etrans; [apply Hb2|]. etrans; [apply Hb1|]. done. }
  exists (set_pool p4 e), bs. split_and!; done.
Qed.

(** Where the first-fit search puts a tuple. *)
Definition first_fit (t : list byte) (pages : list (list byte)) : option (nat * list byte) :=
  list_find (fun pg => fits t pg = true) pages.

Definition inserted e e' t (r : Result TupleId) : Prop :=
  match first_fit t (heap_pages e) with
  | Some (k, pg) =>
      r = Ok {| t_page_id := Z.of_nat k; t_slot_idx := Z.of_nat (length (page_tuples pg)) |} /\
      appended e e' (Z.of_nat k) t
  | None =>
      if max_tuple e <? Z.of_nat (length t)
      then r = Err OutOfMemory /\ heap_pages e' = heap_pages e
      else r = Ok {| t_page_id := Z.of_nat (length (heap_pages e)); t_slot_idx := 0 |} /\
           exists pg, heap_pages e' = heap_pages e ++ [pg] /\ page_tuples pg = [Some t]
  end.

Lemma same_pages_inserted e e1 e' t r :
  same_engine e e1 -> heap_pages e1 = heap_pages e -> inserted e1 e' t r -> inserted e e' t r.
Proof.
  intros Hs Hp. unfold inserted, appended, max_tuple. by rewrite (same_engine_bytes _ _ Hs), Hp.
Qed.

Lemma insert_loop_spec fuel e page_id t :
  heap_ok e -> tuple_ok t -> can_grow e ->
  0 <= page_id <= Z.of_nat (length (heap_pages e)) -> Z.of_nat (length (heap_pages e)) < 2 ^ 63 ->
  (forall k pg, (k < Z.to_nat page_id)%nat -> heap_pages e !! k = Some pg -> fits t pg = false) ->
  (Z.to_nat (Z.of_nat (length (heap_pages e)) - page_id) < fuel)%nat ->
  exists r e', insert_loop fuel page_id (Z.of_nat (length (heap_pages e))) t e = (r, e') /\
    heap_ok e' /\ same_engine e e' /\ inserted e e' t r.
Proof.
  revert e page_id. induction fuel as [|fuel IH]; intros e page_id Hok Ht Hg Hid Hmax Hskip Hfuel; [lia|].
  cbn [insert_loop]. destruct (Z.leb_spec (Z.of_nat (length (heap_pages e))) page_id) as [Hend|Hmore].
  - assert (Hnone : first_fit t (heap_pages e) = None).
    { apply list_find_None, Forall_lookup. intros k pg Hk. rewrite (Hskip k pg); [done| |done].
      apply lookup_lt_Some in Hk. lia. }
    unfold inserted. rewrite Hnone.
    destruct (Z.ltb_spec (max_tuple e) (Z.of_nat (length t))) as [Hlt|Hge].
    + rewrite insert_new_too_large by done. by exists (Err OutOfMemory), e.
    + destruct (insert_new_spec e t Hok Ht Hge Hg) as (e' & pg & Hrun & Hok' & Hs & Hp & Htp).
      eexists _, e'. split_and!; eauto.
  - destruct (insert_existing_spec e page_id t Hok Ht ltac:(lia))
      as (r & e1 & Hrun & Hok1 & Hs1 & pg & Hpg & Hcase).
    erewrite bind_ok by exact Hrun. destruct (fits t pg) eqn:Hfit.
    + destruct Hcase as [-> Happ]. eexists _, e1. split_and!; try done. unfold inserted.
      assert (Hfind : first_fit t (heap_pages e) = Some (Z.to_nat page_id, pg)).
      { apply list_find_Some. split_and!; [done|done|]. intros k pg' Hk Hlt. by rewrite (Hskip k pg'). }
      rewrite Hfind. rewrite Z2Nat.id by lia. done.
    + destruct Hcase as [-> Hsame].
      destruct (IH e1 (page_id + 1)) as (r & e2 & Hrun2 & Hok2 & Hs2 & Hins).
      * done.
      * done.
      * unfold can_grow in *. by rewrite Hsame, (same_engine_bytes _ _ Hs1).
      * rewrite Hsame. lia.
      * by rewrite Hsame.
      * rewrite Hsame. intros k pg' Hk Hkp. destruct (decide (k = Z.to_nat page_id)) as [->|Hne]; [congruence|].
        apply (Hskip k); [lia|done].
      * rewrite Hsame. lia.
      * rewrite Hsame in Hrun2. exists r, e2. rewrite wrap64_small by lia.
        split_and!; [done|done|by etrans|by eapply same_pages_inserted].
Qed.

Lemma heap_insert_wp e t :
  heap_ok e -> tuple_ok t -> can_grow e ->
  exists r e', heap_insert_tuple t e = (r, e') /\ heap_ok e' /\ same_engine e e' /\ inserted e e' t r.
Proof.
  intros Hok Ht Hg. unfold heap_insert_tuple.
  assert (Hne : (length t =? 0)%nat = false) by (apply Nat.eqb_neq; destruct Ht; lia).
  rewrite Hne. erewrite bind_ok by done.
  erewrite bind_ok by (by apply heap_check_open_ok).
  destruct (heap_page_count e Hok) as (e1 & Hc & Hok1 & Hs1 & Hp1 & Hmax).
  erewrite bind_ok by exact Hc. rewrite <- Hp1 in Hmax |- *.
  destruct (insert_loop_spec (Z.to_nat (Z.of_nat (length (heap_pages e1))) + 1) e1 0 t Hok1 Ht)
    as (r & e' & Hrun & Hok' & Hs' & Hins).
  - unfold can_grow in *. by rewrite Hp1, (same_engine_bytes _ _ Hs1).
  - lia.
  - done.
  - intros k pg Hk. lia.
  - lia.
  - exists r, e'. split_and!; [done|done|by etrans|]. by eapply same_pages_inserted.
Qed.

(** ** Deleting *)

Definition deleted e e' (id : TupleId) (r : Result unit) : Prop :=
  match heap_pages e !! Z.to_nat (t_page_id id) with
  | None => r = Err PageNotFound /\ heap_pages e' = heap_pages e
  | Some pg =>
      match page_tuples pg !! Z.to_nat (t_slot_idx id) with
      | None => r = Err InvalidArgument /\ heap_pages e' = heap_pages e
      | Some None => r = Err NotFound /\ heap_pages e' = heap_pages e
      | Some (Some _) =>
          r = Ok tt /\ exists pg', heap_pages e' = <[Z.to_nat (t_page_id id) := pg']> (heap_pages e) /\
            page_tuples pg' = <[Z.to_nat (t_slot_idx id) := None]> (page_tuples pg)
      end
  end.

Lemma heap_delete_wp e id :
  heap_ok e -> 0 <= t_page_id id -> 0 <= t_slot_idx id ->
  exists r e', heap_delete_tuple id e = (r, e') /\ heap_ok e' /\ same_engine e e' /\ deleted e e' id r.
Proof.
  intros Hok Hpid Hsid. unfold heap_delete_tuple, deleted.
  erewrite bind_ok by (by apply heap_check_open_ok).
  destruct (Z.lt_ge_cases (t_page_id id) (Z.of_nat (length (heap_pages e)))) as [Hlt|Hge].
  2: { destruct (heap_fetch_missing e (t_page_id id) Hok Hge) as (e' & Hf & Hok' & Hs & Hp).
       exists (Err PageNotFound), e'. unfold bindM. rewrite Hf, (lookup_ge_None_2 (heap_pages e)) by lia. done. }
  destruct (heap_fetch e (t_page_id id) Hok ltac:(lia)) as (h & p & f & Hf & Hh & Hsy & Hb & Hl & Hpg & Hwf).
  erewrite bind_ok by exact Hf. rewrite Hpg.
  destruct (page_delete_spec (f_data f) (t_slot_idx id) Hwf Hsid) as (r & bs & Hd & Hwf' & Hbl & _ & Hcase).
  assert (Herr : forall er, r = Err er /\ bs = f_data f ->
    exists r' e', (let* _ := or_unpin h (edit_page h (page_delete_tuple (t_slot_idx id))) in
                   let* _ := on_pool (unpin h true) in retM tt) (set_pool p e) = (r', e') /\
      heap_ok e' /\ same_engine e e' /\ r' = Err er /\ heap_pages e' = heap_pages e).
  { intros er [-> ->].
    destruct (or_unpin_edit_err (set_pool p e) h _ f Hh (page_delete_tuple (t_slot_idx id)) er Hsy Hd)
      as (p' & He & Hr & Hb' & Hl'). unfold heap_pages in Hl'. rewrite set_pool_pool, Hl in Hl'.
    destruct (heap_ok_pool e p' Hok Hr) as [Hok' Hs];
      [rewrite Hl'; apply Hok|etrans; [apply Hb'|apply Hb]|].
    exists (Err er), (set_pool p' e). unfold bindM at 1. rewrite He. split_and!; done. }
  destruct (page_tuples (f_data f) !! Z.to_nat (t_slot_idx id)) as [[old|]|]; [|by apply Herr..].
  destruct Hcase as [-> Htup].
  destruct (edit_and_unpin (set_pool p e) h _ f Hh _ _ _ Hd) as (p2 & Hr2 & Hb2 & Hl2 & Hrun).
  { change (length bs = page_bytes_nat (bp_world p)). rewrite Hbl. eapply pw_data; apply Hh. }
  unfold heap_pages in Hl2. rewrite set_pool_pool, Hl in Hl2.
  destruct (heap_ok_pool e p2 Hok Hr2) as [Hok' Hs].
  { rewrite Hl2. apply Forall_insert; [apply Hok|done]. }
  { etrans; [apply Hb2|apply Hb]. }
  exists (Ok tt), (set_pool p2 e). rewrite (Hrun unit (fun _ => retM tt)). split_and!; eauto.
Qed.

(** ** Scanning *)

Lemma land_mask_small v : 0 <= v < 2 ^ 32 -> Z.land v CURSOR_PAGE_MASK = v.
Proof.
  intros Hv. unfold CURSOR_PAGE_MASK. change 4294967295 with (Z.ones 32).
  rewrite Z.land_ones by lia. by apply Z.mod_small.
Qed.

Lemma cursor_roundtrip page slot :
  0 <= page < 2 ^ 32 -> 0 <= slot < 65536 ->
  cursor_page_id (encode_cursor page slot) = page /\ cursor_slot_idx (encode_cursor page slot) = slot.
Proof.
  intros Hp Hs. unfold cursor_page_id, cursor_slot_idx, encode_cursor, CURSOR_SLOT_BASE.
  rewrite (land_mask_small page) by done. rewrite !wrap64_small by (rewrite ?wrap64_small; lia).
  rewrite wrap16_mod. rewrite Z.div_add_l, Z.div_small, Z.add_0_r by lia.
  rewrite land_mask_small by done. split; [done|].
  rewrite Z.add_comm, Z_mod_plus_full. by rewrite !(Z.mod_small slot) by lia.
Qed.

Definition tuple_of (page slot : Z) (data : list byte) : Tuple :=
  {| tup_id := {| t_page_id := page; t_slot_idx := slot |}; tup_data := data |}.

(** The live tuples of the slots [ts] of a page, the first being slot [slot]. *)
Fixpoint live_slots (page slot : Z) (ts : list (option (list byte))) : list Tuple :=
  match ts with
  | [] => []
  | Some data :: ts => tuple_of page slot data :: live_slots page (slot + 1) ts
  | None :: ts => live_slots page (slot + 1) ts
  end.
Fixpoint live_pages (page : Z) (pgs : list (list byte)) : list Tuple :=
  match pgs with
  | [] => []
  | pg :: pgs => live_slots page 0 (page_tuples pg) ++ live_pages (page + 1) pgs
  end.
Definition all_tuples e : list Tuple := live_pages 0 (heap_pages e).

(** What a scan standing at [page], [slot] has still to return. *)
Definition remaining (pgs : list (list byte)) (page slot : Z) : list Tuple :=
  match drop (Z.to_nat page) pgs with
  | [] => []
  | pg :: rest =>
      live_slots page slot (drop (Z.to_nat slot) (page_tuples pg)) ++ live_pages (page + 1) rest
  end.

Lemma on_engine_eq {A} (m : M E A) hd e r e' : m e = (r, e') -> on_engine m (hd, e) = (r, (hd, e')).
Proof. unfold on_engine, zoom. cbn. by intros ->. Qed.

Section scan_page.
Context (e : E) (h : FrameHandle) (page : Z) (f : Frame).
Context (Hh : holding (buffer_pool e) h page f) (Hsy : synced (buffer_pool e) f)
  (Hwf : page_wf (f_data f)).
#[local] Abbreviation ts := (page_tuples (f_data f)).

Lemma scan_slot_eq hd slot :
  0 <= slot -> (Z.to_nat slot < length ts)%nat ->
  match ts !! Z.to_nat slot with
  | Some (Some data) =>
      exists p', scan_slot h page slot (hd, e) =
          (Ok (Some (tuple_of page slot data)), (encode_cursor page (wrap16 (slot + 1)), set_pool p' e)) /\
        steady p' /\ bp_world p' = bp_world (buffer_pool e) /\ logical p' = heap_pages e
  | _ => scan_slot h page slot (hd, e) = (Ok None, (hd, e))
  end.
Proof using Hh Hsy Hwf.
  intros Hs Hlt. unfold scan_slot.
  destruct (lookup_lt_is_Some_2 ts _ Hlt) as [o Ho]. rewrite Ho.
  pose proof (is_live_slot_ok (f_data f) slot Hwf Hs) as Hlive. rewrite Ho in Hlive.
  erewrite bind_ok by (apply on_engine_eq, (or_unpin_view_ok e h page f Hh); exact Hlive).
  destruct o as [data|]; [|done]. cbn [negb].
  pose proof (page_read_tuple_ok (f_data f) slot Hwf Hs) as Hread. rewrite Ho in Hread.
  destruct (on_pool_unpin_holding e h page f Hh false (or_intror Hsy)) as (p' & Hu & Hr & Hb & Hl).
  exists p'. split_and!; try done.
  change (negb (bool_decide (is_Some (Some data)))) with false. cbn match.
  erewrite bind_ok by (apply on_engine_eq, (or_unpin_view_ok e h page f Hh); exact Hread).
  erewrite bind_ok by done. erewrite bind_ok by (apply on_engine_eq; exact Hu). done.
Qed.

(** The inner loop stops at the first live slot, or runs off the end. *)
Lemma scan_slots_eq fuel hd slot :
  0 <= slot -> (Z.to_nat (Z.of_nat (length ts) - slot) < fuel)%nat ->
  Z.of_nat (length ts) < 65536 ->
  match live_slots page slot (drop (Z.to_nat slot) ts) with
  | [] => scan_slots fuel h page slot (Z.of_nat (length ts)) (hd, e) = (Ok None, (hd, e))
  | tup :: rest =>
      exists s p', scan_slots fuel h page slot (Z.of_nat (length ts)) (hd, e) =
          (Ok (Some tup), (encode_cursor page s, set_pool p' e)) /\
        steady p' /\ bp_world p' = bp_world (buffer_pool e) /\ logical p' = heap_pages e /\
        0 <= s < 65536 /\ rest = live_slots page s (drop (Z.to_nat s) ts)
  end.
Proof using Hh Hsy Hwf.
  revert slot. induction fuel as [|fuel IH]; intros slot Hs Hfuel Hmax; [lia|].
  cbn [scan_slots]. destruct (Z.leb_spec (Z.of_nat (length ts)) slot) as [Hend|Hmore].
  { rewrite drop_ge by lia. done. }
  assert (Hlt : (Z.to_nat slot < length ts)%nat) by lia.
  pose proof (scan_slot_eq hd slot Hs Hlt) as Hslot.
  destruct (lookup_lt_is_Some_2 ts _ Hlt) as [o Ho]. rewrite Ho in Hslot.
  rewrite (drop_S _ _ _ Ho).
  assert (Hnext : Datatypes.S (Z.to_nat slot) = Z.to_nat (slot + 1)) by lia. rewrite Hnext.
  assert (Hw : wrap16 (slot + 1) = slot + 1) by (rewrite wrap16_mod; apply Z.mod_small; lia).
  rewrite Hw in *. destruct o as [data|]; cbn [live_slots].
  - destruct Hslot as (p' & Hrun & Hr & Hb & Hl). exists (slot + 1), p'.
    erewrite bind_ok by exact Hrun. split_and!; try done; lia.
  - erewrite bind_ok by exact Hslot. apply IH; lia.
Qed.
End scan_page.

Lemma remaining_page_start pgs page :
  0 <= page -> remaining pgs page 0 = live_pages page (drop (Z.to_nat page) pgs).
Proof. intros Hp. unfold remaining. by destruct (drop (Z.to_nat page) pgs). Qed.

Lemma remaining_split pgs page slot pg :
  0 <= page -> pgs !! Z.to_nat page = Some pg ->
  remaining pgs page slot =
    live_slots page slot (drop (Z.to_nat slot) (page_tuples pg)) ++ remaining pgs (page + 1) 0.
Proof.
  intros Hp Hpg. rewrite remaining_page_start by lia. unfold remaining. rewrite (drop_S _ _ _ Hpg).
  do 3 f_equal. lia.
Qed.

Definition cursor_ok (page slot : Z) : Prop := 0 <= page < 2 ^ 32 /\ 0 <= slot < 65536.

(** One step of a scan: the next tuple, if any, and a cursor past it. *)
Definition scanned e e' (hd' : ScanHandle) (todo : list Tuple) (r : Result (option Tuple)) : Prop :=
  heap_ok e' /\ same_engine e e' /\ heap_pages e' = heap_pages e /\
  exists page' slot', hd' = encode_cursor page' slot' /\ cursor_ok page' slot' /\
    match todo with
    | [] => r = Ok None /\ remaining (heap_pages e) page' slot' = []
    | tup :: rest => r = Ok (Some tup) /\ remaining (heap_pages e) page' slot' = rest
    end.

Lemma scanned_trans e e1 e' hd' todo r :
  same_engine e e1 -> heap_pages e1 = heap_pages e -> scanned e1 e' hd' todo r -> scanned e e' hd' todo r.
Proof.
  unfold scanned. intros Hs Hp (Hok & Hs1 & Hp1 & Hrest). rewrite Hp in *.
  split_and!; [done|by etrans|done|done].
Qed.

Lemma scan_pages_spec fuel e page slot :
  heap_ok e -> Z.of_nat (length (heap_pages e)) < 2 ^ 32 -> cursor_ok page slot ->
  (Z.to_nat (Z.of_nat (length (heap_pages e)) - page) < fuel)%nat ->
  exists r hd' e', scan_pages fuel page (Z.of_nat (length (heap_pages e))) (encode_cursor page slot, e)
      = (r, (hd', e')) /\ scanned e e' hd' (remaining (heap_pages e) page slot) r.
Proof.
  revert e page slot. induction fuel as [|fuel IH]; intros e page slot Hok Hcnt [Hp Hs] Hfuel; [lia|].
  cbn [scan_pages]. destruct (Z.leb_spec (Z.of_nat (length (heap_pages e))) page) as [Hend|Hmore].
  { exists (Ok None), (encode_cursor page slot), e. split; [done|].
    assert (Hnil : remaining (heap_pages e) page slot = []) by (unfold remaining; by rewrite drop_ge by lia).
    unfold scanned. rewrite Hnil. split_and!; try done. by exists page, slot. }
  destruct (heap_fetch e page Hok ltac:(lia)) as (h & p & f & Hf & Hh & Hsy & Hb & Hl & Hpg & Hwf).
  erewrite bind_ok by (apply on_engine_eq; exact Hf).
  erewrite bind_ok by (apply on_engine_eq, (or_unpin_view_ok (set_pool p e) h page f Hh); by apply slot_count_ok).
  erewrite bind_ok by done. cbn [fst]. destruct (cursor_roundtrip page slot Hp Hs) as [Hcp Hcs].
  rewrite Hcp, Hcs, Z.eqb_refl.
  pose proof (page_count_range _ Hwf). pose proof (pg_size _ Hwf).
  assert (Hc : count_of (f_data f) = Z.of_nat (length (page_tuples (f_data f))))
    by (rewrite length_page_tuples; lia). rewrite Hc.
  pose proof (scan_slots_eq (set_pool p e) h page f Hh Hsy Hwf
    (Z.to_nat (Z.of_nat (length (page_tuples (f_data f))) - slot) + 1)
    (encode_cursor page slot) slot ltac:(lia) ltac:(lia) ltac:(lia)) as Hslots.
  rewrite (remaining_split _ page slot _ ltac:(lia) Hpg). destruct (live_slots page slot _) as [|tup rest].
  - destruct (on_pool_unpin (set_pool p e) h page f Hh false (or_intror Hsy)) as (p1 & Hu & Hr1 & Hb1 & Hl1).
    unfold heap_pages in Hl1. rewrite set_pool_pool, Hl in Hl1.
    destruct (heap_ok_pool e p1 Hok Hr1) as [Hok1 Hse1];
      [rewrite Hl1; apply Hok|etrans; [apply Hb1|apply Hb]|].
    destruct (IH (set_pool p1 e) (page + 1) 0) as (r & hd' & e' & Hrun & Hsc).
    + done.
    + unfold heap_pages. by rewrite set_pool_pool, Hl1.
    + split; lia.
    + unfold heap_pages. rewrite set_pool_pool, Hl1. lia.
    + change (heap_pages (set_pool p1 e)) with (logical p1) in Hrun, Hsc. rewrite Hl1 in Hrun, Hsc.
      exists r, hd', e'. erewrite bind_ok by exact Hslots. cbn match.
      erewrite bind_ok by (apply on_engine_eq; exact Hu). rewrite wrap64_small by lia.
      erewrite bind_ok by done. split; [exact Hrun|]. by eapply scanned_trans.
  - destruct Hslots as (s & p' & Hrun & Hst & Hw & Hl' & Hs' & ->).
    destruct (ready_world (set_pool p e) h page f Hh p' Hst Hw) as [Hr Hb'].
    unfold heap_pages in Hl'. rewrite set_pool_pool, Hl in Hl'.
    destruct (heap_ok_pool e p' Hok Hr) as [Hok' Hse']; [rewrite Hl'; apply Hok|etrans; [apply Hb'|apply Hb]|].
    exists (Ok (Some tup)), (encode_cursor page s), (set_pool p' e).
    erewrite bind_ok by exact Hrun. split; [done|]. unfold scanned. split_and!; try done.
    exists page, s. split_and!; try done. by rewrite (remaining_split _ page s _ ltac:(lia) Hpg).
Qed.

Lemma heap_scan_next_spec e page slot :
  heap_ok e -> Z.of_nat (length (heap_pages e)) < 2 ^ 32 -> cursor_ok page slot ->
  exists r hd' e', heap_scan_next (encode_cursor page slot, e) = (r, (hd', e')) /\
    scanned e e' hd' (remaining (heap_pages e) page slot) r.
Proof.
  intros Hok Hcnt Hcur. unfold heap_scan_next.
  erewrite bind_ok by (apply on_engine_eq; by apply heap_check_open_ok).
  destruct (heap_page_count e Hok) as (e1 & Hc & Hok1 & Hs1 & Hp1 & Hmax).
  erewrite bind_ok by (apply on_engine_eq; exact Hc). erewrite bind_ok by done. cbn [fst].
  destruct Hcur as [Hp Hs]. destruct (cursor_roundtrip page slot Hp Hs) as [-> _].
  rewrite <- Hp1. rewrite <- Hp1 in Hcnt.
  destruct (scan_pages_spec (Z.to_nat (Z.of_nat (length (heap_pages e1)) - page) + 1) e1 page slot
    Hok1 Hcnt (conj Hp Hs) ltac:(lia)) as (r & hd' & e' & Hrun & Hsc).
  exists r, hd', e'. split; [exact Hrun|]. by eapply scanned_trans.
Qed.

(** The client's loop: [begin_scan], then [scan_next] until it returns nothing. *)
Fixpoint scan_rest (fuel : nat) (st : ScanHandle * E) : Result (list Tuple) * (ScanHandle * E) :=
  match fuel with
  | O => (Fault, st)
  | Datatypes.S fuel =>
      match heap_scan_next st with
      | (Ok None, st) => (Ok [], st)
      | (Ok (Some t), st) => let '(r, st) := scan_rest fuel st in
                             (let? ts := r in Ok (t :: ts), st)
      | (Err er, st) => (Err er, st)
      | (Fault, st) => (Fault, st)
      end
  end.
Definition scan_all (fuel : nat) (e : E) : Result (list Tuple) * E :=
  match heap_begin_scan e with
  | (Ok hd, e) => let '(r, (hd, e)) := scan_rest fuel (hd, e) in (r, e)
  | (Err er, e) => (Err er, e)
  | (Fault, e) => (Fault, e)
  end.

Lemma scan_rest_spec fuel e page slot :
  heap_ok e -> Z.of_nat (length (heap_pages e)) < 2 ^ 32 -> cursor_ok page slot ->
  (length (remaining (heap_pages e) page slot) < fuel)%nat ->
  exists hd' e', scan_rest fuel (encode_cursor page slot, e) =
      (Ok (remaining (heap_pages e) page slot), (hd', e')) /\
    heap_ok e' /\ same_engine e e' /\ heap_pages e' = heap_pages e.
Proof.
  revert e page slot. induction fuel as [|fuel IH]; intros e page slot Hok Hcnt Hcur Hfuel; [lia|].
  cbn [scan_rest].
  destruct (heap_scan_next_spec e page slot Hok Hcnt Hcur)
    as (r & hd' & e1 & Hrun & Hok1 & Hs1 & Hp1 & page' & slot' & -> & Hcur' & Hcase).
  rewrite Hrun. destruct (remaining (heap_pages e) page slot) as [|tup rest].
  - destruct Hcase as [-> _]. by exists (encode_cursor page' slot'), e1.
  - destruct Hcase as [-> Hrest]. rewrite <- Hp1 in Hrest.
    destruct (IH e1 page' slot' Hok1) as (hd2 & e2 & Hrun2 & Hok2 & Hs2 & Hp2).
    + by rewrite Hp1.
    + done.
    + rewrite Hrest. cbn in Hfuel. lia.
    + rewrite Hrun2. cbn [bindR]. rewrite Hrest. exists hd2, e2.
      split_and!; [done|done|by etrans|by rewrite Hp2].
Qed.

Lemma scan_all_spec e fuel :
  heap_ok e -> Z.of_nat (length (heap_pages e)) < 2 ^ 32 -> (length (all_tuples e) < fuel)%nat ->
  exists e', scan_all fuel e = (Ok (all_tuples e), e') /\ heap_ok e' /\ same_engine e e' /\
    heap_pages e' = heap_pages e.
Proof.
  intros Hok Hcnt Hfuel. unfold scan_all, heap_begin_scan, bindM.
  rewrite heap_check_open_ok by done. unfold retM.
  assert (Hrem : remaining (heap_pages e) 0 0 = all_tuples e)
    by (by rewrite remaining_page_start by lia).
  destruct (scan_rest_spec fuel e 0 0 Hok Hcnt) as (hd' & e' & Hrun & Hok' & Hs' & Hp').
  - split; lia.
  - by rewrite Hrem.
  - rewrite Hrun, Hrem. by exists e'.
Qed.
End specification.
