(* ===== verification/HeapEngineProps.v ===== *)
(** * HeapEngineProps: the heap engine as a map from tuple ids to tuples *)
From S2P Require Import Prelude Utils StorageIO PageStore EvictionPolicy PolicyFactory BufferPool.
From S2P Require Import BufferPoolSpec BufferPoolClient HeapPage HeapEngine HeapEngineSpec.

Section tuples.
Context {S : Type} `{StorageIOLaws S}.
#[local] Abbreviation E := (HeapEngine S).
Implicit Types (e : E) (t : list byte).

Definition pages_lookup_tuple (pgs : list (list byte)) (id : TupleId) : option (list byte) :=
  if (0 <=? t_page_id id) && (0 <=? t_slot_idx id)
  then pg ← pgs !! Z.to_nat (t_page_id id); mjoin (page_tuples pg !! Z.to_nat (t_slot_idx id))
  else None.
Definition heap_lookup e (id : TupleId) : option (list byte) := pages_lookup_tuple (heap_pages e) id.

(** ** The order of a scan *)

Lemma elem_of_live_slots tup page slot ts :
  tup ∈ live_slots page slot ts <->
  exists i data, ts !! i = Some (Some data) /\ tup = tuple_of page (slot + Z.of_nat i) data.
Proof.
  revert slot. induction ts as [|o ts IH]; intros slot; cbn [live_slots].
  { split; [by intros ?%elem_of_nil|]. by intros (i & data & Hi & _). }
  assert (Hcons : tup ∈ live_slots page (slot + 1) ts <->
    exists i data, (o :: ts) !! Datatypes.S i = Some (Some data) /\
      tup = tuple_of page (slot + Z.of_nat (Datatypes.S i)) data).
  { rewrite IH. cbn. setoid_rewrite (ltac:(lia) : forall i, slot + 1 + Z.of_nat i = slot + Z.of_nat (Datatypes.S i)).
    done. }
  destruct o as [data|]; [rewrite elem_of_cons|]; rewrite Hcons; split.
  - intros [->|(i & d & Hi & ->)]; [exists 0%nat, data; rewrite Z.add_0_r; done|eauto].
  - intros ([|i] & d & Hi & ->); [left|right; eauto]. injection Hi as <-. by rewrite Z.add_0_r.
  - intros (i & d & Hi & ->). eauto.
  - intros ([|i] & d & Hi & ->); [done|eauto].
Qed.

Lemma elem_of_live_pages tup page pgs :
  tup ∈ live_pages page pgs <->
  exists n pg i data, pgs !! n = Some pg /\ page_tuples pg !! i = Some (Some data) /\
    tup = tuple_of (page + Z.of_nat n) (Z.of_nat i) data.
Proof.
  revert page. induction pgs as [|pg pgs IH]; intros page; cbn [live_pages].
  { split; [by intros ?%elem_of_nil|]. by intros (n & pg & i & data & Hn & _). }
  rewrite elem_of_app, elem_of_live_slots, IH. split.
  - intros [(i & data & Hi & ->)|(n & pg' & i & data & Hn & Hi & ->)].
    + exists 0%nat, pg, i, data. by rewrite Z.add_0_r.
    + exists (Datatypes.S n), pg', i, data. split_and!; try done. f_equal. lia.
  - intros ([|n] & pg' & i & data & Hn & Hi & ->).
    + injection Hn as <-. left. exists i, data. by rewrite Z.add_0_r.
    + right. exists n, pg', i, data. split_and!; try done. f_equal. lia.
Qed.

Lemma elem_of_all_tuples e tup :
  tup ∈ all_tuples e <-> heap_lookup e (tup_id tup) = Some (tup_data tup).
Proof.
  unfold all_tuples, heap_lookup, pages_lookup_tuple. rewrite elem_of_live_pages. split.
  - intros (n & pg & i & data & Hn & Hi & ->). cbn [tuple_of tup_id tup_data t_page_id t_slot_idx].
    rewrite Z.add_0_l, !(proj2 (Z.leb_le _ _)), !Nat2Z.id by lia. cbn. rewrite Hn. cbn. by rewrite Hi.
  - destruct tup as [[page slot] data]. cbn.
    destruct (Z.leb_spec 0 page); [|done]. destruct (Z.leb_spec 0 slot); [|done]. cbn.
    destruct (heap_pages e !! Z.to_nat page) as [pg|] eqn:Hpg; [|done]. cbn.
    destruct (page_tuples pg !! Z.to_nat slot) as [[d|]|] eqn:Hs; cbn; [|done..]. intros [= ->].
    exists (Z.to_nat page), pg, (Z.to_nat slot), data. split_and!; try done.
    unfold tuple_of. by rewrite Z.add_0_l, !Z2Nat.id by lia.
Qed.

Lemma NoDup_live_slots page slot ts : NoDup (tup_id <$> live_slots page slot ts).
Proof.
  revert slot. induction ts as [|[data|] ts IH]; intros slot; cbn; [apply NoDup_nil_2| |done].
  apply NoDup_cons. split; [|done]. rewrite list_elem_of_fmap. intros (tup & Hid & Htup).
  apply elem_of_live_slots in Htup as (i & d & _ & ->). cbn in Hid. injection Hid. lia.
Qed.

Lemma NoDup_live_pages page pgs : NoDup (tup_id <$> live_pages page pgs).
Proof.
  revert page. induction pgs as [|pg pgs IH]; intros page; cbn [live_pages]; [apply NoDup_nil_2|].
  rewrite fmap_app. apply NoDup_app. split_and!; [apply NoDup_live_slots| |done].
  intros id Hid1 Hid2. apply list_elem_of_fmap in Hid1 as (t1 & -> & Ht1).
  apply list_elem_of_fmap in Hid2 as (t2 & Heq & Ht2).
  apply elem_of_live_slots in Ht1 as (i1 & d1 & _ & ->).
  apply elem_of_live_pages in Ht2 as (n & pg2 & i2 & d2 & _ & _ & ->).
  cbn in Heq. injection Heq. lia.
Qed.

(** ** The effect of the operations on the map *)

Lemma lookup_replace_page pgs k pg pg' id :
  pgs !! k = Some pg ->
  pages_lookup_tuple (<[k := pg']> pgs) id =
    if decide (t_page_id id = Z.of_nat k)
    then (if 0 <=? t_slot_idx id then mjoin (page_tuples pg' !! Z.to_nat (t_slot_idx id)) else None)
    else pages_lookup_tuple pgs id.
Proof.
  intros Hk. unfold pages_lookup_tuple. destruct id as [page slot]. cbn.
  assert (Hlt : (k < length pgs)%nat) by (by eapply lookup_lt_Some).
  destruct (Z.leb_spec 0 page); cbn; case_decide as Hd; try lia.
  - subst page. rewrite Nat2Z.id. destruct (0 <=? slot); [|done]. by rewrite list_lookup_insert_eq.
  - destruct (0 <=? slot); [|done]. by rewrite list_lookup_insert_ne by lia.
  - done.
Qed.

Lemma lookup_appended e e' k pg t :
  heap_pages e !! k = Some pg -> appended e e' (Z.of_nat k) t ->
  let id := {| t_page_id := Z.of_nat k; t_slot_idx := Z.of_nat (length (page_tuples pg)) |} in
  heap_lookup e id = None /\
  forall id', heap_lookup e' id' = if decide (id' = id) then Some t else heap_lookup e id'.
Proof.
  intros Hk (pg0 & pg' & Hpg0 & Hpages & Htup) id. rewrite Nat2Z.id in *. simplify_eq.
  assert (Hold : forall slot, pages_lookup_tuple (heap_pages e) {| t_page_id := Z.of_nat k; t_slot_idx := slot |}
    = if 0 <=? slot then mjoin (page_tuples pg !! Z.to_nat slot) else None).
  { intros slot. unfold pages_lookup_tuple. cbn. rewrite (proj2 (Z.leb_le 0 (Z.of_nat k))) by lia. cbn.
    rewrite Nat2Z.id. destruct (0 <=? slot); [|done]. by rewrite Hk. }
  unfold heap_lookup. split.
  - unfold id. rewrite Hold, (proj2 (Z.leb_le _ _)), Nat2Z.id by lia.
    by rewrite lookup_ge_None_2 by done.
  - intros [page slot]. rewrite Hpages, (lookup_replace_page _ k pg) by done. cbn [t_page_id t_slot_idx].
    destruct (decide (page = Z.of_nat k)) as [->|Hne]; [|by rewrite decide_False by (unfold id; congruence)].
    rewrite Hold, Htup. destruct (Z.leb_spec 0 slot) as [Hs|Hs].
    2: { rewrite decide_False; [done|]. unfold id. intros [= ->]. lia. }
    destruct (decide (slot = Z.of_nat (length (page_tuples pg)))) as [->|Hns].
    + rewrite decide_True by done. by rewrite Nat2Z.id, lookup_app_r, Nat.sub_diag by lia.
    + rewrite decide_False by (unfold id; congruence).
      destruct (decide (Z.to_nat slot < length (page_tuples pg))%nat).
      * by rewrite lookup_app_l.
      * rewrite !lookup_ge_None_2; [done|lia|]. rewrite length_app. cbn. lia.
Qed.

Lemma lookup_new_page e e' pg t :
  heap_pages e' = heap_pages e ++ [pg] -> page_tuples pg = [Some t] ->
  let id := {| t_page_id := Z.of_nat (length (heap_pages e)); t_slot_idx := 0 |} in
  heap_lookup e id = None /\
  forall id', heap_lookup e' id' = if decide (id' = id) then Some t else heap_lookup e id'.
Proof.
  intros Hpages Htup id. unfold heap_lookup, pages_lookup_tuple. split.
  - unfold id. cbn [t_page_id t_slot_idx]. rewrite (proj2 (Z.leb_le _ _)), Nat2Z.id by lia. cbn.
    by rewrite lookup_ge_None_2 by done.
  - intros [page slot]. cbn [t_page_id t_slot_idx]. rewrite Hpages.
    destruct (Z.leb_spec 0 page) as [Hp|Hp].
    2: { cbn. rewrite decide_False; [done|]. unfold id. intros [= -> _]. lia. }
    destruct (Z.leb_spec 0 slot) as [Hs|Hs].
    2: { cbn. rewrite decide_False; [done|]. unfold id. intros [= _ ->]. lia. }
    cbn. destruct (decide (page = Z.of_nat (length (heap_pages e)))) as [->|Hne].
    + rewrite Nat2Z.id, lookup_app_r, Nat.sub_diag by lia. cbn. rewrite Htup.
      rewrite (lookup_ge_None_2 (heap_pages e)) by lia. cbn.
      destruct (decide (slot = 0)) as [->|Hns]; [by rewrite decide_True|].
      rewrite decide_False by (unfold id; congruence).
      rewrite lookup_ge_None_2; [done|cbn; lia].
    + rewrite decide_False by (unfold id; congruence).
      destruct (decide (Z.to_nat page < length (heap_pages e))%nat).
      * by rewrite lookup_app_l.
      * rewrite !lookup_ge_None_2; [done|lia|]. rewrite length_app. cbn. lia.
Qed.

(** A tuple larger than an empty page fits nowhere. *)
Lemma room_bound pg : page_wf pg -> room pg <= Z.of_nat (length pg) - 28.
Proof.
  intros Hwf. pose proof (pg_free _ Hwf). pose proof (pg_start _ Hwf). pose proof (page_count_range _ Hwf).
  unfold room. lia.
Qed.

Lemma heap_page_length e pg n : heap_ok e -> heap_pages e !! n = Some pg -> length pg = heap_page_bytes e.
Proof.
  intros Hok Hn. pose proof (ho_ready _ Hok) as Hr. unfold heap_pages in Hn. rewrite logical_lookup in Hn.
  destruct (pdisk (buffer_pool e) !! n) as [d|] eqn:Hd; [|done]. cbn in Hn. injection Hn as <-.
  unfold cached. destruct (find_index _ _ _) as [i|]; cbn.
  - destruct (frames (buffer_pool e) !! i) as [f|] eqn:Hf; cbn.
    + by eapply (pw_data _ (rd_wf _ Hr)).
    + by apply (Forall_lookup_1 _ _ _ _ (disk_Forall _) Hd).
  - by apply (Forall_lookup_1 _ _ _ _ (disk_Forall _) Hd).
Qed.

Lemma first_fit_too_large e t :
  heap_ok e -> max_tuple e < Z.of_nat (length t) -> first_fit t (heap_pages e) = None.
Proof.
  intros Hok Hlt. apply list_find_None, Forall_lookup. intros n pg Hn Hfit.
  unfold fits in Hfit. apply Z.leb_le in Hfit.
  pose proof (room_bound pg (Forall_lookup_1 _ _ _ _ (ho_pages _ Hok) Hn)).
  rewrite (heap_page_length e pg n Hok Hn) in *. unfold max_tuple in Hlt. lia.
Qed.

Lemma insert_lookup e t :
  heap_ok e -> tuple_ok t -> can_grow e -> Z.of_nat (length t) <= max_tuple e ->
  exists id e', heap_insert_tuple t e = (Ok id, e') /\ heap_ok e' /\ same_engine e e' /\
    0 <= t_page_id id /\ 0 <= t_slot_idx id /\
    heap_lookup e id = None /\
    forall id', heap_lookup e' id' = if decide (id' = id) then Some t else heap_lookup e id'.
Proof.
  intros Hok Ht Hg Hle. destruct (heap_insert_wp e t Hok Ht Hg) as (r & e' & Hrun & Hok' & Hs & Hins).
  unfold inserted in Hins. destruct (first_fit t (heap_pages e)) as [[k pg]|] eqn:Hfit.
  - apply list_find_Some in Hfit as (Hk & _ & _). destruct Hins as [-> Happ].
    eexists _, e'. split_and!; [exact Hrun|done|done|cbn; lia|cbn; lia|..]; by eapply lookup_appended.
  - destruct (Z.ltb_spec (max_tuple e) (Z.of_nat (length t))); [lia|].
    destruct Hins as (-> & pg & Hpages & Htup).
    eexists _, e'. split_and!; [exact Hrun|done|done|cbn; lia|cbn; lia|..]; by eapply lookup_new_page.
Qed.

Lemma insert_too_large e t :
  heap_ok e -> tuple_ok t -> can_grow e -> max_tuple e < Z.of_nat (length t) ->
  exists e', heap_insert_tuple t e = (Err OutOfMemory, e') /\ heap_ok e' /\ same_engine e e' /\
    heap_pages e' = heap_pages e.
Proof.
  intros Hok Ht Hg Hlt. destruct (heap_insert_wp e t Hok Ht Hg) as (r & e' & Hrun & Hok' & Hs & Hins).
  unfold inserted in Hins. rewrite first_fit_too_large in Hins by done.
  destruct (Z.ltb_spec (max_tuple e) (Z.of_nat (length t))); [|lia].
  destruct Hins as [-> Hp]. by exists e'.
Qed.

(** Clearing one live slot removes one entry. *)
Lemma lookup_deleted (pgs : list (list byte)) id pg old pg' :
  0 <= t_page_id id -> 0 <= t_slot_idx id ->
  pgs !! Z.to_nat (t_page_id id) = Some pg -> page_tuples pg !! Z.to_nat (t_slot_idx id) = Some (Some old) ->
  page_tuples pg' = <[Z.to_nat (t_slot_idx id) := None]> (page_tuples pg) ->
  forall id', pages_lookup_tuple (<[Z.to_nat (t_page_id id) := pg']> pgs) id' =
    if decide (id' = id) then None else pages_lookup_tuple pgs id'.
Proof using Type.
  intros Hp Hs Hpg Hslot Htup [page slot].
  rewrite (lookup_replace_page _ _ pg) by done. destruct id as [pid sid]. cbn [t_page_id t_slot_idx] in *.
  rewrite Z2Nat.id by done. destruct (decide (page = pid)) as [->|Hne].
  2: { by rewrite decide_False by congruence. }
  rewrite Htup. destruct (Z.leb_spec 0 slot) as [Hsl|Hsl].
  2: { rewrite decide_False by (intros [= ->]; lia). unfold pages_lookup_tuple. cbn.
       destruct (Z.leb_spec 0 slot); [lia|]. by rewrite andb_false_r. }
  destruct (decide (slot = sid)) as [->|Hns].
  - rewrite decide_True by done. rewrite list_lookup_insert_eq; [done|]. by eapply lookup_lt_Some.
  - rewrite decide_False by congruence. rewrite list_lookup_insert_ne by lia.
    unfold pages_lookup_tuple. cbn. rewrite !(proj2 (Z.leb_le _ _)) by done. cbn. by rewrite Hpg.
Qed.

Lemma delete_lookup e id :
  heap_ok e -> 0 <= t_page_id id -> 0 <= t_slot_idx id ->
  exists r e', heap_delete_tuple id e = (r, e') /\ heap_ok e' /\ same_engine e e' /\
    length (heap_pages e') = length (heap_pages e) /\
    match heap_lookup e id with
    | Some _ => r = Ok tt /\
        forall id', heap_lookup e' id' = if decide (id' = id) then None else heap_lookup e id'
    | None => (r = Err PageNotFound \/ r = Err InvalidArgument \/ r = Err NotFound) /\
        heap_pages e' = heap_pages e
    end.
Proof.
  intros Hok Hp Hs. destruct (heap_delete_wp e id Hok Hp Hs) as (r & e' & Hrun & Hok' & Hse & Hdel).
  exists r, e'. split; [done|]. split; [done|]. split; [done|].
  unfold deleted in Hdel. unfold heap_lookup, pages_lookup_tuple at 1.
  rewrite !(proj2 (Z.leb_le _ _)) by done. cbn [andb].
  destruct (heap_pages e !! Z.to_nat (t_page_id id)) as [pg|] eqn:Hpg; cbn [mbind option_bind].
  2: { destruct Hdel as [-> Hsame]. rewrite Hsame. auto. }
  destruct (page_tuples pg !! Z.to_nat (t_slot_idx id)) as [[old|]|] eqn:Hslot; cbn [mjoin option_join].
  2,3: destruct Hdel as [-> Hsame]; rewrite Hsame; by auto.
  destruct Hdel as (-> & pg' & Hpages & Htup). rewrite Hpages, length_insert.
  split; [done|split; [done|]]. by eapply lookup_deleted.
Qed.
End tuples.

(** C12: [insert_tuple] adds exactly one entry to the heap.  On a healthy device
    with space to grow, a non-empty tuple that fits an empty page is stored under
    an id that was free; every other id keeps its tuple.  (The search over the
    existing pages terminates: the result is never a fault.) *)
Theorem heap_insert_adds {S} `{StorageIOLaws S} (e : HeapEngine S) (t : list byte) :
  heap_ok e -> tuple_ok t -> can_grow e -> Z.of_nat (length t) <= max_tuple e ->
  exists id e', heap_insert_tuple t e = (Ok id, e') /\ heap_ok e' /\
    heap_lookup e id = None /\
    forall id', heap_lookup e' id' = if decide (id' = id) then Some t else heap_lookup e id'.
Proof.
  intros Hok Ht Hg Hle. destruct (insert_lookup e t Hok Ht Hg Hle)
    as (id & e' & Hrun & Hok' & _ & _ & _ & Hnone & Hall). exists id, e'. by split_and!.
Qed.

(** C15: [delete_tuple] removes exactly the tuple it names.  If the id is live the
    call succeeds and only that id disappears; otherwise it reports
    [PageNotFound], [InvalidArgument] or [NotFound] and no page changes. *)
Theorem heap_delete_removes {S} `{StorageIOLaws S} (e : HeapEngine S) (id : TupleId) :
  heap_ok e -> 0 <= t_page_id id -> 0 <= t_slot_idx id ->
  exists r e', heap_delete_tuple id e = (r, e') /\ heap_ok e' /\
    match heap_lookup e id with
    | Some _ => r = Ok tt /\
        forall id', heap_lookup e' id' = if decide (id' = id) then None else heap_lookup e id'
    | None => (r = Err PageNotFound \/ r = Err InvalidArgument \/ r = Err NotFound) /\
        heap_pages e' = heap_pages e
    end.
Proof.
  intros Hok Hp Hs. destruct (delete_lookup e id Hok Hp Hs) as (r & e' & Hrun & Hok' & _ & _ & Hcase).
  exists r, e'. by split_and!.
Qed.

(** C13: a full scan returns every live tuple exactly once.  [begin_scan] followed
    by [scan_next] until it is exhausted terminates after one call per live tuple
    and one more, and the tuples it returned are, id for id, those of the heap,
    each id once, with nothing changed. *)
Theorem heap_scan_complete {S} `{StorageIOLaws S} (e : HeapEngine S) (fuel : nat) :
  heap_ok e -> Z.of_nat (length (heap_pages e)) < 2 ^ 32 -> (length (all_tuples e) < fuel)%nat ->
  exists ts e', scan_all fuel e = (Ok ts, e') /\ heap_ok e' /\ heap_pages e' = heap_pages e /\
    NoDup (tup_id <$> ts) /\
    forall id data, {| tup_id := id; tup_data := data |} ∈ ts <-> heap_lookup e id = Some data.
Proof.
  intros Hok Hcnt Hfuel. destruct (scan_all_spec e fuel Hok Hcnt Hfuel) as (e' & Hrun & Hok' & _ & Hp).
  exists (all_tuples e), e'. split_and!; try done; [apply NoDup_live_pages|].
  intros id data. apply elem_of_all_tuples.
Qed.

(** Opening runs no transfer: it works on any device and whatever the file holds. *)
Lemma heap_open_steady {S} `{StorageIOLaws S} (w : StoreW S) (cfg : EngineConfig) :
  store_ok w -> ec_page_size cfg = page_size_of w -> 28 <= page_size_of w <= 65535 -> 0 < buffer_pool_pages cfg ->
  exists e, open_engine 0 EmptyString cfg w = Ok e /\ opened e = true /\ page_store e = true /\
    steady (buffer_pool e) /\ heap_pages e = disk w /\ he_config e = cfg /\ bp_world (buffer_pool e) = w /\
    ec_page_size (he_config e) = Z.of_nat (heap_page_bytes e) /\ 28 <= Z.of_nat (heap_page_bytes e) <= 65535.
Proof.
  intros Hok Hcfg Hsz Hcap. unfold open_engine, heap_open.
  set (pcfg := {| capacity_pages := buffer_pool_pages cfg; eviction := buffer_eviction cfg |}).
  destruct (wp_total _ _ _ _ (pool_open_wp (buffer_pool (HeapEngine_new w)) pcfg Hok Hcap))
    as ([] & p & Ho & Hwf & Hc & Hq & Hw & Hl & _); [by intros ?? []|].
  erewrite bind_ok.
  2: { unfold assertM, liftR, edb_assert. rewrite (proj2 (Z.ltb_lt 0 (ec_page_size cfg))) by lia. done. }
  erewrite bind_ok by done.
  set (e0 := {| page_store := true; he_config := cfg; buffer_pool := buffer_pool (HeapEngine_new w);
                opened := opened (HeapEngine_new w) |}).
  assert (Ho' : on_pool (pool_open pcfg) e0 = (Ok tt, set_pool p e0)) by (by apply on_pool_eq).
  erewrite bind_ok by (unfold attempt; by rewrite Ho'). cbn [bindR modifyM].
  eexists. split; [done|]. unfold heap_pages, heap_page_bytes. cbn.
  assert (Hpb : Z.of_nat (page_bytes_nat (bp_world p)) = page_size_of w)
    by (rewrite Hw; unfold page_bytes_nat; cbn [HeapEngine_new buffer_pool bp_world]; lia).
  rewrite Hpb. split_and!; done || lia || by split.
Qed.

Lemma heap_open_spec {S} `{StorageIOLaws S} (w : StoreW S) (cfg : EngineConfig) :
  store_ok w -> good w -> Forall page_wf (disk w) ->
  ec_page_size cfg = page_size_of w -> 28 <= page_size_of w <= 65535 -> 0 < buffer_pool_pages cfg ->
  exists e, open_engine 0 EmptyString cfg w = Ok e /\ heap_ok e /\ heap_pages e = disk w /\
    he_config e = cfg /\ bp_world (buffer_pool e) = w.
Proof.
  intros Hok Hg Hp Hcfg Hsz Hcap.
  destruct (heap_open_steady w cfg Hok Hcfg Hsz Hcap) as (e & Ho & Hop & Hst & Hs & Hpg & Hc & Hw & Hps & Hz).
  exists e. split_and!; try done. split; try done; [|by rewrite Hpg].
  split; [done|]. unfold pool_good. by rewrite Hw.
Qed.

Lemma heap_close_spec {S} `{StorageIOLaws S} (e : HeapEngine S) :
  heap_ok e ->
  exists e', heap_close e = (Ok tt, e') /\ opened e' = false /\
    store_ok (bp_world (buffer_pool e')) /\ good (bp_world (buffer_pool e')) /\
    pstore (bp_world (buffer_pool e')) = pstore (bp_world (buffer_pool e)) /\
    disk (bp_world (buffer_pool e')) = heap_pages e.
Proof.
  intros Hok. pose proof (ho_ready _ Hok) as Hr.
  destruct (wp_total _ _ _ _ (pool_close_wp _ (rd_wf _ Hr) (rd_clean _ Hr) (rd_quiescent _ Hr)))
    as ([] & p & Hc & _ & Hso & Hd & Hps & Hg); [intros er q [_ Hng]; apply Hng, Hr|].
  unfold heap_close. erewrite bind_ok by done. rewrite (ho_opened _ Hok). cbn [negb].
  erewrite bind_ok by (unfold attempt; by rewrite (on_pool_eq _ _ _ _ Hc)).
  erewrite bind_ok by done. eexists. split; [done|]. cbn. split_and!; try done. apply Hg, Hr.
Qed.

(** C14: what the engine stored survives a close and a reopen.  Closing writes
    every page back; an engine opened on the same store, with any pool size and
    replacement policy, holds exactly the same tuples under the same ids. *)
Theorem heap_reopen_preserves {S} `{StorageIOLaws S} (e : HeapEngine S) (pool_pages : Z)
    (policy : EvictionPolicyConfig) :
  heap_ok e -> 0 < pool_pages ->
  exists e1 e2, heap_close e = (Ok tt, e1) /\
    open_engine 0 EmptyString
      {| ec_page_size := ec_page_size (he_config e); buffer_pool_pages := pool_pages;
         buffer_eviction := policy |} (bp_world (buffer_pool e1)) = Ok e2 /\
    heap_ok e2 /\ forall id, heap_lookup e2 id = heap_lookup e id.
Proof.
  intros Hok Hpp. destruct (heap_close_spec e Hok) as (e1 & Hc & _ & Hso & Hg & Hps & Hd).
  assert (Hsz : page_size_of (bp_world (buffer_pool e1)) = Z.of_nat (heap_page_bytes e)).
  { pose proof (so_page_size _ Hso). unfold heap_page_bytes, page_bytes_nat, page_size_of in *.
    rewrite Hps in *. lia. }
  pose proof (ho_size _ Hok). pose proof (ho_config _ Hok) as Hcfg.
  edestruct (heap_open_spec (bp_world (buffer_pool e1))
    {| ec_page_size := ec_page_size (he_config e); buffer_pool_pages := pool_pages;
       buffer_eviction := policy |} Hso Hg) as (e2 & Ho & Hok2 & Hp2 & _ & _).
  - rewrite Hd. apply Hok.
  - cbn. by rewrite Hsz.
  - rewrite Hsz. lia.
  - done.
  - exists e1, e2. split_and!; try done. intros id. unfold heap_lookup. by rewrite Hp2, Hd.
Qed.

(** ** Witnesses: a heap of 48-byte pages on an empty device *)

Definition empty_store (page_size : Z) : StoreW MemDev.t :=
  {| pstore := {| ps_io := true; ps_config := {| cfg_page_size := page_size |} |};
     device := {| MemDev.bytes := []; MemDev.faults := [] |} |}.
Definition example_engine_config : EngineConfig :=
  {| ec_page_size := 48; buffer_pool_pages := 2; buffer_eviction := EvictionPolicyConfig_default |}.
Definition example_engine : HeapEngine MemDev.t :=
  match open_engine 0 EmptyString example_engine_config (empty_store 48) with
  | Ok e => e
  | _ => HeapEngine_new (empty_store 48)
  end.
(** Three tuples; the third needs a second page. *)
Definition example_tuples : list (list byte) := [[x01; x02]; [x03]; replicate 12 x07].
Definition filled_engine : HeapEngine MemDev.t :=
  foldl (fun e t => (heap_insert_tuple t e).2) example_engine example_tuples.

Lemma empty_store_ok : store_ok (empty_store 48).
Proof. split; [done|cbn; lia|done]. Qed.
Lemma empty_store_good : good (empty_store 48).
Proof. split; [done|]. by vm_compute. Qed.

Lemma example_engine_ok : heap_ok example_engine /\ same_engine example_engine example_engine.
Proof.
  destruct (heap_open_spec (empty_store 48) example_engine_config empty_store_ok empty_store_good)
    as (e & Ho & Hok & _); [apply Forall_nil; done|done|cbn; lia|cbn; lia|].
  unfold example_engine. rewrite Ho. by split.
Qed.

Lemma example_can_grow (e : HeapEngine MemDev.t) :
  (length (heap_pages e) <= 5)%nat -> (heap_page_bytes e <= 96)%nat -> can_grow e.
Proof.
  intros Hl Hb. unfold can_grow. change io_limit with (2 ^ 62).
  assert (Z.of_nat (length (heap_pages e)) <= 5 /\ Z.of_nat (heap_page_bytes e) <= 96) as [? ?] by lia.
  nia.
Qed.

Ltac run_example := vm_compute; repeat split; try discriminate; try reflexivity; repeat constructor.

Lemma filled_step (e : HeapEngine MemDev.t) t :
  heap_ok e -> (0 < length t)%nat -> Z.of_nat (length t) < 2 ^ 63 -> Z.of_nat (length t) <= max_tuple e ->
  (length (heap_pages e) <= 5)%nat -> (heap_page_bytes e <= 96)%nat ->
  heap_ok (heap_insert_tuple t e).2.
Proof.
  intros Hok Hl Hm Hmax Hp Hb.
  destruct (insert_lookup e t Hok (conj Hl Hm) (example_can_grow e Hp Hb) Hmax) as (id & e' & Hrun & Hok' & _).
  by rewrite Hrun.
Qed.

Lemma filled_engine_ok : heap_ok filled_engine.
Proof.
  unfold filled_engine, example_tuples. cbn [foldl].
  repeat (apply filled_step; [|by run_example..]). apply example_engine_ok.
Qed.

Lemma heap_insert_adds_witness :
  exists id e', heap_insert_tuple [x09] filled_engine = (Ok id, e') /\ heap_ok e' /\
    heap_lookup e' id = Some [x09] /\
    heap_lookup e' {| t_page_id := 1; t_slot_idx := 0 |} = Some (replicate 12 x07).
Proof.
  assert (Ht : tuple_ok [x09]) by (split; cbn; lia).
  assert (Hg : can_grow filled_engine) by (apply example_can_grow; by run_example).
  assert (Hm : Z.of_nat (length [x09]) <= max_tuple filled_engine) by run_example.
  destruct (heap_insert_adds filled_engine [x09] filled_engine_ok Ht Hg Hm)
    as (id & e' & Hrun & Hok & Hnone & Hall).
  exists id, e'. split; [exact Hrun|]. split; [exact Hok|]. split.
  - rewrite Hall. by rewrite decide_True.
  - rewrite Hall. rewrite decide_False; [by vm_compute|]. intros Heq. rewrite <- Heq in Hnone.
    by vm_compute in Hnone.
Defined.

Lemma heap_delete_removes_witness :
  exists e', heap_delete_tuple {| t_page_id := 0; t_slot_idx := 1 |} filled_engine = (Ok tt, e') /\
    heap_ok e' /\ heap_lookup e' {| t_page_id := 0; t_slot_idx := 1 |} = None /\
    heap_lookup e' {| t_page_id := 0; t_slot_idx := 0 |} = Some [x01; x02].
Proof.
  destruct (heap_delete_removes filled_engine {| t_page_id := 0; t_slot_idx := 1 |} filled_engine_ok
    ltac:(cbn; lia) ltac:(cbn; lia)) as (r & e' & Hrun & Hok & Hcase).
  assert (Hlk : heap_lookup filled_engine {| t_page_id := 0; t_slot_idx := 1 |} = Some [x03]) by (by vm_compute).
  rewrite Hlk in Hcase. destruct Hcase as [-> Hall].
  exists e'. split; [exact Hrun|]. split; [exact Hok|]. rewrite !Hall. split; [done|].
  rewrite decide_False by done. by vm_compute.
Defined.

Lemma heap_scan_complete_witness :
  exists ts e', scan_all 4 filled_engine = (Ok ts, e') /\ tup_data <$> ts = example_tuples /\
    NoDup (tup_id <$> ts).
Proof.
  destruct (heap_scan_complete filled_engine 4 filled_engine_ok) as (ts & e' & Hrun & _ & _ & Hnd & _);
    [by run_example|by run_example|].
  exists ts, e'. split; [exact Hrun|]. split; [|exact Hnd].
  assert (Hts : (scan_all 4 filled_engine).1 = Ok ts) by (by rewrite Hrun).
  vm_compute in Hts. injection Hts as <-. by vm_compute.
Defined.

Lemma heap_reopen_preserves_witness :
  exists e1 e2, heap_close filled_engine = (Ok tt, e1) /\
    open_engine 0 EmptyString
      {| ec_page_size := 48; buffer_pool_pages := 1;
         buffer_eviction := {| kind := EvictionPolicy.LruK; lru_k_history := 2 |} |}
      (bp_world (buffer_pool e1)) = Ok e2 /\
    heap_lookup e2 {| t_page_id := 1; t_slot_idx := 0 |} = Some (replicate 12 x07).
Proof.
  destruct (heap_reopen_preserves filled_engine 1
    {| kind := EvictionPolicy.LruK; lru_k_history := 2 |} filled_engine_ok ltac:(lia))
    as (e1 & e2 & Hc & Ho & _ & Hlk).
  exists e1, e2. split; [exact Hc|]. split; [exact Ho|]. rewrite Hlk. by vm_compute.
Defined.

(** An update that cannot be stored loses the tuple.  [update_tuple] deletes
    first and inserts second, so when the new tuple does not fit a page the call
    reports [OutOfMemory] and the old tuple is gone. *)
Theorem heap_update_loses_tuple :
  heap_lookup filled_engine {| t_page_id := 0; t_slot_idx := 0 |} = Some [x01; x02] /\
  (heap_update_tuple {| t_page_id := 0; t_slot_idx := 0 |} (replicate 40 x05) filled_engine).1
    = Err OutOfMemory /\
  heap_lookup (heap_update_tuple {| t_page_id := 0; t_slot_idx := 0 |} (replicate 40 x05)
    filled_engine).2 {| t_page_id := 0; t_slot_idx := 0 |} = None.
Proof. vm_compute. done. Qed.

(** ** A damaged page *)

(** A page of zeros whose header counts 65535 slots. *)
Definition damaged_page : list byte := replicate 6 x00 ++ [xff; xff] ++ replicate 40 x00.
Definition damaged_engine : HeapEngine MemDev.t :=
  let w := {| pstore := {| ps_io := true; ps_config := {| cfg_page_size := 48 |} |};
              device := {| MemDev.bytes := damaged_page; MemDev.faults := [] |} |} in
  match open_engine 0 EmptyString example_engine_config w with
  | Ok e => e
  | _ => HeapEngine_new w
  end.

(** A damaged slot count is not detected.  An engine opens a file whose only
    page counts more slots than it has room for; a scan then walks the slot
    directory past the end of the page instead of reporting [Corruption]. *)
Theorem damaged_page_read_outside :
  opened damaged_engine = true /\
  (heap_scan_next (encode_cursor 0 0, damaged_engine)).1 = Fault /\
  (heap_delete_tuple {| t_page_id := 0; t_slot_idx := 9 |} damaged_engine).1 = Fault.
Proof. by vm_compute. Qed.
