(* ===== verification/HeapConcurrent.v ===== *)
(** * HeapConcurrent: the heap engine called from several threads

    The methods of src/src/storage/engine/heap/heap_engine.cpp under
    [EdbHeapEngine::latch], one access to the buffer pool or the page store at a
    time.  [update_tuple] takes no latch of its own: it is a client that calls
    [delete_tuple] and then [insert_tuple].  [open] and [close] run before the
    threads start and after they end. *)
From S2P Require Import Prelude Utils StorageIO PageStore EvictionPolicy PolicyFactory BufferPool.
From S2P Require Import HeapPage HeapEngine Latch.

Section bodies.
Context {S : Type} `{StorageIO S}.
#[local] Abbreviation E := (HeapEngine S).
#[local] Abbreviation ES := (ScanHandle * HeapEngine S)%type.

(** ** heap_engine.cpp, access by access *)

Definition or_unpin_code {T A} (unpin : Code T (Result FrameHandle)) (c : Code T (Result A)) :
    Code T (Result A) :=
  code* r := attemptC c in
  match r with
  | Ok a => Done (Ok a)
  | Err er => code* _ := unpin in Done (Err er)
  | Fault => Done Fault
  end.

Definition insert_into_existing_page_code (page_id : Z) (tuple : list byte) :
    Code E (Result (option TupleId)) :=
  code* frame := act (on_pool (fetch page_id)) in
  code* can_fit := or_unpin_code (act (unpin_clean frame))
    (act (view_page frame (fun p => can_insert p (Z.of_nat (length tuple))))) in
  if negb can_fit then
    code* _ := act (on_pool (unpin frame false)) in Done (Ok None)
  else
    code* slot := or_unpin_code (act (unpin_clean frame))
      (act (edit_page frame (page_insert_tuple tuple))) in
    code* _ := act (on_pool (unpin frame true)) in
    Done (Ok (Some {| t_page_id := page_id; t_slot_idx := slot |})).

Definition insert_into_new_page_code (tuple : list byte) : Code E (Result TupleId) :=
  code* config := act (getM he_config) in
  let page_capacity := wrap64 (ec_page_size config - Z.of_nat PAGE_HEADER_SIZE) in
  if page_capacity <? wrap64 (Z.of_nat (length tuple) + Z.of_nat SLOT_SIZE) then Done (Err OutOfMemory)
  else
    code* allocated := act (on_heap_store allocate_page) in
    code* frame := act (on_pool (fetch_new allocated)) in
    code* _ := or_unpin_code (act (unpin_clean frame)) (act (edit_page frame (initialize_page allocated))) in
    code* slot := or_unpin_code (act (unpin_clean frame)) (act (edit_page frame (page_insert_tuple tuple))) in
    code* _ := act (on_pool (unpin frame true)) in
    Done (Ok {| t_page_id := allocated; t_slot_idx := slot |}).

Fixpoint insert_loop_code (fuel : nat) (page_id count : Z) (tuple : list byte) : Code E (Result TupleId) :=
  match fuel with
  | O => Done Fault
  | Datatypes.S fuel =>
      if count <=? page_id then insert_into_new_page_code tuple
      else
        code* inserted := insert_into_existing_page_code page_id tuple in
        match inserted with
        | Some id => Done (Ok id)
        | None => insert_loop_code fuel (wrap64 (page_id + 1)) count tuple
        end
  end.

Definition insert_tuple_code (tuple : list byte) : Code E (Result TupleId) :=
  code* _ := Done (edb_assert (negb (length tuple =? 0)%nat)) in
  code* _ := act heap_check_open in
  code* count := act (on_heap_store page_count) in
  insert_loop_code (Z.to_nat count + 1) 0 count tuple.

Definition delete_tuple_code (id : TupleId) : Code E (Result unit) :=
  code* _ := act heap_check_open in
  code* handle := act (on_pool (fetch (t_page_id id))) in
  code* _ := or_unpin_code (act (unpin_clean handle)) (act (edit_page handle (page_delete_tuple (t_slot_idx id)))) in
  code* _ := act (on_pool (unpin handle true)) in
  Done (Ok tt).

Definition begin_scan_code : Code E (Result ScanHandle) :=
  code* _ := act heap_check_open in Done (Ok (encode_cursor 0 0)).

Definition scan_slot_code (frame : FrameHandle) (page_id slot_idx : Z) : Code ES (Result (option Tuple)) :=
  code* live := or_unpin_code (act (on_engine (unpin_clean frame)))
    (act (on_engine (view_page frame (fun p => is_live_slot p slot_idx)))) in
  if negb live then Done (Ok None)
  else
    code* data := or_unpin_code (act (on_engine (unpin_clean frame)))
      (act (on_engine (view_page frame (fun p => page_read_tuple p slot_idx)))) in
    code* _ := act (set_handle (encode_cursor page_id (wrap16 (slot_idx + 1)))) in
    code* _ := act (on_engine (unpin_clean frame)) in
    Done (Ok (Some {| tup_id := {| t_page_id := page_id; t_slot_idx := slot_idx |}; tup_data := data |})).

Fixpoint scan_slots_code (fuel : nat) (frame : FrameHandle) (page_id slot_idx slots : Z) :
    Code ES (Result (option Tuple)) :=
  match fuel with
  | O => Done Fault
  | Datatypes.S fuel =>
      if slots <=? slot_idx then Done (Ok None)
      else
        code* tuple := scan_slot_code frame page_id slot_idx in
        match tuple with
        | Some t => Done (Ok (Some t))
        | None => scan_slots_code fuel frame page_id (wrap16 (slot_idx + 1)) slots
        end
  end.

Fixpoint scan_pages_code (fuel : nat) (page_id count : Z) : Code ES (Result (option Tuple)) :=
  match fuel with
  | O => Done Fault
  | Datatypes.S fuel =>
      if count <=? page_id then Done (Ok None)
      else
        code* frame := act (on_engine (on_pool (fetch page_id))) in
        code* slots := or_unpin_code (act (on_engine (unpin_clean frame)))
          (act (on_engine (view_page frame slot_count))) in
        code* handle := act (getM fst) in
        let slot_idx := if page_id =? cursor_page_id handle then cursor_slot_idx handle else 0 in
        code* tuple := scan_slots_code (Z.to_nat (slots - slot_idx) + 1) frame page_id slot_idx slots in
        match tuple with
        | Some t => Done (Ok (Some t))
        | None =>
            code* _ := act (on_engine (unpin_clean frame)) in
            code* _ := act (set_handle (encode_cursor (wrap64 (page_id + 1)) 0)) in
            scan_pages_code fuel (wrap64 (page_id + 1)) count
        end
  end.

Definition scan_next_code : Code ES (Result (option Tuple)) :=
  code* _ := act (on_engine heap_check_open) in
  code* count := act (on_engine (on_heap_store page_count)) in
  code* handle := act (getM fst) in
  let start := cursor_page_id handle in
  scan_pages_code (Z.to_nat (count - start) + 1) start count.

Definition end_scan_code : Code ES (Result unit) := act heap_end_scan.

(** ** Uninterrupted, the accesses are the methods of the sequential engine *)

Lemma body_or_unpin {A} h c (m : M E A) : body c m -> body (or_unpin_code (act (unpin_clean h)) c) (or_unpin h m).
Proof. intros Hc. unfold or_unpin_code, or_unpin. apply body_bind; [auto with code|]. intros [a|er|]; auto with code. Qed.

Lemma on_engine_bind {A B} (m : M E A) (k : A -> M E B) st :
  on_engine (bindM m k) st = bindM (on_engine m) (fun a => on_engine (k a)) st.
Proof. unfold on_engine, zoom, bindM. destruct st as [hd e]. cbn. by destruct (m e) as [[a|er|] e']. Qed.

Lemma body_or_unpin_scan {A} h (m : M E A) :
  body (or_unpin_code (act (on_engine (unpin_clean h))) (act (on_engine m))) (on_engine (or_unpin h m)).
Proof.
  intros [hd e]. unfold or_unpin_code, or_unpin. rewrite run_bind, on_engine_bind. unfold bindM at 1 2.
  unfold attemptC. rewrite run_map. cbn.
  unfold on_engine, zoom, attempt. cbn. destruct (m e) as [[a|er|] e'] eqn:Hm; cbn; rewrite ?Hm; try done.
  unfold bindM, unpin_clean. cbn. by destruct (on_pool (unpin h false) e') as [[h'|er'|] e''].
Qed.

#[local] Hint Resolve body_or_unpin body_or_unpin_scan : code.

Lemma body_insert_existing page_id t :
  body (insert_into_existing_page_code page_id t) (insert_into_existing_page page_id t).
Proof. unfold insert_into_existing_page_code, insert_into_existing_page. bodies. Qed.

Lemma body_insert_new t : body (insert_into_new_page_code t) (insert_into_new_page t).
Proof. unfold insert_into_new_page_code, insert_into_new_page. bodies. Qed.

#[local] Hint Resolve body_insert_existing body_insert_new : code.

Lemma body_insert_loop fuel page_id count t :
  body (insert_loop_code fuel page_id count t) (insert_loop fuel page_id count t).
Proof.
  revert page_id. induction fuel as [|fuel IH]; intros page_id; cbn [insert_loop_code insert_loop]; bodies.
Qed.

#[local] Hint Resolve body_insert_loop : code.

Lemma body_insert t : body (insert_tuple_code t) (heap_insert_tuple t).
Proof. unfold insert_tuple_code, heap_insert_tuple, assertM. bodies. Qed.
Lemma body_delete id : body (delete_tuple_code id) (heap_delete_tuple id).
Proof. unfold delete_tuple_code, heap_delete_tuple. bodies. Qed.
Lemma body_begin : body begin_scan_code heap_begin_scan.
Proof. unfold begin_scan_code, heap_begin_scan. bodies. Qed.

Lemma body_scan_slot h page_id slot : body (scan_slot_code h page_id slot) (scan_slot h page_id slot).
Proof. unfold scan_slot_code, scan_slot. bodies. Qed.

#[local] Hint Resolve body_scan_slot : code.

Lemma body_scan_slots fuel h page_id slot slots :
  body (scan_slots_code fuel h page_id slot slots) (scan_slots fuel h page_id slot slots).
Proof.
  revert slot. induction fuel as [|fuel IH]; intros slot; cbn [scan_slots_code scan_slots]; bodies.
Qed.

#[local] Hint Resolve body_scan_slots : code.

Lemma body_scan_pages fuel page_id count :
  body (scan_pages_code fuel page_id count) (scan_pages fuel page_id count).
Proof.
  revert page_id. induction fuel as [|fuel IH]; intros page_id; cbn [scan_pages_code scan_pages]; bodies.
Qed.

#[local] Hint Resolve body_scan_pages : code.

Lemma body_scan_next : body scan_next_code heap_scan_next.
Proof. unfold scan_next_code, heap_scan_next. bodies. Qed.
End bodies.

(** ** The engine as a latched object *)

Inductive HeapOp :=
  | OpInsert (tuple : list byte)
  | OpDelete (id : TupleId)
  | OpBegin
  | OpNext (handle : ScanHandle)
  | OpEnd (handle : ScanHandle).

(** The scan methods also write the caller's handle. *)
Definition heap_answer (op : HeapOp) : Type :=
  match op with
  | OpInsert _ => Result TupleId
  | OpDelete _ => Result unit
  | OpBegin => Result ScanHandle
  | OpNext _ => Result (option Tuple) * ScanHandle
  | OpEnd _ => Result unit * ScanHandle
  end.

Section monitor.
Context (S : Type) `{StorageIO S}.

Definition heap_method (op : HeapOp) : Code (HeapEngine S) (heap_answer op) :=
  match op with
  | OpInsert tuple => insert_tuple_code tuple
  | OpDelete id => delete_tuple_code id
  | OpBegin => begin_scan_code
  | OpNext handle => by_reference handle scan_next_code
  | OpEnd handle => by_reference handle end_scan_code
  end.
Definition heap_aborts (op : HeapOp) : heap_answer op -> bool :=
  match op with
  | OpInsert _ => is_fault
  | OpDelete _ => is_fault
  | OpBegin => is_fault
  | OpNext _ => fun a => is_fault a.1
  | OpEnd _ => fun a => is_fault a.1
  end.
Definition heap_monitor : Monitor := {|
  object := HeapEngine S;
  Op := HeapOp;
  answer := heap_answer;
  method := heap_method;
  aborts := heap_aborts;
|}.
End monitor.

Section clients.
Context {S : Type} `{StorageIO S} {A : Type}.
#[local] Abbreviation Client := (Client (heap_monitor S) A).

Definition call_insert (tuple : list byte) (k : Result TupleId -> Client) : Client :=
  Do (O := heap_monitor S) (OpInsert tuple) k.
Definition call_delete (id : TupleId) (k : Result unit -> Client) : Client :=
  Do (O := heap_monitor S) (OpDelete id) k.

(** [update_tuple]: two calls, each with the latch for itself. *)
Definition call_update (id : TupleId) (tuple : list byte) (k : Result TupleId -> Client) : Client :=
  call_delete id (fun delete_status =>
    match delete_status with
    | Ok _ => call_insert tuple k
    | Err er => k (Err er)
    | Fault => k Fault
    end).

(** The loop of [Table::scan_rows] (src/src/catalog/table.cpp) as a client of the
    engine: [begin_scan], then [scan_next] and [decode] until nothing is left, then
    [end_scan]; the first error is returned.  Without fuel it answers [Fault]. *)
Fixpoint call_scan_rest {R} (decode : Tuple -> Result R) (fuel : nat) (rows : list R) (handle : ScanHandle)
    (k : Result (list R) -> Client) : Client :=
  match fuel with
  | O => k Fault
  | Datatypes.S fuel =>
      Do (O := heap_monitor S) (OpNext handle) (fun next : Result (option Tuple) * ScanHandle =>
        match next.1 with
        | Err er => k (Err er)
        | Fault => k Fault
        | Ok None =>
            Do (O := heap_monitor S) (OpEnd next.2) (fun status : Result unit * ScanHandle =>
              match status.1 with Ok _ => k (Ok rows) | Err er => k (Err er) | Fault => k Fault end)
        | Ok (Some tuple) =>
            match decode tuple with
            | Ok row => call_scan_rest decode fuel (rows ++ [row]) next.2 k
            | Err er => k (Err er)
            | Fault => k Fault
            end
        end)
  end.
Definition call_scan {R} (decode : Tuple -> Result R) (fuel : nat) (k : Result (list R) -> Client) : Client :=
  Do (O := heap_monitor S) OpBegin (fun handle : Result ScanHandle =>
    match handle with
    | Ok handle => call_scan_rest decode fuel [] handle k
    | Err er => k (Err er)
    | Fault => k Fault
    end).

(** The clients started on an engine, under the latch and with atomic calls. *)
Definition heap_threads (e : HeapEngine S) (cs : list Client) : Machine (heap_monitor S) A :=
  start (O := heap_monitor S) e cs.
Definition heap_atomic (e : HeapEngine S) (cs : list Client) : Atomic (heap_monitor S) A :=
  Build_Atomic (O := heap_monitor S) e cs.
End clients.
