(* ===== verification/HeapConcurrentProps.v ===== *)
(** * HeapConcurrentProps: what concurrent callers of the heap engine observe

    The sequential behaviour of each latched method as a step on the map from
    tuple ids to tuples, and the consequences for every interleaving: the history
    is a sequence of such steps, all calls complete, and a scan that runs beside
    other threads returns every tuple that stays. *)
From stdpp Require Import sorting.
From S2P Require Import Prelude Utils StorageIO PageStore EvictionPolicy PolicyFactory BufferPool.
From S2P Require Import BufferPoolSpec BufferPoolClient HeapPage HeapEngine HeapEngineSpec.
From S2P Require Import HeapEngineProps Latch HeapConcurrent.

(** ** The order of tuple ids in a scan *)

Definition tid_lt (a b : TupleId) : Prop :=
  t_page_id a < t_page_id b \/ t_page_id a = t_page_id b /\ t_slot_idx a < t_slot_idx b.
Definition handle_pos (handle : ScanHandle) : TupleId :=
  {| t_page_id := cursor_page_id handle; t_slot_idx := cursor_slot_idx handle |}.
Definition tup_lt (a b : Tuple) : Prop := tid_lt (tup_id a) (tup_id b).

Lemma tid_lt_trans a b c : tid_lt a b -> tid_lt b c -> tid_lt a c.
Proof. unfold tid_lt. lia. Qed.
Lemma tid_lt_irrefl a : ~ tid_lt a a.
Proof. unfold tid_lt. lia. Qed.
Lemma tid_total a b : tid_lt a b \/ a = b \/ tid_lt b a.
Proof. destruct a as [p s], b as [p' s']. unfold tid_lt. cbn.
  destruct (Z.lt_total p p') as [?|[->|?]]; [auto| |auto].
  destruct (Z.lt_total s s') as [?|[->|?]]; auto. Qed.

Lemma tid_dec a b : tid_lt a b \/ ~ tid_lt a b.
Proof. unfold tid_lt. lia. Qed.

Lemma live_slots_sorted page slot ts : StronglySorted tup_lt (live_slots page slot ts).
Proof.
  revert slot. induction ts as [|[data|] ts IH]; intros slot; cbn; [constructor| |done].
  constructor; [done|]. apply Forall_forall. intros tup Htup.
  apply elem_of_live_slots in Htup as (i & d & _ & ->). unfold tup_lt, tid_lt. cbn. lia.
Qed.

Lemma live_pages_sorted page pgs : StronglySorted tup_lt (live_pages page pgs).
Proof.
  revert page. induction pgs as [|pg pgs IH]; intros page; cbn; [constructor|].
  apply StronglySorted_app_2; [|apply live_slots_sorted|done].
  intros t1 t2 (i & d & _ & ->)%elem_of_live_slots (n & pg2 & i2 & d2 & _ & _ & ->)%elem_of_live_pages.
  unfold tup_lt, tid_lt. cbn. lia.
Qed.

Lemma remaining_sorted pgs page slot : StronglySorted tup_lt (remaining pgs page slot).
Proof.
  unfold remaining. destruct (drop (Z.to_nat page) pgs) as [|pg rest]; [constructor|].
  apply StronglySorted_app_2; [|apply live_slots_sorted|apply live_pages_sorted].
  intros t1 t2 (i & d & _ & ->)%elem_of_live_slots (n & pg2 & i2 & d2 & _ & _ & ->)%elem_of_live_pages.
  unfold tup_lt, tid_lt. cbn. lia.
Qed.

Section positions.
Context {S : Type} `{StorageIOLaws S}.
Implicit Types e : HeapEngine S.

(** What a scan has left is what lies at or after its position. *)
Lemma elem_of_remaining e page slot tup :
  0 <= page -> 0 <= slot ->
  tup ∈ remaining (heap_pages e) page slot <->
  heap_lookup e (tup_id tup) = Some (tup_data tup) /\
    ~ tid_lt (tup_id tup) {| t_page_id := page; t_slot_idx := slot |}.
Proof.
  intros Hp Hs. rewrite <- elem_of_all_tuples. unfold all_tuples. rewrite elem_of_live_pages.
  unfold remaining, tid_lt. set (pgs := heap_pages e). split.
  - destruct (drop (Z.to_nat page) pgs) as [|pg rest] eqn:Hd; [by intros ?%elem_of_nil|].
    assert (Hlook : forall n, (pg :: rest) !! n = pgs !! (Z.to_nat page + n)%nat)
      by (intros n; by rewrite <- lookup_drop, Hd).
    intros [(i & d & Hi & ->)%elem_of_live_slots|(n & pg2 & i & d & Hn & Hi & ->)%elem_of_live_pages]%elem_of_app.
    + rewrite lookup_drop in Hi. cbn. split; [|lia].
      exists (Z.to_nat page), pg, (Z.to_nat slot + i)%nat, d. split_and!; [|done|].
      * specialize (Hlook 0%nat). cbn in Hlook. by rewrite Nat.add_0_r in Hlook.
      * unfold tuple_of. do 2 f_equal; lia.
    + cbn. split; [|lia]. exists (Z.to_nat page + Datatypes.S n)%nat, pg2, i, d. split_and!; [|done|].
      * by rewrite <- Hlook.
      * unfold tuple_of. do 2 f_equal; lia.
  - intros [(n & pg & i & d & Hn & Hi & ->) Hge]. cbn in Hge.
    destruct (drop (Z.to_nat page) pgs) as [|pg0 rest] eqn:Hd.
    { apply (f_equal length) in Hd. rewrite length_drop in Hd. apply lookup_lt_Some in Hn. cbn in Hd. lia. }
    assert (Hlook : forall n, (pg0 :: rest) !! n = pgs !! (Z.to_nat page + n)%nat)
      by (intros n'; by rewrite <- lookup_drop, Hd).
    apply elem_of_app. destruct (decide (Z.of_nat n = page)) as [Heq|Hne].
    + left. apply elem_of_live_slots. assert (pg = pg0) as ->.
      { specialize (Hlook 0%nat). cbn in Hlook. rewrite Nat.add_0_r in Hlook.
        assert (Z.to_nat page = n) as Hpn by lia. rewrite Hpn, Hn in Hlook. congruence. }
      exists (i - Z.to_nat slot)%nat, d. rewrite lookup_drop. split.
      * by replace (Z.to_nat slot + (i - Z.to_nat slot))%nat with i by lia.
      * unfold tuple_of. do 2 f_equal; lia.
    + right. apply elem_of_live_pages. exists (n - Z.to_nat page - 1)%nat, pg, i, d. split_and!; [|done|].
      * change (rest !! (n - Z.to_nat page - 1)%nat)
          with ((pg0 :: rest) !! Datatypes.S (n - Z.to_nat page - 1)). rewrite Hlook, <- Hn. f_equal. lia.
      * unfold tuple_of. do 2 f_equal; lia.
Qed.

Lemma heap_lookup_nonneg e id data : heap_lookup e id = Some data -> 0 <= t_page_id id /\ 0 <= t_slot_idx id.
Proof.
  unfold heap_lookup, pages_lookup_tuple. destruct (Z.leb_spec 0 (t_page_id id)); [|done].
  by destruct (Z.leb_spec 0 (t_slot_idx id)).
Qed.

(** A handle the engine has produced. *)
Definition handle_ok (handle : ScanHandle) : Prop := 0 <= handle < 2 ^ 48.

Lemma handle_split handle :
  handle_ok handle ->
  exists page slot, handle = encode_cursor page slot /\ cursor_ok page slot /\
    handle_pos handle = {| t_page_id := page; t_slot_idx := slot |}.
Proof.
  intros Hh. unfold handle_ok in Hh. exists (handle / 65536), (handle mod 65536).
  assert (Hc : cursor_ok (handle / 65536) (handle mod 65536)).
  { split; [|apply Z.mod_pos_bound; lia]. split; [apply Z.div_pos; lia|apply Z.div_lt_upper_bound; lia]. }
  assert (He : handle = encode_cursor (handle / 65536) (handle mod 65536)).
  { destruct Hc as [Hp Hs]. unfold encode_cursor, CURSOR_SLOT_BASE. rewrite land_mask_small by done.
    rewrite (wrap64_small (_ * _)) by lia. rewrite wrap64_small by lia.
    pose proof (Z.div_mod handle 65536). lia. }
  split_and!; [done|done|]. unfold handle_pos. destruct Hc as [Hp Hs].
  destruct (cursor_roundtrip _ _ Hp Hs) as [Hcp Hcs]. rewrite <- He in Hcp, Hcs. by rewrite Hcp, Hcs.
Qed.

Lemma encode_handle_ok page slot : cursor_ok page slot -> handle_ok (encode_cursor page slot).
Proof.
  intros [Hp Hs]. unfold handle_ok, encode_cursor, CURSOR_SLOT_BASE. rewrite land_mask_small by done.
  rewrite (wrap64_small (_ * _)) by lia. rewrite wrap64_small by lia. lia.
Qed.
End positions.

(** ** The promise of the methods *)

Section spec.
Context {S : Type} `{StorageIOLaws S}.
Implicit Types e : HeapEngine S.

(** Room for [n] more insertions, each of which may need a new page. *)
Definition heap_budget (n : nat) e : Prop :=
  heap_ok e /\
  Z.of_nat (length (heap_pages e) + n) * Z.of_nat (heap_page_bytes e) <= io_limit /\
  Z.of_nat (length (heap_pages e) + n) < 2 ^ 32.

Definition heap_op_ok (op : HeapOp) : Prop :=
  match op with
  | OpInsert tuple => tuple_ok tuple
  | OpDelete id => 0 <= t_page_id id /\ 0 <= t_slot_idx id
  | OpBegin => True
  | OpNext handle => handle_ok handle
  | OpEnd _ => True
  end.
Definition heap_answer_ok (op : HeapOp) : heap_answer op -> Prop :=
  match op with
  | OpInsert _ => fun a => forall id, a = Ok id -> 0 <= t_page_id id /\ 0 <= t_slot_idx id
  | OpDelete _ => fun _ => True
  | OpBegin => fun a => forall handle, a = Ok handle -> handle_ok handle
  | OpNext _ => fun a => handle_ok a.2
  | OpEnd _ => fun a => handle_ok a.2
  end.

Definition same_tuples e e' : Prop := forall id, heap_lookup e' id = heap_lookup e id.
Definition live e id : Prop := is_Some (heap_lookup e id).

(** The first live tuple at or after the handle, and the handle past it. *)
Definition next_answer e (handle : ScanHandle) (a : Result (option Tuple) * ScanHandle) : Prop :=
  match a.1 with
  | Ok (Some tup) =>
      heap_lookup e (tup_id tup) = Some (tup_data tup) /\
      ~ tid_lt (tup_id tup) (handle_pos handle) /\ tid_lt (tup_id tup) (handle_pos a.2) /\
      forall id, live e id -> tid_lt id (handle_pos a.2) ->
        id = tup_id tup \/ tid_lt id (handle_pos handle)
  | Ok None => forall id, live e id -> tid_lt id (handle_pos handle)
  | _ => False
  end.

Definition heap_legal e (op : HeapOp) : heap_answer op -> HeapEngine S -> Prop :=
  match op with
  | OpInsert tuple => fun a e' =>
      if max_tuple e <? Z.of_nat (length tuple) then a = Err OutOfMemory /\ same_tuples e e'
      else exists id, a = Ok id /\ heap_lookup e id = None /\
        forall id', heap_lookup e' id' = if decide (id' = id) then Some tuple else heap_lookup e id'
  | OpDelete id => fun a e' =>
      match heap_lookup e id with
      | Some _ => a = Ok tt /\
          forall id', heap_lookup e' id' = if decide (id' = id) then None else heap_lookup e id'
      | None => (a = Err PageNotFound \/ a = Err InvalidArgument \/ a = Err NotFound) /\ same_tuples e e'
      end
  | OpBegin => fun a e' => a = Ok (encode_cursor 0 0) /\ same_tuples e e'
  | OpNext handle => fun a e' => next_answer e handle a /\ same_tuples e e'
  | OpEnd _ => fun a e' => a = (Ok tt, encode_cursor 0 0) /\ same_tuples e e'
  end.

Lemma same_pages_tuples e e' : heap_pages e' = heap_pages e -> same_tuples e e'.
Proof. intros Hp id. unfold heap_lookup. by rewrite Hp. Qed.

Lemma heap_budget_less n e e' :
  heap_ok e' -> same_engine e e' -> (length (heap_pages e') <= length (heap_pages e) + 1)%nat ->
  heap_budget (Datatypes.S n) e -> heap_budget n e'.
Proof.
  intros Hok Hs Hl (_ & Hb & Hc). split; [done|]. rewrite (same_engine_bytes _ _ Hs). split; nia.
Qed.

Lemma heap_budget_grow n e : heap_budget (Datatypes.S n) e -> heap_ok e /\ can_grow e /\ Z.of_nat (length (heap_pages e)) < 2 ^ 32.
Proof. intros (Hok & Hb & Hc). split_and!; [done| |lia]. unfold can_grow. nia. Qed.

Lemma insert_call n e t a e' :
  heap_budget (Datatypes.S n) e -> tuple_ok t -> heap_insert_tuple t e = (a, e') ->
  is_fault a = false /\ heap_answer_ok (OpInsert t) a /\ heap_budget n e' /\ heap_legal e (OpInsert t) a e'.
Proof.
  intros Hb Ht Hrun. destruct (heap_budget_grow _ _ Hb) as (Hok & Hg & _). cbn.
  destruct (heap_insert_wp e t Hok Ht Hg) as (r & e1 & Hrun1 & Hok' & Hs & Hins).
  rewrite Hrun in Hrun1. injection Hrun1 as <- <-.
  assert (Hlen : (length (heap_pages e') <= length (heap_pages e) + 1)%nat).
  { unfold inserted in Hins. destruct (first_fit t (heap_pages e)) as [[k pg]|].
    - destruct Hins as (_ & pg1 & pg2 & _ & -> & _). rewrite length_insert. lia.
    - destruct (max_tuple e <? _); [by destruct Hins as [_ ->]; lia|].
      destruct Hins as (_ & pg & -> & _). rewrite length_app. cbn. lia. }
  pose proof (heap_budget_less n e e' Hok' Hs Hlen Hb) as Hb'.
  destruct (Z.ltb_spec (max_tuple e) (Z.of_nat (length t))) as [Hlt|Hge].
  - destruct (insert_too_large e t Hok Ht Hg Hlt) as (e1 & Hrun1 & _ & _ & Hp).
    rewrite Hrun in Hrun1. injection Hrun1 as -> ->. split_and!; try done. by apply same_pages_tuples.
  - destruct (insert_lookup e t Hok Ht Hg Hge) as (id & e1 & Hrun1 & _ & _ & Hp & Hsl & Hnone & Hall).
    rewrite Hrun in Hrun1. injection Hrun1 as -> ->. split_and!; try done; [by intros ? [= <-]|]. by exists id.
Qed.

Lemma delete_call n e id a e' :
  heap_budget (Datatypes.S n) e -> 0 <= t_page_id id /\ 0 <= t_slot_idx id -> heap_delete_tuple id e = (a, e') ->
  is_fault a = false /\ heap_answer_ok (OpDelete id) a /\ heap_budget n e' /\ heap_legal e (OpDelete id) a e'.
Proof.
  intros Hb [Hp Hs] Hrun. destruct (heap_budget_grow _ _ Hb) as (Hok & _ & _).
  destruct (delete_lookup e id Hok Hp Hs) as (r & e1 & Hrun1 & Hok' & Hse & Hlen & Hcase).
  rewrite Hrun in Hrun1. injection Hrun1 as <- <-. cbn.
  assert (Hb' : heap_budget n e') by (eapply heap_budget_less; eauto; lia).
  destruct (heap_lookup e id); destruct Hcase as [Ha Hcase].
  - subst a. by split_and!.
  - split_and!; try done; [by destruct Ha as [->|[->| ->]]|]. by apply same_pages_tuples.
Qed.

Lemma head_answer e page slot handle' page' slot' tup rest :
  cursor_ok page slot -> cursor_ok page' slot' -> handle' = encode_cursor page' slot' ->
  remaining (heap_pages e) page slot = tup :: rest -> remaining (heap_pages e) page' slot' = rest ->
  next_answer e (encode_cursor page slot) (Ok (Some tup), handle').
Proof.
  intros [Hp Hs] [Hp' Hs'] -> Hrem Hrest. unfold next_answer, handle_pos. cbn [fst snd].
  destruct (cursor_roundtrip page slot Hp Hs) as [-> ->].
  destruct (cursor_roundtrip page' slot' Hp' Hs') as [-> ->].
  pose proof (remaining_sorted (heap_pages e) page slot) as Hsort. rewrite Hrem in Hsort.
  apply StronglySorted_inv in Hsort as [_ Hlt]. rewrite Forall_forall in Hlt.
  assert (Htup : tup ∈ remaining (heap_pages e) page slot) by (rewrite Hrem; apply list_elem_of_here).
  apply elem_of_remaining in Htup as [Hlk Hge]; [|lia..]. split; [done|]. split; [done|].
  assert (Hin : forall t, t ∈ rest <-> heap_lookup e (tup_id t) = Some (tup_data t) /\
    ~ tid_lt (tup_id t) {| t_page_id := page'; t_slot_idx := slot' |})
    by (intros t; rewrite <- Hrest; apply elem_of_remaining; lia).
  split.
  - destruct (tid_total (tup_id tup) {| t_page_id := page'; t_slot_idx := slot' |}) as [Hl|Hl]; [done|].
    exfalso. apply (tid_lt_irrefl (tup_id tup)), (Hlt tup), Hin. split; [done|]. intros Hl'.
    destruct Hl as [Heq|Hl]; [rewrite Heq in Hl'; by apply tid_lt_irrefl in Hl'|].
    by apply (tid_lt_irrefl (tup_id tup)), (tid_lt_trans _ _ _ Hl').
  - intros id [data Hid] Hl. destruct (tid_dec id {| t_page_id := page; t_slot_idx := slot |}) as [?|Hge']; [by right|].
    left. assert (Hmem : {| tup_id := id; tup_data := data |} ∈ tup :: rest)
      by (rewrite <- Hrem; apply elem_of_remaining; [lia|lia|done]).
    apply elem_of_cons in Hmem as [<-|Hmem]; [done|]. by apply Hin in Hmem as [_ Hmem].
Qed.

(** At the end of the scan nothing lies at or after the handle. *)
Lemma none_answer e page slot handle' :
  cursor_ok page slot -> remaining (heap_pages e) page slot = [] ->
  next_answer e (encode_cursor page slot) (Ok None, handle').
Proof.
  intros [Hp Hs] Hrem id [data Hid]. unfold handle_pos. destruct (cursor_roundtrip page slot Hp Hs) as [-> ->].
  destruct (tid_dec id {| t_page_id := page; t_slot_idx := slot |}) as [?|Hge]; [done|].
  destruct (proj1 (elem_of_nil {| tup_id := id; tup_data := data |})). rewrite <- Hrem.
  apply elem_of_remaining; [lia|lia|done].
Qed.

Lemma next_call n e handle a e' :
  heap_budget (Datatypes.S n) e -> handle_ok handle ->
  run (heap_method S (OpNext handle)) e = (a, e') ->
  is_fault a.1 = false /\ heap_answer_ok (OpNext handle) a /\ heap_budget n e' /\
    heap_legal e (OpNext handle) a e'.
Proof.
  intros Hb Hh. cbn [heap_method heap_answer]. rewrite run_by_reference, body_scan_next.
  destruct (heap_budget_grow _ _ Hb) as (Hok & _ & Hcnt).
  destruct (handle_split handle Hh) as (page & slot & -> & Hcur & Hpos).
  destruct (heap_scan_next_spec e page slot Hok Hcnt Hcur) as (r & hd' & e1 & -> & Hok' & Hs & Hp & Hcase).
  intros [= <- <-]. destruct Hcase as (page' & slot' & -> & Hcur' & Hcase).
  assert (Hb' : heap_budget n e1) by (eapply heap_budget_less; eauto; rewrite Hp; lia).
  pose proof (encode_handle_ok _ _ Hcur') as Hh'.
  assert (Hsame : same_tuples e e1) by (by apply same_pages_tuples).
  destruct (remaining (heap_pages e) page slot) as [|tup rest] eqn:Hrem; destruct Hcase as [-> Hrest];
    (split_and!; [done|done|done|split; [|done]]).
  - by apply none_answer.
  - by eapply head_answer.
Qed.

#[export] Program Instance heap_monitor_spec : MonitorSpec (heap_monitor S) := {|
  budget_ok := heap_budget;
  op_ok := heap_op_ok;
  answer_ok := heap_answer_ok;
  legal := heap_legal;
|}.
Next Obligation.
  intros n e op a e' Hb Hop Hrun. destruct op as [t|id| |handle|handle]; cbn [object heap_monitor Op method] in *.
  - change (run (insert_tuple_code t) e = (a, e')) in Hrun. rewrite body_insert in Hrun. by apply insert_call.
  - change (run (delete_tuple_code id) e = (a, e')) in Hrun. rewrite body_delete in Hrun. by apply delete_call.
  - destruct (heap_budget_grow _ _ Hb) as (Hok & _ & _). change (run begin_scan_code e = (a, e')) in Hrun.
    rewrite body_begin in Hrun. unfold heap_begin_scan in Hrun.
    erewrite bind_ok in Hrun by (by apply heap_check_open_ok). injection Hrun as <- <-. split_and!; try done.
    + intros handle [= <-]. apply encode_handle_ok. split; lia.
    + eapply heap_budget_less; eauto; [done|lia].
  - by apply next_call.
  - destruct (heap_budget_grow _ _ Hb) as (Hok & _ & _). injection Hrun as <- <-. split_and!; try done.
    eapply heap_budget_less; eauto; [done|lia].
Qed.
End spec.

(** ** What a history does to one tuple *)

Section histories.
Context {S : Type} `{StorageIOLaws S}.
Implicit Types e : HeapEngine S.
#[local] Abbreviation Event := (Event (heap_monitor S)).

Definition spares (id : TupleId) (ev : Event) : Prop := ev_op ev <> OpDelete id.
(** The tuple a call has inserted. *)
Definition inserted (ev : Event) : option Tuple :=
  match ev_op ev as op return heap_answer op -> option Tuple with
  | OpInsert data => fun a =>
      match a with Ok id => Some {| tup_id := id; tup_data := data |} | _ => None end
  | _ => fun _ => None
  end (ev_answer ev).
Definition inserts (tup : Tuple) (ev : Event) : Prop := inserted ev = Some tup.

Lemma legal_keeps e e' (ev : Event) id data :
  heap_legal e (ev_op ev) (ev_answer ev) e' -> spares id ev ->
  heap_lookup e id = Some data -> heap_lookup e' id = Some data.
Proof.
  destruct ev as [j op a]. unfold spares. cbn [ev_op ev_answer]. intros Hleg Hne Hid.
  destruct op as [t|id0| |handle|handle]; cbn in Hleg.
  - destruct (max_tuple e <? _); [destruct Hleg as [_ Hs]; by rewrite Hs|].
    destruct Hleg as (id' & _ & Hnone & Hall). rewrite Hall. case_decide; [congruence|done].
  - destruct (heap_lookup e id0) eqn:Hl; destruct Hleg as [_ Hs]; rewrite Hs; [|done].
    case_decide; [congruence|done].
  - destruct Hleg as [_ Hs]. by rewrite Hs.
  - destruct Hleg as [_ Hs]. by rewrite Hs.
  - destruct Hleg as [_ Hs]. by rewrite Hs.
Qed.

Lemma legal_origin e e' (ev : Event) tup :
  heap_legal e (ev_op ev) (ev_answer ev) e' -> heap_lookup e' (tup_id tup) = Some (tup_data tup) ->
  heap_lookup e (tup_id tup) = Some (tup_data tup) \/ inserts tup ev.
Proof.
  destruct ev as [j op a]. unfold inserts, inserted. cbn [ev_op ev_answer]. intros Hleg Hid.
  destruct op as [t|id0| |handle|handle]; cbn in Hleg.
  - destruct (max_tuple e <? _); [destruct Hleg as [_ Hs]; rewrite Hs in Hid; by left|].
    destruct Hleg as (id' & -> & _ & Hall). rewrite Hall in Hid. case_decide as Hd; [right|by left].
    destruct tup as [id1 d1]. cbn in *. congruence.
  - destruct (heap_lookup e id0) eqn:Hl; destruct Hleg as [_ Hs]; rewrite Hs in Hid; [|by left].
    case_decide; [done|by left].
  - destruct Hleg as [_ Hs]. rewrite Hs in Hid. by left.
  - destruct Hleg as [_ Hs]. rewrite Hs in Hid. by left.
  - destruct Hleg as [_ Hs]. rewrite Hs in Hid. by left.
Qed.

Definition origin e (h : list Event) (tup : Tuple) : Prop :=
  heap_lookup e (tup_id tup) = Some (tup_data tup) \/ Exists (inserts tup) h.

Lemma history_keeps e h e' id data :
  legal_history e h e' -> Forall (spares id) h -> heap_lookup e id = Some data -> heap_lookup e' id = Some data.
Proof.
  intros Hleg Hsp Hid. induction Hleg as [|h e1 ev e2 _ IH Hev]; [done|].
  apply Forall_app in Hsp as [Hh Hev']. rewrite Forall_singleton in Hev'.
  apply (legal_keeps e1 e2 ev); [exact Hev|done|by apply IH].
Qed.

Lemma history_origin e h e' tup :
  legal_history e h e' -> heap_lookup e' (tup_id tup) = Some (tup_data tup) -> origin e h tup.
Proof.
  intros Hleg. induction Hleg as [|h e1 ev e2 _ IH Hev]; intros Hid; [by left|].
  unfold origin. rewrite Exists_app, Exists_cons, Exists_nil.
  destruct (legal_origin _ _ _ _ Hev Hid) as [Hl|Hins]; [|auto]. destruct (IH Hl); auto.
Qed.

Lemma origin_app e h ev tup : origin e h tup -> origin e (h ++ [ev]) tup.
Proof. unfold origin. rewrite Exists_app. tauto. Qed.
End histories.

(** ** A scan beside other threads *)

Section concurrent_scan.
Context {S : Type} `{StorageIOLaws S} {R : Type} (decode : Tuple -> Result R).
#[local] Abbreviation O := (heap_monitor S).
#[local] Abbreviation Rows := (Result (list R)).
#[local] Abbreviation Scan := (fun c : Result (list R) => Ret (O := heap_monitor S) c).
Context (e0 : HeapEngine S) (fuel0 : nat).
Implicit Types (e : HeapEngine S) (h : list (Event O)).

(** The rows of the scanned tuples. *)
Definition decoded (seen : list Tuple) (rows : list R) : Prop := Forall2 (fun tup row => decode tup = Ok row) seen rows.

(** Nothing is repeated, nothing was made up, and what was there before [pos] at
    the start and was never deleted has been returned. *)
Record progress h (seen : list Tuple) (passed : TupleId -> Prop) : Prop := {
  pr_sorted : StronglySorted tup_lt seen;
  pr_origin tup : tup ∈ seen -> origin e0 h tup;
  pr_seen id data : heap_lookup e0 id = Some data -> Forall (spares id) h -> passed id ->
    {| tup_id := id; tup_data := data |} ∈ seen;
}.

(** What the scan has to show for its answer: the rows of all it passed, or the tuple
    that does not decode. *)
Definition scan_outcome h (r : Rows) : Prop :=
  match r with
  | Ok rows => exists seen, decoded seen rows /\ progress h seen (fun _ => True)
  | Err er => exists tup, origin e0 h tup /\ decode tup = Err er
  | Fault => exists tup, origin e0 h tup /\ decode tup = Fault
  end.

(** The scan has begun, taken [length seen] tuples with as many calls, and the
    others have inserted less than there were calls of theirs. *)
Record spent h (seen : list Tuple) (fuel : nat) : Prop := {
  sp_fuel : (fuel + length seen = fuel0)%nat;
  sp_calls : (length (omap inserted h) + Datatypes.S (length seen) <= length h)%nat;
}.

(** Where the scanning client stands. *)
Inductive scan_state h : Client O Rows -> Prop :=
  | scan_start : scan_state h (call_scan decode fuel0 Scan)
  | scan_running fuel seen rows handle :
      decoded seen rows -> spent h seen fuel -> progress h seen (fun id => tid_lt id (handle_pos handle)) ->
      (forall tup, tup ∈ seen -> tid_lt (tup_id tup) (handle_pos handle)) ->
      scan_state h (call_scan_rest decode fuel rows handle Scan)
  | scan_ending seen rows handle : decoded seen rows -> progress h seen (fun _ => True) ->
      scan_state h (Do (O := O) (OpEnd handle) (fun status : Result unit * ScanHandle =>
        match status.1 with Ok _ => Ret (Ok rows) | Err er => Ret (Err er) | Fault => Ret Fault end))
  | scan_done r : scan_outcome h r -> scan_state h (Ret r).
Lemma progress_app h ev seen passed : progress h seen passed -> progress (h ++ [ev]) seen passed.
Proof.
  intros [Hs Ho Hp]. split; [done|intros tup Ht; by apply origin_app, Ho|].
  intros id data Hid Hsp. apply Forall_app in Hsp as [Hsp _]. by apply Hp.
Qed.

Lemma scan_outcome_app h ev r : scan_outcome h r -> scan_outcome (h ++ [ev]) r.
Proof.
  destruct r as [rows|er|]; cbn.
  - intros (seen & Hd & Hp). exists seen. split; [done|by apply progress_app].
  - intros (tup & Ho & Hr). exists tup. split; [by apply origin_app|done].
  - intros (tup & Ho & Hr). exists tup. split; [by apply origin_app|done].
Qed.

(** A call of another thread inserts at most one tuple. *)
Lemma spent_app h ev seen fuel : spent h seen fuel -> spent (h ++ [ev]) seen fuel.
Proof.
  intros [Hf Hc]. split; [done|]. rewrite omap_app, !length_app. cbn. destruct (inserted ev); cbn; lia.
Qed.

Lemma scan_state_app h ev c : scan_state h c -> scan_state (h ++ [ev]) c.
Proof.
  intros [|fuel seen rows handle|seen rows handle|r]; [apply scan_start|eapply scan_running|eapply scan_ending|apply scan_done];
    eauto using progress_app, scan_outcome_app, spent_app.
Qed.

(** The step of the scan itself. *)
Lemma progress_next h e seen handle a :
  legal_history e0 h e -> next_answer e handle a ->
  progress h seen (fun id => tid_lt id (handle_pos handle)) ->
  (forall tup, tup ∈ seen -> tid_lt (tup_id tup) (handle_pos handle)) ->
  match a.1 with
  | Ok (Some tup) => progress h (seen ++ [tup]) (fun id => tid_lt id (handle_pos a.2)) /\
      forall t, t ∈ seen ++ [tup] -> tid_lt (tup_id t) (handle_pos a.2)
  | Ok None => progress h seen (fun _ => True)
  | _ => False
  end.
Proof.
  intros Hleg Hnext [Hs Ho Hp] Hlt. destruct a as [[[tup|]|er|] handle']; cbn in *; try done.
  - destruct Hnext as (Hlk & Hge & Hpast & Hfirst).
    assert (Hbefore : forall t, t ∈ seen -> tid_lt (tup_id t) (tup_id tup)).
    { intros t Ht. specialize (Hlt t Ht). unfold tid_lt in *. lia. }
    split; [split|].
    + apply StronglySorted_app_2; [|done|repeat constructor].
      intros t1 t2 Ht1 ->%list_elem_of_singleton. by apply Hbefore.
    + intros t [Ht| ->%list_elem_of_singleton]%elem_of_app; [by apply Ho|]. by eapply history_origin.
    + intros id data Hid Hsp Hpos. apply elem_of_app.
      pose proof (history_keeps _ _ _ _ _ Hleg Hsp Hid) as Hnow.
      destruct (Hfirst id) as [->|Hold]; [by eexists|done| |left; by apply Hp].
      right. apply list_elem_of_singleton. destruct tup. cbn in *. congruence.
    + intros t [Ht| ->%list_elem_of_singleton]%elem_of_app; [|done].
      apply (tid_lt_trans _ (tup_id tup)); [by apply Hbefore|done].
  - split; [done|done|]. intros id data Hid Hsp _. apply Hp; [done|done|]. apply Hnext.
    eexists. by eapply history_keeps.
Qed.

(** One call of client [i] in the atomic machine. *)
Lemma atomic_step_call (am : Atomic O Rows) i op (k : heap_answer op -> Client O Rows) ev am' :
  at_clients am !! i = Some (Do (O := O) op k) -> atomic_step i am = Some (ev, am') ->
  heap_legal (at_object am) (ev_op ev) (ev_answer ev) (at_object am') ->
  exists a, ev = Build_Event (O := O) i op a /\ heap_legal (at_object am) op a (at_object am') /\
    at_clients am' !! i = Some (k a).
Proof.
  intros Hi. unfold atomic_step. rewrite Hi. destruct (run _ (at_object am)) as [a s].
  destruct (aborts _ a); [done|]. intros [= <- <-] Hleg. exists a. split; [done|]. split; [exact Hleg|].
  apply list_lookup_insert_eq. by eapply lookup_lt_Some.
Qed.

(** A tuple more, and a call more, which is no insertion. *)
Lemma spent_next h j handle a seen tup fuel :
  spent h seen (Datatypes.S fuel) -> spent (h ++ [Build_Event (O := O) j (OpNext handle) a]) (seen ++ [tup]) fuel.
Proof. intros [Hf Hc]. split; rewrite ?omap_app, !length_app; cbn; rewrite ?Nat.add_0_r; lia. Qed.

Lemma scan_state_next h e i seen rows fuel handle a :
  legal_history e0 h e -> next_answer e handle a -> decoded seen rows -> spent h seen (Datatypes.S fuel) ->
  progress h seen (fun id => tid_lt id (handle_pos handle)) ->
  (forall tup, tup ∈ seen -> tid_lt (tup_id tup) (handle_pos handle)) ->
  scan_state (h ++ [Build_Event (O := O) i (OpNext handle) a])
    (match a.1 with
     | Err er => Ret (Err er)
     | Fault => Ret Fault
     | Ok None => Do (O := O) (OpEnd a.2) (fun status : Result unit * ScanHandle =>
         match status.1 with Ok _ => Ret (Ok rows) | Err er => Ret (Err er) | Fault => Ret Fault end)
     | Ok (Some tuple) =>
         match decode tuple with
         | Ok row => call_scan_rest decode fuel (rows ++ [row]) a.2 Scan
         | Err er => Ret (Err er)
         | Fault => Ret Fault
         end
     end).
Proof.
  intros Hleg Hnext Hdec Hsp Hpr Hlt. pose proof (progress_next _ _ _ _ _ Hleg Hnext Hpr Hlt) as Hn.
  destruct a as [[[tup|]|er|] handle']; cbn [fst snd] in *; try done.
  - destruct Hn as [Hpr' Hlt']. assert (Ho : origin e0 h tup) by (apply (pr_origin _ _ _ Hpr'), elem_of_app; right; by left).
    destruct (decode tup) as [row|er|] eqn:Hd.
    + eapply scan_running; [|by apply spent_next|by apply progress_app|done].
      apply Forall2_app; [done|]. by constructor.
    + apply scan_done. exists tup. by split; [apply origin_app|].
    + apply scan_done. exists tup. by split; [apply origin_app|].
  - apply (scan_ending _ seen); [done|by apply progress_app].
Qed.

Lemma scan_state_step h (am : Atomic O Rows) i c ev am' :
  legal_history e0 h (at_object am) -> (length (omap inserted h) <= length h)%nat ->
  at_clients am !! i = Some c -> scan_state h c -> atomic_step i am = Some (ev, am') ->
  heap_legal (at_object am) (ev_op ev) (ev_answer ev) (at_object am') ->
  exists c', at_clients am' !! i = Some c' /\ scan_state (h ++ [ev]) c'.
Proof.
  intros Hleg Hins Hi Hst Hstep Hop.
  destruct Hst as [|[|fuel] seen rows handle Hdec Hsp Hpr Hlt|seen rows handle Hdec Hpr|r Hr];
    try (unfold atomic_step in Hstep; by rewrite Hi in Hstep);
    destruct (atomic_step_call _ _ _ _ _ _ Hi Hstep Hop) as (a & -> & Ha & Hi'); rewrite Hi';
    eexists; (split; [done|]).
  - destruct Ha as [-> _]. apply (scan_running _ fuel0 [] []); [constructor| | |by intros tup ?%elem_of_nil].
    + split; [cbn; lia|]. rewrite omap_app, !length_app. cbn. lia.
    + split; [constructor|by intros tup ?%elem_of_nil|]. intros id data Hid _ Hlt.
      destruct (heap_lookup_nonneg _ _ _ Hid). change (tid_lt id {| t_page_id := 0; t_slot_idx := 0 |}) in Hlt.
      unfold tid_lt in Hlt. cbn in Hlt. lia.
  - destruct Ha as [Ha _]. eapply scan_state_next; eauto.
  - destruct Ha as [-> _]. cbn [fst snd]. apply scan_done, scan_outcome_app. by exists seen.
Qed.

Lemma omap_length {A B} (f : A -> option B) l : (length (omap f l) <= length l)%nat.
Proof. induction l as [|x l IH]; cbn; [done|]. destruct (f x); cbn; lia. Qed.

Lemma scan_state_run n (am : Atomic O Rows) h am' i :
  allowed n am -> at_object am = e0 -> at_clients am !! i = Some (call_scan decode fuel0 Scan) ->
  atomic_run am h am' -> exists c, at_clients am' !! i = Some c /\ scan_state h c.
Proof.
  intros Hal He Hi Hrun. induction Hrun as [|h m1 j ev m2 Hrun IH Hstep].
  { eexists. split; [exact Hi|]. apply scan_start. }
  destruct IH as (c & Hc & Hst). destruct (allowed_run _ _ _ _ Hal Hrun) as [[n1 Hal1] Hleg]. rewrite He in Hleg.
  destruct (allowed_step _ _ _ _ _ Hal1 Hstep) as (_ & _ & _ & Hop).
  destruct (decide (j = i)) as [->|Hne]; [by eapply scan_state_step; eauto using omap_length|].
  exists c. split; [|by apply scan_state_app]. unfold atomic_step in Hstep.
  destruct (at_clients m1 !! j) as [[a|op k]|]; [done| |done].
  destruct (run (method op) (at_object m1)) as [a s]. destruct (aborts op a); [done|].
  injection Hstep as _ <-. cbn. by rewrite list_lookup_insert_ne.
Qed.

(** ** The fuel is enough *)

Lemma tup_lt_nodup ts : StronglySorted tup_lt ts -> NoDup ts.
Proof.
  induction 1 as [|t ts _ IH Hall]; constructor; [|done]. intros Hin. rewrite Forall_forall in Hall.
  by apply (tid_lt_irrefl (tup_id t)), Hall.
Qed.

(** A scan takes no more tuples than there were and came. *)
Lemma seen_bound h seen passed :
  progress h seen passed -> (length seen <= length (all_tuples e0) + length (omap inserted h))%nat.
Proof.
  intros [Hs Ho _]. rewrite <- length_app. apply submseteq_length, NoDup_submseteq; [by apply tup_lt_nodup|].
  intros tup [Hid|Hex]%Ho; apply elem_of_app; [left; by apply elem_of_all_tuples|right].
  apply Exists_exists in Hex as (ev & Hin & Hev). apply list_elem_of_omap. by exists ev.
Qed.

Lemma scan_state_ret h c k r :
  scan_state h c -> c = Ret r -> (length h <= fuel0 + 2 + k)%nat ->
  (length (all_tuples e0) + k + 1 < fuel0)%nat -> scan_outcome h r.
Proof.
  intros [|[|fuel] seen rows handle Hdec [Hf Hc] Hpr Hlt|seen rows handle Hdec Hpr|r' Hr] Heq Hh Hk; try done.
  - pose proof (seen_bound _ _ _ Hpr). lia.
  - injection Heq as <-. done.
Qed.
End concurrent_scan.

(** ** Clients within a budget *)

Section budgets.
Context {S : Type} `{StorageIOLaws S} {A : Type}.
#[local] Abbreviation Client := (Client (heap_monitor S) A).

Lemma bounded_more (c : Client) n n' : (n <= n')%nat -> bounded c n -> bounded c n'.
Proof.
  revert n n'. induction c as [a|op k IH]; intros [|n] [|n'] Hle Hc; cbn in *; try done; [lia|].
  destruct Hc as [Hop Hk]. split; [done|]. intros a Ha. apply (IH a n n'); [lia|]. by apply Hk.
Qed.

Lemma insert_bounded t (k : Result TupleId -> Client) n :
  tuple_ok t -> (forall r, bounded (k r) n) -> bounded (call_insert t k) (Datatypes.S n).
Proof. intros Ht Hk. split; [done|]. intros a _. apply Hk. Qed.

Lemma update_bounded id t (k : Result TupleId -> Client) n :
  0 <= t_page_id id -> 0 <= t_slot_idx id -> tuple_ok t -> (forall r, bounded (k r) n) ->
  bounded (call_update id t k) (Datatypes.S (Datatypes.S n)).
Proof.
  intros Hp Hs Ht Hk. split; [done|]. intros [u|er|] _; [by apply insert_bounded| |];
    (apply (bounded_more _ n); [lia|apply Hk]).
Qed.

Lemma scan_rest_bounded {R} (decode : Tuple -> Result R) fuel rows handle (k : Result (list R) -> Client) n :
  handle_ok handle -> (forall r, bounded (k r) n) ->
  bounded (call_scan_rest decode fuel rows handle k) (fuel + Datatypes.S n).
Proof.
  intros Hh Hk. assert (Hmore : forall r n', (n <= n')%nat -> bounded (k r) n')
    by (intros r n' Hle; by apply (bounded_more _ n)).
  revert rows handle Hh. induction fuel as [|fuel IH]; intros rows handle Hh; [apply Hmore; lia|].
  cbn [call_scan_rest Nat.add]. split; [done|]. intros [[[tup|]|er|] handle'] Ha; cbn [fst snd];
    [|rewrite Nat.add_comm; split; [done|]; intros [[u|er|] hd] _; apply Hmore; lia|apply Hmore; lia..].
  destruct (decode tup); [apply IH, Ha|apply Hmore; lia..].
Qed.

Lemma scan_bounded {R} (decode : Tuple -> Result R) fuel (k : Result (list R) -> Client) n :
  (forall r, bounded (k r) n) -> bounded (call_scan decode fuel k) (Datatypes.S (fuel + Datatypes.S n)).
Proof.
  intros Hk. split; [done|]. intros [handle|er|] Ha.
  - apply scan_rest_bounded; [by apply Ha|done].
  - apply (bounded_more _ n); [lia|apply Hk].
  - apply (bounded_more _ n); [lia|apply Hk].
Qed.
End budgets.

(** C3: concurrent callers see one engine.  Whatever the interleaving of the
    threads' accesses under the latch, the state reached is that of some sequence
    of whole calls, in which every thread makes its own calls in order and gets the
    answers it got, and every call has its sequential effect on the map from ids to
    tuples; at most one thread is inside a method at a time. *)
Theorem heap_calls_linearizable {S} `{StorageIOLaws S} {A} (e : HeapEngine S)
    (cs : list (Client (heap_monitor S) A)) (n : nat) (m : Machine (heap_monitor S) A) :
  allowed n (heap_atomic e cs) -> rtc step (heap_threads e cs) m ->
  exists h am, atomic_run (heap_atomic e cs) h am /\
    legal_history (O := heap_monitor S) e h (at_object am) /\
    at_clients am = client_of <$> threads m /\
    (latch m = None -> shared m = at_object am) /\
    forall i j t u, threads m !! i = Some t -> threads m !! j = Some u ->
      is_inside t = true -> is_inside u = true -> i = j.
Proof.
  intros Hal Hsteps. destruct (latch_linearizable (O := heap_monitor S) e cs n m Hal Hsteps) as (h & am & Hrun & Hsim & Hleg).
  exists h, am. split_and!; [done|done|apply Hsim| |].
  - intros Hl. by apply simulates_outside.
  - intros i j t u. by eapply simulates_exclusive.
Qed.

(** C7: every call completes.  From any state the threads can reach, every
    execution ends with all clients returned: no thread blocks another for ever,
    no method aborts, no loop of the engine runs on. *)
Theorem heap_calls_complete {S} `{StorageIOLaws S} {A} (e : HeapEngine S)
    (cs : list (Client (heap_monitor S) A)) (n : nat) (m : Machine (heap_monitor S) A) :
  allowed n (heap_atomic e cs) -> rtc step (heap_threads e cs) m ->
  inevitable step (fun m => finished m = true) m.
Proof.
  intros Hal Hsteps. destruct (latch_linearizable (O := heap_monitor S) e cs n m Hal Hsteps) as (h & am & Hrun & Hsim & _).
  destruct (allowed_run _ _ _ _ Hal Hrun) as [[n' Hal'] _]. by eapply latch_completes.
Qed.

(** C6: a scan beside writers ends and loses nothing.  Thread [i] runs the loop of
    [scan_rows] while the others make at most [k] calls of any kind, and the fuel of
    the loop exceeds the tuples there were at the start by more than [k].  On every
    execution all threads return.  What the scan returns is the rows of a list [ts] of
    tuples which is in id order without repetition, contains every tuple that was there
    at the start and that no call of the history deletes, and only tuples that were
    there at the start or that a call of the history inserted; or it is the error of
    such a tuple that does not decode. *)
Theorem concurrent_scan_complete {S} `{StorageIOLaws S} {R} (decode : Tuple -> Result R) (e : HeapEngine S)
    (cs : list (Client (heap_monitor S) (Result (list R)))) (k i fuel : nat)
    (m : Machine (heap_monitor S) (Result (list R))) :
  allowed (fuel + 2 + k) (heap_atomic e cs) -> (length (all_tuples e) + k + 1 < fuel)%nat ->
  cs !! i = Some (call_scan decode fuel (fun r => Ret r)) -> rtc step (heap_threads e cs) m ->
  inevitable step (fun m => finished m = true) m /\
  (forall r, threads m !! i = Some (Outside (Ret r)) ->
    exists h am, atomic_run (heap_atomic e cs) h am /\ at_clients am = client_of <$> threads m /\
      match r with
      | Ok rows => exists ts, Forall2 (fun tup row => decode tup = Ok row) ts rows /\ StronglySorted tup_lt ts /\
          (forall id data, heap_lookup e id = Some data -> Forall (spares id) h ->
            {| tup_id := id; tup_data := data |} ∈ ts) /\
          (forall tup, tup ∈ ts -> origin e h tup)
      | Err er => exists tup, origin e h tup /\ decode tup = Err er
      | Fault => exists tup, origin e h tup /\ decode tup = Fault
      end).
Proof.
  intros Hal Hfuel Hi Hsteps.
  destruct (latch_linearizable (O := heap_monitor S) e cs _ m Hal Hsteps) as (h & am & Hrun & Hsim & Hleg).
  destruct (allowed_history _ _ _ _ Hal Hrun) as (n' & Hn & Hal' & _).
  split; [by eapply latch_completes|]. intros r Hm. exists h, am. split; [done|]. split; [apply Hsim|].
  destruct (scan_state_run decode e fuel _ _ h am i Hal eq_refl Hi Hrun) as (c & Hc & Hst).
  rewrite (sim_clients _ _ Hsim), list_lookup_fmap, Hm in Hc. injection Hc as <-.
  assert (Hout : scan_outcome decode e h r) by (apply (scan_state_ret decode e fuel h _ k r Hst eq_refl); lia).
  destruct r as [rows|er|]; [|exact Hout..]. destruct Hout as (ts & Hdec & [Hsort Hor Hseen]). exists ts.
  split_and!; [done|done| |done]. intros id data Hid Hsp. by apply Hseen.
Qed.

(** ** Witnesses: a scan and an update of the first of three tuples *)

(** The threads named by [sched], one step each; a blocked thread is passed over. *)
Fixpoint run_schedule {O : Monitor} {A : Type} (sched : list nat) (m : Machine O A) : Machine O A :=
  match sched with
  | [] => m
  | i :: sched => run_schedule sched (default m (thread_step i m))
  end.

Lemma run_schedule_steps {O : Monitor} {A} sched (m : Machine O A) : rtc step m (run_schedule sched m).
Proof.
  revert m. induction sched as [|i sched IH]; intros m; [done|]. cbn.
  destruct (thread_step i m) as [m'|] eqn:Hi; [|apply IH]. eapply rtc_l; [by exists i|apply IH].
Qed.

#[local] Abbreviation first_id := {| t_page_id := 0; t_slot_idx := 0 |}.
#[local] Abbreviation scan_and_update :=
  [call_scan (S := MemDev.t) Ok 8 (fun r => Ret r); call_update first_id [x08] (fun _ => Ret (Ok []))].
#[local] Abbreviation at_start := (heap_threads filled_engine scan_and_update).
(** The update's deletion, the whole scan, the update's insertion. *)
#[local] Abbreviation between := (replicate 6 1%nat ++ replicate 100 0%nat ++ replicate 100 1%nat).
(** The scan's first tuple, the whole update, the rest of the scan. *)
#[local] Abbreviation around := (replicate 15 0%nat ++ replicate 100 1%nat ++ replicate 100 0%nat).

Lemma example_allowed : allowed 12 (heap_atomic filled_engine scan_and_update).
Proof.
  exists [10; 2]%nat. split_and!.
  - apply Forall2_cons. split; [|apply Forall2_cons; split; [|by apply Forall2_nil]].
    + apply (scan_bounded (A := Result (list Tuple)) Ok 8 (fun r => Ret r) 0). done.
    + apply (update_bounded (A := Result (list Tuple)) first_id [x08] (fun _ => Ret (Ok [])) 0); [done|done|split; cbn; lia|done].
  - done.
  - split; [apply filled_engine_ok|]. by vm_compute.
Qed.

Definition scan_result (m : Machine (heap_monitor MemDev.t) (Result (list Tuple))) : Result (list Tuple) :=
  match threads m !! 0%nat with Some (Outside (Ret r)) => r | _ => Fault end.

Lemma heap_calls_linearizable_witness :
  exists h am, atomic_run (heap_atomic filled_engine scan_and_update) h am /\
    shared (run_schedule around at_start) = at_object am.
Proof.
  destruct (heap_calls_linearizable filled_engine scan_and_update 12 (run_schedule around at_start)
    example_allowed (run_schedule_steps around at_start)) as (h & am & Hrun & _ & _ & Hshared & _).
  exists h, am. split; [exact Hrun|]. apply Hshared. by vm_compute.
Defined.

Lemma heap_calls_complete_witness :
  inevitable step (fun m => finished m = true) (run_schedule (replicate 3 0%nat) at_start).
Proof.
  exact (heap_calls_complete filled_engine scan_and_update 12 (run_schedule (replicate 3 0%nat) at_start)
    example_allowed (run_schedule_steps (replicate 3 0%nat) at_start)).
Defined.

Lemma scan_result_thread m rows :
  scan_result m = Ok rows -> threads m !! 0%nat = Some (Outside (Ret (Ok rows))).
Proof.
  unfold scan_result. destruct (threads m !! 0%nat) as [[[r|op k]|op c k]|]; try done. by intros ->.
Qed.

Lemma concurrent_scan_complete_witness :
  scan_result (run_schedule around at_start) =
    Ok [tuple_of 0 0 [x01; x02]; tuple_of 0 1 [x03]; tuple_of 0 2 [x08]; tuple_of 1 0 (replicate 12 x07)] /\
  inevitable step (fun m => finished m = true) at_start /\
  exists h am, atomic_run (heap_atomic filled_engine scan_and_update) h am /\
    origin filled_engine h (tuple_of 0 2 [x08]).
Proof.
  assert (Hres : scan_result (run_schedule around at_start) =
    Ok [tuple_of 0 0 [x01; x02]; tuple_of 0 1 [x03]; tuple_of 0 2 [x08]; tuple_of 1 0 (replicate 12 x07)])
    by (vm_compute; reflexivity).
  split; [exact Hres|].
  assert (Hfuel : (length (all_tuples filled_engine) + 2 + 1 < 8)%nat) by (vm_compute; lia).
  split.
  - apply (concurrent_scan_complete Ok filled_engine scan_and_update 2 0 8 at_start example_allowed Hfuel eq_refl).
    apply rtc_refl.
  - destruct (concurrent_scan_complete Ok filled_engine scan_and_update 2 0 8 (run_schedule around at_start)
      example_allowed Hfuel eq_refl (run_schedule_steps around at_start)) as [_ Hout].
    destruct (Hout _ (scan_result_thread _ _ Hres)) as (h & am & Hrun & _ & ts & Hts & _ & _ & Horigin).
    exists h, am. split; [exact Hrun|]. apply Horigin.
    destruct (Forall2_lookup_r _ _ _ 2%nat _ Hts eq_refl) as (tup & Htup & [= Heq]). subst tup.
    apply list_elem_of_lookup. exists 2%nat. exact Htup.
Defined.

(** An update is not one step to the other threads.  It takes the latch for the
    deletion and again for the insertion: a scan that runs in between returns
    neither the old tuple nor the new one, and a scan around it returns both. *)
Theorem update_visible_between_latches :
  rtc step at_start (run_schedule between at_start) /\
  rtc step at_start (run_schedule around at_start) /\
  finished (run_schedule between at_start) = true /\ finished (run_schedule around at_start) = true /\
  scan_result (run_schedule between at_start) = Ok [tuple_of 0 1 [x03]; tuple_of 1 0 (replicate 12 x07)] /\
  scan_result (run_schedule around at_start) =
    Ok [tuple_of 0 0 [x01; x02]; tuple_of 0 1 [x03]; tuple_of 0 2 [x08]; tuple_of 1 0 (replicate 12 x07)].
Proof.
  split; [apply run_schedule_steps|]. split; [apply run_schedule_steps|]. by vm_compute.
Qed.
