(* ===== verification/HeapFailures.v ===== *)
(** * HeapFailures: the heap engine on a device that fails

    On a device whose failed reads transfer nothing, a call of the engine has its
    sequential effect on the map of tuples or reports an error and changes no
    tuple.  What an error can leave behind is one page of zeroes at the end of the
    file, when the page was allocated and the frame for it was not to be had: such
    a page holds nothing, takes nothing and is passed over, so [heap_live], the
    invariant here, admits it beside the well-formed pages.  The engine's latch then
    carries the guarantee over to any number of threads. *)
From S2P Require Import Prelude Utils StorageIO PageStore EvictionPolicy PolicyFactory BufferPool.
From S2P Require Import BufferPoolSpec BufferPoolClient PoolFailures HeapPage HeapEngine.
From S2P Require Import HeapEngineSpec HeapEngineProps Latch HeapConcurrent HeapConcurrentProps.

(** ** Pages of zeroes *)

Definition page_sound (pg : list byte) : Prop :=
  page_wf pg \/ exists n, pg = replicate n x00 /\ (28 <= n)%nat /\ Z.of_nat n <= 65535.

Lemma field_blank n off : (off + 2 <= n)%nat -> field (replicate n x00) off = 0.
Proof.
  intros Hn. unfold field, slice. rewrite drop_replicate, take_replicate.
  by replace (2 `min` (n - off))%nat with 2%nat by lia.
Qed.

Lemma blank_header n :
  (28 <= n)%nat -> let pg := replicate n x00 in
  count_of pg = 0 /\ room pg = 0 /\ page_tuples pg = [].
Proof.
  intros Hn pg. assert (Hc : count_of pg = 0) by (apply field_blank; unfold SLOT_COUNT_OFFSET; lia).
  split_and!; [done| |by apply page_tuples_empty]. unfold room, free_end_of, free_start_of, pg.
  by rewrite !field_blank by (unfold FREE_START_OFFSET, FREE_END_OFFSET; lia).
Qed.

Lemma blank_valid n : (28 <= n)%nat -> Z.of_nat n <= 65535 -> validate_page_size (replicate n x00) = Ok tt.
Proof.
  intros Hn Hm. unfold validate_page_size, PAGE_HEADER_SIZE, MAX_U16. rewrite length_replicate.
  destruct (Nat.ltb_spec n 28); [lia|]. destruct (Z.ltb_spec 65535 (Z.of_nat n)); [lia|done].
Qed.

Lemma sound_slot_count pg : page_sound pg -> slot_count pg = Ok (count_of pg).
Proof.
  intros [Hwf|(n & -> & Hn & Hm)]; [by apply slot_count_ok|]. unfold slot_count.
  rewrite blank_valid by done. apply read_u16_eq. rewrite length_replicate. unfold SLOT_COUNT_OFFSET. lia.
Qed.

Lemma sound_can_insert pg size :
  page_sound pg -> 0 <= size < 2 ^ 63 -> can_insert pg size = Ok (size + 4 <=? room pg).
Proof.
  intros [Hwf|(n & -> & Hn & Hm)] Hs; [by apply can_insert_ok|].
  destruct (blank_header n Hn) as (_ & -> & _). rewrite (proj2 (Z.leb_gt (size + 4) 0)) by lia.
  unfold can_insert, fits_u16, MAX_U16. destruct (Z.leb_spec size 65535); cbn [negb]; [|done].
  unfold free_space. rewrite blank_valid by done. cbn [bindR].
  rewrite !read_u16_eq by (rewrite length_replicate; unfold FREE_START_OFFSET, FREE_END_OFFSET; lia).
  rewrite !field_blank by (unfold FREE_START_OFFSET, FREE_END_OFFSET; lia). cbn [bindR Z.ltb Z.compare].
  rewrite wrap64_small by (change (Z.of_nat SLOT_SIZE) with 4; lia). f_equal. apply Z.leb_gt.
  change (Z.of_nat SLOT_SIZE) with 4. lia.
Qed.

Lemma sound_delete pg i :
  page_sound pg -> 0 <= i ->
  exists r pg', page_delete_tuple i pg = (r, pg') /\ page_sound pg' /\ length pg' = length pg /\
    match page_tuples pg !! Z.to_nat i with
    | None => r = Err InvalidArgument /\ pg' = pg
    | Some None => r = Err NotFound /\ pg' = pg
    | Some (Some _) => r = Ok tt /\ page_tuples pg' = <[Z.to_nat i := None]> (page_tuples pg)
    end.
Proof.
  intros Hpg Hi. destruct Hpg as [Hwf|(n & -> & Hn & Hm)].
  - destruct (page_delete_spec pg i Hwf Hi) as (r & pg' & Hd & Hwf' & Hl & _ & Hcase).
    exists r, pg'. split_and!; try done. by left.
  - destruct (blank_header n Hn) as (Hc & _ & Ht). rewrite Ht. eexists _, _. split_and!; [|by right; eauto|done..].
    unfold page_delete_tuple, viewM, bindM, read_slot.
    rewrite sound_slot_count by (right; eauto). cbn [bindR]. rewrite Hc.
    by rewrite (proj2 (Z.leb_le 0 i)) by done.
Qed.

Section failures.
Context {S : Type} `{StorageIOLaws S} (Hclean : clean_reads S).
#[local] Abbreviation E := (HeapEngine S).
Implicit Types (e : E) (t : list byte).

(** ** The invariant *)

Record heap_live e : Prop := {
  hl_opened : opened e = true;
  hl_store : page_store e = true;
  hl_steady : steady (buffer_pool e);
  hl_pages : Forall page_sound (heap_pages e);
  hl_config : ec_page_size (he_config e) = Z.of_nat (heap_page_bytes e);
  hl_size : 28 <= Z.of_nat (heap_page_bytes e) <= 65535;
}.

Lemma heap_ok_live e : heap_ok e -> heap_live e.
Proof.
  intros [Ho Hst Hr Hp Hc Hz]. split; [done|done|apply Hr| |done|done].
  eapply Forall_impl; [exact Hp|]. by left.
Qed.

Definition unchanged e e' : Prop :=
  heap_live e' /\ same_engine e e' /\ heap_pages e' = heap_pages e.

Lemma heap_live_pool e p :
  heap_live e -> steady p -> Forall page_sound (logical p) ->
  pstore (bp_world p) = pstore (bp_world (buffer_pool e)) ->
  heap_live (set_pool p e) /\ same_engine e (set_pool p e).
Proof.
  intros [] Hs Hp Hps. assert (Hse : same_engine e (set_pool p e)) by done.
  pose proof (same_engine_bytes _ _ Hse) as Hb. split; [|done]. split; rewrite ?Hb; done.
Qed.

Lemma unchanged_pool e p :
  heap_live e -> steady p -> logical p = heap_pages e ->
  pstore (bp_world p) = pstore (bp_world (buffer_pool e)) -> unchanged e (set_pool p e).
Proof.
  intros Hl Hs Hp Hps. destruct (heap_live_pool e p Hl Hs) as [Hl' Hse]; [rewrite Hp; apply Hl|done|].
  by split_and!.
Qed.

Lemma unchanged_trans e1 e2 e3 : unchanged e1 e2 -> unchanged e2 e3 -> unchanged e1 e3.
Proof. intros (_ & Hs1 & Hp1) (Hl & Hs2 & Hp2). split_and!; [done|by etrans|congruence]. Qed.

Lemma check_open_live {B} e (k : unit -> M E B) Q :
  heap_live e -> wp (k tt) Q e -> wp (bindM heap_check_open k) Q e.
Proof.
  intros Hl. apply wp_eq_bind. unfold heap_check_open. by rewrite (hl_opened _ Hl), (hl_store _ Hl).
Qed.

(** Page [id] is in a frame, nobody holds another. *)
Definition fetched_page e (h : FrameHandle) id e1 : Prop :=
  exists p f, e1 = set_pool p e /\ holding p h id f /\ synced p f /\ same_base (buffer_pool e) p /\
    logical p = heap_pages e /\ heap_pages e !! Z.to_nat id = Some (f_data f) /\
    page_sound (f_data f) /\ length (f_data f) = heap_page_bytes e.

Lemma fetch_live e id :
  heap_live e -> 0 <= id ->
  wp (on_pool (fetch id)) (post (fun h e1 => fetched_page e h id e1) (fun _ e1 => unchanged e e1)) e.
Proof using Hclean.
  intros Hl Hid. apply wp_zoom. eapply wp_mono; [by apply fetch_steady; [apply Hl|]|].
  intros [h|er|] p; cbn [post]; [| |done].
  - intros (f & Hh & Hsy & Hb & _ & Hlg & Hd). exists p, f. split_and!; try done.
    + by apply (Forall_lookup_1 _ _ _ _ (hl_pages _ Hl) Hd).
    + by eapply page_bytes_held.
  - intros ([Hps _] & _ & Hcl). destruct (Hcl Hclean) as [Hs Hlg]. by apply unchanged_pool.
Qed.

Lemma page_count_live e :
  heap_live e ->
  wp (on_heap_store page_count)
    (post (fun n e1 => unchanged e e1 /\ n = Z.of_nat (length (heap_pages e)) /\ n < 2 ^ 63)
          (fun _ e1 => unchanged e e1)) e.
Proof.
  intros Hl. pose proof (hl_steady _ Hl) as Hs. set (p := buffer_pool e) in *.
  assert (Hso : store_ok (bp_world p)) by apply Hs.
  assert (Hsame : forall w, same_store (bp_world p) w -> unchanged e (set_pool (set_world w p) e)).
  { intros w Hw. destruct (same_store_kept p w (rd_wf _ Hs) (same_store_weaken _ _ Hw)) as [Hk _].
    destruct (kept_steady p _ Hs Hk) as (Hs' & Hlg & [Hps _]). by apply unchanged_pool. }
  apply wp_zoom, wp_zoom. eapply wp_mono; [by apply page_count_wp|].
  intros [n|er|] w; cbn [post]; [| |done].
  - intros (Hw & -> & Hlt). split_and!; [by apply Hsame|unfold heap_pages; by rewrite length_logical|].
    fold p in Hlt |- *. pose proof (so_page_size _ Hso). nia.
  - intros [Hw _]. by apply Hsame.
Qed.

(** Giving the page back, as it was or with new bytes. *)
Lemma unpin_clean_live e h id p f :
  heap_live e -> holding p h id f -> synced p f -> same_base (buffer_pool e) p -> logical p = heap_pages e ->
  exists e', on_pool (unpin h false) (set_pool p e) = (Ok FrameHandle_released, e') /\ unchanged e e'.
Proof.
  intros Hl Hh Hsy [Hps _] Hlg.
  destruct (on_pool_unpin_holding (set_pool p e) h id f Hh false (or_intror Hsy)) as (p' & Hu & Hs & Hw & Hl').
  exists (set_pool p' e). split; [exact Hu|]. apply unchanged_pool; [done|done|by rewrite Hl'|by rewrite Hw].
Qed.

Lemma edit_live {A} e h id p f (m : M (list byte) A) a bs :
  heap_live e -> holding p h id f -> same_base (buffer_pool e) p -> logical p = heap_pages e ->
  m (f_data f) = (Ok a, bs) -> length bs = heap_page_bytes e -> page_sound bs ->
  exists e', heap_live e' /\ same_engine e e' /\ heap_pages e' = <[Z.to_nat id := bs]> (heap_pages e) /\
    forall B (k : A -> M E B),
      (let* x := or_unpin h (edit_page h m) in let* _ := on_pool (unpin h true) in k x) (set_pool p e)
        = k a e'.
Proof.
  intros Hl Hh Hb Hlg Hm Hlen Hsound.
  destruct (edit_and_unpin_holding (set_pool p e) h id f Hh m a bs Hm) as (p' & Hs & Hw & Hl' & Hrun).
  { rewrite Hlen. symmetry. exact (same_base_bytes _ _ Hb). }
  change (heap_pages (set_pool p e)) with (logical p) in Hl'. rewrite Hlg in Hl'.
  destruct (heap_live_pool e p' Hl Hs) as [Hlive Hse].
  { rewrite Hl'. apply Forall_insert; [apply Hl|done]. }
  { rewrite Hw. apply Hb. }
  by exists (set_pool p' e).
Qed.

(** ** Inserting *)

Lemma insert_existing_live e id t :
  heap_live e -> tuple_ok t -> 0 <= id ->
  wp (insert_into_existing_page id t)
    (post (fun r e' => heap_live e' /\ same_engine e e' /\
             match r with
             | Some tid => exists pg, heap_pages e !! Z.to_nat id = Some pg /\
                 tid = {| t_page_id := id; t_slot_idx := Z.of_nat (length (page_tuples pg)) |} /\
                 appended e e' id t
             | None => heap_pages e' = heap_pages e
             end)
          (fun _ e' => unchanged e e')) e.
Proof using Hclean.
  intros Hl Ht Hid. unfold insert_into_existing_page.
  eapply wp_post_bind; [by apply fetch_live| |done].
  intros h e1 (p & f & -> & Hh & Hsy & Hb & Hlg & Hpg & Hsound & Hlen).
  eapply wp_eq_bind.
  { apply (or_unpin_view_ok (set_pool p e) h id f Hh). apply sound_can_insert; [done|]. unfold tuple_ok in Ht. lia. }
  destruct (Z.leb_spec (Z.of_nat (length t) + 4) (room (f_data f))) as [Hfit|Hno]; cbn [negb].
  - assert (Hwf : page_wf (f_data f)).
    { destruct Hsound as [?|(n & Hn & Hn28 & _)]; [done|]. rewrite Hn in Hfit.
      destruct (blank_header n Hn28) as (_ & Hroom & _). lia. }
    destruct (page_insert_spec (f_data f) t Hwf Ht) as (r & bs & Hins & Hwf' & Hbl & Hcase).
    rewrite (proj2 (Z.leb_le _ _)) in Hcase by done. destruct Hcase as (-> & Htup & _).
    destruct (edit_live e h id p f _ _ bs Hl Hh Hb Hlg Hins) as (e' & Hl' & Hse & Hp' & Hrun);
      [by rewrite Hbl|by left|].
    eapply wp_eq; [exact (Hrun _ _)|]. cbn [post]. split_and!; [done|done|].
    exists (f_data f). split_and!; [done|done|]. exists (f_data f), bs. done.
  - destruct (unpin_clean_live e h id p f Hl Hh Hsy Hb Hlg) as (e' & Hu & Hun).
    eapply wp_eq_bind; [exact Hu|]. apply wp_ret. exact Hun.
Qed.

(** The file grows by a page of zeroes, or stays. *)
Lemma allocate_live e :
  heap_live e ->
  wp (on_heap_store allocate_page)
    (post (fun id e1 => heap_live e1 /\ same_engine e e1 /\ id = Z.of_nat (length (heap_pages e)) /\
             heap_pages e1 = heap_pages e ++ [replicate (heap_page_bytes e) x00])
          (fun _ e1 => unchanged e e1)) e.
Proof.
  intros Hl. pose proof (hl_steady _ Hl) as Hs. pose proof (hl_size _ Hl) as Hz.
  assert (Hso : store_ok (bp_world (buffer_pool e))) by apply Hs.
  apply wp_zoom, wp_zoom. eapply wp_mono; [by apply allocate_page_wp|].
  intros [id|er|] w; cbn [post]; [| |done].
  - intros (Hok & Hps & -> & Hd & _).
    destruct (pool_grow _ w _ (rd_wf _ Hs) Hok Hps Hd) as (Hwf' & Hc' & Hl').
    destruct (heap_live_pool e (set_world w (buffer_pool e)) Hl) as [Hlive Hse]; [|
      |done|split_and!; [done|done|unfold heap_pages; by rewrite length_logical|exact Hl']].
    + split; [done|apply Hc', Hs|apply Hs].
    + rewrite Hl'. apply Forall_app. split; [apply Hl|]. apply Forall_singleton. right.
      eexists. split; [reflexivity|]. unfold heap_page_bytes in Hz. lia.
  - intros (Hok & Hps & Hd & _).
    destruct (pool_grow (buffer_pool e) w [] (rd_wf _ Hs) Hok Hps) as (Hwf' & Hc' & Hl');
      [by rewrite app_nil_r|].
    apply unchanged_pool; [done| |by rewrite Hl', app_nil_r|done].
    split; [done|apply Hc', Hs|apply Hs].
Qed.

Lemma insert_new_live e t :
  heap_live e -> tuple_ok t ->
  wp (insert_into_new_page t)
    (post (fun id e' => heap_live e' /\ same_engine e e' /\
             id = {| t_page_id := Z.of_nat (length (heap_pages e)); t_slot_idx := 0 |} /\
             exists pg, heap_pages e' = heap_pages e ++ [pg] /\ page_tuples pg = [Some t])
          (fun _ e' => heap_live e' /\ same_engine e e' /\
             (heap_pages e' = heap_pages e \/
              heap_pages e' = heap_pages e ++ [replicate (heap_page_bytes e) x00]))) e.
Proof.
  intros Hl Ht. pose proof (hl_size _ Hl) as Hz. unfold insert_into_new_page. wp_pure.
  rewrite (hl_config _ Hl). change (Z.of_nat PAGE_HEADER_SIZE) with 28. change (Z.of_nat SLOT_SIZE) with 4.
  destruct Ht as [Hne Hmax]. rewrite !wrap64_small by lia.
  destruct (Z.ltb_spec (Z.of_nat (heap_page_bytes e) - 28) (Z.of_nat (length t) + 4)) as [Hbig|Hfit];
    [apply wp_err; split_and!; [done|done|by left]|].
  eapply wp_post_bind; [by apply allocate_live| |by intros er e1 (? & ? & ?); split_and!; auto].
  intros id e1 (Hl1 & Hs1 & -> & Hp1). pose proof (same_engine_bytes _ _ Hs1) as Hb1.
  set (id := Z.of_nat (length (heap_pages e))) in *.
  apply wp_bind, wp_zoom. eapply wp_mono; [apply fetch_new_steady; [apply Hl1|]|].
  { fold (heap_pages e1). rewrite Hp1, length_app. cbn. lia. }
  intros [h|er|] p2; cbn [post]; [| |done].
  2: { intros ([Hps _] & Hs2 & Hlg & _). destruct (unchanged_pool e1 p2 Hl1 Hs2 Hlg Hps) as (Hl2 & Hse2 & Hp2).
       split_and!; [done|by etrans|]. right. congruence. }
  intros (f & Hh & _ & Hb2 & _ & Hlg2 & Hd2). fold (heap_page_bytes e1) in Hlg2, Hd2. rewrite Hb1 in Hlg2, Hd2.
  fold (heap_pages e1) in Hlg2.
  assert (Hfl : length (f_data f) = heap_page_bytes e) by (by rewrite Hd2, length_replicate).
  pose proof (initialize_eq (f_data f) id ltac:(lia) ltac:(lia)) as Hinit. rewrite Hfl in Hinit.
  destruct (fresh_page_spec (heap_page_bytes e) id ltac:(lia) ltac:(lia)) as (Hwf0 & Ht0 & Hroom0 & Hlen0).
  destruct (or_unpin_edit_holding (set_pool p2 e1) h id f Hh _ _ _ Hinit) as (p3 & He3 & Hh3 & Hw3 & Hl3).
  { rewrite Hlen0, <- Hb1. symmetry. exact (same_base_bytes _ _ Hb2). }
  eapply wp_eq_bind; [exact He3|]. rewrite set_pool_twice.
  destruct (page_insert_spec _ t Hwf0 (conj Hne Hmax)) as (r & bs & Hins & Hwf' & Hbl & Hcase).
  destruct (Z.leb_spec (Z.of_nat (length t) + 4) (room (fresh_page (heap_page_bytes e) id))); [|lia].
  destruct Hcase as (-> & Htup & _). rewrite Ht0 in Htup.
  destruct (edit_and_unpin_holding (set_pool p3 e1) h id _ Hh3 (page_insert_tuple t) _ _ Hins)
    as (p4 & Hs4 & Hw4 & Hl4 & Hrun).
  { rewrite Hbl, Hlen0, <- Hb1. unfold heap_page_bytes. rewrite set_pool_pool, Hw3. symmetry.
    exact (same_base_bytes _ _ Hb2). }
  eapply wp_eq; [exact (Hrun _ _)|]. rewrite set_pool_twice. cbn [post].
  assert (Hlg : logical p4 = heap_pages e ++ [bs]).
  { rewrite Hl4. unfold heap_pages at 1. rewrite set_pool_pool, Hl3. unfold heap_pages at 1.
    rewrite set_pool_pool, Hlg2, Hp1, !list_insert_insert_eq. unfold id. rewrite Nat2Z.id.
    rewrite insert_app_r_alt, Nat.sub_diag by lia. done. }
  destruct (heap_live_pool e1 p4 Hl1 Hs4) as [Hl' Hse].
  { rewrite Hlg. apply Forall_app. split; [apply Hl|apply Forall_singleton; by left]. }
  { rewrite Hw4, set_pool_pool, Hw3. apply Hb2. }
  split_and!; [done|by etrans|by rewrite Ht0|]. exists bs. done.
Qed.

(** A page of zeroes at the end holds no tuple. *)
Lemma lookup_blank (pgs : list (list byte)) n id :
  (28 <= n)%nat -> pages_lookup_tuple (pgs ++ [replicate n x00]) id = pages_lookup_tuple pgs id.
Proof using Type.
  intros Hn. unfold pages_lookup_tuple. destruct (_ && _); [|done].
  destruct (blank_header n Hn) as (_ & _ & Ht).
  destruct (decide (Z.to_nat (t_page_id id) < length pgs)%nat) as [Hlt|Hge]; [by rewrite lookup_app_l|].
  rewrite lookup_app_r, (lookup_ge_None_2 pgs) by lia.
  destruct (Z.to_nat (t_page_id id) - length pgs)%nat; cbn; [|done]. by rewrite Ht.
Qed.

(** The tuple is stored under a fresh id, or an error is reported and no tuple
    changes; at most one page is added. *)
Definition insert_outcome e t (r : Result TupleId) e' : Prop :=
  heap_live e' /\ same_engine e e' /\ (length (heap_pages e') <= length (heap_pages e) + 1)%nat /\
  match r with
  | Ok id => 0 <= t_page_id id /\ 0 <= t_slot_idx id /\ heap_lookup e id = None /\
      forall id', heap_lookup e' id' = if decide (id' = id) then Some t else heap_lookup e id'
  | Err _ => same_tuples e e'
  | Fault => False
  end.

Lemma unchanged_insert e er e' t : unchanged e e' -> insert_outcome e t (Err er) e'.
Proof. intros (Hl & Hs & Hp). split_and!; [done|done|rewrite Hp; lia|by apply same_pages_tuples]. Qed.

Lemma unchanged_insert_trans e e1 e' t r :
  unchanged e e1 -> insert_outcome e1 t r e' -> insert_outcome e t r e'.
Proof.
  intros (_ & Hs & Hp) (Hl' & Hs' & Hlen & Hr). rewrite Hp in Hlen. split_and!; [done|by etrans|done|].
  unfold same_tuples, heap_lookup in *. by rewrite Hp in Hr.
Qed.

Lemma insert_new_outcome e t : heap_live e -> tuple_ok t -> wp (insert_into_new_page t) (insert_outcome e t) e.
Proof.
  intros Hl Ht. eapply wp_mono; [by apply insert_new_live|]. intros [id|er|] e'; cbn [post]; [| |done].
  - intros (Hl' & Hs & -> & pg & Hp & Htup). 
    destruct (lookup_new_page e e' pg t Hp Htup) as [Hnone Hall].
    split_and!; [done|done|rewrite Hp, length_app; cbn; lia|cbn; lia|done|done|done].
  - intros (Hl' & Hs & Hcase). pose proof (hl_size _ Hl) as Hz.
    split_and!; [done|done|destruct Hcase as [->| ->]; rewrite ?length_app; cbn; lia|].
    intros id. unfold heap_lookup. destruct Hcase as [->| ->]; [done|]. apply lookup_blank. lia.
Qed.

Lemma insert_loop_live fuel e page_id t :
  heap_live e -> tuple_ok t -> 0 <= page_id <= Z.of_nat (length (heap_pages e)) ->
  Z.of_nat (length (heap_pages e)) < 2 ^ 63 ->
  (Z.to_nat (Z.of_nat (length (heap_pages e)) - page_id) < fuel)%nat ->
  wp (insert_loop fuel page_id (Z.of_nat (length (heap_pages e))) t) (insert_outcome e t) e.
Proof using Hclean.
  revert e page_id. induction fuel as [|fuel IH]; intros e page_id Hl Ht Hid Hmax Hfuel; [lia|].
  cbn [insert_loop]. destruct (Z.leb_spec (Z.of_nat (length (heap_pages e))) page_id) as [Hend|Hmore];
    [by apply insert_new_outcome|].
  eapply wp_post_bind; [apply insert_existing_live; [done|done|lia]| |by intros; apply unchanged_insert].
  intros [tid|] e1 (Hl1 & Hs1 & Hcase).
  - apply wp_ret. destruct Hcase as (pg & Hpg & -> & Happ).
    pose proof (lookup_appended e e1 (Z.to_nat page_id) pg t Hpg) as Hlook. rewrite Z2Nat.id in Hlook by lia.
    destruct (Hlook Happ) as [Hnone Hall]. destruct Happ as (pg1 & pg' & _ & Hp & _).
    split_and!; [done|done|rewrite Hp, length_insert; lia|cbn; lia|cbn; lia|done|done].
  - assert (Hun : unchanged e e1) by done. rewrite wrap64_small by lia.
    eapply wp_mono; [|intros r e'; by apply unchanged_insert_trans].
    rewrite <- Hcase in *. apply IH; try done; lia.
Qed.

Lemma heap_insert_live e t :
  heap_live e -> tuple_ok t -> wp (heap_insert_tuple t) (insert_outcome e t) e.
Proof using Hclean.
  intros Hl Ht. unfold heap_insert_tuple.
  apply wp_assert_bind; [destruct Ht; apply negb_true_iff, Nat.eqb_neq; lia|].
  apply check_open_live; [done|].
  eapply wp_post_bind; [by apply page_count_live| |by intros; apply unchanged_insert].
  intros n e1 (Hun & -> & Hmax). eapply wp_mono; [|intros r e'; by apply unchanged_insert_trans].
  destruct Hun as (Hl1 & _ & Hp1). rewrite <- Hp1 in *. apply insert_loop_live; try done; lia.
Qed.

(** ** Deleting *)

Definition delete_outcome e (id : TupleId) (r : Result unit) e' : Prop :=
  heap_live e' /\ same_engine e e' /\ length (heap_pages e') = length (heap_pages e) /\
  match r with
  | Ok _ => is_Some (heap_lookup e id) /\
      forall id', heap_lookup e' id' = if decide (id' = id) then None else heap_lookup e id'
  | Err _ => same_tuples e e'
  | Fault => False
  end.

Lemma unchanged_delete e er e' id : unchanged e e' -> delete_outcome e id (Err er) e'.
Proof. intros (Hl & Hs & Hp). split_and!; [done|done|by rewrite Hp|by apply same_pages_tuples]. Qed.

Lemma heap_delete_live e id :
  heap_live e -> 0 <= t_page_id id -> 0 <= t_slot_idx id ->
  wp (heap_delete_tuple id) (delete_outcome e id) e.
Proof using Hclean.
  intros Hl Hpid Hsid. unfold heap_delete_tuple. apply check_open_live; [done|].
  eapply wp_post_bind; [by apply fetch_live| |by intros; apply unchanged_delete].
  intros h e1 (p & f & -> & Hh & Hsy & Hb & Hlg & Hpg & Hsound & Hlen).
  destruct (sound_delete (f_data f) (t_slot_idx id) Hsound Hsid) as (r & bs & Hd & Hsound' & Hbl & Hcase).
  assert (Herr : forall er, r = Err er /\ bs = f_data f ->
    wp (let* _ := or_unpin h (edit_page h (page_delete_tuple (t_slot_idx id))) in
        let* _ := on_pool (unpin h true) in retM tt) (delete_outcome e id) (set_pool p e)).
  { intros er [-> ->].
    destruct (or_unpin_edit_err_holding (set_pool p e) h _ f Hh (page_delete_tuple (t_slot_idx id)) er Hsy Hd)
      as (p' & He & Hs & Hw & Hl'). apply wp_bind. eapply wp_eq; [exact He|]. rewrite set_pool_twice.
    apply unchanged_delete, unchanged_pool; [done|done|by rewrite Hl'|rewrite Hw; apply Hb]. }
  destruct (page_tuples (f_data f) !! Z.to_nat (t_slot_idx id)) as [[old|]|] eqn:Hslot; [|by eapply Herr..].
  destruct Hcase as [-> Htup].
  destruct (edit_live e h _ p f _ _ bs Hl Hh Hb Hlg Hd) as (e' & Hl' & Hse & Hp' & Hrun);
    [by rewrite Hbl|done|].
  eapply wp_eq; [exact (Hrun _ (fun _ => retM tt))|].
  unfold delete_outcome, heap_lookup. rewrite Hp', length_insert. split_and!; [done..| |].
  - exists old. unfold pages_lookup_tuple. rewrite !(proj2 (Z.leb_le _ _)) by done. cbn.
    rewrite Hpg. cbn. by rewrite Hslot.
  - by eapply lookup_deleted.
Qed.

(** ** Scanning *)

(** The next tuple and a cursor past it; or an error and a cursor from which the
    scan, retried, has the same tuples to return. *)
Definition scan_outcome e (todo : list Tuple) (r : Result (option Tuple)) (st : ScanHandle * E) : Prop :=
  unchanged e st.2 /\
  exists page' slot', st.1 = encode_cursor page' slot' /\ cursor_ok page' slot' /\
    match r with
    | Ok o => o = head todo /\ remaining (heap_pages e) page' slot' = tail todo
    | Err _ => remaining (heap_pages e) page' slot' = todo
    | Fault => False
    end.

Lemma unchanged_scan e e1 todo r st : unchanged e e1 -> scan_outcome e1 todo r st -> scan_outcome e todo r st.
Proof.
  intros Hun [Hun1 Hc]. pose proof Hun as (_ & _ & Hp). rewrite Hp in Hc.
  split; [by eapply unchanged_trans|done].
Qed.

Lemma scan_failed e e' page slot er :
  unchanged e e' -> cursor_ok page slot ->
  scan_outcome e (remaining (heap_pages e) page slot) (Err er) (encode_cursor page slot, e').
Proof. intros Hun Hc. split; [done|]. by exists page, slot. Qed.

(** The inner loop on a page of either kind. *)
Lemma scan_slots_sound e h page f fuel hd slot :
  holding (buffer_pool e) h page f -> synced (buffer_pool e) f -> page_sound (f_data f) ->
  0 <= slot -> (Z.to_nat (count_of (f_data f) - slot) < fuel)%nat ->
  match live_slots page slot (drop (Z.to_nat slot) (page_tuples (f_data f))) with
  | [] => scan_slots fuel h page slot (count_of (f_data f)) (hd, e) = (Ok None, (hd, e))
  | tup :: rest =>
      exists s p', scan_slots fuel h page slot (count_of (f_data f)) (hd, e) =
          (Ok (Some tup), (encode_cursor page s, set_pool p' e)) /\
        steady p' /\ bp_world p' = bp_world (buffer_pool e) /\ logical p' = heap_pages e /\
        0 <= s < 65536 /\ rest = live_slots page s (drop (Z.to_nat s) (page_tuples (f_data f)))
  end.
Proof.
  intros Hh Hsy [Hwf|(n & Hn & Hn28 & _)] Hs Hfuel.
  - pose proof (page_count_range _ Hwf). pose proof (pg_size _ Hwf).
    assert (Hc : count_of (f_data f) = Z.of_nat (length (page_tuples (f_data f))))
      by (rewrite length_page_tuples; lia).
    rewrite Hc in *. apply scan_slots_eq; try done; lia.
  - destruct (blank_header n Hn28) as (Hc & _ & Ht). rewrite Hn in *. rewrite Ht, drop_nil, Hc in *.
    destruct fuel as [|fuel]; [lia|]. cbn [live_slots scan_slots].
    by rewrite (proj2 (Z.leb_le 0 slot)) by done.
Qed.

Lemma scan_pages_live fuel e page slot :
  heap_live e -> Z.of_nat (length (heap_pages e)) < 2 ^ 32 -> cursor_ok page slot ->
  (Z.to_nat (Z.of_nat (length (heap_pages e)) - page) < fuel)%nat ->
  wp (scan_pages fuel page (Z.of_nat (length (heap_pages e))))
    (scan_outcome e (remaining (heap_pages e) page slot)) (encode_cursor page slot, e).
Proof using Hclean.
  revert e page slot. induction fuel as [|fuel IH]; intros e page slot Hl Hcnt [Hp Hs] Hfuel; [lia|].
  cbn [scan_pages]. destruct (Z.leb_spec (Z.of_nat (length (heap_pages e))) page) as [Hend|Hmore].
  { assert (Hnil : remaining (heap_pages e) page slot = []) by (unfold remaining; by rewrite drop_ge by lia).
    apply wp_ret. rewrite Hnil. split; [by split_and!|]. exists page, slot. rewrite Hnil. by split_and!. }
  apply wp_bind, wp_zoom. eapply wp_mono; [apply fetch_live; [done|lia]|].
  intros [h|er|] e1; cbn [post]; [| |done]; [|by intros Hun; apply scan_failed].
  intros (p & f & -> & Hh & Hsy & Hb & Hlg & Hpg & Hsound & Hlen). cbn [fst snd] in *.
  eapply wp_eq_bind.
  { apply on_engine_eq, (or_unpin_view_ok (set_pool p e) h page f Hh); by apply sound_slot_count. }
  eapply wp_eq_bind; [done|]. cbn [fst]. destruct (cursor_roundtrip page slot Hp Hs) as [Hcp Hcs].
  rewrite Hcp, Hcs, Z.eqb_refl.
  pose proof (scan_slots_sound (set_pool p e) h page f (Z.to_nat (count_of (f_data f) - slot) + 1)
    (encode_cursor page slot) slot Hh Hsy Hsound ltac:(lia) ltac:(lia)) as Hslots.
  rewrite (remaining_split _ page slot _ ltac:(lia) Hpg). destruct (live_slots page slot _) as [|tup rest].
  - destruct (unpin_clean_live e h page p f Hl Hh Hsy Hb Hlg) as (e1 & Hu & Hun).
    eapply wp_eq_bind; [exact Hslots|]. cbn match.
    eapply wp_eq_bind; [apply on_engine_eq; exact Hu|]. rewrite wrap64_small by lia.
    eapply wp_eq_bind; [done|]. cbn [app snd].
    eapply wp_mono; [|intros r st; by apply unchanged_scan].
    pose proof Hun as (Hl1 & _ & Hp1). rewrite <- Hp1.
    apply IH; [done|by rewrite Hp1|split; lia|rewrite Hp1; lia].
  - destruct Hslots as (s & p' & Hrun & Hst & Hw & Hl' & Hs' & ->).
    eapply wp_eq_bind; [exact Hrun|]. apply wp_ret. split.
    + cbn [snd]. rewrite set_pool_twice. apply unchanged_pool; [done|done|by rewrite Hl'|rewrite Hw; apply Hb].
    + exists page, s. split_and!; try done. by rewrite (remaining_split _ page s _ ltac:(lia) Hpg).
Qed.

Lemma heap_scan_next_live e page slot :
  heap_live e -> Z.of_nat (length (heap_pages e)) < 2 ^ 32 -> cursor_ok page slot ->
  wp heap_scan_next (scan_outcome e (remaining (heap_pages e) page slot)) (encode_cursor page slot, e).
Proof using Hclean.
  intros Hl Hcnt Hcur. unfold heap_scan_next.
  eapply wp_eq_bind.
  { apply on_engine_eq. unfold heap_check_open. by rewrite (hl_opened _ Hl), (hl_store _ Hl). }
  apply wp_bind, wp_zoom. eapply wp_mono; [by apply page_count_live|].
  intros [n|er|] e1; cbn [post]; [| |done]; [|by intros Hun; apply scan_failed].
  intros (Hun & -> & _). cbn [fst snd] in *. eapply wp_eq_bind; [done|]. cbn [fst].
  destruct (cursor_roundtrip page slot (proj1 Hcur) (proj2 Hcur)) as [-> _].
  eapply wp_mono; [|intros r st; by apply unchanged_scan].
  pose proof Hun as (Hl1 & _ & Hp1). rewrite <- Hp1 in *. apply scan_pages_live; try done; lia.
Qed.

(** ** The promise of the methods on a failing device *)

(** [n] more calls keep the page ids within the scan cursor. *)
Definition failing_budget (n : nat) e : Prop :=
  heap_live e /\ Z.of_nat (length (heap_pages e) + n) < 2 ^ 32.

(** The sequential effect, or an error and no effect; a failed [scan_next] leaves
    the handle where the scan can go on. *)
Definition tolerates e (op : HeapOp) : heap_answer op -> E -> Prop :=
  match op with
  | OpInsert tuple => fun a e' =>
      match a with
      | Ok id => heap_lookup e id = None /\
          forall id', heap_lookup e' id' = if decide (id' = id) then Some tuple else heap_lookup e id'
      | Err _ => same_tuples e e'
      | Fault => False
      end
  | OpDelete id => fun a e' =>
      match a with
      | Ok _ => live e id /\
          forall id', heap_lookup e' id' = if decide (id' = id) then None else heap_lookup e id'
      | Err _ => same_tuples e e'
      | Fault => False
      end
  | OpBegin => fun a e' => a = Ok (encode_cursor 0 0) /\ same_tuples e e'
  | OpNext handle => fun a e' =>
      same_tuples e e' /\
      match a.1 with
      | Err _ => forall id, live e id -> (tid_lt id (handle_pos a.2) <-> tid_lt id (handle_pos handle))
      | _ => next_answer e handle a
      end
  | OpEnd _ => fun a e' => a = (Ok tt, encode_cursor 0 0) /\ same_tuples e e'
  end.

Lemma failing_budget_less n e e' :
  heap_live e' -> (length (heap_pages e') <= length (heap_pages e) + 1)%nat ->
  failing_budget (Datatypes.S n) e -> failing_budget n e'.
Proof. intros Hl Hlen [_ Hb]. split; [done|lia]. Qed.

(** Two cursors with the same tuples ahead have the same tuples behind. *)
Lemma same_remaining e page slot page' slot' :
  cursor_ok page slot -> cursor_ok page' slot' ->
  remaining (heap_pages e) page' slot' = remaining (heap_pages e) page slot ->
  forall id, live e id ->
    (tid_lt id (handle_pos (encode_cursor page' slot')) <-> tid_lt id (handle_pos (encode_cursor page slot))).
Proof.
  intros [Hp Hs] [Hp' Hs'] Hrem id [data Hid]. unfold handle_pos.
  destruct (cursor_roundtrip page slot Hp Hs) as [-> ->].
  destruct (cursor_roundtrip page' slot' Hp' Hs') as [-> ->].
  pose proof (elem_of_remaining e page slot {| tup_id := id; tup_data := data |} ltac:(lia) ltac:(lia)) as H1.
  pose proof (elem_of_remaining e page' slot' {| tup_id := id; tup_data := data |} ltac:(lia) ltac:(lia)) as H2.
  rewrite Hrem in H2. cbn in H1, H2.
  destruct (tid_dec id {| t_page_id := page; t_slot_idx := slot |}),
    (tid_dec id {| t_page_id := page'; t_slot_idx := slot' |}); naive_solver.
Qed.

Lemma next_tolerated n e handle a e' :
  failing_budget (Datatypes.S n) e -> handle_ok handle ->
  run (heap_method S (OpNext handle)) e = (a, e') ->
  is_fault a.1 = false /\ heap_answer_ok (OpNext handle) a /\ failing_budget n e' /\
    tolerates e (OpNext handle) a e'.
Proof using Hclean.
  intros Hb Hh. cbn [heap_method heap_answer]. rewrite run_by_reference, body_scan_next.
  destruct (handle_split handle Hh) as (page & slot & -> & Hcur & _).
  assert (Hw := heap_scan_next_live e page slot (proj1 Hb) ltac:(destruct Hb; lia) Hcur). unfold wp in Hw.
  destruct (heap_scan_next (encode_cursor page slot, e)) as [r [hd' e1]]. intros [= <- <-].
  destruct Hw as ((Hl & Hs & Hp) & page' & slot' & Heq & Hcur' & Hcase). cbn [fst snd] in *. subst hd'.
  assert (Hb' : failing_budget n e1) by (eapply failing_budget_less; eauto; rewrite Hp; lia).
  pose proof (encode_handle_ok _ _ Hcur') as Hh'.
  assert (Hsame : same_tuples e e1) by (by apply same_pages_tuples).
  destruct r as [o|er|]; [| |done]; (split_and!; [done|done|done|split; [done|]]); cbn [fst snd].
  - destruct Hcase as [-> Hrest]. destruct (remaining (heap_pages e) page slot) eqn:Hrem; cbn [head tail] in *.
    + by apply none_answer.
    + by eapply head_answer.
  - by apply same_remaining.
Qed.

Program Definition failing_spec : MonitorSpec (heap_monitor S) := {|
  budget_ok := failing_budget;
  op_ok := heap_op_ok;
  answer_ok := heap_answer_ok;
  legal := tolerates;
|}.
Next Obligation.
  intros n e op a e' Hb Hop Hrun. destruct op as [t|id| |handle|handle]; cbn [object heap_monitor Op method] in *.
  - change (run (insert_tuple_code t) e = (a, e')) in Hrun. rewrite body_insert in Hrun.
    pose proof (wp_elim _ _ _ _ _ (heap_insert_live e t (proj1 Hb) Hop) Hrun) as (Hl & _ & Hlen & Hcase).
    assert (Hb' : failing_budget n e') by (by eapply failing_budget_less).
    destruct a as [id|er|]; [destruct Hcase as (Hp & Hs & Hnone & Hall)| |done]; cbn; split_and!; try done.
    by intros ? [= <-].
  - change (run (delete_tuple_code id) e = (a, e')) in Hrun. rewrite body_delete in Hrun. destruct Hop as [Hp Hs].
    pose proof (wp_elim _ _ _ _ _ (heap_delete_live e id (proj1 Hb) Hp Hs) Hrun) as (Hl & _ & Hlen & Hcase).
    assert (Hb' : failing_budget n e') by (eapply failing_budget_less; eauto; lia).
    destruct a as [[]|er|]; [destruct Hcase as [Hlive Hall]| |done]; cbn; by split_and!.
  - change (run begin_scan_code e = (a, e')) in Hrun. rewrite body_begin in Hrun.
    pose proof (wp_elim _ _ _ _ _ (check_open_live e (fun _ => retM (encode_cursor 0 0))
      (fun r e1 => r = Ok (encode_cursor 0 0) /\ e1 = e) (proj1 Hb) ltac:(done)) Hrun) as [-> ->].
    split_and!; try done.
    + intros handle [= <-]. apply encode_handle_ok. split; lia.
    + eapply failing_budget_less; eauto; [apply Hb|lia].
  - by apply next_tolerated.
  - injection Hrun as <- <-. split_and!; try done. eapply failing_budget_less; eauto; [apply Hb|lia].
Qed.

(** A close that succeeds has written everything. *)
Lemma heap_close_live e :
  heap_live e ->
  wp heap_close (fun r e' => r = Ok tt -> store_ok (bp_world (buffer_pool e')) /\
    disk (bp_world (buffer_pool e')) = heap_pages e) e.
Proof.
  intros Hl. pose proof (hl_steady _ Hl) as Hs. unfold heap_close. wp_pure. rewrite (hl_opened _ Hl).
  apply wp_bind, wp_attempt, wp_zoom.
  eapply wp_mono; [apply (pool_close_wp _ (rd_wf _ Hs) (rd_clean _ Hs) (rd_quiescent _ Hs))|].
  intros [[]|er|] p; cbn [post]; [|intros _; unfold wp; cbn; by intros [=]|done].
  intros (_ & Hok & Hd & _). unfold wp. cbn. done.
Qed.
End failures.

(** C4: the engine survives a failing device.  The device may refuse or tear any
    transfer as long as its failed reads transfer nothing, and any number of threads
    call the engine.  Whatever the interleaving, the state reached is that of a
    sequence of whole calls in which every call has its sequential effect on the map
    of tuples or reports an error and changes no tuple, and a failed [scan_next] can
    be retried with its handle; a close that succeeds leaves the file equal to the
    engine's pages; and every call completes. *)
Theorem heap_survives_failures {S} `{StorageIOLaws S} {A} (Hclean : clean_reads S) (e : HeapEngine S)
    (cs : list (Client (heap_monitor S) A)) (n : nat) (m : Machine (heap_monitor S) A) :
  allowed (MonitorSpec0 := failing_spec Hclean) n (heap_atomic e cs) -> rtc step (heap_threads e cs) m ->
  (exists h am, atomic_run (heap_atomic e cs) h am /\
     legal_history (MonitorSpec0 := failing_spec Hclean) e h (at_object am) /\
     at_clients am = client_of <$> threads m /\
     (latch m = None -> shared m = at_object am) /\
     forall e', heap_close (at_object am) = (Ok tt, e') ->
       disk (bp_world (buffer_pool e')) = heap_pages (at_object am)) /\
  inevitable step (fun m => finished m = true) m.
Proof.
  intros Hal Hsteps.
  destruct (latch_linearizable (MonitorSpec0 := failing_spec Hclean) e cs n m Hal Hsteps)
    as (h & am & Hrun & Hsim & Hleg).
  destruct (allowed_run (MonitorSpec0 := failing_spec Hclean) _ _ _ _ Hal Hrun) as [[n' Hal'] _].
  split; [|by eapply (latch_completes (MonitorSpec0 := failing_spec Hclean))].
  exists h, am. split_and!; [done|done|apply Hsim|intros Hl; by apply simulates_outside|].
  intros e' Hclose. destruct Hal' as (ns & _ & _ & Hlive & _).
  by destruct (wp_elim _ _ _ _ _ (heap_close_live _ Hlive) Hclose eq_refl).
Qed.

(** ** Witnesses: a pool of one frame and a write-back that fails *)

Definition failing_store (script : list bool) : StoreW CleanDev.t :=
  {| pstore := {| ps_io := true; ps_config := {| cfg_page_size := 48 |} |};
     device := {| CleanDev.inner := {| MemDev.bytes := []; MemDev.faults := script |} |} |}.
Definition one_frame_config : EngineConfig :=
  {| ec_page_size := 48; buffer_pool_pages := 1; buffer_eviction := EvictionPolicyConfig_default |}.
Definition failing_engine (script : list bool) : HeapEngine CleanDev.t :=
  match open_engine 0 EmptyString one_frame_config (failing_store script) with
  | Ok e => e
  | _ => HeapEngine_new (failing_store script)
  end.

Lemma failing_engine_live script : heap_live (failing_engine script).
Proof.
  assert (Hok : store_ok (failing_store script)) by (split; [done|cbn; lia|done]).
  destruct (heap_open_steady (failing_store script) one_frame_config Hok eq_refl ltac:(cbn; lia) ltac:(cbn; lia))
    as (e & Ho & Hop & Hst & Hs & Hpg & Hc & Hw & Hps & Hz).
  unfold failing_engine. rewrite Ho. split; try done. rewrite Hpg. by apply Forall_nil.
Qed.

#[local] Abbreviation Answers := (list (Result TupleId) * Result (list Tuple))%type.
(** Three insertions, each of a tuple that fills a page, and a scan. *)
#[local] Abbreviation big b := (replicate 16 b).
#[local] Abbreviation inserts_and_scan :=
  [call_insert (S := CleanDev.t) (A := Answers) (big x01) (fun r1 => call_insert (big x02) (fun r2 =>
     call_insert (big x03) (fun r3 => Ret ([r1; r2; r3], Ok []))));
   call_scan Ok 4 (fun r => Ret ([], r))].
(** The write-back that makes room for the second page fails. *)
#[local] Abbreviation script := [false; false; false; false; false; false; false; true].
#[local] Abbreviation failing_start := (heap_threads (failing_engine script) inserts_and_scan).
#[local] Abbreviation in_turn := (replicate 100 0%nat ++ replicate 100 1%nat).

Definition answers_of (m : Machine (heap_monitor CleanDev.t) Answers) : list (option Answers) :=
  (fun t => match t with Outside (Ret r) => Some r | _ => None end) <$> threads m.

Lemma failing_allowed :
  allowed (MonitorSpec0 := failing_spec CleanDev.clean) 9 (heap_atomic (failing_engine script) inserts_and_scan).
Proof.
  exists [3; 6]%nat. split_and!.
  - apply Forall2_cons. split; [|apply Forall2_cons; split; [|by apply Forall2_nil]].
    + cbn. unfold tuple_ok. split_and!; [cbn; lia..|]. intros a1 _. split_and!; [cbn; lia..|].
      intros a2 _. split_and!; [cbn; lia..|]. done.
    + apply (scan_bounded (A := Answers) Ok 4 (fun r => Ret ([], r)) 0). done.
  - done.
  - split; [apply failing_engine_live|]. by vm_compute.
Qed.

Lemma heap_survives_failures_witness :
  answers_of (run_schedule in_turn failing_start) =
    [Some ([Ok {| t_page_id := 0; t_slot_idx := 0 |}; Err IoError; Ok {| t_page_id := 2; t_slot_idx := 0 |}], Ok []);
     Some ([], Ok [tuple_of 0 0 (big x01); tuple_of 2 0 (big x03)])] /\
  exists h am, atomic_run (heap_atomic (failing_engine script) inserts_and_scan) h am /\
    shared (run_schedule in_turn failing_start) = at_object am /\
    legal_history (MonitorSpec0 := failing_spec CleanDev.clean) (failing_engine script) h (at_object am).
Proof.
  split; [vm_compute; reflexivity|].
  destruct (heap_survives_failures CleanDev.clean (failing_engine script) inserts_and_scan 9
    (run_schedule in_turn failing_start) failing_allowed (run_schedule_steps in_turn failing_start))
    as [(h & am & Hrun & Hleg & _ & Hshared & _) _].
  exists h, am. split; [exact Hrun|]. split; [|exact Hleg]. apply Hshared. by vm_compute.
Defined.

(** What the engine's own [close] does not protect.  The pool stays open when its
    flush fails, so that its close can be tried again; the engine marks itself closed
    all the same, and its next [close] reports success without having written the
    tuple that [insert_tuple] acknowledged. *)
Theorem failed_close_forgets_tuple :
  let e := failing_engine [false; false; false; false; true] in
  let '(r, e1) := heap_insert_tuple (big x01) e in
  let '(r1, e2) := heap_close e1 in
  let '(r2, e3) := heap_close e2 in
  r = Ok {| t_page_id := 0; t_slot_idx := 0 |} /\ r1 = Err IoError /\ r2 = Ok tt /\
  heap_lookup e1 {| t_page_id := 0; t_slot_idx := 0 |} = Some (big x01) /\
  pages_lookup_tuple (disk (bp_world (buffer_pool e3))) {| t_page_id := 0; t_slot_idx := 0 |} = None.
Proof. vm_compute. done. Qed.
