(* ===== verification/TypeRegistry.v ===== *)
(** * TypeRegistry: src/src/types/type_ops.hpp, registry.{hpp,cpp}

    [types] is the deque of registered types; a [const Type*] is a position in
    it, since [push_back] on a deque keeps references valid and nothing is ever
    removed. *)
From S2P Require Import Prelude Utils.

(** What a type implementation provides ([concept TypeImpl]). *)
Record TypeImpl := {
  impl_from_text : string -> Result (list byte);
  impl_to_text : list byte -> string;
  impl_compare : list byte -> list byte -> comparison;
  impl_hash : list byte -> Z;
  impl_fixed_size : option Z;
}.

Record Type_ := {
  oid : Z;
  type_name : string;
  fixed_size : option Z;
  from_text : string -> Result (list byte);
  to_text : list byte -> string;
  compare : list byte -> list byte -> comparison;
  hash : list byte -> Z;
}.

Record TypeRegistry := {
  types : list Type_;
  by_name : gmap string nat;
  by_oid : gmap Z nat;
  next_oid : Z;
}.
Definition TypeRegistry_default : TypeRegistry :=
  {| types := []; by_name := ∅; by_oid := ∅; next_oid := 1 |}.

(** [map.emplace(key, v)]: an existing entry stays. *)
Definition emplace {K A} `{Countable K} (key : K) (v : A) (m : gmap K A) : gmap K A :=
  match m !! key with Some _ => m | None => <[key := v]> m end.

(** Following a [const Type*]. *)
Definition type_at (r : TypeRegistry) (i : nat) : Result Type_ :=
  match types r !! i with Some t => Ok t | None => Fault end.

Definition lookup_name (r : TypeRegistry) (name : string) : Result Type_ :=
  let? _ := edb_assert (negb (String.eqb name EmptyString)) in
  match by_name r !! name with None => Err NotFound | Some i => type_at r i end.

Definition lookup_oid (r : TypeRegistry) (o : Z) : Result Type_ :=
  let? _ := edb_assert (0 <? o) in
  match by_oid r !! o with None => Err NotFound | Some i => type_at r i end.

Definition registry_size (r : TypeRegistry) : Z := Z.of_nat (length (types r)).

Definition register_type_impl (type : Type_) : M TypeRegistry unit := fun r =>
  if String.eqb (type_name type) EmptyString then (Err InvalidArgument, r)
  else match by_name r !! type_name type with
  | Some _ => (Err AlreadyExists, r)
  | None =>
      let stored := {| oid := next_oid r; type_name := type_name type; fixed_size := fixed_size type;
                       from_text := from_text type; to_text := to_text type;
                       compare := compare type; hash := hash type |} in
      (Ok tt,
       {| types := types r ++ [stored];
          by_name := emplace (type_name stored) (length (types r)) (by_name r);
          by_oid := emplace (oid stored) (length (types r)) (by_oid r);
          next_oid := wrap32 (next_oid r + 1) |})
  end.

Definition register_type (T : TypeImpl) (name : string) : M TypeRegistry unit :=
  let* _ := assertM (negb (String.eqb name EmptyString)) in
  register_type_impl
    {| oid := 0; type_name := name; fixed_size := impl_fixed_size T;
       from_text := impl_from_text T; to_text := impl_to_text T;
       compare := impl_compare T; hash := impl_hash T |}.

(** ** Invariant *)

(** Type [i] has oid [i + 1], and both indexes name exactly the stored types. *)
Record registry_wf (r : TypeRegistry) : Prop := {
  rw_next : next_oid r = Z.of_nat (length (types r)) + 1;
  rw_small : Z.of_nat (length (types r)) < 2 ^ 32 - 1;
  rw_oid i t : types r !! i = Some t -> oid t = Z.of_nat i + 1;
  rw_by_oid o i : by_oid r !! o = Some i <-> exists t, types r !! i = Some t /\ oid t = o;
  rw_by_name n i : by_name r !! n = Some i <-> exists t, types r !! i = Some t /\ type_name t = n;
  rw_named i t : types r !! i = Some t -> type_name t <> EmptyString;
}.

Lemma registry_default_wf : registry_wf TypeRegistry_default.
Proof.
  split; cbn; try lia; try (by intros; rewrite lookup_nil in *);
    intros ? i; rewrite lookup_empty; split; [done| |done|];
    intros (t & Ht & _); by rewrite lookup_nil in Ht.
Qed.

Lemma emplace_fresh {K A} `{Countable K} (key : K) (v : A) m :
  m !! key = None -> emplace key v m = <[key := v]> m.
Proof. unfold emplace. by intros ->. Qed.

Lemma lookup_snoc {A} (l : list A) x i y :
  (l ++ [x]) !! i = Some y <-> l !! i = Some y \/ i = length l /\ y = x.
Proof.
  rewrite lookup_app_Some, list_lookup_singleton_Some. split.
  - intros [?|(Hle & Hi & ->)]; [by left|right]. split; [lia|done].
  - intros [?|[-> ->]]; [by left|right]. split; [lia|]. split; [lia|done].
Qed.

Lemma register_type_spec T name r :
  registry_wf r -> name <> EmptyString -> Z.of_nat (length (types r)) < 2 ^ 32 - 2 ->
  match by_name r !! name with
  | Some _ => register_type T name r = (Err AlreadyExists, r)
  | None => exists r' t, register_type T name r = (Ok tt, r') /\ registry_wf r' /\
      types r' = types r ++ [t] /\ type_name t = name /\ oid t = next_oid r /\
      fixed_size t = impl_fixed_size T /\ from_text t = impl_from_text T /\
      to_text t = impl_to_text T /\ compare t = impl_compare T /\ hash t = impl_hash T
  end.
Proof.
  intros Hwf Hname Hlim. unfold register_type, register_type_impl, bindM, assertM, liftR. cbn [type_name].
  assert (Hne : String.eqb name EmptyString = false) by (by apply String.eqb_neq). rewrite Hne. cbn [negb edb_assert].
  destruct (by_name r !! name) as [j|] eqn:Hnm; [done|].
  eexists _, _. split_and!; try done. destruct Hwf as [Hnext Hsmall Hoid Hbo Hbn Hnamed].
  assert (Hfresh : by_oid r !! next_oid r = None).
  { destruct (by_oid r !! next_oid r) as [i|] eqn:Hi; [|done].
    apply Hbo in Hi as (t & Ht & Ho). apply Hoid in Ht as Ho'. apply lookup_lt_Some in Ht. lia. }
  split; cbn [types by_name by_oid next_oid oid type_name]; rewrite ?length_app; cbn [length].
  - rewrite wrap32_mod, Z.mod_small by lia. lia.
  - lia.
  - intros i t [Ht|[-> ->]]%lookup_snoc; [by apply Hoid|]. cbn. lia.
  - intros o i. rewrite emplace_fresh by done. rewrite lookup_insert_Some, Hbo.
    setoid_rewrite lookup_snoc. destruct (decide (next_oid r = o)) as [<-|Hno]; split.
    + intros [[_ <-]|[? _]]; [|done]. eexists. split; [by right|done].
    + intros (t & [Ht|[-> ->]] & Ho); [|by left]. apply Hoid in Ht as Ho'. apply lookup_lt_Some in Ht. lia.
    + intros [[? _]|[_ (t & Ht & Ho)]]; [done|]. eauto.
    + intros (t & [Ht|[-> ->]] & Ho); [right; eauto|done].
  - intros n i. rewrite emplace_fresh by done. rewrite lookup_insert_Some, Hbn.
    setoid_rewrite lookup_snoc. destruct (decide (name = n)) as [<-|Hno]; split.
    + intros [[_ <-]|[? _]]; [|done]. eexists. split; [by right|done].
    + intros (t & [Ht|[-> ->]] & Ho); [|by left].
      assert (by_name r !! name = Some i) by (apply Hbn; eauto). congruence.
    + intros [[? _]|[_ (t & Ht & Ho)]]; [done|]. eauto.
    + intros (t & [Ht|[-> ->]] & Ho); [right; eauto|done].
  - intros i t [Ht|[-> ->]]%lookup_snoc; [by eapply Hnamed|done].
Qed.

Lemma lookup_oid_wf r o t :
  registry_wf r -> lookup_oid r o = Ok t <-> exists i, types r !! i = Some t /\ oid t = o.
Proof.
  intros Hwf. unfold lookup_oid, edb_assert. destruct (Z.ltb_spec 0 o) as [Hpos|Hneg]; cbn [bindR].
  - destruct (by_oid r !! o) as [i|] eqn:Hi.
    + apply (rw_by_oid _ Hwf) in Hi as Hi'. destruct Hi' as (t' & Ht' & Ho). unfold type_at. rewrite Ht'.
      split; [intros [= ->]; eauto|]. intros (j & Hj & Hoj).
      apply (rw_oid _ Hwf) in Hj as Hj'. apply (rw_oid _ Hwf) in Ht' as Hi''.
      assert (j = i) as -> by lia. congruence.
    + split; [done|]. intros (i & Hit & Ho). assert (by_oid r !! o = Some i) by (apply (rw_by_oid _ Hwf); eauto).
      congruence.
  - split; [done|]. intros (i & Hit & Ho). apply (rw_oid _ Hwf) in Hit. lia.
Qed.

Lemma lookup_name_wf r n t :
  registry_wf r -> lookup_name r n = Ok t <-> exists i, types r !! i = Some t /\ type_name t = n.
Proof.
  intros Hwf. unfold lookup_name, edb_assert. destruct (String.eqb_spec n EmptyString) as [->|Hne]; cbn [bindR negb].
  - split; [done|]. intros (i & Hit & Hn). by apply (rw_named _ Hwf) in Hit.
  - destruct (by_name r !! n) as [i|] eqn:Hi.
    + apply (rw_by_name _ Hwf) in Hi as Hi'. destruct Hi' as (t' & Ht' & Hn). unfold type_at. rewrite Ht'.
      split; [intros [= ->]; eauto|]. intros (j & Hj & Hnj).
      assert (by_name r !! n = Some j) by (apply (rw_by_name _ Hwf); eauto). congruence.
    + split; [done|]. intros (i & Hit & Hn). assert (by_name r !! n = Some i) by (apply (rw_by_name _ Hwf); eauto).
      congruence.
Qed.

(** Registration is consistent.  In a registry built by registrations, a new
    name gets a fresh oid under which, and under whose name, the registered type
    is found from then on; every type registered before is still found under its
    oid and name; a name already taken is refused and nothing changes. *)
Theorem register_then_lookup (T : TypeImpl) (name : string) (r : TypeRegistry) :
  registry_wf r -> name <> EmptyString -> Z.of_nat (length (types r)) < 2 ^ 32 - 2 ->
  match lookup_name r name with
  | Ok _ => register_type T name r = (Err AlreadyExists, r)
  | _ => exists r' t, register_type T name r = (Ok tt, r') /\ registry_wf r' /\
      lookup_name r' name = Ok t /\ lookup_oid r' (oid t) = Ok t /\
      from_text t = impl_from_text T /\ to_text t = impl_to_text T /\
      compare t = impl_compare T /\ fixed_size t = impl_fixed_size T /\
      (forall o t', lookup_oid r o = Ok t' -> oid t <> o /\ lookup_oid r' o = Ok t') /\
      (forall n t', lookup_name r n = Ok t' -> lookup_name r' n = Ok t')
  end.
Proof.
  intros Hwf Hname Hlim. pose proof (register_type_spec T name r Hwf Hname Hlim) as Hreg.
  destruct (lookup_name r name) as [t0|er|] eqn:Hl.
  - apply lookup_name_wf in Hl as (i & Hi & Hn); [|done].
    assert (Hb : by_name r !! name = Some i) by (apply (rw_by_name _ Hwf); eauto). by rewrite Hb in Hreg.
  - assert (Hb : by_name r !! name = None).
    { destruct (by_name r !! name) as [i|] eqn:Hi; [|done]. apply (rw_by_name _ Hwf) in Hi as (t & Ht & Hn).
      assert (lookup_name r name = Ok t) by (apply lookup_name_wf; eauto). congruence. }
    rewrite Hb in Hreg. destruct Hreg as (r' & t & Hrun & Hwf' & Hty & Hn & Ho & Hfs & Hft & Htt & Hcmp & _).
    exists r', t. assert (Hin : types r' !! length (types r) = Some t) by (rewrite Hty; apply lookup_snoc; auto).
    assert (Hold : forall i t', types r !! i = Some t' -> types r' !! i = Some t')
      by (intros i t' Ht'; rewrite Hty; apply lookup_snoc; auto).
    split_and!; try done.
    + apply lookup_name_wf; eauto.
    + apply lookup_oid_wf; eauto.
    + intros o t' (i & Hi & Hoi)%lookup_oid_wf; [|done]. split; [|apply lookup_oid_wf; eauto].
      apply (rw_oid _ Hwf) in Hi as Hoi'. apply lookup_lt_Some in Hi. rewrite Ho, (rw_next _ Hwf). lia.
    + intros n t' (i & Hi & Hni)%lookup_name_wf; [|done]. apply lookup_name_wf; eauto.
  - unfold lookup_name, edb_assert in Hl. destruct (String.eqb_spec name EmptyString); [done|]. cbn in Hl.
    destruct (by_name r !! name) as [i|] eqn:Hi; [|done]. apply (rw_by_name _ Hwf) in Hi as (t & Ht & _).
    unfold type_at in Hl. by rewrite Ht in Hl.
Qed.

Definition unit_type : TypeImpl :=
  {| impl_from_text := fun _ => Ok []; impl_to_text := fun _ => EmptyString;
     impl_compare := fun _ _ => Eq; impl_hash := fun _ => 0; impl_fixed_size := Some 0 |}.

Lemma register_then_lookup_witness :
  registry_wf TypeRegistry_default /\
  exists r t, register_type unit_type "unit" TypeRegistry_default = (Ok tt, r) /\
    lookup_name r "unit" = Ok t /\ lookup_oid r 1 = Ok t.
Proof.
  split; [exact registry_default_wf|].
  destruct (register_then_lookup unit_type "unit" TypeRegistry_default registry_default_wf
    ltac:(discriminate) ltac:(cbn; lia)) as (r & t & Hrun & _ & Hn & Ho & _).
  exists r, t. split; [exact Hrun|]. split; [exact Hn|].
  assert (Hoid : oid t = 1); [|rewrite <- Hoid; exact Ho].
  injection Hrun as <-. injection Hn as <-. reflexivity.
Defined.
