(* ===== verification/BuiltinTypes.v ===== *)
(** * BuiltinTypes: src/src/types/builtin_types.cpp

    The text and byte behaviour of the five built-in types.  Text is a string of
    bytes.  [istringstream >> int] is spelled out: white space, a sign, decimal
    digits, and failure on an empty or out-of-range number.  A [double] is its
    64-bit pattern; comparison is by the number it represents.  The C library's
    [strtod], and the library's [std::to_string(double)] and [std::hash] of
    doubles and strings, are parameters. *)
From S2P Require Import Prelude Utils TypeRegistry.

(** [encode_unsigned_le<Unsigned, N>] and [decode_unsigned_le<Unsigned>]. *)
Definition encode_unsigned_le (n : nat) (value : Z) : list byte := le_encode n value.
Definition decode_unsigned_le (bs : list byte) : Z := le_decode bs.

(** ** Characters *)

Definition is_space (b : byte) : bool :=
  let c := byte_to_Z b in (c =? 32) || ((9 <=? c) && (c <=? 13)).
Definition is_digit (b : byte) : bool := let c := byte_to_Z b in (48 <=? c) && (c <=? 57).
Definition digit_value (b : byte) : Z := byte_to_Z b - 48.
Definition digit_byte (d : Z) : byte := Z_to_byte (48 + d).

(** [input >> std::ws]. *)
Fixpoint skip_ws (s : list byte) : list byte :=
  match s with b :: s' => if is_space b then skip_ws s' else s | [] => [] end.

Fixpoint read_digits (seen : bool) (acc : Z) (s : list byte) : bool * Z * list byte :=
  match s with
  | b :: s' => if is_digit b then read_digits true (acc * 10 + digit_value b) s' else (seen, acc, s)
  | [] => (seen, acc, [])
  end.

(** [input >> parsed]: [None] is [input.fail()]. *)
Definition extract_signed (T : Prim) (s : list byte) : option (Z * list byte) :=
  let s := skip_ws s in
  let '(negative, s) :=
    match s with
    | b :: s' => if byte_to_Z b =? 45 then (true, s') else if byte_to_Z b =? 43 then (false, s') else (false, s)
    | [] => (false, [])
    end in
  let '(seen, magnitude, rest) := read_digits false 0 s in
  let v := if negative then - magnitude else magnitude in
  if seen && (prim_min T <=? v) && (v <=? prim_max T) then Some (v, rest) else None.

(** ** Fixed-size signed integers: [Signed] is [T], [Unsigned] is [U] *)

Definition parse_signed_fixed (T U : Prim) (n : nat) (text : string) : Result (list byte) :=
  match extract_signed T (String.list_byte_of_string text) with
  | None => Err InvalidArgument
  | Some (parsed, rest) =>
      match skip_ws rest with
      | [] => Ok (encode_unsigned_le n (prim_cast U parsed))
      | _ => Err InvalidArgument
      end
  end.

Definition decode_signed_fixed (T U : Prim) (n : nat) (bs : list byte) : Result Z :=
  if negb (length bs =? n)%nat then Err InvalidArgument
  else Ok (prim_cast T (decode_unsigned_le bs)).

(** [std::to_string] of an integer. *)
Fixpoint decimal (fuel : nat) (v : Z) : list byte :=
  match fuel with
  | O => []
  | S fuel => if v <? 10 then [digit_byte v] else decimal fuel (v / 10) ++ [digit_byte (v mod 10)]
  end.
Definition to_string_int (v : Z) : string :=
  String.string_of_list_byte (if v <? 0 then x2d :: decimal 20 (- v) else decimal 20 v).

Definition signed_to_text (T U : Prim) (n : nat) (bs : list byte) : string :=
  match decode_signed_fixed T U n bs with Ok v => to_string_int v | _ => EmptyString end.

Definition signed_compare (T U : Prim) (n : nat) (lhs rhs : list byte) : comparison :=
  match decode_signed_fixed T U n lhs, decode_signed_fixed T U n rhs with
  | Ok l, Ok r => (l ?= r)
  | _, _ => Eq
  end.

(** [std::hash<Signed>] is the value converted to [size_t]. *)
Definition signed_hash (T U : Prim) (n : nat) (bs : list byte) : Z :=
  match decode_signed_fixed T U n bs with Ok v => wrap64 v | _ => 0 end.

Definition Int32Type : TypeImpl :=
  {| impl_from_text := parse_signed_fixed I32 U32 4; impl_to_text := signed_to_text I32 U32 4;
     impl_compare := signed_compare I32 U32 4; impl_hash := signed_hash I32 U32 4;
     impl_fixed_size := Some 4 |}.
Definition Int64Type : TypeImpl :=
  {| impl_from_text := parse_signed_fixed I64 U64 8; impl_to_text := signed_to_text I64 U64 8;
     impl_compare := signed_compare I64 U64 8; impl_hash := signed_hash I64 U64 8;
     impl_fixed_size := Some 8 |}.

(** ** Booleans *)

Definition bool_from_text (text : string) : Result (list byte) :=
  if String.eqb text "true" then Ok [x01]
  else if String.eqb text "false" then Ok [x00]
  else Err InvalidArgument.
Definition bool_to_text (bs : list byte) : string :=
  match bs with
  | [b] => if Byte.eqb b x00 then "false" else "true"
  | _ => EmptyString
  end.
Definition bool_compare (lhs rhs : list byte) : comparison :=
  match lhs, rhs with
  | [l], [r] => (byte_to_Z l ?= byte_to_Z r)
  | _, _ => Eq
  end.
Definition bool_hash (bs : list byte) : Z := match bs with [b] => byte_to_Z b | _ => 0 end.
Definition BoolType : TypeImpl :=
  {| impl_from_text := bool_from_text; impl_to_text := bool_to_text;
     impl_compare := bool_compare; impl_hash := bool_hash; impl_fixed_size := Some 1 |}.

(** ** Doubles, by bit pattern *)

Definition f64_negative (bits : Z) : bool := Z.testbit bits 63.
Definition f64_exponent (bits : Z) : Z := Z.land (Z.shiftr bits 52) 2047.
Definition f64_fraction (bits : Z) : Z := Z.land bits (2 ^ 52 - 1).
Definition f64_isfinite (bits : Z) : bool := negb (f64_exponent bits =? 2047).
Definition f64_isnan (bits : Z) : bool := (f64_exponent bits =? 2047) && negb (f64_fraction bits =? 0).
(** The number represented, in units of [2^-1074]; an infinity is beyond every
    finite number. *)
Definition f64_value (bits : Z) : Z :=
  let e := f64_exponent bits in
  let m := if e =? 0 then f64_fraction bits else (2 ^ 52 + f64_fraction bits) * 2 ^ (e - 1) in
  if f64_negative bits then - m else m.
(** [left < right] on doubles. *)
Definition f64_lt (l r : Z) : bool :=
  negb (f64_isnan l) && negb (f64_isnan r) && (f64_value l <? f64_value r).

Definition float64_compare (lhs rhs : list byte) : comparison :=
  if negb (length lhs =? 8)%nat || negb (length rhs =? 8)%nat then Eq
  else
    let left := decode_unsigned_le lhs in
    let right := decode_unsigned_le rhs in
    if f64_lt left right then Lt else if f64_lt right left then Gt else Eq.

(** The C string that [c_str()] hands to the C library ends at the first NUL. *)
Fixpoint c_str (s : list byte) : list byte :=
  match s with b :: s' => if Byte.eqb b x00 then [] else b :: c_str s' | [] => [] end.

Section library.
(** The bits parsed and the text left over; [std::to_string(double)] of a bit
    pattern; the two hashes. *)
Context (strtod : list byte -> Z * list byte) (double_to_string : Z -> string)
  (hash_double : Z -> Z) (hash_string : string -> Z).

Definition float64_from_text (text : string) : Result (list byte) :=
  let '(parsed, parse_end) := strtod (c_str (String.list_byte_of_string text)) in
  match parse_end with
  | [] => if f64_isfinite parsed then Ok (encode_unsigned_le 8 parsed) else Err InvalidArgument
  | _ => Err InvalidArgument
  end.
Definition float64_to_text (bs : list byte) : string :=
  if negb (length bs =? 8)%nat then EmptyString else double_to_string (decode_unsigned_le bs).
Definition float64_hash (bs : list byte) : Z :=
  if negb (length bs =? 8)%nat then 0 else hash_double (decode_unsigned_le bs).
Definition Float64Type : TypeImpl :=
  {| impl_from_text := float64_from_text; impl_to_text := float64_to_text;
     impl_compare := float64_compare; impl_hash := float64_hash; impl_fixed_size := Some 8 |}.

(** ** Text *)

Definition text_from_text (text : string) : Result (list byte) := Ok (String.list_byte_of_string text).
Definition text_to_text (bs : list byte) : string := String.string_of_list_byte bs.
(** [std::string::operator<=>]: bytewise, unsigned, then by length. *)
Fixpoint compare_bytes (l r : list byte) : comparison :=
  match l, r with
  | [], [] => Eq
  | [], _ => Lt
  | _, [] => Gt
  | a :: l, b :: r => match (byte_to_Z a ?= byte_to_Z b) with Eq => compare_bytes l r | c => c end
  end.
Definition text_compare (lhs rhs : list byte) : comparison :=
  compare_bytes (String.list_byte_of_string (text_to_text lhs))
                (String.list_byte_of_string (text_to_text rhs)).
Definition text_hash (bs : list byte) : Z := hash_string (text_to_text bs).
Definition TextType : TypeImpl :=
  {| impl_from_text := text_from_text; impl_to_text := text_to_text;
     impl_compare := text_compare; impl_hash := text_hash; impl_fixed_size := None |}.

Definition register_builtin_types : M TypeRegistry unit :=
  let* _ := register_type Int32Type "int32" in
  let* _ := register_type Int64Type "int64" in
  let* _ := register_type Float64Type "float64" in
  let* _ := register_type BoolType "bool" in
  register_type TextType "text".
End library.

(** ** Decimal text *)

Lemma digit_byte_value d : 0 <= d < 10 -> byte_to_Z (digit_byte d) = 48 + d.
Proof. intros Hd. unfold digit_byte. apply byte_to_Z_small. lia. Qed.
Lemma is_digit_byte d : 0 <= d < 10 -> is_digit (digit_byte d) = true /\ digit_value (digit_byte d) = d.
Proof.
  intros Hd. unfold is_digit, digit_value. rewrite digit_byte_value by done.
  rewrite !(proj2 (Z.leb_le _ _)) by lia. split; [done|lia].
Qed.

Lemma read_digits_app l rest seen acc :
  Forall (fun b => is_digit b = true) l ->
  read_digits seen acc (l ++ rest) =
    read_digits (seen || bool_decide (l <> [])) (foldl (fun a b => a * 10 + digit_value b) acc l) rest.
Proof.
  revert seen acc. induction l as [|b l IH]; intros seen acc Hl; cbn [app foldl].
  - cbn. by rewrite orb_false_r.
  - apply Forall_cons in Hl as [Hb Hl]. cbn [read_digits]. rewrite Hb, IH by done.
    by rewrite orb_true_r.
Qed.

Lemma decimal_digits fuel v :
  0 <= v -> Forall (fun b => is_digit b = true) (decimal fuel v).
Proof.
  revert v. induction fuel as [|fuel IH]; intros v Hv; cbn [decimal]; [by apply Forall_nil|].
  destruct (Z.ltb_spec v 10).
  - apply Forall_singleton. by apply is_digit_byte.
  - apply Forall_app. split; [apply IH; apply Z.div_pos; lia|].
    apply Forall_singleton, is_digit_byte, Z.mod_pos_bound. lia.
Qed.

Lemma decimal_value fuel v :
  0 <= v < 10 ^ Z.of_nat fuel -> (0 < fuel)%nat ->
  foldl (fun a b => a * 10 + digit_value b) 0 (decimal fuel v) = v /\ decimal fuel v <> [].
Proof.
  revert v. induction fuel as [|fuel IH]; intros v Hv Hf; [lia|]. cbn [decimal].
  destruct (Z.ltb_spec v 10).
  - cbn. destruct (is_digit_byte v ltac:(lia)) as [_ ->]. done.
  - rewrite Nat2Z.inj_succ, Z.pow_succ_r in Hv by lia.
    destruct fuel as [|fuel]; [cbn in Hv; lia|].
    pose proof (Z.div_mod v 10 ltac:(lia)). pose proof (Z.mod_pos_bound v 10 ltac:(lia)).
    destruct (IH (v / 10)) as [IHv _]; [|lia|].
    { split; [apply Z.div_pos; lia|]. apply Z.div_lt_upper_bound; lia. }
    rewrite foldl_app, IHv. cbn [foldl]. destruct (is_digit_byte (v mod 10) ltac:(lia)) as [_ ->].
    split; [lia|]. by destruct (decimal (S fuel) (v / 10)).
Qed.

Lemma digit_not_space b : is_digit b = true -> is_space b = false /\ byte_to_Z b <> 45 /\ byte_to_Z b <> 43.
Proof.
  unfold is_digit, is_space. intros [H1%Z.leb_le H2%Z.leb_le]%andb_prop.
  split; [|lia]. destruct (Z.eqb_spec (byte_to_Z b) 32); [lia|]. cbn.
  destruct (Z.leb_spec 9 (byte_to_Z b)); [|done]. destruct (Z.leb_spec (byte_to_Z b) 13); [lia|done].
Qed.

(** [istringstream >> v] after [std::to_string(v)]. *)
Lemma extract_to_string T v :
  prim_min T <= v <= prim_max T -> - 10 ^ 20 < v < 10 ^ 20 ->
  extract_signed T (String.list_byte_of_string (to_string_int v)) = Some (v, []).
Proof.
  intros Hr Hb. unfold to_string_int. rewrite String.list_byte_of_string_of_list_byte.
  assert (Hread : forall u, 0 <= u < 10 ^ 20 ->
    read_digits false 0 (decimal 20 u) = (true, u, []) /\
    exists b l, decimal 20 u = b :: l /\ is_digit b = true).
  { intros u Hu. destruct (decimal_value 20 u Hu ltac:(lia)) as [Hval Hne].
    pose proof (decimal_digits 20 u ltac:(lia)) as Hd. split.
    - rewrite <- (app_nil_r (decimal 20 u)), read_digits_app, Hval by done.
      by rewrite bool_decide_true.
    - destruct (decimal 20 u) as [|b l]; [done|]. apply Forall_cons in Hd as [Hd _]. eauto. }
  assert (Hin : (prim_min T <=? v) && (v <=? prim_max T) = true)
    by (rewrite !(proj2 (Z.leb_le _ _)) by lia; done).
  unfold extract_signed. destruct (Z.ltb_spec v 0) as [Hneg|Hpos].
  - destruct (Hread (- v) ltac:(lia)) as [Hrd _].
    change (skip_ws (x2d :: decimal 20 (- v))) with (x2d :: decimal 20 (- v)). cbn match.
    change (byte_to_Z x2d =? 45) with true. cbn match. rewrite Hrd, Z.opp_involutive.
    by rewrite <- andb_assoc, Hin.
  - destruct (Hread v ltac:(lia)) as [Hrd (b & l & Hbl & Hdig)].
    destruct (digit_not_space b Hdig) as (Hsp & H45 & H43).
    rewrite Hbl. cbn [skip_ws]. rewrite Hsp.
    rewrite (proj2 (Z.eqb_neq _ _) H45), (proj2 (Z.eqb_neq _ _) H43). rewrite <- Hbl, Hrd.
    by rewrite <- andb_assoc, Hin.
Qed.

Lemma extract_range T s v rest : extract_signed T s = Some (v, rest) -> in_range T v.
Proof.
  unfold extract_signed. destruct (match skip_ws s with [] => _ | _ => _ end) as [neg s'].
  destruct (read_digits false 0 s') as [[seen m] rest']. set (u := if neg then - m else m).
  destruct (seen && (prim_min T <=? u) && (u <=? prim_max T)) eqn:Hc; [|done]. intros [= <- _].
  rewrite !andb_true_iff, !Z.leb_le in Hc. unfold in_range. lia.
Qed.

(** ** Signed integers in bytes *)

(** The two instances of the templates. *)
Definition fixed_int (T U : Prim) (n : nat) : Prop :=
  T = I32 /\ U = U32 /\ n = 4%nat \/ T = I64 /\ U = U64 /\ n = 8%nat.

Lemma unsigned_of_signed T U n v :
  fixed_int T U n -> 0 <= v < 256 ^ Z.of_nat n -> prim_cast U (prim_cast T v) = v.
Proof.
  intros [(-> & -> & ->)|(-> & -> & ->)] Hv; unfold prim_cast; cbn [prim_signed prim_bits];
    rewrite Zminus_mod_idemp_l, Z.add_simpl_r; apply Z.mod_small; exact Hv.
Qed.

Lemma signed_of_unsigned T U n v :
  fixed_int T U n -> in_range T v -> prim_cast T (prim_cast U v) = v.
Proof.
  intros [(-> & -> & ->)|(-> & -> & ->)] Hv; unfold prim_cast at 2; cbn [prim_signed prim_bits];
    unfold prim_cast; cbn [prim_signed prim_bits];
    rewrite Zplus_mod_idemp_l; unfold in_range, prim_min, prim_max in Hv; cbn [prim_signed prim_bits] in Hv;
    rewrite Z.mod_small by lia; lia.
Qed.

Lemma decode_encode_signed T U n v :
  fixed_int T U n -> in_range T v ->
  decode_signed_fixed T U n (encode_unsigned_le n (prim_cast U v)) = Ok v.
Proof.
  intros Hf Hv. unfold decode_signed_fixed, encode_unsigned_le, decode_unsigned_le.
  rewrite length_le_encode, Nat.eqb_refl. cbn [negb]. rewrite le_decode_encode. f_equal.
  pose proof (prim_cast_range U v) as Hr.
  rewrite Z.mod_small; [by eapply signed_of_unsigned|].
  destruct Hf as [(-> & -> & ->)|(-> & -> & ->)]; unfold in_range, prim_min, prim_max in Hr; cbn in Hr |- *; lia.
Qed.

Lemma encode_decode_signed T U n bs :
  fixed_int T U n -> length bs = n ->
  exists v, decode_signed_fixed T U n bs = Ok v /\ in_range T v /\
    encode_unsigned_le n (prim_cast U v) = bs.
Proof.
  intros Hf Hl. unfold decode_signed_fixed, encode_unsigned_le, decode_unsigned_le.
  rewrite Hl, Nat.eqb_refl. cbn [negb]. eexists. split_and!; [done|apply prim_cast_range|].
  rewrite le_decode_value. pose proof (le_value_range bs) as Hr. rewrite Hl in Hr.
  rewrite (unsigned_of_signed T U n) by done. rewrite <- Hl. apply le_encode_value.
Qed.

Lemma signed_text_roundtrip T U n bs :
  fixed_int T U n -> length bs = n -> parse_signed_fixed T U n (signed_to_text T U n bs) = Ok bs.
Proof.
  intros Hf Hl. destruct (encode_decode_signed T U n bs Hf Hl) as (v & Hd & Hr & He).
  unfold parse_signed_fixed, signed_to_text. rewrite Hd, extract_to_string; [by rewrite He|done|].
  destruct Hf as [(-> & _)|(-> & _)]; unfold in_range, prim_min, prim_max in Hr; cbn in Hr; lia.
Qed.

(** C39: text and bytes agree for the built-in types.  Printing a value and
    parsing the text gives the value back: for every 4-byte int32, every 8-byte
    int64, both booleans and every text. *)
Theorem builtin_text_roundtrip (hash_string : string -> Z) (bs : list byte) :
  (length bs = 4%nat -> impl_from_text Int32Type (impl_to_text Int32Type bs) = Ok bs) /\
  (length bs = 8%nat -> impl_from_text Int64Type (impl_to_text Int64Type bs) = Ok bs) /\
  (bs = [x00] \/ bs = [x01] -> impl_from_text BoolType (impl_to_text BoolType bs) = Ok bs) /\
  impl_from_text (TextType hash_string) (impl_to_text (TextType hash_string) bs) = Ok bs.
Proof.
  split_and!.
  - intros Hl. apply signed_text_roundtrip; [by left|done].
  - intros Hl. apply signed_text_roundtrip; [by right|done].
  - by intros [->| ->].
  - cbn. unfold text_from_text, text_to_text. by rewrite String.list_byte_of_string_of_list_byte.
Qed.

(** The comparison of fixed-size integers is the order of the numbers. *)
Lemma signed_compare_spec T U n v w :
  fixed_int T U n -> in_range T v -> in_range T w ->
  signed_compare T U n (encode_unsigned_le n (prim_cast U v)) (encode_unsigned_le n (prim_cast U w)) = (v ?= w).
Proof. intros Hf Hv Hw. unfold signed_compare. by rewrite !decode_encode_signed. Qed.

(** Parsing an integer accepts exactly what fits, and comparison of the
    stored bytes is comparison of the numbers.  If two texts parse, the bytes
    have the type's fixed size, decode to numbers in the type's range, and
    [compare] orders them as those numbers. *)
Theorem parsed_integers_ordered (T U : Prim) (n : nat) (s1 s2 : string) (b1 b2 : list byte) :
  fixed_int T U n ->
  parse_signed_fixed T U n s1 = Ok b1 -> parse_signed_fixed T U n s2 = Ok b2 ->
  length b1 = n /\ length b2 = n /\
  exists v1 v2, extract_signed T (String.list_byte_of_string s1) ≫= (fun x => Some x.1) = Some v1 /\
    extract_signed T (String.list_byte_of_string s2) ≫= (fun x => Some x.1) = Some v2 /\
    in_range T v1 /\ in_range T v2 /\
    decode_signed_fixed T U n b1 = Ok v1 /\ decode_signed_fixed T U n b2 = Ok v2 /\
    signed_compare T U n b1 b2 = (v1 ?= v2).
Proof.
  intros Hf H1 H2.
  assert (Hone : forall s b, parse_signed_fixed T U n s = Ok b ->
    exists v rest, extract_signed T (String.list_byte_of_string s) = Some (v, rest) /\ in_range T v /\
      b = encode_unsigned_le n (prim_cast U v)).
  { intros s b. unfold parse_signed_fixed.
    destruct (extract_signed T (String.list_byte_of_string s)) as [[v rest]|] eqn:Hx; [|done].
    destruct (skip_ws rest); [|done]. intros [= <-]. exists v, rest. split_and!; try done.
    by eapply extract_range. }
  destruct (Hone s1 b1 H1) as (v1 & r1 & Hx1 & Hr1 & ->).
  destruct (Hone s2 b2 H2) as (v2 & r2 & Hx2 & Hr2 & ->).
  unfold encode_unsigned_le at 1 2. rewrite !length_le_encode. split; [done|split; [done|]].
  exists v1, v2. rewrite Hx1, Hx2. cbn. split_and!; try done;
    [by apply decode_encode_signed..|by apply signed_compare_spec].
Qed.

Lemma parsed_integers_ordered_witness :
  exists b1 b2, parse_signed_fixed I32 U32 4 " -7 " = Ok b1 /\ parse_signed_fixed I32 U32 4 "+2147483647" = Ok b2 /\
    length b1 = 4%nat /\ signed_compare I32 U32 4 b1 b2 = Lt.
Proof.
  eexists _, _. split; [reflexivity|]. split; [reflexivity|].
  destruct (parsed_integers_ordered I32 U32 4 " -7 " "+2147483647" _ _ ltac:(by left) eq_refl eq_refl)
    as (Hl & _ & v1 & v2 & Hx1 & Hx2 & _ & _ & _ & _ & Hc).
  split; [exact Hl|]. rewrite Hc. vm_compute in Hx1, Hx2. injection Hx1 as <-. injection Hx2 as <-. reflexivity.
Defined.

(** ** Order laws *)

Lemma compare_bytes_antisym l r : compare_bytes l r = CompOpp (compare_bytes r l).
Proof.
  revert r. induction l as [|a l IH]; intros [|b r]; cbn; try done.
  rewrite (Z.compare_antisym (byte_to_Z b) (byte_to_Z a)). destruct (_ ?= _); cbn; [apply IH|done..].
Qed.
Lemma compare_bytes_eq l r : compare_bytes l r = Eq <-> l = r.
Proof.
  split; [|intros ->].
  - revert r. induction l as [|a l IH]; intros [|b r]; cbn; try done.
    destruct (Z.compare_spec (byte_to_Z a) (byte_to_Z b)) as [Hab| |]; try done. intros Hlr.
    apply IH in Hlr as ->. by rewrite <- (Z_to_byte_to_Z a), Hab, Z_to_byte_to_Z.
  - induction r as [|b r IH]; cbn; [done|]. by rewrite Z.compare_refl.
Qed.
Lemma compare_bytes_trans l m r :
  compare_bytes l m = Lt -> compare_bytes m r = Lt -> compare_bytes l r = Lt.
Proof.
  revert m r. induction l as [|a l IH]; intros [|b m] [|c r]; cbn; try done.
  destruct (Z.compare_spec (byte_to_Z a) (byte_to_Z b)); try done;
    destruct (Z.compare_spec (byte_to_Z b) (byte_to_Z c)); try done; intros H1 H2;
    destruct (Z.compare_spec (byte_to_Z a) (byte_to_Z c)); try done; try lia. by eapply IH.
Qed.

(** Text values are totally ordered by [compare]: it is antisymmetric,
    transitive, and equal only on equal bytes. *)
Theorem text_compare_total_order (l m r : list byte) :
  text_compare l r = CompOpp (text_compare r l) /\
  (text_compare l r = Eq <-> l = r) /\
  (text_compare l m = Lt /\ text_compare m r = Lt -> text_compare l r = Lt).
Proof.
  unfold text_compare, text_to_text. rewrite !String.list_byte_of_string_of_list_byte.
  split_and!; [apply compare_bytes_antisym|apply compare_bytes_eq|].
  intros [H1 H2]. by eapply compare_bytes_trans.
Qed.

Lemma text_compare_total_order_witness :
  text_compare [x61] [x61; x00] = Lt /\ text_compare [x61; x00] [x80] = Lt /\ text_compare [x61] [x80] = Lt.
Proof.
  split; [reflexivity|]. split; [reflexivity|].
  apply (text_compare_total_order [x61] [x61; x00] [x80]). split; reflexivity.
Defined.

(** ** The registry the server starts with *)

Section startup.
Context (strtod : list byte -> Z * list byte) (double_to_string : Z -> string)
  (hash_double : Z -> Z) (hash_string : string -> Z).

(** The five built-in types are registered, in this order, as oids 1 to 5,
    each with its own fixed size. *)
Theorem builtin_types_registered :
  exists r, register_builtin_types strtod double_to_string hash_double hash_string TypeRegistry_default
      = (Ok tt, r) /\
    (fun t => (oid t, type_name t, fixed_size t)) <$> types r =
      [(1, "int32", Some 4); (2, "int64", Some 8); (3, "float64", Some 8); (4, "bool", Some 1);
       (5, "text", None)] /\
    registry_wf r.
Proof using Type.
  set (step T name r := (register_type T name r).2).
  exists (step (TextType hash_string) "text" (step BoolType "bool"
    (step (Float64Type strtod double_to_string hash_double) "float64"
      (step Int64Type "int64" (step Int32Type "int32" TypeRegistry_default))))).
  split; [reflexivity|]. split; [reflexivity|].
  assert (Hstep : forall T name r, registry_wf r -> name <> EmptyString ->
    Z.of_nat (length (types r)) < 2 ^ 32 - 2 -> by_name r !! name = None -> registry_wf (step T name r)).
  { intros T name r Hwf Hn Hl Hb. pose proof (register_type_spec T name r Hwf Hn Hl) as Hs.
    rewrite Hb in Hs. destruct Hs as (r2 & t & Hrun2 & Hwf2 & _). unfold step. by rewrite Hrun2. }
  do 5 (apply Hstep; [|discriminate|by vm_compute|by vm_compute]). exact registry_default_wf.
Qed.

(** The empty string is a valid double.  [strtod] performs no conversion on it,
    returns zero and leaves the end pointer at the terminating NUL, which is what
    the check looks for. *)
Theorem float64_accepts_empty_text :
  strtod [] = (0, []) ->
  float64_from_text strtod EmptyString = Ok (replicate 8 x00).
Proof using Type. intros Hs. unfold float64_from_text. cbn. by rewrite Hs. Qed.
End startup.

Lemma float64_accepts_empty_text_witness :
  float64_from_text (fun text => (0, text)) EmptyString = Ok (replicate 8 x00).
Proof. apply (float64_accepts_empty_text (fun text => (0, text))). reflexivity. Defined.
