(* ===== verification/RowCodec.v ===== *)
(** * RowCodec: src/src/types/row_codec.{hpp,cpp}

    The byte format of a stored row: a column count, a null bitmap, one
    (offset, length) entry per column and the concatenated payload.  [size_t]
    arithmetic keeps its 64-bit wrap-around and the stored fields their 32-bit
    truncation. *)
From S2P Require Import Prelude Utils TypeRegistry.

Record Value := { v_type_oid : Z; v_bytes : list byte; is_null : bool }.
Record ColumnSchema := { col_name : string; col_type_oid : Z; nullable : bool }.

#[export] Instance Value_eq_dec : EqDecision Value.
Proof. solve_decision. Defined.
#[export] Instance ColumnSchema_eq_dec : EqDecision ColumnSchema.
Proof. solve_decision. Defined.

(** [registry] is a pointer; the constructor always sets it. *)
Record RowCodec := { registry : option TypeRegistry; schema : list ColumnSchema }.
Definition RowCodec_new (registry_ref : TypeRegistry) (schema_def : list ColumnSchema) : RowCodec :=
  {| registry := Some registry_ref; schema := schema_def |}.

Definition COLUMN_COUNT_BYTES : Z := 4.
Definition OFFSET_BYTES : Z := 4.
Definition LENGTH_BYTES : Z := 4.

(** [vec.size()]. *)
Definition sizeZ {A} (l : list A) : Z := Z.of_nat (length l).

Definition append_u32_le (out : list byte) (value : Z) : list byte := out ++ le_encode 4 value.

(** [span.subspan(offset, count)]: undefined outside the span. *)
Definition subspan (bytes : list byte) (offset count : Z) : Result (list byte) :=
  if offset + count <=? sizeZ bytes
  then Ok (slice (Z.to_nat offset) (Z.to_nat count) bytes) else Fault.

Definition read_u32_le (bytes : list byte) (offset : Z) : Result Z :=
  if sizeZ bytes <? wrap64 (offset + COLUMN_COUNT_BYTES) then Err Corruption
  else let? bs := subspan bytes offset COLUMN_COUNT_BYTES in Ok (le_decode bs).

Definition bitmap_bytes_for_columns (column_count : Z) : Z := wrap64 (column_count + 7) / 8.

Definition is_null_bit_set (bitmap : list byte) (index : Z) : Result bool :=
  let byte_index := index / 8 in
  let bit_index := index mod 8 in
  let mask := Z.shiftl 1 bit_index in
  match bitmap !! Z.to_nat byte_index with
  | None => Fault
  | Some b => Ok (negb (Z.land (byte_to_Z b) mask =? 0))
  end.

Definition set_null_bit (bitmap : list byte) (index : Z) : Result (list byte) :=
  let byte_index := index / 8 in
  let bit_index := index mod 8 in
  let mask := Z.shiftl 1 bit_index in
  match bitmap !! Z.to_nat byte_index with
  | None => Fault
  | Some b => Ok (<[Z.to_nat byte_index := Z_to_byte (Z.lor (byte_to_Z b) mask)]> bitmap)
  end.

(** Every lookup error becomes [TypeNotFound]; a null [registry] may not be
    followed, and the lookup itself asserts a non-zero oid. *)
Definition lookup_type (c : RowCodec) (oid : Z) : Result Type_ :=
  match registry c with
  | None => Fault
  | Some r =>
      match lookup_oid r oid with
      | Ok t => Ok t
      | Err _ => Err TypeNotFound
      | Fault => Fault
      end
  end.

Definition size_mismatch (t : Type_) (count : Z) : bool :=
  match fixed_size t with Some n => negb (count =? n) | None => false end.

(** The loop of [encode]: [encoded] is the count and the bitmap, [bitmap_size]
    and [header_size] are fixed before it. *)
Fixpoint encode_columns (c : RowCodec) (bitmap_size header_size index : Z)
    (columns : list ColumnSchema) (values : list Value)
    (encoded entries payload : list byte) : Result (list byte * list byte * list byte) :=
  match columns, values with
  | [], _ => Ok (encoded, entries, payload)
  | _ :: _, [] => Fault
  | column :: columns, value :: values =>
      let? type := lookup_type c (col_type_oid column) in
      if negb (v_type_oid value =? col_type_oid column) then Err InvalidArgument
      else if is_null value then
        if negb (nullable column) then Err InvalidArgument
        else
          let? bitmap := subspan encoded COLUMN_COUNT_BYTES bitmap_size in
          let? bitmap := set_null_bit bitmap index in
          encode_columns c bitmap_size header_size (wrap64 (index + 1)) columns values
            (splice (Z.to_nat COLUMN_COUNT_BYTES) bitmap encoded)
            (append_u32_le (append_u32_le entries 0) 0) payload
      else if size_mismatch type (sizeZ (v_bytes value)) then Err InvalidArgument
      else
        let offset := wrap64 (header_size + sizeZ payload) in
        encode_columns c bitmap_size header_size (wrap64 (index + 1)) columns values encoded
          (append_u32_le (append_u32_le entries (wrap32 offset)) (wrap32 (sizeZ (v_bytes value))))
          (payload ++ v_bytes value)
  end.

Definition encode (c : RowCodec) (values : list Value) : Result (list byte) :=
  if negb (sizeZ values =? sizeZ (schema c)) then Err InvalidArgument
  else match registry c with
  | None => Err InvalidArgument
  | Some _ =>
      let column_count := sizeZ (schema c) in
      let bitmap_size := bitmap_bytes_for_columns column_count in
      let entries_size := wrap64 (column_count * (OFFSET_BYTES + LENGTH_BYTES)) in
      let header_size := wrap64 (wrap64 (COLUMN_COUNT_BYTES + bitmap_size) + entries_size) in
      let encoded := append_u32_le [] (wrap32 column_count) in
      let encoded := encoded ++ replicate (Z.to_nat bitmap_size) x00 in
      let? out := encode_columns c bitmap_size header_size 0 (schema c) values encoded [] [] in
      let '(encoded, entries, payload) := out in
      Ok (encoded ++ entries ++ payload)
  end.

(** [if (!offset || !length) return Corruption]. *)
Definition or_corruption {A} (r : Result A) : Result A :=
  match r with Err _ => Err Corruption | _ => r end.

Fixpoint decode_columns (c : RowCodec) (tuple bitmap : list byte)
    (entries_offset payload_offset index : Z) (columns : list ColumnSchema) (values : list Value) :
    Result (list Value) :=
  match columns with
  | [] => Ok values
  | column :: columns =>
      let? type := lookup_type c (col_type_oid column) in
      let entry_offset := wrap64 (entries_offset + wrap64 (index * (OFFSET_BYTES + LENGTH_BYTES))) in
      let? offset := or_corruption (read_u32_le tuple entry_offset) in
      let? length := or_corruption (read_u32_le tuple (wrap64 (entry_offset + OFFSET_BYTES))) in
      let? null := is_null_bit_set bitmap index in
      if (null : bool) then
        decode_columns c tuple bitmap entries_offset payload_offset (wrap64 (index + 1)) columns
          (values ++ [{| v_type_oid := col_type_oid column; v_bytes := []; is_null := true |}])
      else if (offset <? payload_offset) || (sizeZ tuple <? wrap64 (offset + length)) then Err Corruption
      else if size_mismatch type length then Err Corruption
      else
        let? bytes := subspan tuple offset length in
        decode_columns c tuple bitmap entries_offset payload_offset (wrap64 (index + 1)) columns
          (values ++ [{| v_type_oid := col_type_oid column; v_bytes := bytes; is_null := false |}])
  end.

Definition decode (c : RowCodec) (tuple : list byte) : Result (list Value) :=
  match registry c with
  | None => Err InvalidArgument
  | Some _ =>
      let? stored_columns := read_u32_le tuple 0 in
      if negb (stored_columns =? sizeZ (schema c)) then Err Corruption
      else
        let column_count := sizeZ (schema c) in
        let bitmap_size := bitmap_bytes_for_columns column_count in
        let entries_offset := wrap64 (COLUMN_COUNT_BYTES + bitmap_size) in
        let payload_offset :=
          wrap64 (entries_offset + wrap64 (column_count * (OFFSET_BYTES + LENGTH_BYTES))) in
        if sizeZ tuple <? payload_offset then Err Corruption
        else
          let? bitmap := subspan tuple COLUMN_COUNT_BYTES bitmap_size in
          decode_columns c tuple bitmap entries_offset payload_offset 0 (schema c) []
  end.

Definition columns (c : RowCodec) : list ColumnSchema := schema c.
