(* ===== verification/RowCodecSpec.v ===== *)
(** * RowCodecSpec: what the row format guarantees

    Rows that fit the schema survive a round trip through their bytes; rows that
    do not are refused; bytes that are not a row never lead outside the buffer. *)
From S2P Require Import Prelude Utils TypeRegistry BuiltinTypes RowCodec.

(** ** Bits of the null bitmap *)

Lemma testbit_land x k : 0 <= k -> negb (Z.land x (Z.shiftl 1 k) =? 0) = Z.testbit x k.
Proof.
  intros Hk. destruct (Z.testbit x k) eqn:Hb.
  - destruct (Z.eqb_spec (Z.land x (Z.shiftl 1 k)) 0) as [He|]; [|done].
    apply (f_equal (fun z => Z.testbit z k)) in He.
    rewrite Z.land_spec, Hb, Z.shiftl_1_l, Z.pow2_bits_true, Z.bits_0 in He by done. done.
  - rewrite (proj2 (Z.eqb_eq _ _)); [done|]. apply Z.bits_inj'. intros n Hn.
    rewrite Z.land_spec, Z.shiftl_1_l, Z.pow2_bits_eqb, Z.bits_0 by done.
    destruct (Z.eqb_spec k n) as [<-|]; [by rewrite Hb|by rewrite andb_false_r].
Qed.

Lemma lor_range a b n : 0 <= n -> 0 <= a < 2 ^ n -> 0 <= b < 2 ^ n -> 0 <= Z.lor a b < 2 ^ n.
Proof.
  intros Hn Ha Hb. assert (0 <= Z.lor a b) by (apply Z.lor_nonneg; lia). split; [done|].
  destruct (Z.eq_dec (Z.lor a b) 0) as [->|]; [lia|].
  destruct (Z.eq_dec n 0) as [->|]; [assert (a = 0) as -> by lia; assert (b = 0) as -> by lia; done|].
  apply Z.log2_lt_pow2; [lia|]. rewrite Z.log2_lor by lia.
  apply Z.max_lub_lt.
  - destruct (Z.eq_dec a 0) as [->|]; [cbn; lia|]. apply Z.log2_lt_pow2; lia.
  - destruct (Z.eq_dec b 0) as [->|]; [cbn; lia|]. apply Z.log2_lt_pow2; lia.
Qed.

Lemma index_in_bitmap (B : list byte) i :
  0 <= i < 8 * sizeZ B -> is_Some (B !! Z.to_nat (i / 8)) /\ 0 <= i mod 8 < 8.
Proof.
  unfold sizeZ. intros Hi. pose proof (Z.mod_pos_bound i 8 ltac:(lia)). split; [|done].
  apply lookup_lt_is_Some. pose proof (Z.div_lt_upper_bound i 8 (Z.of_nat (length B))).
  pose proof (Z.div_pos i 8). lia.
Qed.

Lemma set_null_bit_spec B i :
  0 <= i < 8 * sizeZ B ->
  exists B', set_null_bit B i = Ok B' /\ length B' = length B /\
    forall j, 0 <= j < 8 * sizeZ B ->
      is_null_bit_set B' j = if decide (j = i) then Ok true else is_null_bit_set B j.
Proof.
  intros Hi. destruct (index_in_bitmap B i Hi) as [[b Hb] Hm]. unfold set_null_bit. rewrite Hb.
  eexists. split; [done|]. rewrite length_insert. split; [done|]. intros j Hj.
  destruct (index_in_bitmap B j Hj) as [[d Hd] Hmj]. unfold is_null_bit_set.
  pose proof (Z.div_pos i 8). pose proof (Z.div_pos j 8).
  assert (Hmask : 0 <= Z.shiftl 1 (i mod 8) < 2 ^ 8).
  { rewrite Z.shiftl_1_l. split; [lia|]. apply Z.pow_lt_mono_r; lia. }
  destruct (decide (j / 8 = i / 8)) as [He|Hne].
  - rewrite He in *. rewrite Hb in Hd. injection Hd as <-.
    rewrite list_lookup_insert_eq by (by eapply lookup_lt_Some). rewrite Hb.
    pose proof (byte_to_Z_range b). rewrite byte_to_Z_small by (apply (lor_range _ _ 8); lia).
    rewrite !testbit_land by lia. rewrite Z.lor_spec, Z.shiftl_1_l, Z.pow2_bits_eqb by lia.
    destruct (decide (j = i)) as [->|Hji].
    + by rewrite Z.eqb_refl, orb_true_r.
    + destruct (Z.eqb_spec (i mod 8) (j mod 8)) as [Hmod|]; [|by rewrite orb_false_r].
      pose proof (Z.div_mod i 8). pose proof (Z.div_mod j 8). lia.
  - rewrite list_lookup_insert_ne by lia. rewrite decide_False; [done|]. congruence.
Qed.

Lemma is_null_bit_set_zero n i :
  0 <= i < 8 * Z.of_nat n -> is_null_bit_set (replicate n x00) i = Ok false.
Proof.
  intros Hi. unfold is_null_bit_set. rewrite lookup_replicate_2; [done|].
  pose proof (Z.div_lt_upper_bound i 8 (Z.of_nat n)). pose proof (Z.div_pos i 8). lia.
Qed.

Lemma is_null_bit_set_total B i : 0 <= i < 8 * sizeZ B -> exists b, is_null_bit_set B i = Ok b.
Proof.
  intros Hi. destruct (index_in_bitmap B i Hi) as [[b Hb] _]. unfold is_null_bit_set. rewrite Hb. eauto.
Qed.

(** ** The format *)

Definition value_size (v : Value) : Z := if is_null v then 0 else sizeZ (v_bytes v).
Definition payload_of (v : Value) : list byte := if is_null v then [] else v_bytes v.
Definition row_payload (vs : list Value) : list byte := concat (payload_of <$> vs).

(** The (offset, length) entries of [vs] when the payload of the first value
    starts at [base]. *)
Fixpoint row_entries (base : Z) (vs : list Value) : list byte :=
  match vs with
  | [] => []
  | v :: vs =>
      if is_null v then le_encode 4 0 ++ le_encode 4 0 ++ row_entries base vs
      else le_encode 4 base ++ le_encode 4 (sizeZ (v_bytes v)) ++ row_entries (base + sizeZ (v_bytes v)) vs
  end.

Definition header_bytes (n : Z) : Z := 4 + (n + 7) / 8 + 8 * n.
(** The number of bytes a row takes. *)
Definition row_size (vs : list Value) : Z := header_bytes (sizeZ vs) + sizeZ (row_payload vs).

(** What a stored value reads back as: a null keeps no bytes. *)
Definition stored (v : Value) : Value :=
  {| v_type_oid := v_type_oid v; v_bytes := payload_of v; is_null := is_null v |}.

Definition value_ok (c : RowCodec) (column : ColumnSchema) (v : Value) : Prop :=
  exists t, lookup_type c (col_type_oid column) = Ok t /\ v_type_oid v = col_type_oid column /\
    if is_null v then nullable column = true else size_mismatch t (sizeZ (v_bytes v)) = false.
Definition row_ok (c : RowCodec) (vs : list Value) : Prop := Forall2 (value_ok c) (schema c) vs.

#[export] Instance value_ok_dec c column v : Decision (value_ok c column v).
Proof.
  refine (match lookup_type c (col_type_oid column) as l return lookup_type c (col_type_oid column) = l -> _ with
    | Ok t => fun Hl => cast_if (decide (v_type_oid v = col_type_oid column /\
        (if is_null v then nullable column else negb (size_mismatch t (sizeZ (v_bytes v)))) = true))
    | _ => fun Hl => right _
    end eq_refl); unfold value_ok; rewrite Hl.
  - exists t. destruct a as [Ho Hv]. split_and!; [done|done|]. destruct (is_null v); [done|by apply negb_true_iff].
  - intros (t' & [= <-] & Ho & Hv). apply n. split; [done|]. destruct (is_null v); [done|by apply negb_true_iff].
  - by intros (t & ? & _).
  - by intros (t & ? & _).
Defined.
#[export] Instance row_ok_dec c vs : Decision (row_ok c vs).
Proof. unfold row_ok. apply _. Defined.

Lemma length_row_entries base vs : length (row_entries base vs) = (8 * length vs)%nat.
Proof.
  revert base. induction vs as [|v vs IH]; intros base; [done|]. cbn [row_entries length].
  destruct (is_null v); rewrite !length_app, !length_le_encode, IH; lia.
Qed.

Lemma sizeZ_app {A} (l k : list A) : sizeZ (l ++ k) = sizeZ l + sizeZ k.
Proof. unfold sizeZ. rewrite length_app. lia. Qed.
Lemma sizeZ_nonneg {A} (l : list A) : 0 <= sizeZ l.
Proof. unfold sizeZ. lia. Qed.
Lemma sizeZ_le_encode n v : sizeZ (le_encode n v) = Z.of_nat n.
Proof. unfold sizeZ. by rewrite length_le_encode. Qed.
Lemma row_payload_cons v vs : row_payload (v :: vs) = payload_of v ++ row_payload vs.
Proof. done. Qed.

Lemma wrap32_id v : 0 <= v < 2 ^ 32 -> wrap32 v = v.
Proof. intros. rewrite wrap32_mod. by apply Z.mod_small. Qed.
Lemma wrap64_id v : 0 <= v < 2 ^ 64 -> wrap64 v = v.
Proof. intros. rewrite wrap64_mod. by apply Z.mod_small. Qed.

(** ** Encoding *)

Lemma subspan_whole_bitmap (hd B : list byte) :
  length hd = 4%nat -> subspan (hd ++ B) COLUMN_COUNT_BYTES (sizeZ B) = Ok B.
Proof.
  intros Hhd. unfold subspan, COLUMN_COUNT_BYTES.
  rewrite (proj2 (Z.leb_le _ _)) by (unfold sizeZ; rewrite length_app; lia).
  change (Z.to_nat 4) with 4%nat. rewrite slice_app_r by lia. rewrite Hhd, Nat.sub_diag.
  by rewrite slice_0_all by (unfold sizeZ; lia).
Qed.

Lemma splice_bitmap (hd B B1 : list byte) :
  length hd = 4%nat -> length B1 = length B ->
  splice (Z.to_nat COLUMN_COUNT_BYTES) B1 (hd ++ B) = hd ++ B1.
Proof.
  intros Hhd HB1. change (Z.to_nat COLUMN_COUNT_BYTES) with 4%nat. unfold splice. rewrite <- Hhd at 1.
  rewrite take_app_length, drop_ge by (rewrite length_app; lia). by rewrite app_nil_r.
Qed.

Lemma encode_columns_ok c cols vs (hd B entries payload : list byte) H index :
  Forall2 (value_ok c) cols vs ->
  length hd = 4%nat -> 0 <= index -> index + sizeZ vs <= 8 * sizeZ B -> index + sizeZ vs < 2 ^ 32 ->
  0 <= H -> H + sizeZ payload + sizeZ (row_payload vs) < 2 ^ 32 ->
  exists B', encode_columns c (sizeZ B) H index cols vs (hd ++ B) entries payload =
      Ok (hd ++ B', entries ++ row_entries (H + sizeZ payload) vs, payload ++ row_payload vs) /\
    length B' = length B /\
    (forall j, 0 <= j < index -> is_null_bit_set B' j = is_null_bit_set B j) /\
    (forall k v, vs !! k = Some v -> is_null_bit_set B (index + Z.of_nat k) = Ok false ->
      is_null_bit_set B' (index + Z.of_nat k) = Ok (is_null v)) .
Proof.
  intros Hok Hhd. revert index B entries payload.
  induction Hok as [|col v cols vs (t & Ht & Hoid & Hv) Hok IH];
    intros index B entries payload Hi HB Hs HH Hlim; cbn [encode_columns].
  { exists B. rewrite !app_nil_r. split_and!; try done. }
  change (sizeZ (v :: vs)) with (Z.of_nat (Datatypes.S (length vs))) in *. rewrite Nat2Z.inj_succ in *.
  change (Z.of_nat (length vs)) with (sizeZ vs) in *.
  rewrite Ht. cbn [bindR]. rewrite Hoid, Z.eqb_refl. cbn [negb].
  rewrite row_payload_cons, sizeZ_app in Hlim. cbn [row_entries]. rewrite row_payload_cons.
  pose proof (sizeZ_nonneg vs). pose proof (sizeZ_nonneg payload). pose proof (sizeZ_nonneg (row_payload vs)).
  pose proof (sizeZ_nonneg (payload_of v)).
  rewrite (wrap64_id (index + 1)) by lia. unfold payload_of in *. destruct (is_null v) eqn:Hnull.
  - rewrite Hv. cbn [negb]. rewrite subspan_whole_bitmap by done. cbn [bindR].
    destruct (set_null_bit_spec B index) as (B1 & -> & HB1 & Hbits); [lia|].
    cbn [bindR]. rewrite splice_bitmap by done.
    assert (HsB : sizeZ B = sizeZ B1) by (unfold sizeZ; congruence).
    rewrite HsB. unfold append_u32_le.
    destruct (IH (index + 1) B1 ((entries ++ le_encode 4 0) ++ le_encode 4 0) payload)
      as (B' & Hrun & HB' & Hlow & Hhigh); [lia..|].
    exists B'. rewrite Hrun, <- !app_assoc. split_and!; [done|congruence|..].
    + intros j Hj. rewrite Hlow, Hbits, decide_False by lia. done.
    + intros [|k] w Hw Hz.
      * injection Hw as <-. rewrite Hnull, Z.add_0_r, Hlow, Hbits, decide_True by lia. done.
      * replace (index + Z.of_nat (Datatypes.S k)) with (index + 1 + Z.of_nat k) in * by lia.
        apply Hhigh; [done|]. apply lookup_lt_Some in Hw. cbn in Hw. unfold sizeZ in *.
        rewrite Hbits, decide_False by lia. done.
  - rewrite Hv. unfold append_u32_le.
    pose proof (sizeZ_nonneg (v_bytes v)).
    rewrite (wrap64_id (H + sizeZ payload)), !wrap32_id by lia.
    destruct (IH (index + 1) B
      ((entries ++ le_encode 4 (H + sizeZ payload)) ++ le_encode 4 (sizeZ (v_bytes v))) (payload ++ v_bytes v))
      as (B' & Hrun & HB' & Hlow & Hhigh); rewrite ?sizeZ_app; [lia..|].
    rewrite sizeZ_app in Hrun. exists B'. rewrite Hrun, <- !app_assoc. split_and!; [by rewrite Z.add_assoc|done|..].
    + intros j Hj. apply Hlow. lia.
    + intros [|k] w Hw Hz.
      * injection Hw as <-. rewrite Z.add_0_r in *. rewrite Hlow by lia. by rewrite Hnull.
      * replace (index + Z.of_nat (Datatypes.S k)) with (index + 1 + Z.of_nat k) in * by lia. by apply Hhigh.
Qed.

(** ** Decoding *)

Lemma subspan_at pre bs post off n :
  sizeZ pre = off -> sizeZ bs = n -> subspan (pre ++ bs ++ post) off n = Ok bs.
Proof.
  intros <- <-. pose proof (sizeZ_nonneg post). unfold subspan.
  rewrite (proj2 (Z.leb_le _ _)) by (rewrite !sizeZ_app; lia).
  unfold sizeZ. rewrite !Nat2Z.id, slice_app_r, Nat.sub_diag, slice_app_l by lia. by rewrite slice_0_all.
Qed.

Lemma read_u32_le_at pre x post off :
  sizeZ pre = off -> sizeZ (pre ++ le_encode 4 x ++ post) < 2 ^ 32 -> 0 <= x < 2 ^ 32 ->
  read_u32_le (pre ++ le_encode 4 x ++ post) off = Ok x.
Proof.
  intros Hoff Hs Hx. unfold read_u32_le, COLUMN_COUNT_BYTES. pose proof (sizeZ_nonneg pre). pose proof (sizeZ_nonneg post).
  pose proof Hs as Hs'. rewrite !sizeZ_app, sizeZ_le_encode in Hs'.
  rewrite wrap64_id, (proj2 (Z.ltb_ge _ _)) by (rewrite ?sizeZ_app, ?sizeZ_le_encode; lia).
  rewrite (subspan_at pre (le_encode 4 x) post) by (done || apply sizeZ_le_encode).
  cbn [bindR]. by rewrite le_decode_encode, Z.mod_small by (cbn; lia).
Qed.

(** One entry, then the next one, from a tuple that holds both. *)
Lemma read_entry_at pre x y post off :
  sizeZ pre = off -> sizeZ (pre ++ le_encode 4 x ++ le_encode 4 y ++ post) < 2 ^ 32 ->
  0 <= x < 2 ^ 32 -> 0 <= y < 2 ^ 32 ->
  read_u32_le (pre ++ le_encode 4 x ++ le_encode 4 y ++ post) off = Ok x /\
  read_u32_le (pre ++ le_encode 4 x ++ le_encode 4 y ++ post) (wrap64 (off + 4)) = Ok y.
Proof.
  intros Hoff Hs Hx Hy. split; [by apply read_u32_le_at|].
  pose proof Hs as Hs'. rewrite !sizeZ_app, !sizeZ_le_encode in Hs'.
  pose proof (sizeZ_nonneg pre). pose proof (sizeZ_nonneg post).
  rewrite wrap64_id by lia.
  rewrite app_assoc in *. apply read_u32_le_at; [|done..].
  rewrite sizeZ_app, sizeZ_le_encode. lia.
Qed.

Lemma sizeZ_row_entries pos vs : sizeZ (row_entries pos vs) = 8 * sizeZ vs.
Proof. unfold sizeZ. rewrite length_row_entries. lia. Qed.

(** The bytes of one value, behind the header, the entries and the values before it. *)
Lemma subspan_payload (hd E1 e1 e2 P1 : list byte) pos vs bs post off :
  sizeZ e1 = 4 -> sizeZ e2 = 4 -> off = sizeZ hd + sizeZ E1 + 8 + 8 * sizeZ vs + sizeZ P1 ->
  subspan (hd ++ E1 ++ e1 ++ e2 ++ row_entries pos vs ++ P1 ++ bs ++ post) off (sizeZ bs) = Ok bs.
Proof.
  intros H1 H2 ->. pose proof (subspan_at (hd ++ E1 ++ e1 ++ e2 ++ row_entries pos vs ++ P1) bs post
    (sizeZ hd + sizeZ E1 + 8 + 8 * sizeZ vs + sizeZ P1) (sizeZ bs)) as Hsub.
  rewrite <- !app_assoc in Hsub. apply Hsub; [|done]. rewrite !sizeZ_app, sizeZ_row_entries. lia.
Qed.

(** The size of a tuple whose first value still to be decoded is [v]. *)
Lemma tuple_size (hd E1 P1 : list byte) payload_offset index v vs :
  sizeZ E1 = 8 * index -> payload_offset = sizeZ hd + 8 * index + 8 * (sizeZ vs + 1) ->
  sizeZ (hd ++ E1 ++ row_entries (payload_offset + sizeZ P1) (v :: vs) ++ P1 ++ row_payload (v :: vs)) =
    payload_offset + sizeZ P1 + sizeZ (payload_of v) + sizeZ (row_payload vs).
Proof.
  intros HE ->. rewrite row_payload_cons, !sizeZ_app, HE, sizeZ_row_entries.
  change (sizeZ (v :: vs)) with (Z.of_nat (Datatypes.S (length vs))). unfold sizeZ. lia.
Qed.

Lemma decode_columns_ok c cols vs (hd B E1 P1 : list byte) payload_offset index acc :
  Forall2 (value_ok c) cols vs ->
  sizeZ E1 = 8 * index -> 0 <= index -> payload_offset = sizeZ hd + 8 * index + 8 * sizeZ vs ->
  let tuple := hd ++ E1 ++ row_entries (payload_offset + sizeZ P1) vs ++ P1 ++ row_payload vs in
  sizeZ tuple < 2 ^ 32 ->
  (forall k v, vs !! k = Some v -> is_null_bit_set B (index + Z.of_nat k) = Ok (is_null v)) ->
  decode_columns c tuple B (sizeZ hd) payload_offset index cols acc = Ok (acc ++ (stored <$> vs)).
Proof.
  intros Hok. revert index E1 P1 acc.
  induction Hok as [|col v cols vs (t & Ht & Hoid & Hv) Hok IH];
    intros index E1 P1 acc HE Hi Hpo tuple Hs Hbits; cbn [decode_columns]; [by rewrite app_nil_r|].
  change (sizeZ (v :: vs)) with (Z.of_nat (Datatypes.S (length vs))) in *. rewrite Nat2Z.inj_succ in *.
  change (Z.of_nat (length vs)) with (sizeZ vs) in *.
  rewrite Ht. cbn [bindR].
  assert (Hsize : sizeZ tuple = payload_offset + sizeZ P1 + sizeZ (payload_of v) + sizeZ (row_payload vs))
    by (by apply (tuple_size hd E1 P1 payload_offset index)).
  pose proof (sizeZ_nonneg vs). pose proof (sizeZ_nonneg hd). pose proof (sizeZ_nonneg P1).
  pose proof (sizeZ_nonneg (row_payload vs)). pose proof (sizeZ_nonneg (payload_of v)).
  unfold OFFSET_BYTES, LENGTH_BYTES.
  rewrite (wrap64_id (index * (4 + 4))), (wrap64_id (sizeZ hd + index * (4 + 4))), (wrap64_id (index + 1)) by lia.
  assert (Hbound : payload_offset + sizeZ P1 + sizeZ (payload_of v) + sizeZ (row_payload vs) < 2 ^ 32)
    by (by rewrite <- Hsize).
  pose proof (Hbits 0%nat v eq_refl) as Hb0. rewrite Z.add_0_r in Hb0.
  assert (Hbits' : forall k w, vs !! k = Some w -> is_null_bit_set B (index + 1 + Z.of_nat k) = Ok (is_null w)).
  { intros k w Hw. rewrite <- (Hbits (Datatypes.S k) w Hw). f_equal. lia. }
  assert (Hstored : acc ++ stored v :: (stored <$> vs) = (acc ++ [stored v]) ++ (stored <$> vs))
    by (by rewrite <- app_assoc).
  assert (Hsv : stored v = {| v_type_oid := col_type_oid col; v_bytes := payload_of v; is_null := is_null v |})
    by (unfold stored; by rewrite Hoid).
  cbn [fmap list_fmap]. rewrite Hstored, Hsv. unfold payload_of in *.
  subst tuple. revert Hs Hsize. cbn [row_entries]. rewrite row_payload_cons. unfold payload_of.
  destruct (is_null v) eqn:Hnull; intros Hs Hsize; rewrite ?app_nil_l in *; rewrite <- ?app_assoc in *; rewrite app_assoc in Hs |- *.
  - destruct (read_entry_at (hd ++ E1) 0 0 (row_entries (payload_offset + sizeZ P1) vs ++ P1 ++ row_payload vs)
      (sizeZ hd + index * (4 + 4))) as [-> ->]; [rewrite sizeZ_app; lia|done|lia|lia|].
    cbn [or_corruption bindR]. rewrite Hb0. cbn [bindR].
    specialize (IH (index + 1) (E1 ++ le_encode 4 0 ++ le_encode 4 0) P1
      (acc ++ [{| v_type_oid := col_type_oid col; v_bytes := []; is_null := true |}])).
    cbv zeta in IH. rewrite <- !app_assoc in IH. rewrite <- !app_assoc in Hs |- *. apply IH; try done; [|lia..].
    rewrite !sizeZ_app, !sizeZ_le_encode. lia.
  - destruct (read_entry_at (hd ++ E1) (payload_offset + sizeZ P1) (sizeZ (v_bytes v))
      (row_entries (payload_offset + sizeZ P1 + sizeZ (v_bytes v)) vs ++ P1 ++ v_bytes v ++ row_payload vs)
      (sizeZ hd + index * (4 + 4))) as [-> ->]; [rewrite sizeZ_app; lia|done|lia|lia|].
    cbn [or_corruption bindR]. rewrite Hb0. cbn [bindR].
    rewrite <- !app_assoc in Hs |- *. rewrite wrap64_id by lia.
    rewrite Hsize, !(proj2 (Z.ltb_ge _ _)) by lia. cbn [orb]. rewrite Hv.
    set (e1 := le_encode 4 (payload_offset + sizeZ P1)) in *. set (e2 := le_encode 4 (sizeZ (v_bytes v))) in *.
    rewrite (subspan_payload hd E1 e1 e2 P1) by (apply sizeZ_le_encode || lia). cbn [bindR].
    specialize (IH (index + 1) (E1 ++ e1 ++ e2) (P1 ++ v_bytes v)
      (acc ++ [{| v_type_oid := col_type_oid col; v_bytes := v_bytes v; is_null := false |}])).
    cbv zeta in IH. rewrite <- !app_assoc in IH. rewrite (sizeZ_app P1), Z.add_assoc in IH.
    apply IH; try done; [|lia..]. rewrite !sizeZ_app. unfold e1, e2. rewrite !sizeZ_le_encode. lia.
Qed.

(** ** Rows that are refused *)

(** The registry of a codec is one that registrations built, and no column uses
    the reserved oid 0 (which the registry's lookup asserts against). *)
Record codec_ok (c : RowCodec) : Prop := {
  co_registry : exists r, registry c = Some r /\ registry_wf r;
  co_oids : Forall (fun column => 0 < col_type_oid column) (schema c);
}.

Lemma lookup_type_cases c o :
  codec_ok c -> 0 < o -> (exists t, lookup_type c o = Ok t) \/ lookup_type c o = Err TypeNotFound.
Proof.
  intros [(r & Hr & Hwf) _] Ho. unfold lookup_type, lookup_oid. rewrite Hr.
  rewrite (proj2 (Z.ltb_lt _ _)) by done. cbn [edb_assert bindR].
  destruct (by_oid r !! o) as [i|] eqn:Hi; [|by right].
  apply (rw_by_oid _ Hwf) in Hi as (t & Ht & _). unfold type_at. rewrite Ht. left. eauto.
Qed.

Lemma encode_columns_bad c cols vs bitmap_size H index hd B entries payload :
  codec_ok c -> Forall (fun column => 0 < col_type_oid column) cols -> length cols = length vs ->
  ~ Forall2 (value_ok c) cols vs ->
  bitmap_size = sizeZ B -> length hd = 4%nat ->
  0 <= index -> index + sizeZ vs <= 8 * sizeZ B -> index + sizeZ vs < 2 ^ 64 ->
  encode_columns c bitmap_size H index cols vs (hd ++ B) entries payload = Err TypeNotFound \/
  encode_columns c bitmap_size H index cols vs (hd ++ B) entries payload = Err InvalidArgument.
Proof.
  intros Hc Ho Hlen Hbad Hbs Hhd. subst bitmap_size. revert vs index B entries payload Hlen Hbad.
  induction Ho as [|col cols Hcol Ho IH]; intros [|v vs] index B entries payload Hlen Hbad Hi HB Hs; try done.
  { by destruct Hbad. }
  cbn [encode_columns]. destruct (lookup_type_cases c _ Hc Hcol) as [[t Ht]|Ht]; rewrite Ht; [|by left].
  cbn [bindR]. destruct (Z.eqb_spec (v_type_oid v) (col_type_oid col)) as [Hoid|]; [|by right]. cbn [negb].
  change (sizeZ (v :: vs)) with (Z.of_nat (Datatypes.S (length vs))) in *. rewrite Nat2Z.inj_succ in *.
  change (Z.of_nat (length vs)) with (sizeZ vs) in *. pose proof (sizeZ_nonneg vs).
  rewrite wrap64_id by lia.
  assert (Hrest : value_ok c col v -> ~ Forall2 (value_ok c) cols vs) by (intros ? ?; apply Hbad; by constructor).
  destruct (is_null v) eqn:Hnull.
  - destruct (nullable col) eqn:Hn; [|by right]. cbn [negb].
    rewrite subspan_whole_bitmap by done. cbn [bindR].
    destruct (set_null_bit_spec B index) as (B1 & -> & HB1 & _); [lia|]. cbn [bindR].
    rewrite splice_bitmap by done. assert (HsB : sizeZ B = sizeZ B1) by (unfold sizeZ; congruence). rewrite HsB in *.
    apply IH; [by injection Hlen| |lia..]. apply Hrest. exists t. by rewrite Hnull.
  - destruct (size_mismatch t (sizeZ (v_bytes v))) eqn:Hm; [by right|].
    apply IH; [by injection Hlen| |lia..]. apply Hrest. exists t. by rewrite Hnull.
Qed.

(** ** Bytes from anywhere *)

Lemma read_u32_le_cases bytes off :
  0 <= off < 2 ^ 64 - 4 ->
  (exists x, read_u32_le bytes off = Ok x /\ 0 <= x < 2 ^ 32) \/ read_u32_le bytes off = Err Corruption.
Proof.
  intros Hoff. unfold read_u32_le, COLUMN_COUNT_BYTES. rewrite wrap64_id by lia.
  destruct (Z.ltb_spec (sizeZ bytes) (off + 4)) as [|Hle]; [by right|left].
  unfold subspan. rewrite (proj2 (Z.leb_le _ _)) by lia. cbn [bindR]. eexists. split; [done|].
  rewrite le_decode_value. pose proof (le_value_range (slice (Z.to_nat off) (Z.to_nat 4) bytes)) as Hr.
  rewrite length_slice in Hr by (unfold sizeZ in Hle; lia). exact Hr.
Qed.

(** A decoded value has its column's type and, unless null, the size the type
    demands. *)
Definition decoded_ok (c : RowCodec) (column : ColumnSchema) (v : Value) : Prop :=
  exists t, lookup_type c (col_type_oid column) = Ok t /\ v_type_oid v = col_type_oid column /\
    if is_null v then v_bytes v = [] else size_mismatch t (sizeZ (v_bytes v)) = false.

Definition decode_outcome (P : list Value -> Prop) (r : Result (list Value)) : Prop :=
  match r with Ok vs => P vs | Err e => e = Corruption \/ e = TypeNotFound | Fault => False end.

Lemma decode_columns_safe c cols tuple B entries_offset payload_offset index acc done :
  codec_ok c -> Forall (fun column => 0 < col_type_oid column) cols ->
  Forall2 (decoded_ok c) done acc ->
  sizeZ tuple < 2 ^ 63 -> 0 <= index -> index + sizeZ cols <= 8 * sizeZ B -> index + sizeZ cols < 2 ^ 32 ->
  0 <= entries_offset < 2 ^ 32 -> 0 <= payload_offset ->
  decode_outcome (Forall2 (decoded_ok c) (done ++ cols))
    (decode_columns c tuple B entries_offset payload_offset index cols acc).
Proof.
  intros Hc Ho. revert done index acc.
  induction Ho as [|col cols Hcol Ho IH]; intros dn index acc Hacc Hs Hi HB Hlim He Hp; cbn [decode_columns].
  { by rewrite app_nil_r. }
  destruct (lookup_type_cases c _ Hc Hcol) as [[t Ht]|Ht]; rewrite Ht; [|by right].
  change (sizeZ (col :: cols)) with (Z.of_nat (Datatypes.S (length cols))) in *. rewrite Nat2Z.inj_succ in *.
  change (Z.of_nat (length cols)) with (sizeZ cols) in *. pose proof (sizeZ_nonneg cols).
  cbn [bindR]. unfold OFFSET_BYTES, LENGTH_BYTES.
  rewrite (wrap64_id (index * (4 + 4))), (wrap64_id (entries_offset + _)), (wrap64_id (_ + 4)), (wrap64_id (index + 1)) by lia.
  destruct (read_u32_le_cases tuple (entries_offset + index * (4 + 4))) as [(x & -> & Hx)| ->]; [lia| |by left].
  destruct (read_u32_le_cases tuple (entries_offset + index * (4 + 4) + 4)) as [(y & -> & Hy)| ->]; [lia| |by left].
  cbn [or_corruption bindR]. destruct (is_null_bit_set_total B index) as [b ->]; [lia|]. cbn [bindR].
  rewrite (cons_middle col dn cols), app_assoc.
  destruct b.
  { apply IH; [|lia..]. apply Forall2_app; [done|]. constructor; [|done]. by exists t. }
  destruct (Z.ltb_spec x payload_offset); [by left|]. cbn [orb]. rewrite wrap64_id by lia.
  destruct (Z.ltb_spec (sizeZ tuple) (x + y)); [by left|].
  destruct (size_mismatch t y) eqn:Hm; [by left|]. unfold subspan. rewrite (proj2 (Z.leb_le _ _)) by lia. cbn [bindR].
  apply IH; [|lia..]. apply Forall2_app; [done|]. constructor; [|done]. exists t. split_and!; try done. cbn.
  assert (Hl : sizeZ (slice (Z.to_nat x) (Z.to_nat y) tuple) = y)
    by (unfold sizeZ in *; rewrite length_slice; lia). by rewrite Hl.
Qed.

Lemma bitmap_bytes n : 0 <= n < 2 ^ 32 ->
  bitmap_bytes_for_columns n = (n + 7) / 8 /\ n <= 8 * ((n + 7) / 8) /\ 0 <= (n + 7) / 8 < 2 ^ 32.
Proof.
  intros Hn. unfold bitmap_bytes_for_columns. rewrite wrap64_id by lia. split; [done|].
  pose proof (Z.div_mod (n + 7) 8). pose proof (Z.mod_pos_bound (n + 7) 8). lia.
Qed.

(** ** The layout of an encoded row *)

Definition row_layout (vs : list Value) (bs : list byte) : Prop :=
  exists bitmap,
    bs = (le_encode 4 (sizeZ vs) ++ bitmap) ++ row_entries (header_bytes (sizeZ vs)) vs ++ row_payload vs /\
    sizeZ bitmap = (sizeZ vs + 7) / 8 /\
    forall k v, vs !! k = Some v -> is_null_bit_set bitmap (Z.of_nat k) = Ok (is_null v).

Lemma row_layout_size vs bs : row_layout vs bs -> sizeZ bs = row_size vs.
Proof.
  intros (B & -> & HB & _). rewrite !sizeZ_app, sizeZ_le_encode, HB. unfold row_size, header_bytes.
  assert (sizeZ (row_entries (header_bytes (sizeZ vs)) vs) = 8 * sizeZ vs) as Hents
    by (unfold sizeZ; rewrite length_row_entries; lia).
  unfold header_bytes in Hents. rewrite Hents. lia.
Qed.

Lemma row_size_bounds vs :
  row_size vs < 2 ^ 32 ->
  0 <= sizeZ vs < 2 ^ 32 /\ 4 <= header_bytes (sizeZ vs) <= row_size vs /\
  header_bytes (sizeZ vs) + sizeZ (row_payload vs) < 2 ^ 32.
Proof.
  unfold row_size, header_bytes. pose proof (sizeZ_nonneg vs). pose proof (sizeZ_nonneg (row_payload vs)).
  pose proof (Z.div_pos (sizeZ vs + 7) 8). lia.
Qed.

Lemma encode_layout c vs :
  codec_ok c -> row_ok c vs -> row_size vs < 2 ^ 32 -> exists bs, encode c vs = Ok bs /\ row_layout vs bs.
Proof.
  intros Hc Hok Hs. destruct (co_registry _ Hc) as (r & Hr & Hwf). unfold row_ok in Hok.
  assert (Hlen : sizeZ vs = sizeZ (schema c)) by (unfold sizeZ; f_equal; symmetry; by eapply Forall2_length).
  destruct (row_size_bounds vs Hs) as (Hn & Hh & Hp).
  destruct (bitmap_bytes (sizeZ vs) Hn) as (Hbm & Hcover & Hbr). unfold header_bytes in Hh, Hp.
  unfold encode. rewrite Hlen, Z.eqb_refl, Hr. cbn [negb]. rewrite <- Hlen, Hbm.
  unfold COLUMN_COUNT_BYTES, OFFSET_BYTES, LENGTH_BYTES, append_u32_le. rewrite app_nil_l.
  rewrite !wrap64_id, wrap32_id by (rewrite ?wrap64_id by lia; lia).
  replace (4 + (sizeZ vs + 7) / 8 + sizeZ vs * (4 + 4)) with (header_bytes (sizeZ vs)) by (unfold header_bytes; lia).
  set (B0 := replicate (Z.to_nat ((sizeZ vs + 7) / 8)) x00).
  assert (HB0 : sizeZ B0 = (sizeZ vs + 7) / 8) by (unfold sizeZ at 1, B0; rewrite length_replicate, Z2Nat.id by lia; done).
  destruct (encode_columns_ok c (schema c) vs (le_encode 4 (sizeZ vs)) B0 [] [] (header_bytes (sizeZ vs)) 0)
    as (B & Henc & HB & _ & Hbits); [done|apply length_le_encode|..].
  1-5: unfold header_bytes; rewrite ?HB0; change (sizeZ (@nil byte)) with 0; lia.
  rewrite HB0 in Henc. rewrite Henc. cbn [bindR]. change (sizeZ (@nil byte)) with 0. rewrite Z.add_0_r, !app_nil_l.
  eexists. split; [done|]. exists B. split; [done|]. split; [unfold sizeZ in *; congruence|].
  intros k v Hv. apply (Hbits k v Hv). apply is_null_bit_set_zero.
  apply lookup_lt_Some in Hv. unfold sizeZ in *. lia.
Qed.

Lemma decode_layout c vs bs :
  codec_ok c -> row_ok c vs -> row_size vs < 2 ^ 32 -> row_layout vs bs -> decode c bs = Ok (stored <$> vs).
Proof.
  intros Hc Hok Hs Hlay. pose proof (row_layout_size _ _ Hlay) as Hsz. destruct Hlay as (B & Hbs & HB & Hbits).
  destruct (co_registry _ Hc) as (r & Hr & Hwf). unfold row_ok in Hok.
  assert (Hlen : sizeZ vs = sizeZ (schema c)) by (unfold sizeZ; f_equal; symmetry; by eapply Forall2_length).
  destruct (row_size_bounds vs Hs) as (Hn & Hh & Hp).
  destruct (bitmap_bytes (sizeZ vs) Hn) as (Hbm & Hcover & Hbr). unfold header_bytes in Hh.
  unfold decode. rewrite Hr, Hsz.
  pose proof (read_u32_le_at [] (sizeZ vs)
    (B ++ row_entries (header_bytes (sizeZ vs)) vs ++ row_payload vs) 0 eq_refl) as Hrd.
  rewrite app_nil_l, app_assoc, <- Hbs, Hsz in Hrd. rewrite Hrd by lia.
  cbn [bindR]. rewrite <- Hlen, Z.eqb_refl, Hbm. cbn [negb].
  unfold COLUMN_COUNT_BYTES, OFFSET_BYTES, LENGTH_BYTES.
  rewrite !wrap64_id by (rewrite ?wrap64_id by lia; lia). rewrite (proj2 (Z.ltb_ge _ _)) by lia.
  pose proof (subspan_at (le_encode 4 (sizeZ vs)) B
    (row_entries (header_bytes (sizeZ vs)) vs ++ row_payload vs) 4 _ (sizeZ_le_encode _ _) HB) as Hsub.
  rewrite app_assoc, <- Hbs in Hsub. rewrite Hsub. cbn [bindR].
  pose proof (decode_columns_ok c (schema c) vs (le_encode 4 (sizeZ vs) ++ B) B [] []
    (header_bytes (sizeZ vs)) 0 [] Hok) as Hdec.
  cbv zeta in Hdec. change (sizeZ (@nil byte)) with 0 in Hdec.
  rewrite !app_nil_l, !Z.add_0_r, <- Hbs, sizeZ_app, sizeZ_le_encode, HB in Hdec.
  replace (4 + (sizeZ vs + 7) / 8 + sizeZ vs * (4 + 4)) with (header_bytes (sizeZ vs)) by (unfold header_bytes; lia).
  apply Hdec; try done; unfold header_bytes; lia.
Qed.

Lemma encode_bad c vs :
  codec_ok c -> sizeZ (schema c) < 2 ^ 32 -> ~ row_ok c vs ->
  encode c vs = Err TypeNotFound \/ encode c vs = Err InvalidArgument.
Proof.
  intros Hc Hn Hbad. destruct (co_registry _ Hc) as (r & Hr & Hwf). unfold encode.
  destruct (Z.eqb_spec (sizeZ vs) (sizeZ (schema c))) as [Hlen|]; [|by right]. cbn [negb]. rewrite Hr.
  pose proof (sizeZ_nonneg vs). destruct (bitmap_bytes (sizeZ (schema c))) as (Hbm & Hcover & Hbr); [lia|].
  rewrite Hbm. unfold append_u32_le. rewrite app_nil_l.
  match goal with |- context [encode_columns c ?bm ?h 0 ?cols vs (?hd ++ ?B) ?e ?p] =>
    destruct (encode_columns_bad c cols vs bm h 0 hd B e p) as [He|He] end;
    try (rewrite He; cbn [bindR]; by auto); try done.
  - apply (co_oids _ Hc).
  - unfold sizeZ in Hlen. lia.
  - unfold sizeZ at 2. rewrite length_replicate. lia.
  - unfold sizeZ at 2. rewrite length_replicate. lia.
  - lia.
Qed.

(** C29: a row that fits its schema survives storage.  [encode] accepts it, produces
    exactly [row_size] bytes, and [decode] of those bytes returns the same values
    (a null comes back with no bytes). *)
Theorem row_roundtrip (c : RowCodec) (vs : list Value) :
  codec_ok c -> row_ok c vs -> row_size vs < 2 ^ 32 ->
  exists bs, encode c vs = Ok bs /\ sizeZ bs = row_size vs /\ decode c bs = Ok (stored <$> vs).
Proof.
  intros Hc Hok Hs. destruct (encode_layout c vs Hc Hok Hs) as (bs & Henc & Hlay).
  exists bs. eauto using row_layout_size, decode_layout.
Qed.

(** A row that does not fit its schema is never stored.  Too few or too many
    values, a value of the wrong type, a null in a column that takes none or a
    value of the wrong size make [encode] fail with [InvalidArgument]; a column of
    an unregistered type, with [TypeNotFound]. *)
Theorem encode_rejects_bad_rows (c : RowCodec) (vs : list Value) :
  codec_ok c -> sizeZ (schema c) < 2 ^ 32 -> ~ row_ok c vs ->
  encode c vs = Err TypeNotFound \/ encode c vs = Err InvalidArgument.
Proof. apply encode_bad. Qed.

(** C30: [decode] is safe on every byte string.  Whatever the bytes, it reads only
    inside them: it either reports [Corruption] or [TypeNotFound], or returns one
    value per column, of that column's type and of the size the type demands. *)
Theorem decode_safe (c : RowCodec) (tuple : list byte) :
  codec_ok c -> sizeZ tuple < 2 ^ 63 ->
  decode_outcome (Forall2 (decoded_ok c) (schema c)) (decode c tuple).
Proof.
  intros Hc Hs. destruct (co_registry _ Hc) as (r & Hr & Hwf). unfold decode. rewrite Hr.
  destruct (read_u32_le_cases tuple 0) as [(x & -> & Hx)| ->]; [lia| |by left]. cbn [bindR].
  destruct (Z.eqb_spec x (sizeZ (schema c))) as [->|]; [|by left]. cbn [negb].
  destruct (bitmap_bytes (sizeZ (schema c)) Hx) as (Hbm & Hcover & Hbr). rewrite Hbm.
  unfold COLUMN_COUNT_BYTES, OFFSET_BYTES, LENGTH_BYTES. set (nb := (sizeZ (schema c) + 7) / 8) in *.
  assert (Hnb : nb < 2 ^ 30).
  { unfold nb. apply Z.div_lt_upper_bound; lia. }
  rewrite !wrap64_id by (rewrite ?wrap64_id by lia; lia).
  destruct (Z.ltb_spec (sizeZ tuple) (4 + nb + sizeZ (schema c) * (4 + 4))) as [|Hle]; [by left|].
  unfold subspan. rewrite (proj2 (Z.leb_le _ _)) by lia. cbn [bindR].
  apply (decode_columns_safe c (schema c) tuple _ _ _ 0 [] []); try done; try lia; [apply (co_oids _ Hc)|].
  assert (sizeZ (slice (Z.to_nat 4) (Z.to_nat nb) tuple) = nb) as ->; [|lia].
  unfold sizeZ in *. rewrite length_slice; lia.
Qed.

(** ** A concrete schema: [id int32 not null, note text] *)

Definition example_registry : TypeRegistry :=
  (register_type (TextType (fun _ => 0)) "text" (register_type Int32Type "int32" TypeRegistry_default).2).2.
Definition example_codec : RowCodec :=
  RowCodec_new example_registry
    [{| col_name := "id"; col_type_oid := 1; nullable := false |};
     {| col_name := "note"; col_type_oid := 2; nullable := true |}].
Definition example_row (id : byte) (note : option (list byte)) : list Value :=
  [{| v_type_oid := 1; v_bytes := [id; x00; x00; x00]; is_null := false |};
   {| v_type_oid := 2; v_bytes := default [] note; is_null := match note with Some _ => false | None => true end |}].

Lemma register_type_wf T name r :
  registry_wf r -> name <> EmptyString -> Z.of_nat (length (types r)) < 2 ^ 32 - 2 ->
  registry_wf (register_type T name r).2.
Proof.
  intros Hwf Hn Hl. pose proof (register_type_spec T name r Hwf Hn Hl) as Hs.
  destruct (by_name r !! name); [by rewrite Hs|]. destruct Hs as (r' & t & Hrun & Hwf' & _). by rewrite Hrun.
Qed.

Lemma example_codec_ok : codec_ok example_codec.
Proof.
  split; [|by repeat constructor].
  exists example_registry. split; [done|]. unfold example_registry.
  apply register_type_wf; [|done|by vm_compute]. apply register_type_wf; [|done|by vm_compute].
  exact registry_default_wf.
Qed.

Lemma example_row_ok id note : row_ok example_codec (example_row id note).
Proof.
  unfold row_ok, example_row. cbn [schema example_codec RowCodec_new].
  repeat constructor; eexists; (split; [reflexivity|]); (split; [reflexivity|]); [done|]. by destruct note.
Qed.

Lemma row_roundtrip_witness :
  exists bs, encode example_codec (example_row x07 (Some [x68; x69])) = Ok bs /\ sizeZ bs = 27 /\
    decode example_codec bs = Ok (example_row x07 (Some [x68; x69])).
Proof.
  destruct (row_roundtrip example_codec (example_row x07 (Some [x68; x69])) example_codec_ok
    (example_row_ok _ _) ltac:(vm_compute; reflexivity)) as (bs & He & Hs & Hd).
  exists bs. split; [exact He|]. split; [exact Hs|exact Hd].
Defined.

Lemma encode_rejects_bad_rows_witness :
  encode example_codec [] = Err TypeNotFound \/ encode example_codec [] = Err InvalidArgument.
Proof.
  apply (encode_rejects_bad_rows example_codec []); [exact example_codec_ok|vm_compute; reflexivity|].
  intros Hf. inversion Hf.
Defined.

Lemma decode_safe_witness :
  decode_outcome (Forall2 (decoded_ok example_codec) (schema example_codec))
    (decode example_codec (replicate 40 xff)).
Proof. apply (decode_safe example_codec); [exact example_codec_ok|vm_compute; reflexivity]. Defined.
