(* ===== verification/TupleStore.v ===== *)
(** * TupleStore: what a storage engine promises to the layers above it

    The contract behind the virtual interface of src/src/storage/engine/engine.hpp
    and the proof that the heap engine keeps it.  Tables and the catalog are
    verified against this contract only. *)
From S2P Require Import Prelude Utils StorageIO PageStore EvictionPolicy PolicyFactory BufferPool.
From S2P Require Import BufferPoolSpec BufferPoolClient HeapPage HeapEngine HeapEngineSpec.
From S2P Require Import HeapEngineProps.

(** [ts_tuples] is the content in scan order; [ts_room e datas] says that the
    engine can still take [datas], one after the other; [ts_cursor e hd todo] that
    a scan at [hd] has the tuples [todo] still to return.  Scans keep the content
    and the room, and so does a deletion for the room. *)
Class TupleStore (E : Type) `{StorageEngine E} := {
  ts_ok : E -> Prop;
  ts_tuples : E -> list Tuple;
  ts_room : E -> list (list byte) -> Prop;
  ts_cursor : E -> ScanHandle -> list Tuple -> Prop;

  ts_nodup e : ts_ok e -> NoDup (tup_id <$> ts_tuples e);
  ts_begin e : ts_ok e ->
    exists hd e', se_begin_scan e = (Ok hd, e') /\ ts_ok e' /\ ts_tuples e' = ts_tuples e /\
      (forall datas, ts_room e datas -> ts_room e' datas) /\ ts_cursor e' hd (ts_tuples e);
  ts_next e hd todo : ts_ok e -> ts_cursor e hd todo ->
    exists hd' e', se_scan_next (hd, e) = (Ok (head todo), (hd', e')) /\ ts_ok e' /\
      ts_tuples e' = ts_tuples e /\ (forall datas, ts_room e datas -> ts_room e' datas) /\
      ts_cursor e' hd' (tail todo);
  ts_end e hd : ts_ok e -> exists hd' e', se_end_scan (hd, e) = (Ok tt, (hd', e')) /\ ts_ok e' /\
      ts_tuples e' = ts_tuples e /\ (forall datas, ts_room e datas -> ts_room e' datas);
  ts_insert e data datas : ts_ok e -> ts_room e (data :: datas) ->
    exists id e', se_insert_tuple data e = (Ok id, e') /\ ts_ok e' /\ ts_room e' datas /\
      ts_tuples e' ≡ₚ {| tup_id := id; tup_data := data |} :: ts_tuples e;
  ts_delete e tup : ts_ok e -> tup ∈ ts_tuples e ->
    exists e', se_delete_tuple (tup_id tup) e = (Ok tt, e') /\ ts_ok e' /\
      (forall datas, ts_room e datas -> ts_room e' datas) /\
      ts_tuples e ≡ₚ tup :: ts_tuples e';
}.

(** The configuration the engines of a database are opened with. *)
Class HeapConfig := heap_config : EngineConfig.

Section heap.
Context {S : Type} `{StorageIOLaws S} `{!HeapConfig}.
#[local] Abbreviation E := (HeapEngine S).
Implicit Types e : E.

(** The scan cursor keeps 32 bits of the page id. *)
Definition heap_store_ok e : Prop :=
  heap_ok e /\ Z.of_nat (length (heap_pages e)) < 2 ^ 32 /\ he_config e = heap_config.
Definition heap_room e (datas : list (list byte)) : Prop :=
  Forall (fun data => tuple_ok data /\ Z.of_nat (length data) <= max_tuple e) datas /\
  Z.of_nat (length (heap_pages e) + length datas) * Z.of_nat (heap_page_bytes e) <= io_limit /\
  Z.of_nat (length (heap_pages e) + length datas) < 2 ^ 32.
Definition heap_cursor e (hd : ScanHandle) (todo : list Tuple) : Prop :=
  exists page slot, hd = encode_cursor page slot /\ cursor_ok page slot /\
    remaining (heap_pages e) page slot = todo.

Lemma same_engine_config e e' : same_engine e e' -> he_config e = heap_config -> he_config e' = heap_config.
Proof using Type. by intros [-> _]. Qed.

Lemma all_tuples_nodup e : NoDup (all_tuples e).
Proof. eapply NoDup_fmap_1, NoDup_live_pages. Qed.

Lemma heap_lookup_tuple e tup : tup ∈ all_tuples e -> 0 <= t_page_id (tup_id tup) /\ 0 <= t_slot_idx (tup_id tup).
Proof.
  rewrite elem_of_all_tuples. unfold heap_lookup, pages_lookup_tuple.
  destruct (Z.leb_spec 0 (t_page_id (tup_id tup))); [|done].
  by destruct (Z.leb_spec 0 (t_slot_idx (tup_id tup))).
Qed.

(** Two engines whose maps differ in one entry differ in one tuple. *)
Lemma all_tuples_add e e' id data :
  heap_lookup e id = None ->
  (forall id', heap_lookup e' id' = if decide (id' = id) then Some data else heap_lookup e id') ->
  all_tuples e' ≡ₚ {| tup_id := id; tup_data := data |} :: all_tuples e.
Proof.
  intros Hnone Hall. apply NoDup_Permutation; [apply all_tuples_nodup| |].
  - apply NoDup_cons. split; [|apply all_tuples_nodup]. rewrite elem_of_all_tuples. cbn. by rewrite Hnone.
  - intros [id' d]. rewrite elem_of_cons, !elem_of_all_tuples. cbn. rewrite Hall. case_decide as Hd.
    + subst id'. rewrite Hnone. naive_solver.
    + naive_solver.
Qed.

Lemma scanned_step e hd' e' todo r :
  scanned e e' hd' todo r -> r = Ok (head todo) /\ heap_cursor e' hd' (tail todo).
Proof.
  intros (_ & _ & Hp & page & slot & -> & Hc & Hcase). unfold heap_cursor. rewrite Hp.
  destruct todo; destruct Hcase as [-> Hrem]; (split; [done|]); by exists page, slot.
Qed.

Lemma heap_insert_pages e t :
  heap_ok e -> tuple_ok t -> can_grow e -> Z.of_nat (length t) <= max_tuple e ->
  (length (heap_pages (heap_insert_tuple t e).2) <= length (heap_pages e) + 1)%nat.
Proof.
  intros Hok Ht Hg Hle. destruct (heap_insert_wp e t Hok Ht Hg) as (r & e' & -> & _ & _ & Hins). cbn.
  unfold inserted in Hins. destruct (first_fit t (heap_pages e)) as [[k pg]|].
  - destruct Hins as (_ & pg1 & pg2 & _ & -> & _). rewrite length_insert. lia.
  - destruct (Z.ltb_spec (max_tuple e) (Z.of_nat (length t))); [lia|].
    destruct Hins as (_ & pg & -> & _). rewrite length_app. cbn. lia.
Qed.

Lemma heap_room_same e e' datas :
  same_engine e e' -> length (heap_pages e') = length (heap_pages e) -> heap_room e datas -> heap_room e' datas.
Proof.
  intros Hs Hp (Hf & Hl & Hc). unfold heap_room, max_tuple in *. rewrite Hp, (same_engine_bytes _ _ Hs). done.
Qed.

(** An insertion uses up at most one page. *)
Lemma heap_room_insert e e' data datas :
  same_engine e e' -> (length (heap_pages e') <= length (heap_pages e) + 1)%nat ->
  heap_room e (data :: datas) -> heap_room e' datas.
Proof.
  intros Hs Hp (Hf & Hl & Hc). apply Forall_cons in Hf as [_ Hf]. unfold heap_room, max_tuple in *.
  rewrite (same_engine_bytes _ _ Hs). cbn [length] in *. split_and!; [done|nia|lia].
Qed.

Lemma heap_room_grow e data datas :
  heap_room e (data :: datas) -> tuple_ok data /\ can_grow e /\ Z.of_nat (length data) <= max_tuple e.
Proof.
  intros (Hf & Hl & Hc). apply Forall_cons in Hf as [[Ht Hm] _]. split_and!; [done| |done].
  unfold can_grow. cbn [length] in Hl. nia.
Qed.

#[export] Program Instance heap_tuple_store : TupleStore E := {
  ts_ok := heap_store_ok;
  ts_tuples := all_tuples;
  ts_room := heap_room;
  ts_cursor := heap_cursor;
}.
Next Obligation. intros. apply NoDup_live_pages. Qed.
Next Obligation.
  intros e (Hok & Hc & Hcfg). exists (encode_cursor 0 0), e. cbn [se_begin_scan heap_ops]. unfold heap_begin_scan.
  erewrite bind_ok by (by apply heap_check_open_ok). split_and!; try done.
  exists 0, 0. split_and!; [done|split; lia|by apply remaining_page_start].
Qed.
Next Obligation.
  intros e hd todo (Hok & Hc & Hcfg) (page & slot & -> & Hcur & <-).
  destruct (heap_scan_next_spec e page slot Hok Hc Hcur) as (r & hd' & e' & Hrun & Hsc).
  destruct (scanned_step _ _ _ _ _ Hsc) as [-> Hcur']. destruct Hsc as (Hok' & Hs & Hp & _).
  exists hd', e'. unfold heap_store_ok, all_tuples. rewrite Hp. split_and!; try done; [by eapply same_engine_config|].
  intros datas. apply heap_room_same; [done|by rewrite Hp].
Qed.
Next Obligation. intros e hd Hok. by exists (encode_cursor 0 0), e. Qed.
Next Obligation.
  intros e data datas (Hok & Hc & Hcfg) Hroom. destruct (heap_room_grow _ _ _ Hroom) as (Ht & Hg & Hle).
  pose proof (heap_insert_pages e data Hok Ht Hg Hle) as Hpages.
  destruct (insert_lookup e data Hok Ht Hg Hle) as (id & e' & Hrun & Hok' & Hs & _ & _ & Hnone & Hall).
  rewrite Hrun in Hpages. cbn in Hpages. exists id, e'. split; [done|].
  assert (Hroom' : heap_room e' datas) by (by eapply heap_room_insert).
  split; [split_and!; [done|destruct Hroom as (_ & _ & Hcap); cbn in Hcap; lia|by eapply same_engine_config]|]. split; [done|].
  by apply all_tuples_add.
Qed.
Next Obligation.
  intros e tup (Hok & Hc & Hcfg) Hin. destruct (heap_lookup_tuple e tup Hin) as [Hp Hs].
  destruct (delete_lookup e (tup_id tup) Hok Hp Hs) as (r & e' & Hrun & Hok' & Hse & Hlen & Hcase).
  apply elem_of_all_tuples in Hin as Hlk. rewrite Hlk in Hcase. destruct Hcase as [-> Hall].
  exists e'. split; [done|]. split; [split_and!; [done|by rewrite Hlen|by eapply same_engine_config]|].
  split; [intros datas; by apply heap_room_same|].
  destruct tup as [id data]. cbn [tup_id tup_data] in *. apply all_tuples_add.
  - by rewrite Hall, decide_True.
  - intros id'. rewrite Hall. case_decide; [by subst|done].
Qed.
End heap.
