(* ===== verification/Table.v ===== *)
(** * Table: src/src/catalog/table.{hpp,cpp}

    Typed rows over a storage engine.  The operations run in the state of the
    engine the table points to; they are verified against the engine's contract
    ([TupleStore]) and so hold for every engine that keeps it. *)
From S2P Require Import Prelude Utils TypeRegistry BuiltinTypes RowCodec RowCodecSpec StorageIO.
From S2P Require Import PageStore EvictionPolicy BufferPool HeapEngine HeapEngineSpec.
From S2P Require Import HeapEngineProps TupleStore.

Record TableSchema := { relation_oid : Z; table_name : string; table_columns : list ColumnSchema }.
Record TableRow := { row_id : TupleId; row_values : list Value }.

(** [storage] is whether the engine pointer is set. *)
Record Table := { storage : bool; table_schema : TableSchema; row_codec : RowCodec }.

Definition Table_new (registry : TypeRegistry) (schema : TableSchema) : Table :=
  {| storage := true; table_schema := schema; row_codec := RowCodec_new registry (table_columns schema) |}.

Section operations.
Context {E : Type} `{StorageEngine E}.

Definition table_insert (T : Table) (values : list Value) : M E TupleId :=
  if negb (storage T) then errM InvalidArgument
  else
    let* encoded := liftR (encode (row_codec T) values) in
    se_insert_tuple encoded.

(** The [while (true)] loop of [scan_rows]; each turn takes one tuple. *)
Fixpoint scan_rows_loop (fuel : nat) (T : Table) (rows : list TableRow) :
    M (ScanHandle * E) (list TableRow) :=
  match fuel with
  | O => faultM
  | S fuel =>
      let* next := se_scan_next in
      match next with
      | None => retM rows
      | Some tuple =>
          let* decoded := liftR (decode (row_codec T) (tup_data tuple)) in
          scan_rows_loop fuel T (rows ++ [{| row_id := tup_id tuple; row_values := decoded |}])
      end
  end.

(** Run the part of an operation that owns a scan handle. *)
Definition with_handle {A} (handle : ScanHandle) (m : M (ScanHandle * E) A) : M E A := fun e =>
  let '(r, (_, e')) := m (handle, e) in (r, e').

Definition scan_rows (fuel : nat) (T : Table) : M E (list TableRow) :=
  if negb (storage T) then errM InvalidArgument
  else
    let* handle := se_begin_scan in
    with_handle handle
      (let* rows := scan_rows_loop fuel T [] in
       let* _ := se_end_scan in
       retM rows).

Definition table_scan (fuel : nat) (T : Table) : M E (list (list Value)) :=
  let* rows := scan_rows fuel T in
  retM (row_values <$> rows).

Definition table_schema_of (T : Table) : TableSchema := table_schema T.
End operations.

(** ** The relation a table stores *)

Section specification.
Context {E : Type} `{TupleStore E}.
Implicit Types (e : E) (T : Table).

(** The rows of [T], in scan order: the decoded tuples of its engine. *)
Definition row_of T (tup : Tuple) (row : TableRow) : Prop :=
  row_id row = tup_id tup /\ decode (row_codec T) (tup_data tup) = Ok (row_values row).
Definition holds T e (rows : list TableRow) : Prop := Forall2 (row_of T) (ts_tuples e) rows.

Lemma holds_perm T (ts ts' : list Tuple) rows :
  ts ≡ₚ ts' -> Forall2 (row_of T) ts rows -> exists rows', Forall2 (row_of T) ts' rows' /\ rows' ≡ₚ rows.
Proof.
  intros Hp Hf. revert rows Hf.
  induction Hp as [|x l l' Hp IH|x y l|l1 l2 l3 _ IH1 _ IH2]; intros rows Hf.
  - inversion Hf; subst. by exists [].
  - inversion Hf as [|? r ? rs Hr Hrs]; subst. destruct (IH rs Hrs) as (rs' & Hrs' & Hp').
    exists (r :: rs'). split; [by constructor|]. by rewrite Hp'.
  - inversion Hf as [|? r1 ? rs1 Hr1 Hrs1]; subst. inversion Hrs1 as [|? r2 ? rs Hr2 Hrs]; subst.
    exists (r2 :: r1 :: rs). split; [by constructor; [|constructor]|]. by apply perm_swap.
  - destruct (IH1 rows Hf) as (r2 & Hf2 & Hp2). destruct (IH2 r2 Hf2) as (r3 & Hf3 & Hp3).
    exists r3. split; [done|]. by rewrite Hp3.
Qed.

Lemma scan_rows_loop_ok fuel T e hd todo rows acc :
  ts_ok e -> ts_cursor e hd todo -> Forall2 (row_of T) todo rows -> (length todo < fuel)%nat ->
  exists hd' e', scan_rows_loop fuel T acc (hd, e) = (Ok (acc ++ rows), (hd', e')) /\ ts_ok e' /\
    ts_tuples e' = ts_tuples e /\ forall datas, ts_room e datas -> ts_room e' datas.
Proof.
  revert e hd todo rows acc. induction fuel as [|fuel IH]; intros e hd todo rows acc Hok Hcur Hf Hfuel; [lia|].
  cbn [scan_rows_loop]. destruct (ts_next e hd todo Hok Hcur) as (hd1 & e1 & Hn & Hok1 & Ht1 & Hr1 & Hcur1).
  unfold bindM. rewrite Hn. destruct Hf as [|tup [rid vals] todo rows [Hid Hdec] Hf]; cbn [head tail] in *.
  - rewrite app_nil_r. by exists hd1, e1.
  - unfold liftR. cbn in Hid, Hdec. rewrite Hdec, <- Hid.
    destruct (IH e1 hd1 todo rows (acc ++ [{| row_id := rid; row_values := vals |}]) Hok1 Hcur1 Hf)
      as (hd2 & e2 & Hrun & Hok2 & Ht2 & Hr2); [cbn in Hfuel; lia|].
    exists hd2, e2. rewrite Hrun, <- app_assoc. split_and!; [done..|by rewrite Ht2|eauto].
Qed.

Lemma scan_rows_ok fuel T e rows :
  storage T = true -> ts_ok e -> holds T e rows -> (length rows < fuel)%nat ->
  exists e', scan_rows fuel T e = (Ok rows, e') /\ ts_ok e' /\ ts_tuples e' = ts_tuples e /\
    forall datas, ts_room e datas -> ts_room e' datas.
Proof.
  intros Hst Hok Hh Hfuel. unfold scan_rows. rewrite Hst. cbn [negb].
  destruct (ts_begin e Hok) as (hd & e1 & Hb & Hok1 & Ht1 & Hr1 & Hcur). unfold bindM at 1. rewrite Hb.
  destruct (scan_rows_loop_ok fuel T e1 hd (ts_tuples e) rows [] Hok1 Hcur Hh)
    as (hd2 & e2 & Hrun & Hok2 & Ht2 & Hr2).
  { by rewrite (Forall2_length _ _ _ Hh). }
  destruct (ts_end e2 hd2 Hok2) as (hd3 & e3 & Hend & Hok3 & Ht3 & Hr3).
  exists e3. unfold with_handle, bindM. rewrite Hrun, Hend. cbn [app retM].
  split_and!; [done|done|by rewrite Ht3, Ht2|eauto].
Qed.

Lemma row_of_functional T tup row row' : row_of T tup row -> row_of T tup row' -> row = row'.
Proof. destruct row, row'. unfold row_of. cbn. intros [-> ?] [-> ?]. congruence. Qed.

Lemma holds_ids T e rows : holds T e rows -> row_id <$> rows = tup_id <$> ts_tuples e.
Proof.
  unfold holds. intros Hh. induction Hh as [|t r ts rs [Hid _] _ IH]; [done|]. cbn. by rewrite Hid, IH.
Qed.

Lemma table_insert_ok T e rows vs datas :
  storage T = true -> codec_ok (row_codec T) -> row_ok (row_codec T) vs -> row_size vs < 2 ^ 32 ->
  ts_ok e -> holds T e rows -> (forall bs, encode (row_codec T) vs = Ok bs -> ts_room e (bs :: datas)) ->
  exists id e' rows', table_insert T vs e = (Ok id, e') /\ ts_ok e' /\ ts_room e' datas /\
    holds T e' rows' /\ (id ∉ row_id <$> rows) /\ rows' ≡ₚ {| row_id := id; row_values := stored <$> vs |} :: rows.
Proof.
  intros Hst Hc Hrow Hsize Hok Hh Hroom. unfold table_insert. rewrite Hst. cbn [negb]. unfold bindM, liftR.
  destruct (encode_layout _ _ Hc Hrow Hsize) as (bs & Henc & Hlay). specialize (Hroom bs Henc). rewrite Henc.
  destruct (ts_insert e bs datas Hok Hroom) as (id & e' & Hrun & Hok' & Hr' & Hp).
  assert (Hf : Forall2 (row_of T) ({| tup_id := id; tup_data := bs |} :: ts_tuples e)
    ({| row_id := id; row_values := stored <$> vs |} :: rows)).
  { constructor; [|done]. split; [done|]. by apply decode_layout. }
  symmetry in Hp. destruct (holds_perm T _ _ _ Hp Hf) as (rows' & Hrows' & Hpr).
  exists id, e', rows'. split_and!; try done.
  pose proof (ts_nodup e' Hok') as Hnd. rewrite <- Hp in Hnd. cbn in Hnd. apply NoDup_cons in Hnd as [Hni _].
  by rewrite (holds_ids T e).
Qed.

(** Deleting the tuple of a row removes that row. *)
Lemma table_delete_ok T e rows row :
  ts_ok e -> holds T e rows -> row ∈ rows ->
  exists e' rows', se_delete_tuple (row_id row) e = (Ok tt, e') /\ ts_ok e' /\ holds T e' rows' /\
    (forall datas, ts_room e datas -> ts_room e' datas) /\ rows ≡ₚ row :: rows'.
Proof.
  intros Hok Hh Hin. apply list_elem_of_lookup in Hin as (i & Hi).
  destruct (Forall2_lookup_r _ _ _ _ _ Hh Hi) as (tup & Htup & Hrow).
  destruct (ts_delete e tup Hok) as (e' & Hrun & Hok' & Hr' & Hp); [by eapply list_elem_of_lookup_2|].
  destruct (holds_perm T _ _ _ Hp Hh) as (rows1 & Hf & Hperm).
  inversion Hf as [|? row' ? rows' Hrow' Hf']; subst.
  rewrite (row_of_functional T tup row' row Hrow' Hrow) in Hperm.
  exists e', rows'. rewrite (proj1 Hrow). split_and!; try done.
Qed.
End specification.

(** C17: a scan of a table returns exactly the rows it holds, one per stored tuple
    and in the engine's order, and changes nothing; the loop ends after one turn
    per row and one more. *)
Theorem table_scan_returns_rows {E} `{TupleStore E} (fuel : nat) (T : Table) (e : E) (rows : list TableRow) :
  storage T = true -> ts_ok e -> holds T e rows -> (length rows < fuel)%nat ->
  exists e', table_scan fuel T e = (Ok (row_values <$> rows), e') /\ ts_ok e' /\ holds T e' rows.
Proof.
  intros Hst Hok Hh Hfuel. destruct (scan_rows_ok fuel T e rows Hst Hok Hh Hfuel) as (e' & Hrun & Hok' & Ht & _).
  exists e'. unfold table_scan, bindM, holds. rewrite Hrun, Ht. by split_and!.
Qed.

(** C16: inserting a row adds exactly that row.  A row that fits the schema, whose
    encoding the engine has room for, is added to the relation under the returned
    id, which was free; every other row stays.  A row that does not fit the
    schema is refused before the engine is touched. *)
Theorem table_insert_adds_row {E} `{TupleStore E} (T : Table) (e : E) (rows : list TableRow) (vs : list Value) :
  storage T = true -> codec_ok (row_codec T) -> sizeZ (schema (row_codec T)) < 2 ^ 32 ->
  row_size vs < 2 ^ 32 -> ts_ok e -> holds T e rows ->
  (forall bs, row_layout vs bs -> ts_room e [bs]) ->
  (row_ok (row_codec T) vs ->
    exists id e' rows', table_insert T vs e = (Ok id, e') /\ ts_ok e' /\ holds T e' rows' /\
      (id ∉ row_id <$> rows) /\ rows' ≡ₚ {| row_id := id; row_values := stored <$> vs |} :: rows) /\
  (~ row_ok (row_codec T) vs ->
    table_insert T vs e = (Err TypeNotFound, e) \/ table_insert T vs e = (Err InvalidArgument, e)).
Proof.
  intros Hst Hc Hcols Hsize Hok Hh Hroom. split.
  - intros Hrow. destruct (table_insert_ok T e rows vs []) as (id & e' & rows' & Hrun & Hok' & _ & Hrest); try done.
    { intros bs Hbs. destruct (encode_layout _ _ Hc Hrow Hsize) as (bs' & Henc & Hlay). apply Hroom. congruence. }
    by exists id, e', rows'.
  - intros Hbad. unfold table_insert, bindM, liftR. rewrite Hst. cbn [negb].
    destruct (encode_bad _ _ Hc Hcols Hbad) as [->| ->]; auto.
Qed.

(** ** Witnesses: the schema [id int32 not null, note text] on a heap of 96-byte pages *)

Definition example_table : Table :=
  {| storage := true;
     table_schema := {| relation_oid := 1; table_name := "notes"; table_columns := schema example_codec |};
     row_codec := example_codec |}.
Definition table_engine_config : EngineConfig :=
  {| ec_page_size := 96; buffer_pool_pages := 1; buffer_eviction := EvictionPolicyConfig_default |}.
#[local] Instance table_heap_config : HeapConfig := table_engine_config.
Definition table_engine : HeapEngine MemDev.t :=
  match open_engine 1 "notes" table_engine_config (empty_store 96) with
  | Ok e => e
  | _ => HeapEngine_new (empty_store 96)
  end.
Definition table_engine_one : HeapEngine MemDev.t :=
  (table_insert example_table (example_row x07 (Some [x68; x69])) table_engine).2.

Lemma table_engine_ok : heap_ok table_engine.
Proof.
  destruct (heap_open_spec (empty_store 96) table_engine_config) as (e & Ho & Hok & _).
  - split; [done|cbn; lia|done].
  - split; [done|]. by vm_compute.
  - apply Forall_nil. done.
  - done.
  - cbn. lia.
  - cbn. lia.
  - assert (Heq : open_engine 1 "notes" table_engine_config (empty_store 96) = Ok e) by exact Ho.
    unfold table_engine. by rewrite Heq.
Qed.

Lemma table_engine_one_ok : heap_ok table_engine_one.
Proof.
  unfold table_engine_one, table_insert. cbn [storage example_table negb]. unfold bindM, liftR.
  change (row_codec example_table) with example_codec.
  destruct (encode example_codec (example_row x07 (Some [x68; x69]))) as [bs| |] eqn:He; [|apply table_engine_ok..].
  vm_compute in He. injection He as <-. apply filled_step; [apply table_engine_ok|by run_example..].
Qed.

Lemma table_engine_one_holds :
  holds example_table table_engine_one
    [{| row_id := {| t_page_id := 0; t_slot_idx := 0 |}; row_values := example_row x07 (Some [x68; x69]) |}].
Proof.
  set (bs := match encode example_codec (example_row x07 (Some [x68; x69])) with Ok b => b | _ => [] end).
  assert (Ht : ts_tuples table_engine_one = [tuple_of 0 0 bs]) by (by vm_compute).
  unfold holds. rewrite Ht. constructor; [|done]. split; [done|]. by vm_compute.
Qed.

Lemma table_scan_returns_rows_witness :
  exists e', table_scan 2 example_table table_engine_one = (Ok [example_row x07 (Some [x68; x69])], e').
Proof.
  destruct (table_scan_returns_rows 2 example_table table_engine_one
    [{| row_id := {| t_page_id := 0; t_slot_idx := 0 |}; row_values := example_row x07 (Some [x68; x69]) |}])
    as (e' & Hrun & _ & _).
  - reflexivity.
  - split; [exact table_engine_one_ok|]. split; [by vm_compute|reflexivity].
  - exact table_engine_one_holds.
  - cbn. lia.
  - exists e'. exact Hrun.
Defined.

Lemma table_insert_adds_row_witness :
  exists id e' rows, table_insert example_table (example_row x01 None) table_engine_one = (Ok id, e') /\
    holds example_table e' rows /\ length rows = 2%nat.
Proof.
  destruct (table_insert_adds_row example_table table_engine_one
    [{| row_id := {| t_page_id := 0; t_slot_idx := 0 |}; row_values := example_row x07 (Some [x68; x69]) |}]
    (example_row x01 None)) as [Hgood _].
  - reflexivity.
  - exact example_codec_ok.
  - by vm_compute.
  - by vm_compute.
  - split; [exact table_engine_one_ok|]. split; [by vm_compute|reflexivity].
  - exact table_engine_one_holds.
  - intros bs Hlay. apply row_layout_size in Hlay.
    assert (Hl : length bs = 25%nat) by (unfold sizeZ in Hlay; vm_compute (row_size _) in Hlay; lia).
    assert (Hp : (length (heap_pages table_engine_one) <= 5)%nat) by run_example.
    assert (Hb : (heap_page_bytes table_engine_one <= 96)%nat) by run_example.
    assert (Hm : 25 <= max_tuple table_engine_one) by run_example.
    split; [constructor; [split; [unfold tuple_ok; lia|by rewrite Hl]|constructor]|].
    change io_limit with (2 ^ 62). cbn [length]. nia.
  - destruct (Hgood (example_row_ok _ _)) as (id & e' & rows & Hrun & _ & Hh & _ & Hperm).
    exists id, e', rows. split; [exact Hrun|]. split; [exact Hh|]. by rewrite Hperm.
Defined.
