(* ===== verification/Bundle.v ===== *)
(** * Bundle: src/src/catalog/catalog.{hpp,cpp}, [OpenedTableBundle]

    What the catalog keeps per open relation: a backend, a page store on it, an
    engine on the page store and a table on the engine.  The engine refers to
    the page store of the bundle and through it to the backend, so once there is
    an engine its state holds the two ([ef_world]).

    The backends come from a [RelationBackendFactory], which the catalog's user
    implements.  Two backends of one relation share its bytes.  The bytes belong
    to the factory's state: an operation of a bundle first loads them into the
    backend ([bf_load]) and stores them when it is done ([bf_store]). *)
From S2P Require Import Prelude Utils TypeRegistry RowCodec StorageIO.
From S2P Require Import RowCodecSpec PageStore EvictionPolicy BufferPool HeapEngine TupleStore Table.

(** [RelationBackendFactory]: [open_backend], and the bytes of the relation a
    backend works on. *)
Class BackendFactory (D S : Type) := {
  bf_open_backend : Z -> string -> M D S;
  bf_load : Z -> D -> S -> S;
  bf_store : Z -> S -> D -> D;
}.

(** [StorageEngineFactory]: [open_engine] on a page store.  [ef_world] is the page
    store (with its backend) an engine refers to. *)
Class EngineFactory (S E : Type) := {
  ef_open_engine : Z -> string -> EngineConfig -> StoreW S -> Result E * StoreW S;
  ef_world : E -> StoreW S;
  ef_set_world : StoreW S -> E -> E;
}.

(** [HeapStorageEngineFactory]: a failed [open] leaves the page store as the engine
    left it. *)
#[export] Instance heap_factory {S} `{StorageIO S} : EngineFactory S (HeapEngine S) := {
  ef_open_engine relation_oid relation_name config w :=
    (open_engine relation_oid relation_name config w,
     bp_world (buffer_pool (heap_open config (HeapEngine_new w)).2));
  ef_world e := bp_world (buffer_pool e);
  ef_set_world w e := set_pool (set_world w (buffer_pool e)) e;
}.

(** The members [backend], [page_store] and [engine].  [rel] is the relation the
    backend was opened for.
    - [Closed]: no backend and no engine;
    - [Attached]: a backend and no engine;
    - [Running]: an engine; [backed] is whether the backend pointer is set. *)
Inductive BundleStorage (S E : Type) :=
  | Closed (ps : PageStore)
  | Attached (rel : Z) (w : StoreW S)
  | Running (rel : Z) (e : E) (backed : bool).
Arguments Closed {S E} ps.
Arguments Attached {S E} rel w.
Arguments Running {S E} rel e backed.

Record OpenedTableBundle (S E : Type) := {
  bd_storage : BundleStorage S E;
  bd_table : option Table;
}.
Arguments bd_storage {S E}.
Arguments bd_table {S E}.
Arguments Build_OpenedTableBundle {S E}.

Definition Bundle_new {S E} : OpenedTableBundle S E :=
  {| bd_storage := Closed PageStore_default; bd_table := None |}.

Section operations.
Context {D S E : Type} `{BackendFactory D S} `{StorageIO S} `{StorageEngine E} `{EngineFactory S E}.
#[local] Abbreviation Bundle := (OpenedTableBundle S E).

(** The member [page_store]. *)
Definition bundle_pstore (b : Bundle) : PageStore :=
  match bd_storage b with
  | Closed ps => ps
  | Attached _ w => pstore w
  | Running _ e _ => pstore (ef_world e)
  end.

(** See what the relation holds now, and make what the backend holds visible. *)
Definition load_device (rel : Z) (d : D) (w : StoreW S) : StoreW S := set_device (bf_load rel d (device w)) w.
Definition bundle_load (b : Bundle) (d : D) : Bundle :=
  {| bd_storage :=
       match bd_storage b with
       | Closed ps => Closed ps
       | Attached rel w => Attached rel (load_device rel d w)
       | Running rel e backed =>
           if backed then Running rel (ef_set_world (load_device rel d (ef_world e)) e) true
           else Running rel e false
       end;
     bd_table := bd_table b |}.
Definition bundle_store (b : Bundle) (d : D) : D :=
  match bd_storage b with
  | Closed _ => d
  | Attached rel w => bf_store rel (device w) d
  | Running rel e backed => if backed then bf_store rel (device (ef_world e)) d else d
  end.
Definition with_bundle {A} (m : M Bundle A) : M (Bundle * D) A := fun '(b, d) =>
  let '(r, b') := m (bundle_load b d) in (r, (b', bundle_store b' d)).

(** [backend.reset()] after the page store became [w]; an engine of an earlier
    [open] stays and refers to the same page store. *)
Definition reset_backend (b : Bundle) (w : StoreW S) : Bundle :=
  {| bd_storage :=
       match bd_storage b with
       | Running rel e _ => Running rel (ef_set_world w e) false
       | _ => Closed (pstore w)
       end;
     bd_table := bd_table b |}.

Definition bundle_open (registry : TypeRegistry) (schema : TableSchema) (engine_config : EngineConfig) :
    M (Bundle * D) unit := fun '(b, d) =>
  let rel := relation_oid schema in
  match bf_open_backend rel (table_name schema) d with
  | (Err er, d1) => (Err er, (b, d1))
  | (Fault, d1) => (Fault, (b, d1))
  | (Ok backend, d1) =>
      match store_open {| cfg_page_size := ec_page_size engine_config |}
              {| pstore := bundle_pstore b; device := backend |} with
      | (Fault, w1) => (Fault, (b, d1))
      | (Err er, w1) => (Err er, (reset_backend b w1, d1))
      | (Ok _, w1) =>
          match ef_open_engine rel (table_name schema) engine_config w1 with
          | (Fault, w2) => (Fault, (b, d1))
          | (Err er, w2) =>
              match store_close w2 with
              | (Ok _, w3) => (Err er, (reset_backend b w3, bf_store rel (device w3) d1))
              | (r, w3) =>
                  (r, ({| bd_storage := match bd_storage b with
                                        | Running _ e _ => Running rel (ef_set_world w3 e) true
                                        | _ => Attached rel w3
                                        end;
                          bd_table := bd_table b |}, bf_store rel (device w3) d1))
              end
          | (Ok engine, _) =>
              (Ok tt, ({| bd_storage := Running rel engine true;
                          bd_table := Some (Table_new registry schema) |},
                       bf_store rel (device (ef_world engine)) d1))
          end
      end
  end.

(** [close]: table, engine, page store, backend; it stops at the first failure. *)
Definition close_engine (s : BundleStorage S E) : Result unit * BundleStorage S E :=
  match s with
  | Running rel e backed =>
      match se_close e with
      | (Ok _, e') => (Ok tt, if backed then Attached rel (ef_world e') else Closed (pstore (ef_world e')))
      | (r, e') => (r, Running rel e' backed)
      end
  | _ => (Ok tt, s)
  end.

Definition close_storage (s : BundleStorage S E) (d : D) : Result unit * (BundleStorage S E * D) :=
  match s with
  | Running _ _ _ => (Ok tt, (s, d))
  | Closed ps => (Ok tt, (Closed {| ps_io := false; ps_config := ps_config ps |}, d))
  | Attached rel w =>
      match store_close w with
      | (Ok _, w1) =>
          match on_device io_close w1 with
          | (Ok _, w2) => (Ok tt, (Closed (pstore w2), bf_store rel (device w2) d))
          | (r, w2) => (r, (Attached rel w2, bf_store rel (device w2) d))
          end
      | (r, w1) => (r, (Attached rel w1, bf_store rel (device w1) d))
      end
  end.

Definition bundle_close : M (Bundle * D) unit := fun '(b, d) =>
  match close_engine (bd_storage (bundle_load b d)) with
  | (Ok _, s1) =>
      let '(r, (s2, d2)) := close_storage s1 d in
      (r, ({| bd_storage := s2; bd_table := None |}, d2))
  | (r, s1) =>
      let b1 := {| bd_storage := s1; bd_table := None |} in (r, (b1, bundle_store b1 d))
  end.

(** [bundle.table->f(...)] and [bundle.engine->f(...)]; a null pointer faults. *)
Definition on_table {A} (f : Table -> M E A) : M Bundle A := fun b =>
  match bd_table b, bd_storage b with
  | Some T, Running rel e backed =>
      let '(r, e') := f T e in (r, {| bd_storage := Running rel e' backed; bd_table := Some T |})
  | _, _ => (Fault, b)
  end.
Definition on_bundle_engine {A} (m : M E A) : M Bundle A := fun b =>
  match bd_storage b with
  | Running rel e backed =>
      let '(r, e') := m e in (r, {| bd_storage := Running rel e' backed; bd_table := bd_table b |})
  | _ => (Fault, b)
  end.
End operations.

(** An in-memory factory: a relation's bytes, kept by oid. *)
Definition MemFiles : Type := gmap Z (list byte).
#[export] Instance mem_files : BackendFactory MemFiles MemDev.t := {
  bf_open_backend rel _ files :=
    (Ok {| MemDev.bytes := default [] (files !! rel); MemDev.faults := [] |}, files);
  bf_load rel files dev := {| MemDev.bytes := default [] (files !! rel); MemDev.faults := MemDev.faults dev |};
  bf_store rel dev files := <[rel := MemDev.bytes dev]> files;
}.

(** ** The relation of an open bundle *)

Section specification.
Context {S E : Type} `{TupleStore E}.
#[local] Abbreviation Bundle := (OpenedTableBundle S E).
Implicit Types (b : Bundle) (e : E).

(** An open bundle for [schema] whose table holds [rows]. *)
Definition bundle_holds (types : TypeRegistry) b (schema : TableSchema) (rows : list TableRow) : Prop :=
  exists e, bd_storage b = Running (relation_oid schema) e true /\
    bd_table b = Some (Table_new types schema) /\ ts_ok e /\ holds (Table_new types schema) e rows.

(** The bytes of [vss] in the table's format; the engine can take these rows, one
    after the other. *)
Definition encodes (T : Table) (vss : list (list Value)) (datas : list (list byte)) : Prop :=
  Forall2 (fun vs bs => encode (row_codec T) vs = Ok bs) vss datas.
Definition bundle_takes b (vss : list (list Value)) : Prop :=
  match bd_storage b, bd_table b with
  | Running _ e _, Some T => forall datas, encodes T vss datas -> ts_room e datas
  | _, _ => False
  end.
(** [b'] can take whatever [b] could. *)
Definition bundle_keeps_room b b' : Prop := forall vss, bundle_takes b vss -> bundle_takes b' vss.

(** The bundle determines its table and its rows. *)
Lemma bundle_holds_functional types b schema schema' rows rows' :
  bundle_holds types b schema rows -> bundle_holds types b schema' rows' -> schema = schema' /\ rows = rows'.
Proof.
  intros (e & Hs & HT & _ & Hh) (e' & Hs' & HT' & _ & Hh'). rewrite Hs in Hs'. injection Hs' as _ <-.
  rewrite HT in HT'. injection HT' as <- _. split; [done|]. unfold holds in *. clear -Hh Hh'. revert rows' Hh'.
  induction Hh as [|tup row ts rows Hrow _ IH]; intros rows' Hh'; inversion Hh'; subst; [done|].
  f_equal; [by eapply row_of_functional|auto].
Qed.

Lemma bundle_scan types b schema rows fuel :
  bundle_holds types b schema rows -> (length rows < fuel)%nat ->
  exists b', on_table (scan_rows fuel) b = (Ok rows, b') /\ bundle_holds types b' schema rows /\
    bundle_keeps_room b b'.
Proof.
  intros (e & Hs & HT & Hok & Hh) Hfuel.
  destruct (scan_rows_ok fuel (Table_new types schema) e rows eq_refl Hok Hh Hfuel) as (e' & Hrun & Hok' & Ht & Hr).
  unfold on_table. rewrite Hs, HT, Hrun. eexists. split; [done|]. split.
  - exists e'. split_and!; try done. unfold holds. by rewrite Ht.
  - intros vss. unfold bundle_takes. rewrite Hs, HT. cbn. eauto.
Qed.

Lemma bundle_insert types b schema rows vs rest :
  bundle_holds types b schema rows -> codec_ok (RowCodec_new types (table_columns schema)) ->
  row_ok (RowCodec_new types (table_columns schema)) vs -> row_size vs < 2 ^ 32 ->
  bundle_takes b (vs :: rest) -> Forall (fun vs => exists bs, encode (RowCodec_new types (table_columns schema)) vs = Ok bs) rest ->
  exists id b' rows', on_table (fun T => table_insert T vs) b = (Ok id, b') /\
    bundle_holds types b' schema rows' /\ bundle_takes b' rest /\ (id ∉ row_id <$> rows) /\
    rows' ≡ₚ {| row_id := id; row_values := stored <$> vs |} :: rows.
Proof.
  intros (e & Hs & HT & Hok & Hh) Hc Hrow Hsize Htk Hrest. unfold bundle_takes in Htk. rewrite Hs, HT in Htk.
  assert (Hall : exists datas, encodes (Table_new types schema) rest datas).
  { clear -Hrest. induction Hrest as [|vs' rest (bs & Hbs) _ (datas & IH)]; [exists []; constructor|].
    exists (bs :: datas). by constructor. }
  destruct Hall as (datas & Hdatas).
  destruct (table_insert_ok (Table_new types schema) e rows vs datas)
    as (id & e' & rows' & Hrun & Hok' & Hroom & Hh' & Hid & Hp); try done.
  { intros bs Hbs. apply Htk. by constructor. }
  unfold on_table. rewrite Hs, HT, Hrun. exists id. eexists. exists rows'. split; [done|]. split; [by exists e'|]. split; [|done].
  unfold bundle_takes. cbn [bd_storage bd_table]. intros datas' Hdatas'.
  replace datas' with datas; [done|]. clear -Hdatas Hdatas'. unfold encodes in *. revert datas' Hdatas'.
  induction Hdatas as [|v d vs ds Hd _ IH]; intros datas' Hd'; inversion Hd'; subst; [done|]. f_equal; [congruence|auto].
Qed.

Lemma bundle_delete types b schema rows row :
  bundle_holds types b schema rows -> row ∈ rows ->
  exists b' rows', on_bundle_engine (se_delete_tuple (row_id row)) b = (Ok tt, b') /\
    bundle_holds types b' schema rows' /\ bundle_keeps_room b b' /\ rows ≡ₚ row :: rows'.
Proof.
  intros (e & Hs & HT & Hok & Hh) Hin.
  destruct (table_delete_ok _ e rows row Hok Hh Hin) as (e' & rows' & Hrun & Hok' & Hh' & Hr & Hp).
  unfold on_bundle_engine. rewrite Hs, Hrun. eexists _, rows'. split; [done|]. split_and!; [by exists e'| |done].
  intros vss. unfold bundle_takes. rewrite Hs, HT. cbn. eauto.
Qed.
End specification.

(** ** Relations that share their bytes *)

(** What the catalog relies on: the backend sees the bytes that were stored last
    for its relation; opening a backend changes no relation and depends on no
    other relation. *)
Class RelationFiles (D S E : Type) `{BackendFactory D S} `{EngineFactory S E} := {
  rf_load_store rel s d : bf_load rel (bf_store rel s d) s = s;
  rf_load_other rel rel' s s' d : rel <> rel' -> bf_load rel (bf_store rel' s' d) s = bf_load rel d s;
  rf_open rel name d s d' rel' s' :
    bf_open_backend rel name d = (Ok s, d') -> bf_load rel' d' s' = bf_load rel' d s';
  rf_open_other rel name rel' s d : rel <> rel' ->
    bf_open_backend rel name (bf_store rel' s d) =
      ((bf_open_backend rel name d).1, bf_store rel' s (bf_open_backend rel name d).2);
  rf_open_open rel name d s d' rel' name' : rel' <> rel -> bf_open_backend rel name d = (Ok s, d') ->
    (bf_open_backend rel' name' d').1 = (bf_open_backend rel' name' d).1;
  rf_world e : ef_set_world (ef_world e) e = e;
}.

#[export] Program Instance mem_relation_files :
  RelationFiles MemFiles MemDev.t (HeapEngine MemDev.t).
Next Obligation.
  intros rel [bs fs] d. cbn [bf_load bf_store mem_files MemDev.faults]. by rewrite (lookup_insert_eq d).
Qed.
Next Obligation.
  intros rel rel' s s' d Hne. cbn [bf_load bf_store mem_files]. by rewrite (lookup_insert_ne d).
Qed.
Next Obligation. intros rel name d s d' rel' s' [= <- <-]. done. Qed.
Next Obligation.
  intros rel name rel' s d Hne. cbn [bf_open_backend bf_store mem_files fst snd].
  by rewrite (lookup_insert_ne d).
Qed.
Next Obligation. intros rel name d s d' rel' name' _ [= <- <-]. done. Qed.
Next Obligation. by intros [? ? [] ?]. Qed.

Section files.
Context {D S E : Type} `{RelationFiles D S E}.
#[local] Abbreviation Bundle := (OpenedTableBundle S E).
Implicit Types (b : Bundle) (d : D).

(** The backend of [b] shows the bytes of its relation. *)
Definition synced b d : Prop := bundle_load b d = b.
Definition runs_on b (rel : Z) : Prop := exists e, bd_storage b = Running rel e true.

Lemma set_device_id (w : StoreW S) : set_device (device w) w = w.
Proof. by destruct w. Qed.

Lemma synced_iff b d rel e :
  bd_storage b = Running rel e true ->
  bf_load rel d (device (ef_world e)) = device (ef_world e) -> synced b d.
Proof using All.
  intros Hs Hl. unfold synced, bundle_load, load_device. rewrite Hs, Hl, set_device_id, rf_world.
  by destruct b; cbn in *; subst.
Qed.

Lemma synced_store b d rel : runs_on b rel -> synced b (bundle_store b d).
Proof using All.
  intros (e & Hs). eapply synced_iff; [exact Hs|]. unfold bundle_store. rewrite Hs. apply rf_load_store.
Qed.

(** A change of the relations that [b]'s does not see keeps [b] in step. *)
Lemma synced_same b d d' rel :
  runs_on b rel -> (forall s, bf_load rel d' s = bf_load rel d s) -> synced b d -> synced b d'.
Proof using All.
  intros (e & Hs) Hl. unfold synced, bundle_load. rewrite Hs. unfold load_device. by rewrite Hl.
Qed.

Lemma synced_other b b' d rel rel' :
  runs_on b rel -> runs_on b' rel' -> rel <> rel' -> synced b d -> synced b (bundle_store b' d).
Proof using All.
  intros Hb (e' & Hs') Hne. eapply synced_same; [exact Hb|]. intros s. unfold bundle_store. rewrite Hs'.
  by apply rf_load_other.
Qed.

Lemma with_bundle_ok {A} (m : M Bundle A) b d r b' :
  synced b d -> m b = (r, b') -> with_bundle m (b, d) = (r, (b', bundle_store b' d)).
Proof. intros Hs Hm. unfold with_bundle. by rewrite Hs, Hm. Qed.
End files.
