(* ===== verification/Catalog.v ===== *)
(** * Catalog: src/src/catalog/catalog.{hpp,cpp}

    The system tables edb_type, edb_class, edb_attribute and edb_index, the open
    user tables and the caches.  The recursive mutex makes every operation atomic.
    A [Table*] that [open_table] returns is the oid under which the catalog keeps
    the table's bundle.  [fuel] bounds the loop of each table scan, and faults
    when it is used up. *)
From stdpp Require Import sorting.
From S2P Require Import Prelude Utils TypeRegistry BuiltinTypes RowCodec StorageIO PageStore.
From S2P Require Import EvictionPolicy BufferPool HeapEngine Table Bundle.

Record CatalogType := { ct_oid : Z; ct_name : string; ct_fixed_size : option Z }.
Record CatalogClass := { cc_oid : Z; cc_name : string; relkind : string }.
Record CatalogAttribute := {
  ca_relation_oid : Z;
  attnum : Z;
  ca_name : string;
  ca_type_oid : Z;
  ca_nullable : bool;
}.
Record CreateTableSpec := { spec_name : string; spec_columns : list ColumnSchema }.

Definition TYPE_RELATION_OID : Z := 1.
Definition CLASS_RELATION_OID : Z := 2.
Definition ATTRIBUTE_RELATION_OID : Z := 3.
Definition INDEX_RELATION_OID : Z := 4.
Definition RELKIND_SYSTEM : string := "system".
Definition RELKIND_TABLE : string := "table".
Definition RELKIND_INDEX : string := "index".

Definition fixed_size_to_catalog_length (fixed_size : option Z) : Z :=
  match fixed_size with None => -1 | Some n => prim_cast I32 n end.
Definition catalog_length_to_fixed_size (length : Z) : option Z :=
  if length <? 0 then None else Some (prim_cast U64 length).

(** [compare_attnum] is the strict order; [std::ranges::sort] sorts by it.  The
    order of equal elements is not specified; this is the one a stable sort
    leaves. *)
Definition attnum_le (lhs rhs : CatalogAttribute) : Prop := attnum lhs <= attnum rhs.
#[export] Instance attnum_le_dec lhs rhs : Decision (attnum_le lhs rhs) := Z_le_dec _ _.
Definition sort_by_attnum (attributes : list CatalogAttribute) : list CatalogAttribute :=
  merge_sort attnum_le attributes.

(** ** Values of the system tables *)

Section values.
Context (types : TypeRegistry).

Definition make_int32_value (value : Z) : Result Value :=
  let? type := lookup_name types "int32" in
  let? bytes := from_text type (to_string_int value) in
  Ok {| v_type_oid := oid type; v_bytes := bytes; is_null := false |}.

Definition make_text_value (text : string) : Result Value :=
  let? type := lookup_name types "text" in
  let? bytes := from_text type text in
  Ok {| v_type_oid := oid type; v_bytes := bytes; is_null := false |}.

Definition make_bool_value (value : bool) : Result Value :=
  let? type := lookup_name types "bool" in
  let? bytes := from_text type (if value then "true" else "false") in
  Ok {| v_type_oid := oid type; v_bytes := bytes; is_null := false |}.

(** [types->lookup(value.type_oid)], its error replaced. *)
Definition value_type (value : Value) : Result Type_ :=
  match lookup_oid types (v_type_oid value) with
  | Err _ => Err TypeNotFound
  | r => r
  end.

(** [std::stoi] converts the longest decimal prefix and throws when there is none
    or it does not fit an [int]. *)
Definition parse_i32 (value : Value) : Result Z :=
  let? type := value_type value in
  match extract_signed I32 (c_str (String.list_byte_of_string (to_text type (v_bytes value)))) with
  | Some (parsed, _) => Ok parsed
  | None => Err Corruption
  end.

Definition parse_text (value : Value) : Result string :=
  let? type := value_type value in
  Ok (to_text type (v_bytes value)).

Definition parse_bool (value : Value) : Result bool :=
  let? type := value_type value in
  let text := to_text type (v_bytes value) in
  if String.eqb text "true" then Ok true
  else if String.eqb text "false" then Ok false
  else Err Corruption.

(** [auto a = f(); auto b = g(); ...; if (!a || !b || ...) return er;] *)
Definition checked {A} (er : Error) (r : Result A) : Result A :=
  match r with Err _ => Err er | r => r end.
Fixpoint collect (rs : list (Result Value)) : Result (list Value) :=
  match rs with
  | [] => Ok []
  | Fault :: _ => Fault
  | Err er :: rest => let? _ := collect rest in Err er
  | Ok v :: rest => let? vs := collect rest in Ok (v :: vs)
  end.
Definition make_row (rs : list (Result Value)) : Result (list Value) :=
  checked TypeNotFound (collect rs).

(** Both operands are evaluated before either is looked at. *)
Definition both {A B} (ra : Result A) (rb : Result B) : Result (A * B) :=
  match ra, rb with
  | Ok a, Ok b => Ok (a, b)
  | Fault, _ | _, Fault => Fault
  | Err er, _ | _, Err er => Err er
  end.

Definition decode_type (row : TableRow) : Result CatalogType :=
  match row_values row with
  | [v0; v1; v2] =>
      let? fields := checked Corruption (both (parse_i32 v0) (both (parse_text v1) (parse_i32 v2))) in
      let '(oid, (name, length)) := fields in
      if oid <? 0 then Err Corruption
      else Ok {| ct_oid := prim_cast U32 oid; ct_name := name;
                 ct_fixed_size := catalog_length_to_fixed_size length |}
  | _ => Err Corruption
  end.

Definition decode_class (row : TableRow) : Result CatalogClass :=
  match row_values row with
  | [v0; v1; v2] =>
      let? fields := checked Corruption (both (parse_i32 v0) (both (parse_text v1) (parse_text v2))) in
      let '(oid, (name, kind)) := fields in
      if oid <? 0 then Err Corruption
      else Ok {| cc_oid := prim_cast U32 oid; cc_name := name; relkind := kind |}
  | _ => Err Corruption
  end.

Definition decode_attribute (row : TableRow) : Result CatalogAttribute :=
  match row_values row with
  | [v0; v1; v2; v3; v4] =>
      let? fields := checked Corruption
        (both (parse_i32 v0) (both (parse_i32 v1) (both (parse_text v2)
          (both (parse_i32 v3) (parse_bool v4))))) in
      let '(relid, (num, (name, (type_oid, is_nullable)))) := fields in
      if (relid <? 0) || (num <? 0) || (type_oid <? 0) then Err Corruption
      else Ok {| ca_relation_oid := prim_cast U32 relid; attnum := prim_cast U32 num;
                 ca_name := name; ca_type_oid := prim_cast U32 type_oid; ca_nullable := is_nullable |}
  | _ => Err Corruption
  end.

(** The rows written for a class and for one of its columns. *)
Definition class_values (oid : Z) (name kind : string) : Result (list Value) :=
  make_row [make_int32_value (prim_cast I32 oid); make_text_value name; make_text_value kind].
Definition attribute_values (relation_oid index : Z) (column : ColumnSchema) : Result (list Value) :=
  make_row [make_int32_value (prim_cast I32 relation_oid);
            make_int32_value (prim_cast I32 (wrap64 (index + 1)));
            make_text_value (col_name column);
            make_int32_value (prim_cast I32 (col_type_oid column));
            make_bool_value (nullable column)].

(** The loops over scanned rows: a row that does not decode ends the loop. *)
Fixpoint decode_rows {A} (decode : TableRow -> Result A) (rows : list TableRow) : Result (list (TableRow * A)) :=
  match rows with
  | [] => Ok []
  | row :: rest =>
      let? decoded := decode row in
      let? more := decode_rows decode rest in
      Ok ((row, decoded) :: more)
  end.
Fixpoint find_row {A} (decode : TableRow -> Result A) (wanted : A -> bool) (rows : list TableRow) :
    Result (option (TableRow * A)) :=
  match rows with
  | [] => Ok None
  | row :: rest =>
      let? decoded := decode row in
      if wanted decoded then Ok (Some (row, decoded)) else find_row decode wanted rest
  end.

Definition max_class_oid (rows : list TableRow) : Result Z :=
  let? decoded := decode_rows decode_class rows in
  Ok (foldl (fun max_oid rc => if max_oid <? cc_oid rc.2 then cc_oid rc.2 else max_oid) 0 decoded).
End values.

(** ** The catalog *)

Record Catalog (D S E : Type) := {
  cat_types : TypeRegistry;
  backends : D;
  cat_config : EngineConfig;
  cat_opened : bool;
  type_table : OpenedTableBundle S E;
  class_table : OpenedTableBundle S E;
  attribute_table : OpenedTableBundle S E;
  index_table : OpenedTableBundle S E;
  user_tables : gmap Z (OpenedTableBundle S E);
  type_cache_by_name : gmap string CatalogType;
  class_cache_by_name : gmap string CatalogClass;
  attribute_cache_by_relid : gmap Z (list CatalogAttribute);
}.
Arguments cat_types {D S E}.
Arguments backends {D S E}.
Arguments cat_config {D S E}.
Arguments cat_opened {D S E}.
Arguments type_table {D S E}.
Arguments class_table {D S E}.
Arguments attribute_table {D S E}.
Arguments index_table {D S E}.
Arguments user_tables {D S E}.
Arguments type_cache_by_name {D S E}.
Arguments class_cache_by_name {D S E}.
Arguments attribute_cache_by_relid {D S E}.
Arguments Build_Catalog {D S E}.

Definition Catalog_new {D S E} (registry : TypeRegistry) (backend_factory : D)
    (engine_config : EngineConfig) : Catalog D S E :=
  {| cat_types := registry; backends := backend_factory; cat_config := engine_config;
     cat_opened := false; type_table := Bundle_new; class_table := Bundle_new;
     attribute_table := Bundle_new; index_table := Bundle_new; user_tables := ∅;
     type_cache_by_name := ∅; class_cache_by_name := ∅; attribute_cache_by_relid := ∅ |}.

(** The four system tables, to name one of them. *)
Inductive SystemTable := TypeTable | ClassTable | AttributeTable | IndexTable.

Section fields.
Context {D S E : Type} `{BackendFactory D S} `{EngineFactory S E}.
#[local] Abbreviation Cat := (Catalog D S E).
#[local] Abbreviation Bundle := (OpenedTableBundle S E).

Definition system_table (which : SystemTable) (c : Cat) : Bundle :=
  match which with
  | TypeTable => type_table c
  | ClassTable => class_table c
  | AttributeTable => attribute_table c
  | IndexTable => index_table c
  end.
Definition set_system_table (which : SystemTable) (b : Bundle) (c : Cat) : Cat :=
  {| cat_types := cat_types c; backends := backends c; cat_config := cat_config c;
     cat_opened := cat_opened c;
     type_table := match which with TypeTable => b | _ => type_table c end;
     class_table := match which with ClassTable => b | _ => class_table c end;
     attribute_table := match which with AttributeTable => b | _ => attribute_table c end;
     index_table := match which with IndexTable => b | _ => index_table c end;
     user_tables := user_tables c; type_cache_by_name := type_cache_by_name c;
     class_cache_by_name := class_cache_by_name c;
     attribute_cache_by_relid := attribute_cache_by_relid c |}.
Definition set_backends (d : D) (c : Cat) : Cat :=
  {| cat_types := cat_types c; backends := d; cat_config := cat_config c; cat_opened := cat_opened c;
     type_table := type_table c; class_table := class_table c; attribute_table := attribute_table c;
     index_table := index_table c; user_tables := user_tables c;
     type_cache_by_name := type_cache_by_name c; class_cache_by_name := class_cache_by_name c;
     attribute_cache_by_relid := attribute_cache_by_relid c |}.
Definition set_opened (o : bool) (c : Cat) : Cat :=
  {| cat_types := cat_types c; backends := backends c; cat_config := cat_config c; cat_opened := o;
     type_table := type_table c; class_table := class_table c; attribute_table := attribute_table c;
     index_table := index_table c; user_tables := user_tables c;
     type_cache_by_name := type_cache_by_name c; class_cache_by_name := class_cache_by_name c;
     attribute_cache_by_relid := attribute_cache_by_relid c |}.
Definition set_user_tables (u : gmap Z Bundle) (c : Cat) : Cat :=
  {| cat_types := cat_types c; backends := backends c; cat_config := cat_config c;
     cat_opened := cat_opened c;
     type_table := type_table c; class_table := class_table c; attribute_table := attribute_table c;
     index_table := index_table c; user_tables := u;
     type_cache_by_name := type_cache_by_name c; class_cache_by_name := class_cache_by_name c;
     attribute_cache_by_relid := attribute_cache_by_relid c |}.
Definition set_caches (tc : gmap string CatalogType) (cc : gmap string CatalogClass)
    (ac : gmap Z (list CatalogAttribute)) (c : Cat) : Cat :=
  {| cat_types := cat_types c; backends := backends c; cat_config := cat_config c;
     cat_opened := cat_opened c;
     type_table := type_table c; class_table := class_table c; attribute_table := attribute_table c;
     index_table := index_table c; user_tables := user_tables c;
     type_cache_by_name := tc; class_cache_by_name := cc; attribute_cache_by_relid := ac |}.

Definition invalidate_type_cache (c : Cat) : Cat :=
  set_caches ∅ (class_cache_by_name c) (attribute_cache_by_relid c) c.
Definition invalidate_class_cache (class_oid : Z) (class_name : string) (c : Cat) : Cat :=
  set_caches (type_cache_by_name c) (delete class_name (class_cache_by_name c))
    (delete class_oid (attribute_cache_by_relid c)) c.

(** Run an operation of a bundle that also uses the backend factory. *)
Definition on_system_bundle {A} (which : SystemTable) (m : M (Bundle * D) A) : M Cat A := fun c =>
  let '(r, (b, d)) := m (system_table which c, backends c) in
  (r, set_backends d (set_system_table which b c)).
Definition on_system {A} (which : SystemTable) (m : M Bundle A) : M Cat A :=
  on_system_bundle which (with_bundle m).
(** Follow the [Table*] of a user table; a table that was dropped is dangling. *)
Definition on_user_table {A} (ref : Z) (m : M Bundle A) : M Cat A := fun c =>
  match user_tables c !! ref with
  | Some b =>
      let '(r, (b', d)) := with_bundle m (b, backends c) in
      (r, set_backends d (set_user_tables (<[ref := b']> (user_tables c)) c))
  | None => (Fault, c)
  end.
End fields.

Section operations.
Context {D S E : Type} `{BackendFactory D S} `{StorageIO S} `{StorageEngine E} `{EngineFactory S E}.
Context (fuel : nat).
#[local] Abbreviation Cat := (Catalog D S E).

(** ** Opening, bootstrapping and closing *)

Definition check_open : M Cat unit := fun c =>
  if negb (cat_opened c) then (Err InvalidArgument, c) else (Ok tt, c).

Definition system_column (t : Type_) (name : string) : ColumnSchema :=
  {| col_name := name; col_type_oid := oid t; nullable := false |}.
Definition type_schema (int32_type text_type : Type_) : TableSchema :=
  {| relation_oid := TYPE_RELATION_OID; table_name := "edb_type";
     table_columns := [system_column int32_type "oid"; system_column text_type "name";
                       system_column int32_type "typlen"] |}.
Definition class_schema (int32_type text_type : Type_) : TableSchema :=
  {| relation_oid := CLASS_RELATION_OID; table_name := "edb_class";
     table_columns := [system_column int32_type "oid"; system_column text_type "name";
                       system_column text_type "relkind"] |}.
Definition attribute_schema (int32_type text_type bool_type : Type_) : TableSchema :=
  {| relation_oid := ATTRIBUTE_RELATION_OID; table_name := "edb_attribute";
     table_columns := [system_column int32_type "attrelid"; system_column int32_type "attnum";
                       system_column text_type "name"; system_column int32_type "type_oid";
                       system_column bool_type "nullable"] |}.
Definition index_schema (int32_type text_type : Type_) : TableSchema :=
  {| relation_oid := INDEX_RELATION_OID; table_name := "edb_index";
     table_columns := [system_column int32_type "oid"; system_column int32_type "indrelid";
                       system_column text_type "am_name"] |}.

Definition open_system (which : SystemTable) (schema : TableSchema) : M Cat unit :=
  let* types := getM cat_types in
  let* config := getM cat_config in
  on_system_bundle which (bundle_open types schema config).

Definition open_system_tables : M Cat unit :=
  let* types := getM cat_types in
  let* found := liftR (checked TypeNotFound
    (both (lookup_name types "int32") (both (lookup_name types "text") (lookup_name types "bool")))) in
  let '(int32_type, (text_type, bool_type)) := found in
  let* _ := open_system TypeTable (type_schema int32_type text_type) in
  let* _ := open_system ClassTable (class_schema int32_type text_type) in
  let* _ := open_system AttributeTable (attribute_schema int32_type text_type bool_type) in
  open_system IndexTable (index_schema int32_type text_type).

(** [x_table.table->scan_rows()] and [x_table.table->insert(values)]. *)
Definition system_scan (which : SystemTable) : M Cat (list TableRow) :=
  on_system which (on_table (scan_rows fuel)).
Definition system_insert (which : SystemTable) (values : list Value) : M Cat TupleId :=
  on_system which (on_table (fun T => table_insert T values)).

Fixpoint bootstrap_type_rows (names : list string) : M Cat unit :=
  match names with
  | [] => retM tt
  | name :: rest =>
      let* types := getM cat_types in
      let* builtin := liftR (lookup_name types name) in
      let* values := liftR (make_row
        [make_int32_value types (prim_cast I32 (oid builtin)); make_text_value types (type_name builtin);
         make_int32_value types (fixed_size_to_catalog_length (fixed_size builtin))]) in
      let* _ := system_insert TypeTable values in
      bootstrap_type_rows rest
  end.
Definition bootstrap_types : M Cat unit :=
  bootstrap_type_rows ["int32"; "int64"; "float64"; "bool"; "text"].

Fixpoint bootstrap_class_rows (rows : list (Z * string)) : M Cat unit :=
  match rows with
  | [] => retM tt
  | (oid_value, name) :: rest =>
      let* types := getM cat_types in
      let* values := liftR (class_values types oid_value name
        (if String.eqb name "edb_index" then RELKIND_INDEX else RELKIND_SYSTEM)) in
      let* _ := system_insert ClassTable values in
      bootstrap_class_rows rest
  end.
Definition bootstrap_classes : M Cat unit :=
  bootstrap_class_rows [(TYPE_RELATION_OID, "edb_type"); (CLASS_RELATION_OID, "edb_class");
                        (ATTRIBUTE_RELATION_OID, "edb_attribute"); (INDEX_RELATION_OID, "edb_index")].

(** One edb_attribute row per column: the lambda of [bootstrap_attributes], and the
    same loop in [create_table]. *)
Fixpoint write_schema_attributes (relation_oid index : Z) (columns : list ColumnSchema) : M Cat unit :=
  match columns with
  | [] => retM tt
  | column :: rest =>
      let* types := getM cat_types in
      let* values := liftR (attribute_values types relation_oid index column) in
      let* _ := system_insert AttributeTable values in
      write_schema_attributes relation_oid (index + 1) rest
  end.

(** [x_table.table->schema().columns]. *)
Definition system_columns (which : SystemTable) : M Cat (list ColumnSchema) :=
  on_system which (on_table (fun T => retM (table_columns (table_schema_of T)))).

Definition bootstrap_attributes : M Cat unit :=
  let* _ := system_scan ClassTable in
  let* type_columns := system_columns TypeTable in
  let* _ := write_schema_attributes TYPE_RELATION_OID 0 type_columns in
  let* class_columns := system_columns ClassTable in
  let* _ := write_schema_attributes CLASS_RELATION_OID 0 class_columns in
  let* attribute_columns := system_columns AttributeTable in
  let* _ := write_schema_attributes ATTRIBUTE_RELATION_OID 0 attribute_columns in
  let* index_columns := system_columns IndexTable in
  write_schema_attributes INDEX_RELATION_OID 0 index_columns.

Definition bootstrap_catalog : M Cat unit :=
  let* _ := bootstrap_types in
  let* _ := bootstrap_classes in
  bootstrap_attributes.

Definition bootstrap_if_needed : M Cat unit :=
  let* classes := system_scan ClassTable in
  if negb (length classes =? 0)%nat then retM tt else bootstrap_catalog.

Definition catalog_open : M Cat unit :=
  let* _ := open_system_tables in
  let* _ := bootstrap_if_needed in
  modifyM (set_opened true).

(** The loop over the unordered map, in the order of [map_to_list]; it stops at the
    first table that does not close. *)
Fixpoint close_user_tables (oids : list Z) : M Cat unit :=
  match oids with
  | [] => retM tt
  | o :: rest => fun c =>
      match user_tables c !! o with
      | None => (Fault, c)
      | Some b =>
          match bundle_close (b, backends c) with
          | (r, (b', d')) =>
              let c' := set_backends d' (set_user_tables (<[o := b']> (user_tables c)) c) in
              match r with Ok _ => close_user_tables rest c' | Err er => (Err er, c') | Fault => (Fault, c') end
          end
      end
  end.

Definition catalog_close : M Cat unit :=
  let* tables := getM user_tables in
  let* _ := close_user_tables (map_to_list tables).*1 in
  let* _ := modifyM (set_user_tables ∅) in
  let* _ := on_system_bundle IndexTable bundle_close in
  let* _ := on_system_bundle AttributeTable bundle_close in
  let* _ := on_system_bundle ClassTable bundle_close in
  let* _ := on_system_bundle TypeTable bundle_close in
  let* _ := modifyM invalidate_type_cache in
  let* _ := modifyM (fun c => set_caches (type_cache_by_name c) ∅ ∅ c) in
  modifyM (set_opened false).

(** ** Lookups *)

Definition get_type (name : string) : M Cat CatalogType :=
  let* _ := check_open in
  let* cache := getM type_cache_by_name in
  match cache !! name with
  | Some found => retM found
  | None =>
      let* types := getM cat_types in
      let* rows := system_scan TypeTable in
      let* decoded := liftR (find_row (decode_type types) (fun t => String.eqb (ct_name t) name) rows) in
      match decoded with
      | None => errM NotFound
      | Some (_, t) =>
          let* _ := modifyM (fun c => set_caches (emplace (ct_name t) t (type_cache_by_name c))
            (class_cache_by_name c) (attribute_cache_by_relid c) c) in
          retM t
      end
  end.

Definition get_class (name : string) : M Cat CatalogClass :=
  let* _ := check_open in
  let* cache := getM class_cache_by_name in
  match cache !! name with
  | Some found => retM found
  | None =>
      let* types := getM cat_types in
      let* rows := system_scan ClassTable in
      let* decoded := liftR (find_row (decode_class types) (fun k => String.eqb (cc_name k) name) rows) in
      match decoded with
      | None => errM NotFound
      | Some (_, k) =>
          let* _ := modifyM (fun c => set_caches (type_cache_by_name c)
            (emplace (cc_name k) k (class_cache_by_name c)) (attribute_cache_by_relid c) c) in
          retM k
      end
  end.

Definition get_attributes (class_oid : Z) : M Cat (list CatalogAttribute) :=
  let* _ := check_open in
  let* cache := getM attribute_cache_by_relid in
  match cache !! class_oid with
  | Some found => retM found
  | None =>
      let* types := getM cat_types in
      let* rows := system_scan AttributeTable in
      let* decoded := liftR (decode_rows (decode_attribute types) rows) in
      let attributes := sort_by_attnum
        (filter (fun a => ca_relation_oid a = class_oid) decoded.*2) in
      if (length attributes =? 0)%nat then errM NotFound
      else
        let* _ := modifyM (fun c => set_caches (type_cache_by_name c) (class_cache_by_name c)
          (emplace class_oid attributes (attribute_cache_by_relid c)) c) in
        retM attributes
  end.

Definition next_relation_oid : M Cat Z :=
  let* types := getM cat_types in
  let* rows := system_scan ClassTable in
  let* max_oid := liftR (max_class_oid types rows) in
  retM (wrap32 (max_oid + 1)).

Definition lookup_class_row (class_oid : Z) : M Cat (option TableRow) :=
  let* types := getM cat_types in
  let* rows := system_scan ClassTable in
  let* found := liftR (find_row (decode_class types) (fun k => cc_oid k =? class_oid) rows) in
  retM (fst <$> found).

Definition lookup_attribute_rows (class_oid : Z) : M Cat (list TableRow) :=
  let* types := getM cat_types in
  let* rows := system_scan AttributeTable in
  let* decoded := liftR (decode_rows (decode_attribute types) rows) in
  retM (filter (fun ra => ca_relation_oid ra.2 = class_oid) decoded).*1.

(** ** User tables *)

Definition attribute_column (a : CatalogAttribute) : ColumnSchema :=
  {| col_name := ca_name a; col_type_oid := ca_type_oid a; nullable := ca_nullable a |}.

Definition ensure_user_table_open (rel : Z) (relation_name : string)
    (attributes : list CatalogAttribute) : M Cat Z :=
  let* tables := getM user_tables in
  match tables !! rel with
  | Some _ => retM rel
  | None =>
      let* loaded := match attributes with [] => get_attributes rel | _ => retM attributes end in
      let resolved_attributes := sort_by_attnum loaded in
      let schema := {| relation_oid := rel; table_name := relation_name;
        table_columns := attribute_column <$> resolved_attributes |} in
      fun c =>
        match bundle_open (cat_types c) schema (cat_config c) (Bundle_new, backends c) with
        | (Ok _, (bundle, d)) =>
            (Ok rel, set_user_tables (emplace rel bundle (user_tables c)) (set_backends d c))
        | (Err er, (_, d)) => (Err er, set_backends d c)
        | (Fault, _) => (Fault, c)
        end
  end.

Definition open_table (name : string) : M Cat Z :=
  let* _ := check_open in
  let* klass := get_class name in
  ensure_user_table_open (cc_oid klass) (cc_name klass) [].

(** [if (!types->lookup(column.type_oid)) return TypeNotFound;] for every column. *)
Fixpoint check_column_types (types : TypeRegistry) (columns : list ColumnSchema) : Result unit :=
  match columns with
  | [] => Ok tt
  | column :: rest =>
      let? _ := checked TypeNotFound (lookup_oid types (col_type_oid column)) in
      check_column_types types rest
  end.

Definition create_table (spec : CreateTableSpec) : M Cat Z :=
  let* _ := check_open in
  if String.eqb (spec_name spec) EmptyString || (length (spec_columns spec) =? 0)%nat
  then errM InvalidArgument
  else
    let* existing := attempt (get_class (spec_name spec)) in
    match existing with
    | Ok _ => errM AlreadyExists
    | Fault => faultM
    | Err er =>
        if negb (bool_decide (er = NotFound)) then errM er
        else
          let* types := getM cat_types in
          let* _ := liftR (check_column_types types (spec_columns spec)) in
          let* rel := next_relation_oid in
          let* values := liftR (class_values types rel (spec_name spec) RELKIND_TABLE) in
          let* _ := system_insert ClassTable values in
          let* _ := write_schema_attributes rel 0 (spec_columns spec) in
          let* _ := modifyM (invalidate_class_cache rel (spec_name spec)) in
          let* _ := ensure_user_table_open rel (spec_name spec) [] in
          retM rel
    end.

Fixpoint delete_rows (which : SystemTable) (rows : list TableRow) : M Cat unit :=
  match rows with
  | [] => retM tt
  | row :: rest =>
      let* _ := on_system which (on_bundle_engine (se_delete_tuple (row_id row))) in
      delete_rows which rest
  end.

(** [user_tables.erase(class_oid)] destroys the bundle; its destructors neither
    flush the pool nor close the backend. *)
Definition erase_user_table (class_oid : Z) (c : Cat) : Cat :=
  set_user_tables (delete class_oid (user_tables c)) c.

Definition drop_table (class_oid : Z) : M Cat unit :=
  let* _ := check_open in
  let* types := getM cat_types in
  let* class_row := lookup_class_row class_oid in
  match class_row with
  | None => errM NotFound
  | Some row =>
      let* decoded_class := liftR (decode_class types row) in
      if negb (String.eqb (relkind decoded_class) RELKIND_TABLE) then errM InvalidArgument
      else
        let* attribute_rows := lookup_attribute_rows class_oid in
        let* _ := delete_rows AttributeTable attribute_rows in
        let* _ := delete_rows ClassTable [row] in
        let* _ := modifyM (erase_user_table class_oid) in
        modifyM (invalidate_class_cache class_oid (cc_name decoded_class))
  end.
End operations.
