(* ===== verification/CatalogValues.v ===== *)
(** * CatalogValues: the rows of the system tables

    What [make_*_value] writes, [parse_*] reads back, and the rows of edb_type,
    edb_class and edb_attribute decode to what they were written from. *)
From S2P Require Import Prelude Utils TypeRegistry BuiltinTypes RowCodec RowCodecSpec StorageIO.
From S2P Require Import PageStore EvictionPolicy BufferPool HeapEngine Table Bundle Catalog.

(** A registry in which the three types the catalog stores its data in have been
    registered with their built-in implementations. *)
Record builtin_registry (r : TypeRegistry) (int32_type text_type bool_type : Type_) : Prop := {
  br_wf : registry_wf r;
  br_small : Z.of_nat (length (types r)) < 2 ^ 31 - 1;
  br_int32 : lookup_name r "int32" = Ok int32_type /\ from_text int32_type = parse_signed_fixed I32 U32 4 /\
    to_text int32_type = signed_to_text I32 U32 4 /\ fixed_size int32_type = Some 4;
  br_text : lookup_name r "text" = Ok text_type /\ from_text text_type = text_from_text /\
    to_text text_type = text_to_text /\ fixed_size text_type = None;
  br_bool : lookup_name r "bool" = Ok bool_type /\ from_text bool_type = bool_from_text /\
    to_text bool_type = bool_to_text /\ fixed_size bool_type = Some 1;
}.

Definition int_value (t : Type_) (v : Z) : Value :=
  {| v_type_oid := oid t; v_bytes := encode_unsigned_le 4 (prim_cast U32 v); is_null := false |}.
Definition text_value (t : Type_) (s : string) : Value :=
  {| v_type_oid := oid t; v_bytes := String.list_byte_of_string s; is_null := false |}.
Definition bool_value (t : Type_) (b : bool) : Value :=
  {| v_type_oid := oid t; v_bytes := [if b then x01 else x00]; is_null := false |}.

Lemma c_str_no_nul s : Forall (fun b => b <> x00) s -> c_str s = s.
Proof.
  induction 1 as [|b s Hb _ IH]; [done|]. cbn. destruct (Byte.eqb b x00) eqn:Hx; [|by rewrite IH].
  by apply Byte.byte_dec_bl in Hx.
Qed.

Lemma to_string_int_no_nul v :
  Forall (fun b => b <> x00) (String.list_byte_of_string (to_string_int v)).
Proof.
  assert (Hd : forall u, 0 <= u -> Forall (fun b => b <> x00) (decimal 20 u)).
  { intros u Hu. eapply Forall_impl; [by apply decimal_digits|]. intros b Hb ->. by vm_compute in Hb. }
  unfold to_string_int. rewrite String.list_byte_of_string_of_list_byte.
  destruct (Z.ltb_spec v 0); [apply Forall_cons; split; [done|]|]; apply Hd; lia.
Qed.

Section values.
Context (r : TypeRegistry) (ti tx tb : Type_) (Hr : builtin_registry r ti tx tb).

Lemma named_lookup n t : lookup_name r n = Ok t -> lookup_oid r (oid t) = Ok t /\ 0 < oid t < 2 ^ 31.
Proof using Hr.
  destruct Hr as [Hwf Hs _ _ _]. intros (i & Hi & _)%lookup_name_wf; [|done].
  split; [apply lookup_oid_wf; eauto|]. apply (rw_oid _ Hwf) in Hi as Ho. apply lookup_lt_Some in Hi. lia.
Qed.

Lemma make_int32_ok v : in_range I32 v -> make_int32_value r v = Ok (int_value ti v).
Proof using Hr.
  intros Hv. destruct Hr as [_ _ (Hl & Hf & _) _ _]. unfold make_int32_value. rewrite Hl. cbn [bindR].
  rewrite Hf. unfold parse_signed_fixed. unfold in_range in Hv.
  rewrite extract_to_string; [done|done|]. unfold prim_min, prim_max in Hv. cbn in Hv. lia.
Qed.
Lemma parse_int32_ok v : in_range I32 v -> parse_i32 r (int_value ti v) = Ok v.
Proof using Hr.
  intros Hv. destruct Hr as [_ _ (Hl & _ & Ht & _) _ _]. apply named_lookup in Hl as [Ho _].
  unfold parse_i32, value_type. cbn [v_type_oid int_value]. rewrite Ho. cbn [bindR]. rewrite Ht.
  unfold signed_to_text. cbn [v_bytes int_value]. rewrite (decode_encode_signed I32 U32 4) by (done || by left).
  rewrite c_str_no_nul by apply to_string_int_no_nul.
  unfold in_range in Hv. rewrite extract_to_string; [done|done|]. unfold prim_min, prim_max in Hv. cbn in Hv. lia.
Qed.

Lemma make_text_ok s : make_text_value r s = Ok (text_value tx s).
Proof using Hr.
  destruct Hr as [_ _ _ (Hl & Hf & _) _]. unfold make_text_value. rewrite Hl. cbn [bindR]. by rewrite Hf.
Qed.
Lemma parse_text_ok s : parse_text r (text_value tx s) = Ok s.
Proof using Hr.
  destruct Hr as [_ _ _ (Hl & _ & Ht & _) _]. apply named_lookup in Hl as [Ho _].
  unfold parse_text, value_type. cbn [v_type_oid text_value]. rewrite Ho. cbn [bindR]. rewrite Ht.
  unfold text_to_text. cbn [v_bytes text_value]. by rewrite String.string_of_list_byte_of_string.
Qed.

Lemma make_bool_ok b : make_bool_value r b = Ok (bool_value tb b).
Proof using Hr.
  destruct Hr as [_ _ _ _ (Hl & Hf & _)]. unfold make_bool_value. rewrite Hl. cbn [bindR]. rewrite Hf. by destruct b.
Qed.
Lemma parse_bool_ok b : parse_bool r (bool_value tb b) = Ok b.
Proof using Hr.
  destruct Hr as [_ _ _ _ (Hl & _ & Ht & _)]. apply named_lookup in Hl as [Ho _].
  unfold parse_bool, value_type. cbn [v_type_oid bool_value]. rewrite Ho. cbn [bindR]. rewrite Ht. by destruct b.
Qed.

(** ** Rows *)

Definition type_row (t : CatalogType) : list Value :=
  [int_value ti (ct_oid t); text_value tx (ct_name t);
   int_value ti (fixed_size_to_catalog_length (ct_fixed_size t))].
Definition class_row (k : CatalogClass) : list Value :=
  [int_value ti (cc_oid k); text_value tx (cc_name k); text_value tx (relkind k)].
Definition attribute_row (a : CatalogAttribute) : list Value :=
  [int_value ti (ca_relation_oid a); int_value ti (attnum a); text_value tx (ca_name a);
   int_value ti (ca_type_oid a); bool_value tb (ca_nullable a)].

(** Numbers that survive the conversion to [int32] and back. *)
Definition small (n : Z) : Prop := 0 <= n < 2 ^ 31.
Definition type_ok (t : CatalogType) : Prop :=
  small (ct_oid t) /\ match ct_fixed_size t with Some n => small n | None => True end.
Definition class_ok (k : CatalogClass) : Prop := small (cc_oid k).
Definition attribute_ok (a : CatalogAttribute) : Prop :=
  small (ca_relation_oid a) /\ small (attnum a) /\ small (ca_type_oid a).

Lemma small_cast n : small n ->
  in_range I32 n /\ prim_cast I32 n = n /\ prim_cast U32 n = n /\ prim_cast U64 n = n /\ (n <? 0) = false.
Proof.
  unfold small, in_range, prim_min, prim_max, prim_cast. cbn. intros Hn. split_and!; [lia|lia|..].
  - rewrite Z.mod_small by lia. lia.
  - rewrite Z.mod_small; lia.
  - rewrite Z.mod_small; lia.
  - apply Z.ltb_ge. lia.
Qed.

Lemma decode_type_ok id t : type_ok t -> decode_type r {| row_id := id; row_values := type_row t |} = Ok t.
Proof using Hr.
  intros [Ho Hs]. destruct (small_cast _ Ho) as (Hoi & _ & Hou & _ & Hon). unfold decode_type, type_row. cbn [row_values].
  rewrite parse_int32_ok, parse_text_ok by done. destruct t as [o n [l|]]; cbn [ct_oid ct_name ct_fixed_size] in *.
  - destruct (small_cast _ Hs) as (Hli & Hlc & _ & Hlu & Hln). cbn [fixed_size_to_catalog_length]. rewrite Hlc.
    rewrite parse_int32_ok by done. cbn [both checked bindR]. unfold catalog_length_to_fixed_size.
    by rewrite Hon, Hou, Hln, Hlu.
  - rewrite parse_int32_ok by done. cbn [both checked bindR]. by rewrite Hon, Hou.
Qed.

Lemma decode_class_ok id k : class_ok k -> decode_class r {| row_id := id; row_values := class_row k |} = Ok k.
Proof using Hr.
  intros Ho. destruct (small_cast _ Ho) as (Hoi & _ & Hou & _ & Hon). unfold decode_class, class_row. cbn [row_values].
  rewrite parse_int32_ok, !parse_text_ok by done. cbn [both checked bindR]. rewrite Hon, Hou. by destruct k.
Qed.

Lemma decode_attribute_ok id a :
  attribute_ok a -> decode_attribute r {| row_id := id; row_values := attribute_row a |} = Ok a.
Proof using Hr.
  intros (H1 & H2 & H3). destruct (small_cast _ H1) as (Hi1 & _ & Hu1 & _ & Hn1).
  destruct (small_cast _ H2) as (Hi2 & _ & Hu2 & _ & Hn2). destruct (small_cast _ H3) as (Hi3 & _ & Hu3 & _ & Hn3).
  unfold decode_attribute, attribute_row. cbn [row_values].
  rewrite !parse_int32_ok, parse_text_ok, parse_bool_ok by done. cbn [both checked bindR].
  rewrite Hn1, Hn2, Hn3, Hu1, Hu2, Hu3. by destruct a.
Qed.

Lemma class_values_ok o name kind : small o ->
  class_values r o name kind = Ok (class_row {| cc_oid := o; cc_name := name; relkind := kind |}).
Proof using Hr.
  intros Ho. destruct (small_cast _ Ho) as (Hoi & Hoc & _). unfold class_values, make_row. rewrite Hoc.
  by rewrite make_int32_ok, !make_text_ok by done.
Qed.

(** The attribute that describes column [index]. *)
Definition column_attribute (rel index : Z) (column : ColumnSchema) : CatalogAttribute :=
  {| ca_relation_oid := rel; attnum := index + 1; ca_name := col_name column;
     ca_type_oid := col_type_oid column; ca_nullable := nullable column |}.
Fixpoint column_attributes (rel index : Z) (columns : list ColumnSchema) : list CatalogAttribute :=
  match columns with
  | [] => []
  | column :: rest => column_attribute rel index column :: column_attributes rel (index + 1) rest
  end.

Lemma attribute_values_ok rel index column :
  attribute_ok (column_attribute rel index column) ->
  attribute_values r rel index column = Ok (attribute_row (column_attribute rel index column)).
Proof using Hr.
  intros (H1 & H2 & H3). cbn in H1, H2, H3. destruct (small_cast _ H1) as (Hi1 & Hc1 & _).
  destruct (small_cast _ H2) as (Hi2 & Hc2 & _). destruct (small_cast _ H3) as (Hi3 & Hc3 & _).
  unfold attribute_values, make_row. unfold small in H2. rewrite wrap64_id by lia. rewrite Hc1, Hc2, Hc3.
  by rewrite !make_int32_ok, make_text_ok, make_bool_ok by done.
Qed.

Lemma stored_row vs : Forall (fun v => is_null v = false) vs -> stored <$> vs = vs.
Proof.
  induction 1 as [|v vs Hv _ IH]; [done|]. rewrite fmap_cons, IH. f_equal. unfold stored, payload_of. rewrite Hv.
  destruct v. cbn in *. by subst.
Qed.
Lemma stored_class k : stored <$> class_row k = class_row k.
Proof. apply stored_row. by repeat constructor. Qed.
Lemma stored_attribute a : stored <$> attribute_row a = attribute_row a.
Proof. apply stored_row. by repeat constructor. Qed.

(** ** The schemas of the system tables *)

Lemma system_codec_ok cols :
  Forall (fun column => In (col_type_oid column) [oid ti; oid tx; oid tb]) cols ->
  codec_ok (RowCodec_new r cols).
Proof using Hr.
  intros Hc. pose proof (br_wf _ _ _ _ Hr). split; [by exists r|]. eapply Forall_impl; [exact Hc|].
  destruct Hr as [_ _ (Hi & _) (Hx & _) (Hb & _)].
  apply named_lookup in Hi as [_ Hi]. apply named_lookup in Hx as [_ Hx]. apply named_lookup in Hb as [_ Hb].
  intros c [<-|[<-|[<-|[]]]]; lia.
Qed.

Lemma column_value_ok cols t name v :
  lookup_oid r (oid t) = Ok t -> v_type_oid v = oid t -> is_null v = false ->
  size_mismatch t (sizeZ (v_bytes v)) = false -> value_ok (RowCodec_new r cols) (system_column t name) v.
Proof. intros Hl Ht Hn Hm. exists t. unfold lookup_type. cbn. rewrite Hl, Hn. by split_and!. Qed.

Lemma int_column_ok cols name v : value_ok (RowCodec_new r cols) (system_column ti name) (int_value ti v).
Proof using Hr.
  destruct Hr as [_ _ (Hl & _ & _ & Hs) _ _]. apply named_lookup in Hl as [Ho _].
  apply column_value_ok; try done. unfold size_mismatch. by rewrite Hs.
Qed.
Lemma text_column_ok cols name s : value_ok (RowCodec_new r cols) (system_column tx name) (text_value tx s).
Proof using Hr.
  destruct Hr as [_ _ _ (Hl & _ & _ & Hs) _]. apply named_lookup in Hl as [Ho _].
  apply column_value_ok; try done. unfold size_mismatch. by rewrite Hs.
Qed.
Lemma bool_column_ok cols name b : value_ok (RowCodec_new r cols) (system_column tb name) (bool_value tb b).
Proof using Hr.
  destruct Hr as [_ _ _ _ (Hl & _ & _ & Hs)]. apply named_lookup in Hl as [Ho _].
  apply column_value_ok; try done. unfold size_mismatch. by rewrite Hs.
Qed.

Lemma class_row_ok k : row_ok (RowCodec_new r (table_columns (class_schema ti tx))) (class_row k).
Proof using Hr.
  repeat (constructor; [first [apply int_column_ok|apply text_column_ok]|]). constructor.
Qed.
Lemma attribute_row_ok a : row_ok (RowCodec_new r (table_columns (attribute_schema ti tx tb))) (attribute_row a).
Proof using Hr.
  repeat (constructor; [first [apply int_column_ok|apply text_column_ok|apply bool_column_ok]|]). constructor.
Qed.
Lemma type_row_ok t : row_ok (RowCodec_new r (table_columns (type_schema ti tx))) (type_row t).
Proof using Hr.
  repeat (constructor; [first [apply int_column_ok|apply text_column_ok]|]). constructor.
Qed.

(** ** Sizes *)

Lemma row_size_values vs :
  Forall (fun v => is_null v = false) vs ->
  row_size vs = header_bytes (sizeZ vs) + sizeZ (concat (v_bytes <$> vs)).
Proof.
  intros Hn. unfold row_size, row_payload. do 2 f_equal. f_equal.
  induction Hn as [|v vs Hv _ IH]; [done|]. rewrite !fmap_cons, IH. f_equal. unfold payload_of. by rewrite Hv.
Qed.

Lemma sizeZ_int_value v : sizeZ (v_bytes (int_value ti v)) = 4.
Proof. apply sizeZ_le_encode. Qed.

Lemma class_row_size k :
  row_size (class_row k) = 33 + sizeZ (String.list_byte_of_string (cc_name k)) + sizeZ (String.list_byte_of_string (relkind k)).
Proof.
  rewrite row_size_values by (by repeat constructor). change (header_bytes (sizeZ (class_row k))) with 29.
  unfold class_row. rewrite !fmap_cons. cbn [concat]. rewrite !sizeZ_app, sizeZ_int_value.
  change (sizeZ (concat _)) with 0. cbn [v_bytes text_value]. lia.
Qed.

Lemma attribute_row_size a :
  row_size (attribute_row a) = 58 + sizeZ (String.list_byte_of_string (ca_name a)).
Proof.
  rewrite row_size_values by (by repeat constructor). change (header_bytes (sizeZ (attribute_row a))) with 45.
  unfold attribute_row. rewrite !fmap_cons. cbn [concat]. rewrite !sizeZ_app, !sizeZ_int_value.
  change (sizeZ (concat _)) with 0. cbn [v_bytes text_value bool_value]. change (sizeZ [_]) with 1. lia.
Qed.

Lemma type_row_size t :
  row_size (type_row t) = 37 + sizeZ (String.list_byte_of_string (ct_name t)).
Proof.
  rewrite row_size_values by (by repeat constructor). change (header_bytes (sizeZ (type_row t))) with 29.
  unfold type_row. rewrite !fmap_cons. cbn [concat]. rewrite !sizeZ_app, !sizeZ_int_value.
  change (sizeZ (concat _)) with 0. cbn [v_bytes text_value]. lia.
Qed.
End values.
