(* ===== verification/CatalogSpec.v ===== *)
(** * CatalogSpec: the catalog as a list of classes and their attributes

    [CatalogData] is what the catalog stores: the types, the classes and the
    attributes, each with the id of its row, and the rows of the user tables that
    are open.  [cat_ok c X] says that the system tables of [c] hold [X], that the
    caches agree with it and that [X] is consistent.  Each operation is shown to
    be an operation on [X]. *)
From stdpp Require Import sorting.
From S2P Require Import Prelude Utils TypeRegistry BuiltinTypes RowCodec RowCodecSpec StorageIO.
From S2P Require Import PageStore EvictionPolicy BufferPool HeapEngine TupleStore Table Bundle.
From S2P Require Import Catalog CatalogValues.

Record CatalogData := {
  d_types : list (TupleId * CatalogType);
  d_classes : list (TupleId * CatalogClass);
  d_attributes : list (TupleId * CatalogAttribute);
  d_tables : gmap Z (TableSchema * list TableRow);
}.

#[export] Instance SystemTable_eq_dec : EqDecision SystemTable.
Proof. solve_decision. Defined.
#[export] Instance CatalogClass_eq_dec : EqDecision CatalogClass.
Proof. solve_decision. Defined.
#[export] Instance CatalogAttribute_eq_dec : EqDecision CatalogAttribute.
Proof. solve_decision. Defined.

(** ** The reference lookups *)

Definition type_named (X : CatalogData) (name : string) : option CatalogType :=
  List.find (fun t => String.eqb (ct_name t) name) (d_types X).*2.
Definition class_named (X : CatalogData) (name : string) : option CatalogClass :=
  List.find (fun k => String.eqb (cc_name k) name) (d_classes X).*2.
Definition attributes_of (X : CatalogData) (o : Z) : list CatalogAttribute :=
  sort_by_attnum (filter (fun a => ca_relation_oid a = o) (d_attributes X).*2).
Definition user_schema (X : CatalogData) (k : CatalogClass) : TableSchema :=
  {| relation_oid := cc_oid k; table_name := cc_name k;
     table_columns := attribute_column <$> attributes_of X (cc_oid k) |}.
Definition attribute_key (a : CatalogAttribute) : Z * Z := (ca_relation_oid a, attnum a).

(** Names and oids are unique, attributes are numbered once per class and belong
    to a class, and every class has some; an open table has the schema its class
    describes; the last system relation is there. *)
Record data_ok (X : CatalogData) : Prop := {
  do_system : exists k, k ∈ (d_classes X).*2 /\ cc_oid k = INDEX_RELATION_OID /\ relkind k <> RELKIND_TABLE;
  do_types : Forall type_ok (d_types X).*2;
  do_classes : Forall class_ok (d_classes X).*2;
  do_attributes : Forall attribute_ok (d_attributes X).*2;
  do_names : NoDup (cc_name <$> (d_classes X).*2);
  do_oids : NoDup (cc_oid <$> (d_classes X).*2);
  do_keys : NoDup (attribute_key <$> (d_attributes X).*2);
  do_owned : Forall (fun a => ca_relation_oid a ∈ cc_oid <$> (d_classes X).*2) (d_attributes X).*2;
  do_nonempty : Forall (fun k => attributes_of X (cc_oid k) <> []) (d_classes X).*2;
  do_tables : map_Forall (fun o entry => exists k, k ∈ (d_classes X).*2 /\ cc_oid k = o /\
    entry.1 = user_schema X k) (d_tables X);
}.

(** ** Finding and sorting *)

#[export] Instance attnum_le_total : Total attnum_le.
Proof. intros x y. unfold attnum_le. lia. Qed.
#[export] Instance attnum_le_trans : Transitive attnum_le.
Proof. intros x y z. unfold attnum_le. lia. Qed.

Lemma attnum_sorted_unique l l' :
  NoDup (attnum <$> l) -> StronglySorted attnum_le l -> StronglySorted attnum_le l' -> l ≡ₚ l' -> l = l'.
Proof.
  intros Hnd Hl Hl' Hp. apply (StronglySorted_unique_strong attnum_le); try done.
  intros x y Hx Hy H1 H2. rewrite <- Hp in Hy.
  apply list_elem_of_lookup in Hx as (i & Hi). apply list_elem_of_lookup in Hy as (j & Hj).
  assert (i = j) as ->; [|congruence]. apply (NoDup_lookup (attnum <$> l) i j (attnum x) Hnd).
  - by rewrite list_lookup_fmap, Hi.
  - rewrite list_lookup_fmap, Hj. cbn. unfold attnum_le in *. f_equal. lia.
Qed.

Lemma sort_by_attnum_spec l : StronglySorted attnum_le (sort_by_attnum l) /\ sort_by_attnum l ≡ₚ l.
Proof. split; [apply StronglySorted_merge_sort; apply _|apply merge_sort_Permutation]. Qed.

(** Sorting does not depend on the order of the input when no number is repeated. *)
Lemma sort_by_attnum_perm l l' : NoDup (attnum <$> l) -> l ≡ₚ l' -> sort_by_attnum l = sort_by_attnum l'.
Proof.
  intros Hnd Hp. destruct (sort_by_attnum_spec l) as [Hs1 Hp1], (sort_by_attnum_spec l') as [Hs2 Hp2].
  apply attnum_sorted_unique; try done; [by rewrite Hp1|by rewrite Hp1, Hp2].
Qed.

Lemma sort_by_attnum_sorted l : Sorted attnum_le l -> NoDup (attnum <$> l) -> sort_by_attnum l = l.
Proof.
  intros Hs Hnd. destruct (sort_by_attnum_spec l) as [Hs1 Hp1].
  apply attnum_sorted_unique; try done; [by rewrite Hp1|by apply Sorted_StronglySorted; [apply _|]].
Qed.

(** The element with a unique key is found in every order of the list. *)
Lemma find_unique {A} (key : A -> string) (l : list A) n x :
  NoDup (key <$> l) -> x ∈ l -> key x = n -> List.find (fun y => String.eqb (key y) n) l = Some x.
Proof.
  intros Hnd Hx Hk. destruct (List.find _ l) as [y|] eqn:Hf.
  - apply List.find_some in Hf as [Hy Hn%String.eqb_eq].
    apply list_elem_of_lookup in Hx as (i & Hi). apply list_elem_of_In, list_elem_of_lookup in Hy as (j & Hj).
    assert (i = j) as ->; [|congruence]. apply (NoDup_lookup (key <$> l) i j n Hnd).
    + by rewrite list_lookup_fmap, Hi, <- Hk.
    + by rewrite list_lookup_fmap, Hj, <- Hn.
  - eapply List.find_none in Hf; [|by apply list_elem_of_In]. by rewrite Hk, String.eqb_refl in Hf.
Qed.

Lemma find_none_iff {A} (key : A -> string) (l : list A) n :
  List.find (fun y => String.eqb (key y) n) l = None <-> n ∉ key <$> l.
Proof.
  split.
  - intros Hf (y & -> & Hy)%list_elem_of_fmap. eapply List.find_none in Hf; [|by apply list_elem_of_In].
    by rewrite String.eqb_refl in Hf.
  - intros Hn. destruct (List.find _ l) as [y|] eqn:Hf; [|done].
    apply List.find_some in Hf as [Hy He%String.eqb_eq]. destruct Hn. apply list_elem_of_fmap.
    exists y. split; [done|]. by apply list_elem_of_In.
Qed.

(** ** Scanned rows *)

Definition mkrow {A} (f : A -> list Value) (p : TupleId * A) : TableRow :=
  {| row_id := p.1; row_values := f p.2 |}.

Section rows.
Context {A : Type} (f : A -> list Value) (dec : TableRow -> Result A) (ok : A -> Prop).
Context (Hdec : forall id a, ok a -> dec {| row_id := id; row_values := f a |} = Ok a).

Lemma decode_rows_ok l :
  Forall ok l.*2 -> decode_rows dec (mkrow f <$> l) = Ok ((fun p => (mkrow f p, p.2)) <$> l).
Proof using Hdec.
  induction l as [|[id a] l IH]; [done|]. cbn [fmap list_fmap]. intros [Ha Hl]%Forall_cons.
  cbn [decode_rows mkrow]. unfold mkrow at 1. cbn [fst snd]. rewrite Hdec by done. cbn [bindR].
  change (list_fmap ?g ?k) with (g <$> k). rewrite IH by done. done.
Qed.

Lemma find_row_ok wanted l :
  Forall ok l.*2 ->
  find_row dec wanted (mkrow f <$> l) = Ok ((fun p => (mkrow f p, p.2)) <$> List.find (fun p => wanted p.2) l).
Proof using Hdec.
  induction l as [|[id a] l IH]; [done|]. cbn [fmap list_fmap]. intros [Ha Hl]%Forall_cons.
  cbn [find_row List.find]. unfold mkrow at 1. cbn [fst snd]. rewrite Hdec by done. cbn [bindR].
  destruct (wanted a); [done|]. change (list_fmap ?g ?k) with (g <$> k). by rewrite IH.
Qed.
End rows.

Lemma find_snd {A B} (p : B -> bool) (l : list (A * B)) :
  List.find p l.*2 = snd <$> List.find (fun x => p x.2) l.
Proof. induction l as [|[a b] l IH]; [done|]. cbn. destruct (p b); [done|]. exact IH. Qed.

(** A permutation of rows is a permutation of what they were written from. *)
Lemma mkrow_perm {A} (f : A -> list Value) rows (l : list (TupleId * A)) :
  rows ≡ₚ (mkrow f <$> l) -> exists l', rows = mkrow f <$> l' /\ l' ≡ₚ l.
Proof.
  intros Hp. apply Permutation_map_inv in Hp as (l' & -> & Hp'). by exists l'.
Qed.

(** ** The bundles of an open catalog *)

Section catalog.
Context {D S E : Type} `{!BackendFactory D S} `{!StorageIO S} `{!EngineFactory S E}.
Context `{!StorageEngine E} `{!TupleStore E} `{!RelationFiles D S E}.
Context (r : TypeRegistry) (ti tx tb : Type_) (Hr : builtin_registry r ti tx tb).
#[local] Abbreviation Cat := (Catalog D S E).
#[local] Abbreviation Bundle := (OpenedTableBundle S E).
Implicit Types (c : Cat) (X : CatalogData).

Definition sys_schema (which : SystemTable) : TableSchema :=
  match which with
  | TypeTable => type_schema ti tx
  | ClassTable => class_schema ti tx
  | AttributeTable => attribute_schema ti tx tb
  | IndexTable => index_schema ti tx
  end.
Definition sys_rows X (which : SystemTable) : list TableRow :=
  match which with
  | TypeTable => mkrow (type_row ti tx) <$> d_types X
  | ClassTable => mkrow (class_row ti tx) <$> d_classes X
  | AttributeTable => mkrow (attribute_row ti tx tb) <$> d_attributes X
  | IndexTable => []
  end.

(** An open bundle in step with its relation. *)
Definition bundle_ok c (b : Bundle) (schema : TableSchema) (rows : list TableRow) : Prop :=
  bundle_holds r b schema rows /\ synced b (backends c).

(** The user tables live in relations of their own. *)
Definition user_ok c (o : Z) (b : Bundle) (entry : TableSchema * list TableRow) : Prop :=
  relation_oid entry.1 = o /\ 4 < o /\ bundle_ok c b entry.1 entry.2.

Record catalog_stores c (R : SystemTable -> list TableRow) (U : gmap Z (TableSchema * list TableRow)) : Prop := {
  so_types : cat_types c = r;
  so_sys which : bundle_ok c (system_table which c) (sys_schema which) (R which);
  so_users o : option_Forall2 (user_ok c o) (user_tables c !! o) (U !! o);
}.

Definition upd (R : SystemTable -> list TableRow) (which : SystemTable) (rows : list TableRow) :
    SystemTable -> list TableRow := fun w => if decide (w = which) then rows else R w.

Lemma holds_runs (b : Bundle) schema rows : bundle_holds r b schema rows -> runs_on b (relation_oid schema).
Proof. intros (e & Hs & _). by exists e. Qed.

Lemma sys_schema_oid which : 0 < relation_oid (sys_schema which) <= 4.
Proof. by destruct which. Qed.
Lemma sys_schema_inj w w' : relation_oid (sys_schema w) = relation_oid (sys_schema w') -> w = w'.
Proof. by destruct w, w'. Qed.

(** Storing the bytes of one bundle leaves the bundles of other relations in step. *)
Lemma bundle_ok_other c c' (b b' : Bundle) schema schema' rows rows' :
  backends c' = bundle_store b' (backends c) -> bundle_holds r b' schema' rows' ->
  relation_oid schema <> relation_oid schema' -> bundle_ok c b schema rows -> bundle_ok c' b schema rows.
Proof using All.
  intros Hd Hb' Hne [Hb Hs]. split; [done|]. rewrite Hd.
  eapply synced_other; [by eapply holds_runs..|done|done].
Qed.

(** The catalog after a system table's bundle became [b]. *)
Definition after_system (which : SystemTable) (b : Bundle) c : Cat :=
  set_backends (bundle_store b (backends c)) (set_system_table which b c).

Lemma system_op {A} which (m : M Bundle A) c R U res b' rows' :
  catalog_stores c R U -> m (system_table which c) = (res, b') -> bundle_holds r b' (sys_schema which) rows' ->
  on_system which m c = (res, after_system which b' c) /\ catalog_stores (after_system which b' c) (upd R which rows') U.
Proof using All.
  intros [Ht Hsys Hus] Hm Hb'. split.
  - unfold on_system, on_system_bundle. erewrite with_bundle_ok; [|apply Hsys|exact Hm]. done.
  - split; [done|..].
    + intros w. unfold upd. case_decide as Hw.
      * subst w. replace (system_table which (after_system which b' c)) with b' by (by destruct which).
        split; [done|]. eapply synced_store. by eapply holds_runs.
      * replace (system_table w (after_system which b' c)) with (system_table w c) by (by destruct which, w).
        eapply (bundle_ok_other c); [done|done| |apply Hsys]. intros Heq. by apply sys_schema_inj in Heq.
    + intros o. specialize (Hus o). cbn. destruct Hus as [b entry (H1 & H2 & H3)|]; constructor.
      split_and!; [done|done|]. eapply (bundle_ok_other c); [done|done| |done].
      pose proof (sys_schema_oid which). lia.
Qed.

Definition after_user (o : Z) (b : Bundle) c : Cat :=
  set_backends (bundle_store b (backends c)) (set_user_tables (<[o := b]> (user_tables c)) c).

Lemma user_op {A} o (m : M Bundle A) c R U b res b' schema rows rows' :
  catalog_stores c R U -> user_tables c !! o = Some b -> U !! o = Some (schema, rows) ->
  m b = (res, b') -> bundle_holds r b' schema rows' ->
  on_user_table o m c = (res, after_user o b' c) /\
  catalog_stores (after_user o b' c) R (<[o := (schema, rows')]> U).
Proof using All.
  intros [Ht Hsys Hus] Hb HU Hm Hb'.
  pose proof (Hus o) as Huo. rewrite Hb, HU in Huo. inversion Huo as [? ? (H1 & H2 & H3)|]; subst. cbn in *.
  split.
  - unfold on_user_table. rewrite Hb. erewrite with_bundle_ok; [|apply H3|exact Hm]. done.
  - split; [done|..].
    + intros w. replace (system_table w (after_user (relation_oid schema) b' c)) with (system_table w c) by (by destruct w).
      eapply (bundle_ok_other c); [done|done| |apply Hsys]. pose proof (sys_schema_oid w). lia.
    + intros o'. cbn. destruct (decide (o' = relation_oid schema)) as [->|Hne].
      * rewrite !lookup_insert_eq. constructor. split_and!; [done|done|]. split; [done|].
        eapply synced_store. by eapply holds_runs.
      * rewrite !lookup_insert_ne by done. specialize (Hus o'). destruct Hus as [b0 [s0 rows0] (G1 & G2 & G3)|]; constructor.
        cbn in *. split_and!; [done|done|]. eapply (bundle_ok_other c); [done|done| |done]. cbn. by rewrite G1.
Qed.

(** ** Invariant *)

Record caches_ok c X : Prop := {
  ca_types_ok n t : type_cache_by_name c !! n = Some t -> type_named X n = Some t;
  ca_classes_ok n k : class_cache_by_name c !! n = Some k -> class_named X n = Some k;
  ca_attributes_ok o l : attribute_cache_by_relid c !! o = Some l -> l = attributes_of X o /\ l <> [];
}.

Record cat_ok c X : Prop := {
  ck_open : cat_opened c = true;
  ck_stores : catalog_stores c (sys_rows X) (d_tables X);
  ck_caches : caches_ok c X;
  ck_data : data_ok X;
}.

Lemma catalog_stores_ext c R R' U :
  (forall w, R w = R' w) -> catalog_stores c R U -> catalog_stores c R' U.
Proof. intros HR [H1 H3 H4]. split; try done. intros w. rewrite <- HR. apply H3. Qed.

Lemma caches_ok_same c c' X X' :
  type_cache_by_name c' = type_cache_by_name c -> class_cache_by_name c' = class_cache_by_name c ->
  attribute_cache_by_relid c' = attribute_cache_by_relid c ->
  d_types X' = d_types X -> d_classes X' = d_classes X -> d_attributes X' = d_attributes X ->
  caches_ok c X -> caches_ok c' X'.
Proof.
  intros H1 H2 H3 D1 D2 D3 [G1 G2 G3]. unfold type_named, class_named, attributes_of in *.
  split; unfold type_named, class_named, attributes_of.
  - rewrite H1, D1. done.
  - rewrite H2, D2. done.
  - rewrite H3, D3. done.
Qed.

(** Opening the relation of [schema] gives the bundle [b]; it gives a table that
    holds [rows]. *)
Definition opens_to (d : D) (cfg : EngineConfig) (schema : TableSchema) (b : Bundle) : Prop :=
  exists d', bundle_open r schema cfg (Bundle_new, d) = (Ok tt, (b, d')).
Definition opens (d : D) (cfg : EngineConfig) (schema : TableSchema) (rows : list TableRow) : Prop :=
  exists b, opens_to d cfg schema b /\ bundle_holds r b schema rows.

(** Opening depends on the relation alone. *)
Lemma opens_to_same d d' cfg schema b :
  (bf_open_backend (relation_oid schema) (table_name schema) d').1 =
    (bf_open_backend (relation_oid schema) (table_name schema) d).1 ->
  opens_to d cfg schema b -> opens_to d' cfg schema b.
Proof.
  intros Hsame (d2 & Hopen). unfold opens_to, bundle_open in *.
  destruct (bf_open_backend (relation_oid schema) (table_name schema) d) as [[backend|er|] d1]; try done.
  destruct (bf_open_backend (relation_oid schema) (table_name schema) d') as [res d1']. cbn in Hsame. subst res.
  destruct (store_open _ _) as [[[]|er|] w1]; try done.
  destruct (ef_open_engine _ _ _ _) as [[e|er|] w2]; try done.
  injection Hopen as <- _. by eexists.
Qed.

Lemma opens_to_other d cfg schema b rel s :
  relation_oid schema <> rel -> opens_to d cfg schema b -> opens_to (bf_store rel s d) cfg schema b.
Proof using All. intros Hne. apply opens_to_same. by rewrite rf_open_other. Qed.

Lemma opens_other d cfg schema rows rel s :
  relation_oid schema <> rel -> opens d cfg schema rows -> opens (bf_store rel s d) cfg schema rows.
Proof using All. intros Hne (b & Hb & Hh). exists b. split; [by apply opens_to_other|done]. Qed.

(** The bundle that [bundle_open] makes is in step, and other relations are as
    they were. *)
Lemma bundle_open_ok d cfg schema b rows :
  opens_to d cfg schema b -> bundle_holds r b schema rows ->
  exists d', bundle_open r schema cfg (Bundle_new, d) = (Ok tt, (b, d')) /\ synced b d' /\
    (forall rel s, rel <> relation_oid schema -> bf_load rel d' s = bf_load rel d s) /\
    (forall cfg' schema' b', relation_oid schema' <> relation_oid schema ->
      opens_to d cfg' schema' b' -> opens_to d' cfg' schema' b').
Proof using All.
  intros (d' & Hopen) Hb. exists d'. split; [done|]. unfold bundle_open in Hopen.
  destruct (bf_open_backend (relation_oid schema) (table_name schema) d) as [[backend|er|] d1] eqn:Hbf; try done.
  destruct (store_open _ _) as [[[]|er|] w1]; try done.
  destruct (ef_open_engine _ _ _ _) as [[e|er|] w2]; try done. injection Hopen as <- <-. split_and!.
  - eapply synced_iff; [done|]. apply rf_load_store.
  - intros rel s Hne. rewrite rf_load_other by done. by eapply rf_open.
  - intros cfg' schema' b' Hne Ho. apply opens_to_other; [done|]. eapply opens_to_same; [|exact Ho].
    by eapply rf_open_open.
Qed.

(** What an operation leaves alone: the open user tables, the configuration, the
    room in the system tables other than [ws], the relations that are not open. *)
Record frame (ws : list SystemTable) c c' : Prop := {
  fr_users o b : user_tables c !! o = Some b -> user_tables c' !! o = Some b;
  fr_config : cat_config c' = cat_config c;
  fr_room w : w ∉ ws -> bundle_keeps_room (system_table w c) (system_table w c');
  fr_opens cfg schema b : 4 < relation_oid schema -> user_tables c' !! relation_oid schema = None ->
    opens_to (backends c) cfg schema b -> opens_to (backends c') cfg schema b;
}.

Lemma frame_opens ws c c' cfg schema rows :
  frame ws c c' -> 4 < relation_oid schema -> user_tables c' !! relation_oid schema = None ->
  opens (backends c) cfg schema rows -> opens (backends c') cfg schema rows.
Proof. intros Hfr Hbig Hn (b & Hb & Hh). exists b. split; [by apply (fr_opens _ _ _ Hfr)|done]. Qed.

Lemma frame_refl ws c : frame ws c c.
Proof. split; try done. by intros w _ vss. Qed.
Lemma frame_trans ws ws' c c1 c2 : frame ws c c1 -> frame ws' c1 c2 -> frame (ws ++ ws') c c2.
Proof.
  intros [H1 H2 H3 H4] [G1 G2 G3 G4]. split; [auto|congruence|..].
  - intros w Hw vss Hv. rewrite not_elem_of_app in Hw. apply G3; [tauto|]. apply H3; tauto.
  - intros cfg schema b0 Ho Hn Hop. apply G4; [done|done|]. apply H4; [done| |done].
    destruct (user_tables c1 !! relation_oid schema) as [b|] eqn:Hb; [|done]. apply G1 in Hb. congruence.
Qed.

Lemma frame_after which b c ws rows :
  bundle_holds r b (sys_schema which) rows ->
  (which ∉ ws -> bundle_keeps_room (system_table which c) b) -> frame ws c (after_system which b c).
Proof using All.
  intros (e & Hs & _) Hroom. split; [done|done|..].
  - intros w Hw. destruct (decide (w = which)) as [->|Hne].
    + replace (system_table which (after_system which b c)) with b by (by destruct which). auto.
    + replace (system_table w (after_system which b c)) with (system_table w c) by (by destruct w, which).
      by intros vss.
  - intros cfg schema b' Ho _ Hop. unfold after_system, bundle_store. cbn. rewrite Hs. apply opens_to_other; [|done].
    pose proof (sys_schema_oid which). lia.
Qed.

(** Scanning a system table. *)
Lemma system_scan_ok fuel which c X :
  cat_ok c X -> (length (sys_rows X which) < fuel)%nat ->
  exists c', system_scan fuel which c = (Ok (sys_rows X which), c') /\ cat_ok c' X /\ frame [] c c' /\
    type_cache_by_name c' = type_cache_by_name c /\ class_cache_by_name c' = class_cache_by_name c /\
    attribute_cache_by_relid c' = attribute_cache_by_relid c.
Proof using All.
  intros [Hopen Hst Hca Hd] Hf. destruct (so_sys _ _ _ Hst which) as [Hb _].
  destruct (bundle_scan _ _ _ _ fuel Hb Hf) as (b' & Hrun & Hb' & Hroom).
  destruct (system_op which _ c _ _ _ _ _ Hst Hrun Hb') as [Hop Hst'].
  exists (after_system which b' c). split; [exact Hop|]. split; [|split_and!; try done; by eapply frame_after].
  split; [done| |by eapply (caches_ok_same c _ X)|done]. eapply catalog_stores_ext; [|exact Hst']. intros w. unfold upd. by case_decide; subst.
Qed.

(** Replacing the caches by others that agree with the data. *)
Lemma set_caches_ok c X tc cc ac :
  cat_ok c X -> caches_ok (set_caches tc cc ac c) X -> cat_ok (set_caches tc cc ac c) X /\
    frame [] c (set_caches tc cc ac c).
Proof.
  intros [Hop [H1 H3 H4] _ Hd] Hca. split; [split; [done|split|..]|split]; try done; intros w; try apply H3; try by intros _ vss.
  all: by destruct w.
Qed.

(** ** Lookups *)

(** Every scan of the system tables ends within [fuel]. *)
Definition enough fuel X : Prop := forall which, (length (sys_rows X which) < fuel)%nat.

Lemma emplace_lookup_cases {K A} `{Countable K} (key key' : K) (v v' : A) m :
  emplace key v m !! key' = Some v' -> m !! key' = Some v' \/ key' = key /\ v' = v.
Proof.
  unfold emplace. destruct (m !! key) eqn:Hm; [by left|]. intros [[-> ->]|[_ Hl]]%lookup_insert_Some; auto.
Qed.

Lemma check_open_ok c X : cat_ok c X -> check_open c = (Ok tt, c).
Proof. intros [Hop _ _ _]. unfold check_open. by rewrite Hop. Qed.

Lemma types_of_ok c X : cat_ok c X -> cat_types c = r.
Proof. intros [_ Hst _ _]. apply (so_types _ _ _ Hst). Qed.

(** The result of a lookup: what the data has, or [NotFound]. *)
Definition found {A} (o : option A) : Result A := match o with Some a => Ok a | None => Err NotFound end.

(** The common start of the operations that search a system table. *)
Lemma scan_then {A} fuel which c X (k : TypeRegistry -> list TableRow -> M Cat A) :
  cat_ok c X -> enough fuel X ->
  exists c', bindM (getM cat_types) (fun types => bindM (system_scan fuel which) (k types)) c
      = k r (sys_rows X which) c' /\ cat_ok c' X /\ frame [] c c' /\
    type_cache_by_name c' = type_cache_by_name c /\ class_cache_by_name c' = class_cache_by_name c /\
    attribute_cache_by_relid c' = attribute_cache_by_relid c.
Proof using All.
  intros Hok Hf. destruct (system_scan_ok fuel which c X Hok (Hf _)) as (c1 & Hs & Hrest).
  exists c1. split; [|done]. erewrite bind_ok by done. erewrite bind_ok by exact Hs. by rewrite (types_of_ok _ _ Hok).
Qed.

Ltac scan_step Hok Hf c1 Hok1 Hfr :=
  match type of Hok with cat_ok ?c ?X =>
  match goal with |- context [bindM (getM cat_types) (fun t => bindM (system_scan ?f ?w) (@?k t)) c] =>
    let Heq := fresh in destruct (scan_then f w c X k Hok Hf) as (c1 & Heq & Hok1 & Hfr & _);
    rewrite Heq; clear Heq
  end end; cbn beta; cbn [sys_rows].

(** A lookup that adds what it found to the caches. *)
Lemma cache_then {A} c0 c X tc cc ac (a : A) :
  cat_ok c X -> frame [] c0 c -> caches_ok (set_caches tc cc ac c) X ->
  exists c', bindM (modifyM (set_caches tc cc ac)) (fun _ => retM a) c = (Ok a, c') /\ cat_ok c' X /\ frame [] c0 c'.
Proof.
  intros Hok Hfr Hc. destruct (set_caches_ok c X tc cc ac Hok Hc) as [Hok' Hfr'].
  eexists. split; [done|]. split; [done|]. by apply (frame_trans [] [] c0 c).
Qed.

Lemma get_type_ok fuel c X name :
  cat_ok c X -> enough fuel X ->
  exists c', get_type fuel name c = (found (type_named X name), c') /\ cat_ok c' X /\ frame [] c c'.
Proof using All.
  intros Hok Hf. unfold get_type. erewrite bind_ok by (by eapply check_open_ok). erewrite bind_ok by done.
  destruct (type_cache_by_name c !! name) as [t|] eqn:Hc.
  { exists c. rewrite (ca_types_ok _ _ (ck_caches _ _ Hok) _ _ Hc). split_and!; [done|done|apply frame_refl]. }
  scan_step Hok Hf c1 Hok1 Hfr.
  unfold bindM at 1, liftR. erewrite find_row_ok; [|exact (decode_type_ok r ti tx tb Hr)|by apply (ck_data _ _ Hok)].
  unfold type_named. rewrite find_snd. destruct (List.find _ (d_types X)) as [[id t]|] eqn:Hfind; [|by exists c1].
  cbn [fmap option_fmap option_map fst snd found]. apply (cache_then c c1 X); [done|done|].
  apply List.find_some in Hfind as Hn. destruct Hn as [_ Hn%String.eqb_eq]. cbn in Hn.
  destruct (ck_caches _ _ Hok1) as [H1 H2 H3]. split; [|done|done].
  intros n t' [Hl|[-> ->]]%emplace_lookup_cases; [by apply H1|]. unfold type_named. by rewrite find_snd, Hn, Hfind.
Qed.

Lemma get_class_ok fuel c X name :
  cat_ok c X -> enough fuel X ->
  exists c', get_class fuel name c = (found (class_named X name), c') /\ cat_ok c' X /\ frame [] c c'.
Proof using All.
  intros Hok Hf. unfold get_class. erewrite bind_ok by (by eapply check_open_ok). erewrite bind_ok by done.
  destruct (class_cache_by_name c !! name) as [k|] eqn:Hc.
  { exists c. rewrite (ca_classes_ok _ _ (ck_caches _ _ Hok) _ _ Hc). split_and!; [done|done|apply frame_refl]. }
  scan_step Hok Hf c1 Hok1 Hfr.
  unfold bindM at 1, liftR. erewrite find_row_ok; [|exact (decode_class_ok r ti tx tb Hr)|by apply (ck_data _ _ Hok)].
  unfold class_named. rewrite find_snd. destruct (List.find _ (d_classes X)) as [[id k]|] eqn:Hfind; [|by exists c1].
  cbn [fmap option_fmap option_map fst snd found]. apply (cache_then c c1 X); [done|done|].
  apply List.find_some in Hfind as Hn. destruct Hn as [_ Hn%String.eqb_eq]. cbn in Hn.
  destruct (ck_caches _ _ Hok1) as [H1 H2 H3]. split; [done| |done].
  intros n k' [Hl|[-> ->]]%emplace_lookup_cases; [by apply H2|]. unfold class_named. by rewrite find_snd, Hn, Hfind.
Qed.

Lemma decoded_attributes X :
  ((fun p => (mkrow (attribute_row ti tx tb) p, p.2)) <$> d_attributes X).*2 = (d_attributes X).*2.
Proof. by rewrite <- list_fmap_compose. Qed.

Lemma get_attributes_ok fuel c X o :
  cat_ok c X -> enough fuel X ->
  exists c', get_attributes fuel o c =
      (match attributes_of X o with [] => Err NotFound | l => Ok l end, c') /\ cat_ok c' X /\ frame [] c c'.
Proof using All.
  intros Hok Hf. unfold get_attributes. erewrite bind_ok by (by eapply check_open_ok). erewrite bind_ok by done.
  destruct (attribute_cache_by_relid c !! o) as [l|] eqn:Hc.
  { exists c. destruct (ca_attributes_ok _ _ (ck_caches _ _ Hok) _ _ Hc) as [-> Hne].
    split_and!; [by destruct (attributes_of X o)|done|apply frame_refl]. }
  scan_step Hok Hf c1 Hok1 Hfr.
  unfold bindM at 1, liftR.
  erewrite decode_rows_ok; [|exact (decode_attribute_ok r ti tx tb Hr)|by apply (ck_data _ _ Hok)].
  cbn beta zeta. rewrite decoded_attributes. change (sort_by_attnum _) with (attributes_of X o).
  destruct (attributes_of X o) as [|a l] eqn:Ha; [by exists c1|]. cbn [length Nat.eqb].
  apply (cache_then c c1 X); [done|done|]. destruct (ck_caches _ _ Hok1) as [H1 H2 H3]. split; [done|done|].
  intros n l' [Hl|[-> ->]]%emplace_lookup_cases; [by apply H3|]. by rewrite Ha.
Qed.

(** A user table is opened at most once, with the schema its class describes. *)
Definition with_table X (o : Z) (entry : TableSchema * list TableRow) : CatalogData :=
  {| d_types := d_types X; d_classes := d_classes X; d_attributes := d_attributes X;
     d_tables := <[o := entry]> (d_tables X) |}.

(** The table of [k] holds [rows]: it is open, or it can be opened. *)
Definition table_holds c X (k : CatalogClass) (rows : list TableRow) : Prop :=
  match d_tables X !! cc_oid k with
  | Some entry => entry.2 = rows
  | None => opens (backends c) (cat_config c) (user_schema X k) rows
  end.

Lemma with_table_data X k rows :
  data_ok X -> k ∈ (d_classes X).*2 -> data_ok (with_table X (cc_oid k) (user_schema X k, rows)).
Proof.
  intros [H0 H1 H2 H3 H4 H5 H6 H7 H8 H9] Hk. split; try done. cbn.
  apply map_Forall_insert_2; [|exact H9]. by exists k.
Qed.

Lemma filter_attnum_nodup (l : list CatalogAttribute) o :
  NoDup (attribute_key <$> l) -> NoDup (attnum <$> filter (fun a => ca_relation_oid a = o) l).
Proof.
  intros Hk. induction l as [|a l IH]; [constructor|].
  cbn in Hk. apply NoDup_cons in Hk as [Hn Hk]. rewrite filter_cons. case_decide as Ha; [|auto].
  cbn. apply NoDup_cons. split; [|auto]. intros (a' & Heq & Hin)%list_elem_of_fmap.
  apply list_elem_of_filter in Hin as [Ha' Hin]. apply Hn, list_elem_of_fmap. exists a'. split; [|done].
  unfold attribute_key. congruence.
Qed.

Lemma attributes_sorted X o : data_ok X -> sort_by_attnum (attributes_of X o) = attributes_of X o.
Proof.
  intros Hd. destruct (sort_by_attnum_spec (filter (fun a => ca_relation_oid a = o) (d_attributes X).*2)) as [Hs Hp].
  apply sort_by_attnum_sorted; [by apply StronglySorted_Sorted|]. unfold attributes_of. rewrite Hp.
  apply filter_attnum_nodup, (do_keys _ Hd).
Qed.

Lemma class_by_oid X k k' :
  data_ok X -> k ∈ (d_classes X).*2 -> k' ∈ (d_classes X).*2 -> cc_oid k = cc_oid k' -> k = k'.
Proof.
  intros Hd Hk Hk' Ho. apply list_elem_of_lookup in Hk as (i & Hi). apply list_elem_of_lookup in Hk' as (j & Hj).
  assert (i = j) as ->; [|congruence]. apply (NoDup_lookup _ i j (cc_oid k) (do_oids _ Hd)).
  - by rewrite list_lookup_fmap, Hi.
  - by rewrite list_lookup_fmap, Hj, Ho.
Qed.

Lemma open_entry X k entry :
  data_ok X -> k ∈ (d_classes X).*2 -> d_tables X !! cc_oid k = Some entry -> entry.1 = user_schema X k.
Proof.
  intros Hd Hk Ht. destruct (do_tables _ Hd _ _ Ht) as (k' & Hk' & Ho & ->). by rewrite (class_by_oid X k' k).
Qed.

Lemma with_table_same X o entry : d_tables X !! o = Some entry -> with_table X o entry = X.
Proof. intros Ht. unfold with_table. rewrite insert_id by done. by destruct X. Qed.

(** The catalog after [bundle_open] made the bundle [b] for relation [o]. *)
Lemma add_user_ok c R U o b d' schema rows :
  catalog_stores c R U -> user_tables c !! o = None -> relation_oid schema = o -> 4 < o ->
  bundle_holds r b schema rows -> synced b d' ->
  (forall rel s, rel <> o -> bf_load rel d' s = bf_load rel (backends c) s) ->
  catalog_stores (set_user_tables (emplace o b (user_tables c)) (set_backends d' c)) R (<[o := (schema, rows)]> U).
Proof using All.
  intros [Ht Hsys Hus] Hnone Hrel Hbig Hb Hsync Hload. split; [done|..].
  - intros w. destruct (Hsys w) as [Hb' Hs']. replace (system_table w _) with (system_table w c) by (by destruct w).
    split; [done|]. eapply synced_same; [by eapply holds_runs| |exact Hs']. intros s. apply Hload.
    pose proof (sys_schema_oid w). lia.
  - intros o'. cbn. rewrite emplace_fresh by done. destruct (decide (o' = o)) as [->|Hne].
    + rewrite !lookup_insert_eq. constructor. by split_and!.
    + rewrite !lookup_insert_ne by done. specialize (Hus o'). destruct Hus as [b0 [s0 r0] (G1 & G2 & G3 & G4)|]; constructor.
      split_and!; [done|done|]. split; [done|]. eapply synced_same; [by eapply holds_runs| |exact G4].
      intros s. apply Hload. cbn in *. congruence.
Qed.

(** [b] is the bundle that serves [schema]: the open one, or the one that opening
    would make. *)
Definition serves c (schema : TableSchema) (b : Bundle) : Prop :=
  match user_tables c !! relation_oid schema with
  | Some b' => b' = b
  | None => opens_to (backends c) (cat_config c) schema b
  end.
Definition keeps_serving X c c' : Prop := forall k b,
  k ∈ (d_classes X).*2 -> 4 < cc_oid k -> serves c (user_schema X k) b -> serves c' (user_schema X k) b.

Lemma opens_to_functional d cfg schema b b' : opens_to d cfg schema b -> opens_to d cfg schema b' -> b = b'.
Proof. intros (d1 & H1) (d2 & H2). congruence. Qed.

Lemma frame_serves ws c c' schema b :
  frame ws c c' -> 4 < relation_oid schema ->
  (user_tables c !! relation_oid schema = None -> user_tables c' !! relation_oid schema = None) ->
  serves c schema b -> serves c' schema b.
Proof.
  intros Hfr Hbig Hn. unfold serves. destruct (user_tables c !! relation_oid schema) as [b0|] eqn:Hb.
  - by rewrite (fr_users _ _ _ Hfr _ _ Hb).
  - rewrite Hn, (fr_config _ _ _ Hfr) by done. apply (fr_opens _ _ _ Hfr); auto.
Qed.

(** The open tables are those of the data. *)
Lemma open_iff c X o : cat_ok c X -> user_tables c !! o = None <-> d_tables X !! o = None.
Proof. intros Hok. pose proof (so_users _ _ _ (ck_stores _ _ Hok) o) as Hu. by inversion Hu. Qed.

Lemma same_data_serving ws c c' X : cat_ok c X -> cat_ok c' X -> frame ws c c' -> keeps_serving X c c'.
Proof.
  intros Hok Hok' Hfr k b _ Hbig. apply (frame_serves ws); [done|done|]. cbn. by rewrite !(open_iff _ X).
Qed.

Lemma keeps_serving_trans X c c1 c2 : keeps_serving X c c1 -> keeps_serving X c1 c2 -> keeps_serving X c c2.
Proof. intros H1 H2 k b Hk Hbig Hs. apply H2; auto. Qed.

Lemma ensure_open_ok fuel c X k rows :
  cat_ok c X -> enough fuel X -> k ∈ (d_classes X).*2 -> 4 < cc_oid k -> table_holds c X k rows ->
  exists c', ensure_user_table_open fuel (cc_oid k) (cc_name k) [] c = (Ok (cc_oid k), c') /\
    cat_ok c' (with_table X (cc_oid k) (user_schema X k, rows)) /\ frame [] c c' /\ keeps_serving X c c'.
Proof using All.
  intros Hok Hf Hk Hbig Hth. unfold ensure_user_table_open. erewrite bind_ok by done. cbn beta. unfold table_holds in Hth.
  pose proof (so_users _ _ _ (ck_stores _ _ Hok) (cc_oid k)) as Hu.
  destruct (d_tables X !! cc_oid k) as [[schema rows0]|] eqn:Ht.
  - inversion Hu as [b ? _ Hb|]; subst. pose proof (open_entry _ _ _ (ck_data _ _ Hok) Hk Ht) as Hs. cbn in Hs.
    subst. exists c. rewrite with_table_same by done. split_and!; [done|done|apply frame_refl|by intros ???].
  - inversion Hu as [|Hnone]; subst. symmetry in Hnone.
    destruct (get_attributes_ok fuel c X (cc_oid k) Hok Hf) as (c1 & Hg & Hok1 & Hfr).
    pose proof (proj1 (Forall_forall _ _) (do_nonempty _ (ck_data _ _ Hok)) k Hk) as Hne. cbn in Hne.
    unfold bindM at 1. rewrite Hg. destruct (attributes_of X (cc_oid k)) as [|a l] eqn:Ha; [done|].
    rewrite <- Ha, attributes_sorted by apply (ck_data _ _ Hok). 
    assert (Hnone1 : user_tables c1 !! cc_oid k = None).
    { pose proof (so_users _ _ _ (ck_stores _ _ Hok1) (cc_oid k)) as Hu1. rewrite Ht in Hu1. by inversion Hu1. }
    assert (Hop : opens (backends c1) (cat_config c1) (user_schema X k) rows).
    { rewrite (fr_config _ _ _ Hfr). by apply (frame_opens _ _ _ _ _ _ Hfr). }
    destruct Hop as (b & Hop & Hholds).
    destruct (bundle_open_ok _ _ _ _ _ Hop Hholds) as (d' & Hb & Hsync & Hload & Hothers).
    rewrite (types_of_ok _ _ Hok1). fold (user_schema X k). rewrite Hb. eexists. split; [done|]. split; [|split].
    + split; [apply (ck_open _ _ Hok1)| |by eapply (caches_ok_same c1 _ X); [..|apply (ck_caches _ _ Hok1)]|by apply with_table_data; [apply (ck_data _ _ Hok1)|]].
      eapply catalog_stores_ext; [|apply add_user_ok; try done; apply (ck_stores _ _ Hok1)]. by intros [].
    + apply (frame_trans [] [] c c1); [done|]. split; [| done | |].
      * intros o b0 Hb0. cbn. rewrite emplace_fresh by done. rewrite lookup_insert_ne; [done|]. congruence.
      * intros w _ vss. by destruct w.
      * intros cfg schema b' Hbig' Hn Hop'. cbn in Hn |- *. apply Hothers; [|done]. cbn.
        rewrite emplace_fresh in Hn by done. intros Heq. by rewrite Heq, lookup_insert_eq in Hn.
    + apply (keeps_serving_trans X c c1); [by eapply same_data_serving|]. intros k' b' Hk' Hbig'. unfold serves. cbn.
      rewrite emplace_fresh by done. destruct (decide (cc_oid k' = cc_oid k)) as [Heq|Hno].
      * assert (k' = k) as -> by (apply (class_by_oid X); [apply (ck_data _ _ Hok)|done..]).
        rewrite lookup_insert_eq, Hnone1. intros Hop'. by eapply opens_to_functional.
      * rewrite lookup_insert_ne by done. destruct (user_tables c1 !! cc_oid k'); [done|]. intros Hop'.
        by apply Hothers.
Qed.

Lemma class_named_elem X name k : class_named X name = Some k -> k ∈ (d_classes X).*2 /\ cc_name k = name.
Proof.
  intros Hf. apply List.find_some in Hf as [Hin Hn%String.eqb_eq]. split; [by apply list_elem_of_In|done].
Qed.

Lemma table_holds_frame c c' X k rows :
  cat_ok c' X -> frame [] c c' -> 4 < cc_oid k -> table_holds c X k rows -> table_holds c' X k rows.
Proof.
  intros Hok Hfr Hbig. unfold table_holds. pose proof (so_users _ _ _ (ck_stores _ _ Hok) (cc_oid k)) as Hu.
  destruct (d_tables X !! cc_oid k); [done|]. inversion Hu. rewrite (fr_config _ _ _ Hfr).
  by apply (frame_opens _ _ _ _ _ _ Hfr).
Qed.

Lemma open_table_ok fuel c X name k rows :
  cat_ok c X -> enough fuel X -> class_named X name = Some k -> 4 < cc_oid k -> table_holds c X k rows ->
  exists c', open_table fuel name c = (Ok (cc_oid k), c') /\
    cat_ok c' (with_table X (cc_oid k) (user_schema X k, rows)) /\ frame [] c c' /\ keeps_serving X c c'.
Proof using All.
  intros Hok Hf Hk Hbig Hth. unfold open_table. erewrite bind_ok by (by eapply check_open_ok).
  destruct (get_class_ok fuel c X name Hok Hf) as (c1 & Hg & Hok1 & Hfr). rewrite Hk in Hg.
  erewrite bind_ok by exact Hg. destruct (class_named_elem _ _ _ Hk) as [Hin _].
  destruct (ensure_open_ok fuel c1 X k rows Hok1 Hf Hin Hbig) as (c2 & Hrun & Hok2 & Hfr2 & Hks); [by eapply table_holds_frame|].
  exists c2. split; [done|]. split; [done|]. split; [by apply (frame_trans [] [] c c1)|].
  apply (keeps_serving_trans X c c1); [by eapply same_data_serving|done].
Qed.
End catalog.

(** The same step for clients of this file. *)
Ltac scan_system Hok Hf c1 Hok1 Hfr :=
  match type of Hok with cat_ok ?r ?ti ?tx ?tb ?c ?X =>
  match goal with
  | Hreg : builtin_registry r ti tx tb
    |- context [bindM (getM cat_types) (fun t => bindM (system_scan ?f ?w) (@?k t)) c] =>
      let Heq := fresh in destruct (scan_then r ti tx tb Hreg f w c X k Hok Hf) as (c1 & Heq & Hok1 & Hfr & _);
      rewrite Heq; clear Heq
  end end; cbn beta; cbn [sys_rows].
