(* ===== verification/CatalogUpdate.v ===== *)
(** * CatalogUpdate: creating and dropping tables

    [create_table] adds a class and its attributes to the data of the catalog and
    opens the new table; [drop_table] removes them. *)
From stdpp Require Import sorting.
From S2P Require Import Prelude Utils TypeRegistry BuiltinTypes RowCodec RowCodecSpec StorageIO.
From S2P Require Import PageStore EvictionPolicy BufferPool HeapEngine TupleStore Table Bundle.
From S2P Require Import Catalog CatalogValues CatalogSpec.

(** ** The attributes of a new class *)

Lemma column_attributes_relid rel index columns :
  Forall (fun a => ca_relation_oid a = rel) (column_attributes rel index columns).
Proof. revert index. induction columns as [|c cs IH]; intros index; constructor; [done|apply IH]. Qed.

Lemma column_attributes_above rel index columns :
  Forall (fun a => index < attnum a) (column_attributes rel index columns).
Proof.
  revert index. induction columns as [|c cs IH]; intros index; constructor; [cbn; lia|].
  eapply Forall_impl; [apply IH|]. cbn. lia.
Qed.

Lemma column_attributes_sorted rel index columns :
  Sorted attnum_le (column_attributes rel index columns) /\ NoDup (attnum <$> column_attributes rel index columns).
Proof.
  revert index. induction columns as [|c cs IH]; intros index; cbn; [split; constructor|].
  destruct (IH (index + 1)) as [Hs Hn]. pose proof (column_attributes_above rel (index + 1) cs) as Hab. split.
  - constructor; [done|]. destruct cs as [|c' cs]; constructor. unfold attnum_le. cbn. lia.
  - apply NoDup_cons. split; [|done]. intros (a & Ha & Hin)%list_elem_of_fmap.
    rewrite Forall_forall in Hab. specialize (Hab a Hin). cbn in Hab. lia.
Qed.

Lemma column_attributes_keys rel index columns :
  NoDup (attribute_key <$> column_attributes rel index columns).
Proof.
  destruct (column_attributes_sorted rel index columns) as [_ Hn].
  apply (NoDup_fmap_1 snd). by rewrite <- list_fmap_compose.
Qed.

Lemma column_attributes_columns rel index columns :
  attribute_column <$> column_attributes rel index columns = columns.
Proof. revert index. induction columns as [|[] cs IH]; intros index; cbn; [done|]. by rewrite IH. Qed.

Lemma filter_all {A} (P : A -> Prop) `{!forall x, Decision (P x)} (l : list A) : Forall P l -> filter P l = l.
Proof. induction 1 as [|x l Hx _ IH]; [done|]. by rewrite filter_cons_True, IH. Qed.
Lemma filter_map {A B} (f : A -> B) (P : B -> Prop) `{!forall x, Decision (P x)} (l : list A) :
  filter P (f <$> l) = f <$> filter (fun x => P (f x)) l.
Proof.
  induction l as [|x l IH]; [done|]. rewrite fmap_cons, !filter_cons. case_decide; by rewrite IH.
Qed.
Lemma filter_no {A} (P : A -> Prop) `{!forall x, Decision (P x)} (l : list A) :
  Forall (fun x => ~ P x) l -> filter P l = [].
Proof. induction 1 as [|x l Hx _ IH]; [done|]. by rewrite filter_cons_False. Qed.

(** ** Adding a class *)

(** [X'] is [X] with the class [k] and the attributes [new], which are the only
    ones of their relation. *)
Record adds_class (X X' : CatalogData) (k : CatalogClass) (new : list CatalogAttribute) : Prop := {
  ac_types : d_types X' = d_types X;
  ac_classes : (d_classes X').*2 ≡ₚ k :: (d_classes X).*2;
  ac_attributes : (d_attributes X').*2 ≡ₚ new ++ (d_attributes X).*2;
  ac_tables : d_tables X' = d_tables X;
}.

Section add.
Context (X X' : CatalogData) (k : CatalogClass) (columns : list ColumnSchema).
#[local] Abbreviation new := (column_attributes (cc_oid k) 0 columns).
Context (Hd : data_ok X) (Hadd : adds_class X X' k new).
Context (Hfresh : cc_oid k ∉ cc_oid <$> (d_classes X).*2) (Hname : class_named X (cc_name k) = None).

Lemma added_keys : NoDup (attribute_key <$> (d_attributes X').*2).
Proof using All.
  rewrite (ac_attributes _ _ _ _ Hadd), fmap_app. apply NoDup_app. split_and!.
  - apply column_attributes_keys.
  - intros key (a & -> & Ha)%list_elem_of_fmap (a' & Hkey & Ha')%list_elem_of_fmap.
    pose proof (column_attributes_relid (cc_oid k) 0 columns) as Hr. rewrite Forall_forall in Hr.
    pose proof (do_owned _ Hd) as Ho. rewrite Forall_forall in Ho. specialize (Ho a' Ha').
    injection Hkey as Hk _. rewrite <- Hk, (Hr a Ha) in Ho. done.
  - apply (do_keys _ Hd).
Qed.

Lemma added_other o : o <> cc_oid k -> attributes_of X' o = attributes_of X o.
Proof using All.
  intros Hne. symmetry. apply sort_by_attnum_perm; [by apply filter_attnum_nodup, (do_keys _ Hd)|].
  rewrite (ac_attributes _ _ _ _ Hadd), filter_app, (filter_no _ new); [done|].
  eapply Forall_impl; [apply column_attributes_relid|]. cbn. congruence.
Qed.

Lemma added_own : attributes_of X' (cc_oid k) = new.
Proof using All.
  destruct (column_attributes_sorted (cc_oid k) 0 columns) as [Hs Hn].
  rewrite <- (sort_by_attnum_sorted new) by done.
  apply sort_by_attnum_perm; [apply filter_attnum_nodup, added_keys|].
  rewrite (ac_attributes _ _ _ _ Hadd), filter_app, filter_all by apply column_attributes_relid.
  rewrite filter_no; [by rewrite app_nil_r|]. pose proof (do_owned _ Hd) as Ho. rewrite Forall_forall in Ho |- *.
  intros a Ha Heq. specialize (Ho a Ha). by rewrite Heq in Ho.
Qed.

Lemma old_class k' : k' ∈ (d_classes X).*2 -> cc_oid k' <> cc_oid k.
Proof using Hfresh. intros Hk Heq. apply Hfresh. rewrite <- Heq. by apply list_elem_of_fmap_2. Qed.

Lemma added_schema k' : k' ∈ (d_classes X).*2 -> user_schema X' k' = user_schema X k'.
Proof using All. intros Hk'. unfold user_schema. by rewrite added_other by (by apply old_class). Qed.

Lemma added_own_schema :
  user_schema X' k = {| relation_oid := cc_oid k; table_name := cc_name k; table_columns := columns |}.
Proof using All. unfold user_schema. by rewrite added_own, column_attributes_columns. Qed.

Lemma added_data :
  class_ok k -> Forall attribute_ok new -> columns <> [] -> data_ok X'.
Proof using All.
  intros Hk Hnew Hne. destruct Hadd as [Ht Hc Ha Htab]. split.
  - destruct (do_system _ Hd) as (k0 & Hin & Hrest). exists k0. rewrite Hc. split; [by right|done].
  - rewrite Ht. apply (do_types _ Hd).
  - rewrite Hc. constructor; [done|]. apply (do_classes _ Hd).
  - rewrite Ha. apply Forall_app. split; [done|]. apply (do_attributes _ Hd).
  - rewrite Hc. cbn. apply NoDup_cons. split; [|apply (do_names _ Hd)]. by apply find_none_iff.
  - rewrite Hc. cbn. apply NoDup_cons. split; [done|]. apply (do_oids _ Hd).
  - apply added_keys.
  - rewrite Ha. apply Forall_app. split.
    + eapply Forall_impl; [apply column_attributes_relid|]. intros a ->. rewrite Hc. by left.
    + eapply Forall_impl; [apply (do_owned _ Hd)|]. cbn. intros a Hin. rewrite Hc. by right.
  - rewrite Hc. constructor; [rewrite added_own; by destruct columns|].
    pose proof (do_nonempty _ Hd) as Hn. rewrite Forall_forall in Hn |- *. intros k' Hk'.
    rewrite added_other by (by apply old_class). by apply Hn.
  - rewrite Htab. intros o entry Ho. destruct (do_tables _ Hd _ _ Ho) as (k' & Hk' & Hok & Hs).
    exists k'. rewrite Hc, added_schema by done. split; [by right|done].
Qed.

Lemma added_named :
  data_ok X' -> class_named X' (cc_name k) = Some k /\
  forall n, n <> cc_name k -> class_named X' n = class_named X n.
Proof using All.
  intros Hd'. split.
  - apply find_unique; [apply (do_names _ Hd')| |done]. rewrite (ac_classes _ _ _ _ Hadd). by left.
  - intros n Hn. destruct (class_named X n) as [k'|] eqn:Hk'.
    + apply class_named_elem in Hk' as [Hin Hn']. apply find_unique; [apply (do_names _ Hd')| |done].
      rewrite (ac_classes _ _ _ _ Hadd). by right.
    + apply find_none_iff. apply find_none_iff in Hk'. rewrite (ac_classes _ _ _ _ Hadd). cbn.
      rewrite not_elem_of_cons. done.
Qed.
End add.

(** ** [create_table] *)

Section create.
Context {D S E : Type} `{!BackendFactory D S} `{!StorageIO S} `{!EngineFactory S E}.
Context `{!StorageEngine E} `{!TupleStore E} `{!RelationFiles D S E}.
Context (r : TypeRegistry) (ti tx tb : Type_) (Hr : builtin_registry r ti tx tb).
#[local] Abbreviation Cat := (Catalog D S E).
Implicit Types (c : Cat) (X : CatalogData).

#[local] Abbreviation stores := (catalog_stores r ti tx tb).
#[local] Abbreviation ok := (cat_ok r ti tx tb).
#[local] Abbreviation frames := (frame r).
#[local] Abbreviation schema_of := (sys_schema ti tx tb).

(** The caches and the flag are untouched. *)
Definition same_meta c c' : Prop :=
  type_cache_by_name c' = type_cache_by_name c /\ class_cache_by_name c' = class_cache_by_name c /\
  attribute_cache_by_relid c' = attribute_cache_by_relid c /\ cat_opened c' = cat_opened c.

(** A row that the table of [which] accepts. *)
Definition fits_row (which : SystemTable) (vs : list Value) : Prop :=
  row_ok (RowCodec_new r (table_columns (schema_of which))) vs /\ row_size vs < 2 ^ 32.

Lemma sys_codec_ok which : codec_ok (RowCodec_new r (table_columns (schema_of which))).
Proof using Hr.
  apply (system_codec_ok r ti tx tb Hr).
  destruct which; cbn [schema_of sys_schema table_columns type_schema class_schema attribute_schema index_schema];
    repeat (apply Forall_cons; split; [unfold system_column; cbn [col_type_oid In]; tauto|]); by apply Forall_nil.
Qed.

Lemma fits_encodes which vs : fits_row which vs ->
  exists bs, encode (RowCodec_new r (table_columns (schema_of which))) vs = Ok bs.
Proof using Hr.
  intros [Hrow Hsize]. destruct (encode_layout _ _ (sys_codec_ok which) Hrow Hsize) as (bs & Henc & _). eauto.
Qed.

Lemma system_insert_ok which c R U vs rest :
  stores c R U -> fits_row which vs -> Forall (fits_row which) rest ->
  bundle_takes (system_table which c) (vs :: rest) ->
  exists id c' rows', system_insert which vs c = (Ok id, c') /\ stores c' (upd R which rows') U /\
    rows' ≡ₚ {| row_id := id; row_values := stored <$> vs |} :: R which /\
    frames [which] c c' /\ same_meta c c' /\ bundle_takes (system_table which c') rest.
Proof using All.
  intros Hst [Hrow Hsize] Hrest Htk. destruct (so_sys _ _ _ _ _ _ _ Hst which) as [Hb _].
  destruct (bundle_insert r _ _ _ vs rest Hb (sys_codec_ok which) Hrow Hsize Htk)
    as (id & b' & rows' & Hrun & Hb' & Htk' & _ & Hp).
  { eapply Forall_impl; [exact Hrest|]. apply fits_encodes. }
  destruct (system_op r ti tx tb Hr which _ c _ _ _ _ _ Hst Hrun Hb') as [Hop Hst'].
  exists id, (after_system which b' c), rows'. split_and!; try done.
  - eapply (frame_after r ti tx tb Hr); [exact Hb'|]. set_solver.
  - by destruct which.
Qed.

Lemma frame_weaken ws ws' c c' : ws ⊆ ws' -> frames ws c c' -> frames ws' c c'.
Proof using Type.
  clear Hr. intros Hsub [H1 H2 H3 H4]. split; try done. intros w Hw. apply H3. intros Hin. apply Hw. by apply Hsub.
Qed.

Lemma same_meta_trans c c1 c2 : same_meta c c1 -> same_meta c1 c2 -> same_meta c c2.
Proof. intros (H1 & H2 & H3 & H4) (G1 & G2 & G3 & G4). split_and!; congruence. Qed.

Lemma write_attributes_ok columns rest : forall rel index c R U attrs,
  stores c R U -> R AttributeTable = mkrow (attribute_row ti tx tb) <$> attrs ->
  Forall attribute_ok (column_attributes rel index columns) ->
  Forall (fits_row AttributeTable) ((attribute_row ti tx tb <$> column_attributes rel index columns) ++ rest) ->
  bundle_takes (attribute_table c) ((attribute_row ti tx tb <$> column_attributes rel index columns) ++ rest) ->
  exists c' attrs', write_schema_attributes rel index columns c = (Ok tt, c') /\
    stores c' (upd R AttributeTable (mkrow (attribute_row ti tx tb) <$> attrs')) U /\
    attrs'.*2 ≡ₚ column_attributes rel index columns ++ attrs.*2 /\
    frames [AttributeTable] c c' /\ same_meta c c' /\ bundle_takes (attribute_table c') rest.
Proof using All.
  induction columns as [|column columns IH]; intros rel index c R U attrs Hst HR Hok Hfit Htk.
  - exists c, attrs. split; [done|]. split_and!; [|done|apply frame_refl|done|done].
    eapply catalog_stores_ext; [|exact Hst]. intros w. unfold upd. case_decide; [by subst|done].
  - cbn [column_attributes] in Hok, Hfit, Htk |- *. rewrite fmap_cons in Hfit, Htk. cbn [app] in Hfit, Htk.
    apply Forall_cons in Hok as [Ha Hok], Hfit as [Hfa Hfit].
    cbn [write_schema_attributes]. erewrite bind_ok by done. cbn beta. rewrite (so_types _ _ _ _ _ _ _ Hst).
    unfold bindM at 1, liftR. rewrite (attribute_values_ok r ti tx tb Hr) by done.
    destruct (system_insert_ok AttributeTable c R U _ _ Hst Hfa Hfit Htk)
      as (id & c1 & rows1 & Hrun & Hst1 & Hp1 & Hfr1 & Hca1 & Htk1).
    erewrite bind_ok by exact Hrun. rewrite stored_attribute, HR in Hp1.
    apply (mkrow_perm (attribute_row ti tx tb) rows1 ((id, column_attribute rel index column) :: attrs)) in Hp1
      as (attrs1 & -> & Hp1).
    destruct (IH rel (index + 1) c1 _ U attrs1 Hst1) as (c2 & attrs2 & Hrun2 & Hst2 & Hp2 & Hfr2 & Hca2 & Htk2); try done.
    exists c2, attrs2. split; [exact Hrun2|]. split_and!.
    + eapply catalog_stores_ext; [|exact Hst2]. intros w. unfold upd. by case_decide.
    + rewrite Hp2, Hp1. cbn. by rewrite Permutation_middle.
    + apply (frame_weaken ([AttributeTable] ++ [AttributeTable])); [set_solver|]. by eapply frame_trans.
    + by eapply same_meta_trans.
    + done.
Qed.

(** The largest oid in use, and the next one. *)
Definition oid_bound X : Z := foldr Z.max 0 (cc_oid <$> (d_classes X).*2).
Definition next_oid X : Z := oid_bound X + 1.

Lemma oid_bound_above X : Forall (fun k => cc_oid k <= oid_bound X) (d_classes X).*2.
Proof.
  unfold oid_bound. induction (d_classes X).*2 as [|k l IH]; constructor; cbn; [lia|].
  eapply Forall_impl; [exact IH|]. cbn. lia.
Qed.

Lemma next_oid_fresh X : next_oid X ∉ cc_oid <$> (d_classes X).*2.
Proof.
  intros (k & Hk & Hin)%list_elem_of_fmap. pose proof (oid_bound_above X) as Ha. rewrite Forall_forall in Ha.
  specialize (Ha k Hin). unfold next_oid in Hk. cbn in Ha. lia.
Qed.

Lemma next_oid_user X : data_ok X -> 4 < next_oid X.
Proof.
  intros Hd. destruct (do_system _ Hd) as (k & Hk & Ho & _). pose proof (oid_bound_above X) as Ha.
  rewrite Forall_forall in Ha. specialize (Ha k Hk). unfold next_oid, INDEX_RELATION_OID in *. cbn in Ha. lia.
Qed.

Lemma next_oid_ok fuel c X :
  ok c X -> enough ti tx tb fuel X -> next_oid X < 2 ^ 31 ->
  exists c', next_relation_oid fuel c = (Ok (next_oid X), c') /\ ok c' X /\ frames [] c c'.
Proof using All.
  intros Hok Hf Hlim. unfold next_relation_oid. scan_system Hok Hf c1 Hok1 Hfr. unfold max_class_oid.
  unfold bindM, liftR. erewrite decode_rows_ok; [|exact (decode_class_ok r ti tx tb Hr)|apply (ck_data _ _ _ _ _ _ Hok)].
  cbn [bindR]. set (step := fun (m : Z) (rc : TableRow * CatalogClass) => if m <? cc_oid rc.2 then cc_oid rc.2 else m).
  assert (Hmax : forall l m, foldl step m ((fun p => (mkrow (class_row ti tx) p, p.2)) <$> l)
    = Z.max m (foldr Z.max m (cc_oid <$> l.*2))).
  { induction l as [|[id k] l IH]; intros m; cbn; [lia|]. rewrite IH. unfold step. cbn [snd].
    assert (Hf0 : forall l0 m0 m1, m0 <= m1 -> Z.max m1 (foldr Z.max m1 l0) = Z.max m1 (foldr Z.max m0 l0)).
    { induction l0 as [|x l0 IH0]; intros m0 m1 Hm; cbn; [lia|]. specialize (IH0 m0 m1 Hm). lia. }
    destruct (Z.ltb_spec m (cc_oid k)); [rewrite (Hf0 _ m) by lia|]; lia. }
  rewrite Hmax. exists c1. split; [|done]. unfold retM. do 2 f_equal.
  pose proof (next_oid_user X (ck_data _ _ _ _ _ _ Hok)) as H4. unfold next_oid, oid_bound in *.
  rewrite Z.max_r by lia. apply wrap32_id. lia.
Qed.

(** What [create_table] needs: a new name, columns of known types, room for the
    rows of the system tables, and a relation that can be opened. *)
Record can_create (fuel : nat) c X (name : string) (columns : list ColumnSchema) (rows : list TableRow) : Prop := {
  cn_name : name <> EmptyString;
  cn_new : class_named X name = None;
  cn_columns : columns <> [];
  cn_types : Forall (fun column => exists t, lookup_oid r (col_type_oid column) = Ok t) columns;
  cn_oid : next_oid X < 2 ^ 31;
  cn_count : Z.of_nat (length columns) < 2 ^ 31;
  cn_class_size : row_size (class_row ti tx
    {| cc_oid := next_oid X; cc_name := name; relkind := RELKIND_TABLE |}) < 2 ^ 32;
  cn_class_room : bundle_takes (class_table c)
    [class_row ti tx {| cc_oid := next_oid X; cc_name := name; relkind := RELKIND_TABLE |}];
  cn_attribute_size : Forall (fun a => row_size (attribute_row ti tx tb a) < 2 ^ 32)
    (column_attributes (next_oid X) 0 columns);
  cn_attribute_room : bundle_takes (attribute_table c)
    (attribute_row ti tx tb <$> column_attributes (next_oid X) 0 columns);
  cn_open : opens r (backends c) (cat_config c)
    {| relation_oid := next_oid X; table_name := name; table_columns := columns |} rows;
  cn_fuel : (length (d_types X) < fuel)%nat /\ (length (d_classes X) + 1 < fuel)%nat /\
    (length (d_attributes X) + length columns < fuel)%nat;
}.

Lemma check_types_ok columns :
  Forall (fun column => exists t, lookup_oid r (col_type_oid column) = Ok t) columns ->
  check_column_types r columns = Ok tt.
Proof. induction 1 as [|column columns (t & Ht) _ IH]; [done|]. cbn. by rewrite Ht. Qed.

Lemma new_attributes_ok rel columns : forall index,
  small rel -> 0 <= index -> index + Z.of_nat (length columns) < 2 ^ 31 ->
  Forall (fun column => exists t, lookup_oid r (col_type_oid column) = Ok t) columns ->
  Forall attribute_ok (column_attributes rel index columns).
Proof using Hr.
  induction columns as [|column columns IH]; intros index Hrel Hi Hl Ht; constructor.
  - apply Forall_cons in Ht as [(t & Ht) _]. cbn [length] in Hl. split_and!; cbn; [done|unfold small; lia|].
    destruct Hr as [Hwf Hs _ _ _]. apply lookup_oid_wf in Ht as (i & Hit & <-); [|done].
    apply (rw_oid _ Hwf) in Hit as Ho. apply lookup_lt_Some in Hit. unfold small. lia.
  - apply Forall_cons in Ht as [_ Ht]. cbn [length] in Hl. apply IH; [done|lia|lia|done].
Qed.

Definition new_class X (name : string) : CatalogClass :=
  {| cc_oid := next_oid X; cc_name := name; relkind := RELKIND_TABLE |}.

Lemma created_caches c c' X X' name columns :
  caches_ok c X -> same_meta c c' -> data_ok X -> data_ok X' -> class_named X name = None ->
  adds_class X X' (new_class X name) (column_attributes (next_oid X) 0 columns) ->
  caches_ok (invalidate_class_cache (next_oid X) name c') X'.
Proof.
  intros [H1 H2 H3] (S1 & S2 & S3 & _) Hd Hd' Hnew Hadd. pose proof (next_oid_fresh X) as Hfresh.
  destruct (added_named X X' (new_class X name) columns Hd Hadd Hfresh Hnew Hd') as [_ Hold].
  split; cbn; rewrite ?S1, ?S2, ?S3.
  - intros n t Ht. unfold type_named. rewrite (ac_types _ _ _ _ Hadd). by apply H1.
  - intros n k [Hne Hk]%lookup_delete_Some. rewrite Hold by done. by apply H2.
  - intros o l [Hne Hl]%lookup_delete_Some. destruct (H3 _ _ Hl) as [-> Hnil]. split; [|done].
    symmetry. by eapply (added_other X X' (new_class X name) columns).
Qed.

(** The part of [create_table] that writes the system tables. *)
Lemma create_rows_ok {A} fuel c X name columns rows (K : unit -> M Cat A) :
  ok c X -> can_create fuel c X name columns rows ->
  exists c' X', bindM (system_insert ClassTable (class_row ti tx (new_class X name)))
      (fun _ => bindM (write_schema_attributes (next_oid X) 0 columns)
        (fun _ => bindM (modifyM (invalidate_class_cache (next_oid X) name)) K)) c = K tt c' /\
    ok c' X' /\ adds_class X X' (new_class X name) (column_attributes (next_oid X) 0 columns) /\
    frames [ClassTable; AttributeTable] c c'.
Proof using All.
  intros [Hop Hst Hca Hd] Hcn. pose proof (next_oid_user X Hd) as H4. pose proof (cn_oid _ _ _ _ _ _ Hcn) as Hlim.
  assert (Hsm : small (next_oid X)) by (unfold small; lia).
  assert (Hattr : Forall attribute_ok (column_attributes (next_oid X) 0 columns)).
  { apply new_attributes_ok; [done|lia| |apply (cn_types _ _ _ _ _ _ Hcn)]. apply (cn_count _ _ _ _ _ _ Hcn). }
  destruct (system_insert_ok ClassTable c _ _ (class_row ti tx (new_class X name)) [] Hst)
    as (id & c1 & rows1 & Hrun1 & Hst1 & Hp1 & Hfr1 & Hca1 & _).
  { split; [apply (class_row_ok r ti tx tb Hr)|apply (cn_class_size _ _ _ _ _ _ Hcn)]. }
  { constructor. }
  { apply (cn_class_room _ _ _ _ _ _ Hcn). }
  rewrite stored_class in Hp1.
  apply (mkrow_perm (class_row ti tx) rows1 ((id, new_class X name) :: d_classes X)) in Hp1 as (classes & -> & Hp1).
  erewrite bind_ok by exact Hrun1.
  destruct (write_attributes_ok columns [] (next_oid X) 0 c1 _ _ (d_attributes X) Hst1)
    as (c2 & attrs & Hrun2 & Hst2 & Hp2 & Hfr2 & Hca2 & _); [done|done|..].
  { rewrite app_nil_r. apply Forall_fmap. eapply Forall_impl; [apply (cn_attribute_size _ _ _ _ _ _ Hcn)|].
    intros a Ha. split; [apply (attribute_row_ok r ti tx tb Hr)|exact Ha]. }
  { rewrite app_nil_r. apply (fr_room _ _ _ _ Hfr1 AttributeTable); [set_solver|]. apply (cn_attribute_room _ _ _ _ _ _ Hcn). }
  erewrite bind_ok by exact Hrun2. erewrite bind_ok by done. cbn beta.
  set (X' := {| d_types := d_types X; d_classes := classes; d_attributes := attrs; d_tables := d_tables X |}).
  assert (Hadd : adds_class X X' (new_class X name) (column_attributes (next_oid X) 0 columns)).
  { split; [done| |exact Hp2|done]. cbn. by rewrite Hp1. }
  assert (Hd' : data_ok X').
  { eapply (added_data X X' (new_class X name) columns); [done|done|apply next_oid_fresh|..];
      first [done|apply (cn_new _ _ _ _ _ _ Hcn)|apply (cn_columns _ _ _ _ _ _ Hcn)]. }
  eexists _, X'. split; [reflexivity|]. split_and!; [|done|].
  - split; [|..|done].
    + cbn. destruct Hca1 as (_ & _ & _ & Ho1), Hca2 as (_ & _ & _ & Ho2). congruence.
    + destruct Hst2 as [T1 T3 T4]. split; [done| |done]. intros w. specialize (T3 w).
      destruct w; exact T3.
    + eapply created_caches; try done; [by eapply same_meta_trans|apply (cn_new _ _ _ _ _ _ Hcn)].
  - apply (frame_weaken ([ClassTable] ++ [AttributeTable])); [set_solver|].
    destruct (frame_trans _ _ _ _ _ _ Hfr1 Hfr2) as [F1 F2 F3 F4]. split; [done|done| |done].
    intros w. specialize (F3 w). by destruct w.
Qed.

Lemma length_column_attributes rel index columns :
  length (column_attributes rel index columns) = length columns.
Proof. revert index. induction columns as [|c cs IH]; intros index; cbn; [done|]. by rewrite IH. Qed.

(** The new relation is not open before, so it can still be opened. *)
Lemma fresh_not_open c X o : ok c X -> o ∉ cc_oid <$> (d_classes X).*2 -> d_tables X !! o = None /\ user_tables c !! o = None.
Proof.
  intros Hok Hfresh. assert (Hnone : d_tables X !! o = None).
  { destruct (d_tables X !! o) as [entry|] eqn:Ht; [|done]. destruct Hfresh.
    destruct (do_tables _ (ck_data _ _ _ _ _ _ Hok) _ _ Ht) as (k & Hk & <- & _). by apply list_elem_of_fmap_2. }
  split; [done|]. pose proof (so_users _ _ _ _ _ _ _ (ck_stores _ _ _ _ _ _ Hok) o) as Hu. rewrite Hnone in Hu. by inversion Hu.
Qed.

Lemma can_create_frame fuel c c' X name columns rows :
  frames [] c c' -> ok c' X -> data_ok X ->
  can_create fuel c X name columns rows -> can_create fuel c' X name columns rows.
Proof.
  intros Hfr Hok Hd []. split; try done.
  - apply (fr_room _ _ _ _ Hfr ClassTable); [set_solver|done].
  - apply (fr_room _ _ _ _ Hfr AttributeTable); [set_solver|done].
  - rewrite (fr_config _ _ _ _ Hfr). apply (frame_opens _ _ _ _ _ _ _ Hfr); [by apply next_oid_user| |done].
    apply (fresh_not_open c' X); [done|apply next_oid_fresh].
Qed.

Lemma created_opens fuel c c' X X' name columns rows :
  ok c X -> ok c' X' -> can_create fuel c X name columns rows -> frames [ClassTable; AttributeTable] c c' ->
  adds_class X X' (new_class X name) (column_attributes (next_oid X) 0 columns) ->
  table_holds r c' X' (new_class X name) rows.
Proof using All.
  intros Hok Hok' Hcn Hfr Hadd. destruct (fresh_not_open c X (next_oid X) Hok (next_oid_fresh X)) as [Hn _].
  unfold table_holds. rewrite (ac_tables _ _ _ _ Hadd). cbn [cc_oid new_class]. rewrite Hn.
  rewrite (added_own_schema X X' (new_class X name) columns); try done;
    [|apply (ck_data _ _ _ _ _ _ Hok)|apply next_oid_fresh|apply (cn_new _ _ _ _ _ _ Hcn)].
  rewrite (fr_config _ _ _ _ Hfr). apply (frame_opens _ _ _ _ _ _ _ Hfr).
  - apply next_oid_user, (ck_data _ _ _ _ _ _ Hok).
  - pose proof (so_users _ _ _ _ _ _ _ (ck_stores _ _ _ _ _ _ Hok') (next_oid X)) as Hu.
    rewrite (ac_tables _ _ _ _ Hadd), Hn in Hu. by inversion Hu.
  - apply (cn_open _ _ _ _ _ _ Hcn).
Qed.

Lemma create_table_ok fuel c X name columns rows :
  ok c X -> can_create fuel c X name columns rows ->
  exists c' X', create_table fuel {| spec_name := name; spec_columns := columns |} c = (Ok (next_oid X), c') /\
    adds_class X X' (new_class X name) (column_attributes (next_oid X) 0 columns) /\
    ok c' (with_table X' (next_oid X) (user_schema X' (new_class X name), rows)) /\
    frames [ClassTable; AttributeTable] c c' /\ enough ti tx tb fuel X'.
Proof using All.
  intros Hok Hcn. destruct (cn_fuel _ _ _ _ _ _ Hcn) as (F1 & F2 & F3).
  assert (Hf : enough ti tx tb fuel X).
  { intros []; cbn; rewrite ?length_fmap; lia. }
  unfold create_table. erewrite bind_ok by (by eapply check_open_ok). cbn [spec_name spec_columns].
  rewrite (proj2 (String.eqb_neq _ _) (cn_name _ _ _ _ _ _ Hcn)).
  assert (Hlen : (length columns =? 0)%nat = false)
    by (pose proof (cn_columns _ _ _ _ _ _ Hcn); by destruct columns).
  rewrite Hlen. cbn [orb].
  destruct (get_class_ok r ti tx tb Hr fuel c X name Hok Hf) as (c1 & Hg & Hok1 & Hfr1).
  rewrite (cn_new _ _ _ _ _ _ Hcn) in Hg. unfold bindM at 1, attempt. rewrite Hg. cbn [found].
  rewrite bool_decide_true by done. cbn [negb]. erewrite bind_ok by done. cbn beta.
  rewrite (types_of_ok _ _ _ _ _ _ Hok1). unfold bindM at 1, liftR.
  rewrite check_types_ok by apply (cn_types _ _ _ _ _ _ Hcn).
  pose proof (cn_oid _ _ _ _ _ _ Hcn) as Hlim. pose proof (next_oid_user X (ck_data _ _ _ _ _ _ Hok)) as H4.
  destruct (next_oid_ok fuel c1 X Hok1 Hf Hlim) as (c2 & Hn & Hok2 & Hfr2). erewrite bind_ok by exact Hn. cbn beta.
  unfold bindM at 1. rewrite (class_values_ok r ti tx tb Hr) by (unfold small; lia).
  pose proof (frame_trans _ _ _ _ _ _ Hfr1 Hfr2) as Hfr. cbn [app] in Hfr.
  assert (Hcn2 : can_create fuel c2 X name columns rows) by (apply (can_create_frame fuel c); [done|done|apply (ck_data _ _ _ _ _ _ Hok)|done]).
  destruct (create_rows_ok fuel c2 X name columns rows
    (fun _ => bindM (ensure_user_table_open fuel (next_oid X) name []) (fun _ => retM (next_oid X))) Hok2 Hcn2)
    as (c3 & X' & Hrun3 & Hok3 & Hadd & Hfr3).
  fold (new_class X name). rewrite Hrun3.
  assert (Hf' : enough ti tx tb fuel X').
  { pose proof (Permutation_length (ac_classes _ _ _ _ Hadd)) as L1.
    pose proof (Permutation_length (ac_attributes _ _ _ _ Hadd)) as L2.
    rewrite length_app, length_column_attributes, !length_fmap in L2. cbn in L1. rewrite !length_fmap in L1.
    intros []; cbn; rewrite ?length_fmap, ?(ac_types _ _ _ _ Hadd); lia. }
  destruct (ensure_open_ok r ti tx tb Hr fuel c3 X' (new_class X name) rows Hok3 Hf') as (c4 & Hrun4 & Hok4 & Hfr4 & _).
  - rewrite (ac_classes _ _ _ _ Hadd). by left.
  - done.
  - by eapply created_opens.
  - exists c4, X'. unfold bindM at 1. cbn [new_class cc_oid cc_name] in Hrun4. rewrite Hrun4. split_and!; try done.
    apply (frame_trans r ([] ++ [ClassTable; AttributeTable]) [] c c3); [by apply (frame_trans r [] _ c c2)|done].
Qed.
End create.

(** ** Removing a class *)

Record removes_class (X X' : CatalogData) (k : CatalogClass) : Prop := {
  rc_types : d_types X' = d_types X;
  rc_classes : (d_classes X).*2 ≡ₚ k :: (d_classes X').*2;
  rc_attributes : (d_attributes X').*2 ≡ₚ filter (fun a => ca_relation_oid a <> cc_oid k) (d_attributes X).*2;
  rc_tables : d_tables X' = delete (cc_oid k) (d_tables X);
}.

Section remove.
Context (X X' : CatalogData) (k : CatalogClass).
Context (Hd : data_ok X) (Hrem : removes_class X X' k).

Lemma removed_other o : o <> cc_oid k -> attributes_of X' o = attributes_of X o.
Proof using All.
  intros Hne. symmetry. apply sort_by_attnum_perm; [by apply filter_attnum_nodup, (do_keys _ Hd)|].
  rewrite (rc_attributes _ _ _ Hrem), list_filter_filter_l; [done|]. intros a ->. done.
Qed.
Lemma removed_own : attributes_of X' (cc_oid k) = [].
Proof using All.
  unfold attributes_of. destruct (sort_by_attnum_spec (filter (fun a => ca_relation_oid a = cc_oid k) (d_attributes X').*2))
    as [_ Hp]. apply Permutation_nil_r. rewrite Hp, (rc_attributes _ _ _ Hrem).
  rewrite filter_no; [done|]. apply Forall_forall. intros a [Ha _]%list_elem_of_filter. done.
Qed.
Lemma remaining_class k' : k' ∈ (d_classes X').*2 -> k' ∈ (d_classes X).*2 /\ cc_oid k' <> cc_oid k /\ cc_name k' <> cc_name k.
Proof using All.
  intros Hk'. split; [rewrite (rc_classes _ _ _ Hrem); by right|].
  pose proof (do_oids _ Hd) as Ho. pose proof (do_names _ Hd) as Hn. rewrite (rc_classes _ _ _ Hrem) in Ho, Hn. cbn in Ho, Hn.
  apply NoDup_cons in Ho as [Ho _], Hn as [Hn _].
  split; intros Heq; [apply Ho|apply Hn]; rewrite <- Heq; by apply list_elem_of_fmap_2.
Qed.

Lemma removed_data : relkind k = RELKIND_TABLE -> data_ok X'.
Proof using All.
  intros Hkind. destruct Hrem as [Ht Hc Ha Htab].
  assert (Hsub : forall a, a ∈ (d_attributes X').*2 <-> ca_relation_oid a <> cc_oid k /\ a ∈ (d_attributes X).*2)
    by (intros a; rewrite Ha, list_elem_of_filter; done).
  assert (Hcls : forall k', k' ∈ (d_classes X).*2 -> cc_oid k' <> cc_oid k -> k' ∈ (d_classes X').*2).
  { intros k' Hk' Hne. rewrite Hc in Hk'. apply elem_of_cons in Hk' as [->|]; done. }
  split.
  - destruct (do_system _ Hd) as (k0 & Hin & Ho & Hk0). exists k0. split; [|done]. rewrite Hc in Hin.
    apply elem_of_cons in Hin as [->|]; done.
  - rewrite Ht. apply (do_types _ Hd).
  - apply Forall_forall. intros k' [Hin _]%remaining_class. by apply (proj1 (Forall_forall _ _) (do_classes _ Hd)).
  - apply Forall_forall. intros a [_ Hin]%Hsub. by apply (proj1 (Forall_forall _ _) (do_attributes _ Hd)).
  - pose proof (do_names _ Hd) as Hn. rewrite Hc in Hn. by apply NoDup_cons in Hn as [_ Hn].
  - pose proof (do_oids _ Hd) as Hn. rewrite Hc in Hn. by apply NoDup_cons in Hn as [_ Hn].
  - rewrite Ha. eapply sublist_NoDup; [apply (do_keys _ Hd)|]. apply fmap_sublist, sublist_filter.
  - apply Forall_forall. intros a [Hne Hin]%Hsub.
    pose proof (proj1 (Forall_forall _ _) (do_owned _ Hd) a Hin) as (k' & Hk' & Hin')%list_elem_of_fmap.
    rewrite Hk' in Hne |- *. apply list_elem_of_fmap_2. by apply Hcls.
  - apply Forall_forall. intros k' Hk'. apply remaining_class in Hk' as (Hin & Hne & _).
    rewrite removed_other by done. by apply (proj1 (Forall_forall _ _) (do_nonempty _ Hd)).
  - rewrite Htab. intros o entry [Hne Ho]%lookup_delete_Some.
    destruct (do_tables _ Hd _ _ Ho) as (k' & Hk' & Hok & Hs). exists k'.
    split; [apply Hcls; [done|congruence]|]. split; [done|]. unfold user_schema in *. by rewrite removed_other by congruence.
Qed.

Lemma removed_named :
  class_named X' (cc_name k) = None /\ forall n, n <> cc_name k -> class_named X' n = class_named X n.
Proof using All.
  assert (Hk : k ∈ (d_classes X).*2) by (rewrite (rc_classes _ _ _ Hrem); by left). split.
  - apply find_none_iff. intros (k' & Heq & Hin)%list_elem_of_fmap. by apply remaining_class in Hin as (_ & _ & Hne).
  - intros n Hn. pose proof (do_names _ Hd) as Hnd. rewrite (rc_classes _ _ _ Hrem) in Hnd. cbn in Hnd.
    apply NoDup_cons in Hnd as [_ Hnd]. destruct (class_named X n) as [k'|] eqn:Hk'.
    + apply class_named_elem in Hk' as [Hin Hname]. apply find_unique; [done| |done].
      rewrite (rc_classes _ _ _ Hrem) in Hin. apply elem_of_cons in Hin as [->|]; done.
    + apply find_none_iff. apply find_none_iff in Hk'. rewrite (rc_classes _ _ _ Hrem) in Hk'. cbn in Hk'.
      by apply not_elem_of_cons in Hk' as [_ Hk'].
Qed.
End remove.

(** ** [drop_table] *)

Section drop.
Context {D S E : Type} `{!BackendFactory D S} `{!StorageIO S} `{!EngineFactory S E}.
Context `{!StorageEngine E} `{!TupleStore E} `{!RelationFiles D S E}.
Context (r : TypeRegistry) (ti tx tb : Type_) (Hr : builtin_registry r ti tx tb).
#[local] Abbreviation Cat := (Catalog D S E).
Implicit Types (c : Cat) (X : CatalogData).
#[local] Abbreviation stores := (catalog_stores r ti tx tb).
#[local] Abbreviation ok := (cat_ok r ti tx tb).

Lemma delete_rows_ok which dels : forall c R U rest,
  stores c R U -> R which ≡ₚ dels ++ rest ->
  exists c' rows', delete_rows which dels c = (Ok tt, c') /\ stores c' (upd R which rows') U /\ rows' ≡ₚ rest /\
    same_meta c c'.
Proof using All.
  induction dels as [|row dels IH]; intros c R U rest Hst Hp.
  - exists c, (R which). split; [done|]. split_and!; [|done|done].
    eapply catalog_stores_ext; [|exact Hst]. intros w. unfold upd. by case_decide; subst.
  - destruct (so_sys _ _ _ _ _ _ _ Hst which) as [Hb _].
    destruct (bundle_delete r _ _ _ row Hb) as (b' & rows1 & Hrun & Hb' & _ & Hp1); [rewrite Hp; by left|].
    destruct (system_op r ti tx tb Hr which _ c _ _ _ _ _ Hst Hrun Hb') as [Hop Hst1].
    cbn [delete_rows]. erewrite bind_ok by exact Hop.
    destruct (IH (after_system which b' c) _ U rest Hst1) as (c2 & rows2 & Hrun2 & Hst2 & Hp2 & Hca2).
    { unfold upd. rewrite decide_True by done. rewrite Hp1 in Hp. by apply Permutation_cons_inv in Hp. }
    exists c2, rows2. split; [exact Hrun2|]. split_and!; [|done|exact Hca2].
    eapply catalog_stores_ext; [|exact Hst2]. intros w. unfold upd. by case_decide.
Qed.

Lemma dropped_caches c c' X X' k :
  caches_ok c X -> same_meta c c' -> data_ok X -> removes_class X X' k ->
  caches_ok (invalidate_class_cache (cc_oid k) (cc_name k) c') X'.
Proof.
  intros [H1 H2 H3] (S1 & S2 & S3 & _) Hd Hrem. destruct (removed_named X X' k Hd Hrem) as [_ Hold].
  split; cbn; rewrite ?S1, ?S2, ?S3.
  - intros n t Ht. unfold type_named. rewrite (rc_types _ _ _ Hrem). by apply H1.
  - intros n k' [Hne Hk]%lookup_delete_Some. rewrite Hold by done. by apply H2.
  - intros o l [Hne Hl]%lookup_delete_Some. destruct (H3 _ _ Hl) as [-> Hnil]. split; [|done].
    symmetry. by eapply (removed_other X X' k).
Qed.

Lemma find_oid X k :
  data_ok X -> k ∈ (d_classes X).*2 ->
  exists id, List.find (fun p => cc_oid p.2 =? cc_oid k) (d_classes X) = Some (id, k) /\ (id, k) ∈ d_classes X.
Proof.
  intros Hd Hk. destruct (List.find _ _) as [[id k']|] eqn:Hf.
  - apply List.find_some in Hf as [Hin%list_elem_of_In Ho%Z.eqb_eq]. cbn in Ho.
    assert (k' = k) as ->; [|eauto]. apply (class_by_oid X); try done. by apply (list_elem_of_fmap_2 snd) in Hin.
  - apply list_elem_of_fmap in Hk as ([id k'] & -> & Hin). eapply List.find_none in Hf; [|by apply list_elem_of_In].
    cbn in Hf. by rewrite Z.eqb_refl in Hf.
Qed.

Lemma lookup_class_row_ok fuel c X o :
  ok c X -> enough ti tx tb fuel X ->
  exists c', lookup_class_row fuel o c =
      (Ok (mkrow (class_row ti tx) <$> List.find (fun p => cc_oid p.2 =? o) (d_classes X)), c') /\
    ok c' X /\ frame r [] c c'.
Proof using All.
  intros Hok Hf. unfold lookup_class_row. scan_system Hok Hf c1 Hok1 Hfr. unfold bindM, liftR.
  erewrite find_row_ok; [|exact (decode_class_ok r ti tx tb Hr)|apply (ck_data _ _ _ _ _ _ Hok)].
  exists c1. split; [|done]. unfold retM. do 2 f_equal. by destruct (List.find _ _).
Qed.

Lemma lookup_attribute_rows_ok fuel c X o :
  ok c X -> enough ti tx tb fuel X ->
  exists c', lookup_attribute_rows fuel o c =
      (Ok (mkrow (attribute_row ti tx tb) <$> filter (fun p => ca_relation_oid p.2 = o) (d_attributes X)), c') /\
    ok c' X /\ frame r [] c c'.
Proof using All.
  intros Hok Hf. unfold lookup_attribute_rows. scan_system Hok Hf c1 Hok1 Hfr. unfold bindM, liftR.
  erewrite decode_rows_ok; [|exact (decode_attribute_ok r ti tx tb Hr)|apply (ck_data _ _ _ _ _ _ Hok)].
  exists c1. split; [|done]. unfold retM. do 2 f_equal. rewrite filter_map, <- list_fmap_compose. done.
Qed.

Lemma filter_snd {A B} (P : B -> Prop) `{!forall x, Decision (P x)} (l : list (A * B)) :
  (filter (fun p => P p.2) l).*2 = filter P l.*2.
Proof. by rewrite filter_map. Qed.

(** Deleting the rows of [k] from both tables. *)
Lemma drop_rows_ok c X k id :
  ok c X -> (id, k) ∈ d_classes X -> relkind k = RELKIND_TABLE ->
  exists c' X', bindM (delete_rows AttributeTable
        (mkrow (attribute_row ti tx tb) <$> filter (fun p => ca_relation_oid p.2 = cc_oid k) (d_attributes X)))
      (fun _ => bindM (delete_rows ClassTable [mkrow (class_row ti tx) (id, k)])
        (fun _ => bindM (modifyM (erase_user_table (cc_oid k)))
          (fun _ => modifyM (invalidate_class_cache (cc_oid k) (cc_name k))))) c = (Ok tt, c') /\
    ok c' X' /\ removes_class X X' k.
Proof using All.
  intros [Hop Hst Hca Hd] Hin Hkind. set (mine := filter (fun p => ca_relation_oid p.2 = cc_oid k) (d_attributes X)).
  set (others := filter (fun p => ~ ca_relation_oid p.2 = cc_oid k) (d_attributes X)).
  destruct (delete_rows_ok AttributeTable (mkrow (attribute_row ti tx tb) <$> mine) c _ _
    (mkrow (attribute_row ti tx tb) <$> others) Hst) as (c1 & rows1 & Hrun1 & Hst1 & Hp1 & Hca1).
  { cbn. rewrite <- fmap_app. apply fmap_Permutation. symmetry. apply filter_app_complement. }
  erewrite bind_ok by exact Hrun1. apply mkrow_perm in Hp1 as (attrs & -> & Hp1).
  apply elem_of_Permutation in Hin as (classes & Hcls).
  destruct (delete_rows_ok ClassTable [mkrow (class_row ti tx) (id, k)] c1 _ _ (mkrow (class_row ti tx) <$> classes) Hst1)
    as (c2 & rows2 & Hrun2 & Hst2 & Hp2 & Hca2).
  { unfold upd. rewrite decide_False by done. cbn. by rewrite Hcls. }
  erewrite bind_ok by exact Hrun2. apply mkrow_perm in Hp2 as (classes' & -> & Hp2).
  set (X' := {| d_types := d_types X; d_classes := classes'; d_attributes := attrs;
                d_tables := delete (cc_oid k) (d_tables X) |}).
  assert (Hrem : removes_class X X' k).
  { split; [done|..|done]; cbn; [by rewrite Hcls, Hp2|]. rewrite Hp1. unfold others. by rewrite <- filter_snd. }
  eexists _, X'. split; [done|]. split; [|done]. split.
  - cbn. destruct Hca1 as (_ & _ & _ & Ho1), Hca2 as (_ & _ & _ & Ho2). congruence.
  - destruct Hst2 as [T1 T3 T4]. split; [done|..].
    + intros w. specialize (T3 w). by destruct w.
    + intros o. specialize (T4 o). cbn. destruct (decide (o = cc_oid k)) as [->|Hne].
      * rewrite !lookup_delete_eq. constructor.
      * by rewrite !lookup_delete_ne.
  - eapply dropped_caches; try done. by eapply same_meta_trans.
  - by eapply removed_data.
Qed.

Lemma drop_table_ok fuel c X k :
  ok c X -> enough ti tx tb fuel X -> k ∈ (d_classes X).*2 -> relkind k = RELKIND_TABLE ->
  exists c' X', drop_table fuel (cc_oid k) c = (Ok tt, c') /\ ok c' X' /\ removes_class X X' k.
Proof using All.
  intros Hok Hf Hk Hkind. unfold drop_table. erewrite bind_ok by (by eapply check_open_ok). erewrite bind_ok by done.
  cbn beta. destruct (find_oid X k (ck_data _ _ _ _ _ _ Hok) Hk) as (id & Hfind & Hin).
  destruct (lookup_class_row_ok fuel c X (cc_oid k) Hok Hf) as (c1 & Hl & Hok1 & _). rewrite Hfind in Hl.
  erewrite bind_ok by exact Hl. cbn [fmap option_fmap option_map]. unfold bindM at 1, liftR.
  rewrite (types_of_ok _ _ _ _ _ _ Hok). unfold mkrow at 1. cbn [fst snd].
  rewrite (decode_class_ok r ti tx tb Hr) by (by apply (proj1 (Forall_forall _ _) (do_classes _ (ck_data _ _ _ _ _ _ Hok)))).
  rewrite Hkind, String.eqb_refl. cbn [negb].
  destruct (lookup_attribute_rows_ok fuel c1 X (cc_oid k) Hok1 Hf) as (c2 & Ha & Hok2 & _).
  erewrite bind_ok by exact Ha. cbn beta. by apply drop_rows_ok.
Qed.

(** What [drop_table] refuses. *)
Lemma drop_table_refuses fuel c X o :
  ok c X -> enough ti tx tb fuel X ->
  (o ∉ cc_oid <$> (d_classes X).*2 -> exists c', drop_table fuel o c = (Err NotFound, c') /\ ok c' X) /\
  (forall k, k ∈ (d_classes X).*2 -> cc_oid k = o -> relkind k <> RELKIND_TABLE ->
    exists c', drop_table fuel o c = (Err InvalidArgument, c') /\ ok c' X).
Proof using All.
  intros Hok Hf. unfold drop_table.
  destruct (lookup_class_row_ok fuel c X o Hok Hf) as (c1 & Hl & Hok1 & _).
  split.
  - intros Hno. exists c1. split; [|done]. erewrite bind_ok by (by eapply check_open_ok). erewrite bind_ok by done.
    cbn beta. assert (Hnone : List.find (fun p => cc_oid p.2 =? o) (d_classes X) = None).
    { destruct (List.find _ _) as [[id k]|] eqn:Hfind; [|done]. apply List.find_some in Hfind as [Hin%list_elem_of_In Ho%Z.eqb_eq].
      destruct Hno. cbn in Ho. subst o. apply list_elem_of_fmap_2. by apply (list_elem_of_fmap_2 snd) in Hin. }
    rewrite Hnone in Hl. by erewrite bind_ok by exact Hl.
  - intros k Hk <- Hkind. exists c1. split; [|done]. erewrite bind_ok by (by eapply check_open_ok). erewrite bind_ok by done.
    cbn beta. destruct (find_oid X k (ck_data _ _ _ _ _ _ Hok) Hk) as (id & Hfind & Hin). rewrite Hfind in Hl.
    erewrite bind_ok by exact Hl. cbn [fmap option_fmap option_map]. unfold bindM at 1, liftR.
    rewrite (types_of_ok _ _ _ _ _ _ Hok). unfold mkrow at 1. cbn [fst snd].
    rewrite (decode_class_ok r ti tx tb Hr) by (by apply (proj1 (Forall_forall _ _) (do_classes _ (ck_data _ _ _ _ _ _ Hok)))).
    by rewrite (proj2 (String.eqb_neq _ _) Hkind).
Qed.
End drop.
