(* ===== verification/CatalogOpen.v ===== *)
(** * CatalogOpen: opening a catalog

    A catalog over relations that are empty bootstraps itself; a catalog over
    relations that hold a catalog's data finds that data again. *)
From S2P Require Import Prelude Utils TypeRegistry BuiltinTypes RowCodec RowCodecSpec StorageIO.
From S2P Require Import PageStore EvictionPolicy BufferPool HeapEngine TupleStore Table Bundle.
From S2P Require Import Catalog CatalogValues CatalogSpec CatalogUpdate.

Definition empty_data : CatalogData :=
  {| d_types := []; d_classes := []; d_attributes := []; d_tables := ∅ |}.
(** The stored part of the data: no user table is open. *)
Definition at_rest (X : CatalogData) : CatalogData :=
  {| d_types := d_types X; d_classes := d_classes X; d_attributes := d_attributes X; d_tables := ∅ |}.

(** ** The data of a new catalog *)

Definition catalog_type (t : Type_) : CatalogType :=
  {| ct_oid := oid t; ct_name := type_name t; ct_fixed_size := fixed_size t |}.
Definition system_classes : list CatalogClass :=
  [{| cc_oid := TYPE_RELATION_OID; cc_name := "edb_type"; relkind := RELKIND_SYSTEM |};
   {| cc_oid := CLASS_RELATION_OID; cc_name := "edb_class"; relkind := RELKIND_SYSTEM |};
   {| cc_oid := ATTRIBUTE_RELATION_OID; cc_name := "edb_attribute"; relkind := RELKIND_SYSTEM |};
   {| cc_oid := INDEX_RELATION_OID; cc_name := "edb_index"; relkind := RELKIND_INDEX |}].
Definition system_attributes (ti tx tb : Type_) : list CatalogAttribute :=
  column_attributes TYPE_RELATION_OID 0 (table_columns (type_schema ti tx)) ++
  column_attributes CLASS_RELATION_OID 0 (table_columns (class_schema ti tx)) ++
  column_attributes ATTRIBUTE_RELATION_OID 0 (table_columns (attribute_schema ti tx tb)) ++
  column_attributes INDEX_RELATION_OID 0 (table_columns (index_schema ti tx)).

(** The names of the bootstrapped types, and the types a registry has for them. *)
Definition bootstrap_names : list string := ["int32"; "int64"; "float64"; "bool"; "text"].
Definition boot_types (r : TypeRegistry) (ts : list Type_) : Prop :=
  Forall2 (fun n t => lookup_name r n = Ok t /\ match fixed_size t with Some n => small n | None => True end)
    bootstrap_names ts.

Record boot_data (ti tx tb : Type_) (ts : list Type_) (X : CatalogData) : Prop := {
  bt_types : (d_types X).*2 ≡ₚ catalog_type <$> ts;
  bt_classes : (d_classes X).*2 ≡ₚ system_classes;
  bt_attributes : (d_attributes X).*2 ≡ₚ system_attributes ti tx tb;
  bt_tables : d_tables X = ∅;
}.

(** Check each element of a concrete list. *)
Ltac each_elem H :=
  repeat (apply elem_of_cons in H as [->|H]; [apply (bool_decide_eq_true_1 _); vm_compute; reflexivity|]);
  apply elem_of_nil in H.

Section open.
Context {D S E : Type} `{!BackendFactory D S} `{!StorageIO S} `{!EngineFactory S E}.
Context `{!StorageEngine E} `{!TupleStore E} `{!RelationFiles D S E}.
Context (r : TypeRegistry) (ti tx tb : Type_) (Hr : builtin_registry r ti tx tb).
#[local] Abbreviation Cat := (Catalog D S E).
#[local] Abbreviation Bundle := (OpenedTableBundle S E).
Implicit Types (c : Cat) (X : CatalogData).
#[local] Abbreviation stores := (catalog_stores r ti tx tb).
#[local] Abbreviation ok := (cat_ok r ti tx tb).
#[local] Abbreviation schema_of := (sys_schema ti tx tb).

(** ** Opening the system tables *)

(** A bundle that is not open. *)
Definition closed_bundle (ps : PageStore) : Bundle := {| bd_storage := Closed ps; bd_table := None |}.

(** What the page store was configured with before does not matter. *)
Lemma bundle_open_closed ps schema cfg d b d' :
  bundle_open r schema cfg (Bundle_new, d) = (Ok tt, (b, d')) ->
  bundle_open r schema cfg (closed_bundle ps, d) = (Ok tt, (b, d')).
Proof.
  unfold bundle_open. destruct (bf_open_backend _ _ d) as [[backend|er|] d1]; [|done..].
  unfold store_open, bindM, assertM, liftR. cbn [bundle_pstore closed_bundle Bundle_new bd_storage bd_table].
  destruct (edb_assert _) as [[]|er|]; [|done..]. cbn [modifyM set_pstore].
  destruct (ef_open_engine _ _ _ _) as [[e|er|] w2]; [done| |done]. destruct (store_close w2) as [[[]|?|] w3]; done.
Qed.

(** The tables [ws] are open, with the rows [R]; the others will be [B]. *)
Record opening c (ws : list SystemTable) (R : SystemTable -> list TableRow) (B : SystemTable -> Bundle) : Prop := {
  og_types : cat_types c = r;
  og_holds w : bundle_holds r (B w) (schema_of w) (R w);
  og_open w : w ∈ ws -> system_table w c = B w /\ synced (B w) (backends c);
  og_closed w : w ∉ ws -> (exists ps, system_table w c = closed_bundle ps) /\ opens_to r (backends c) (cat_config c) (schema_of w) (B w);
}.

Definition opened_from c c' : Prop :=
  same_meta c c' /\ user_tables c' = user_tables c /\ cat_config c' = cat_config c /\
  forall cfg schema b, 4 < relation_oid schema ->
    opens_to r (backends c) cfg schema b -> opens_to r (backends c') cfg schema b.

Lemma opened_from_trans c c1 c2 : opened_from c c1 -> opened_from c1 c2 -> opened_from c c2.
Proof.
  intros (H1 & H2 & H3 & H4) (G1 & G2 & G3 & G4).
  split_and!; [by eapply same_meta_trans|congruence|congruence|auto].
Qed.

Lemma open_system_ok c ws R B w :
  opening c ws R B -> w ∉ ws ->
  exists c', open_system w (schema_of w) c = (Ok tt, c') /\ opening c' (w :: ws) R B /\ opened_from c c'.
Proof using All.
  intros [Ht Hh Ho Hc] Hw. destruct (Hc w Hw) as [[ps Hnew] Hto].
  destruct (bundle_open_ok r ti tx tb Hr _ _ _ _ _ Hto (Hh w)) as (d' & Hrun & Hsync & Hload & Hothers).
  apply (bundle_open_closed ps) in Hrun.
  unfold open_system. erewrite bind_ok by done. erewrite bind_ok by done. cbn beta.
  unfold on_system_bundle. rewrite Hnew, Ht, Hrun. eexists. split; [done|]. split.
  - split; [by destruct w|done|..].
    + intros w' [->|Hw']%elem_of_cons; [by destruct w|]. destruct (decide (w' = w)) as [->|Hne]; [done|].
      destruct (Ho w' Hw') as [<- Hs]. split; [by destruct w, w'|].
      eapply synced_same; [eapply (holds_runs r); rewrite (proj1 (Ho w' Hw')); apply Hh| |exact Hs].
      intros s. apply Hload. intros Heq. by apply (sys_schema_inj ti tx tb) in Heq.
    + intros w' Hw'. apply not_elem_of_cons in Hw' as [Hne Hw']. destruct (Hc w' Hw') as [[ps' Hn'] Hto'].
      split; [exists ps'; by destruct w, w'|]. replace (cat_config _) with (cat_config c) by (by destruct w).
      apply Hothers; [|done]. intros Heq. by apply (sys_schema_inj ti tx tb) in Heq.
  - split_and!; [by destruct w|by destruct w|by destruct w|]. intros cfg schema b H4 Hb. apply Hothers; [|done].
    pose proof (sys_schema_oid ti tx tb w). lia.
Qed.

Lemma open_system_tables_ok c R B :
  opening c [] R B -> user_tables c = ∅ ->
  exists c', open_system_tables c = (Ok tt, c') /\ stores c' R ∅ /\ opened_from c c' /\
    forall w, system_table w c' = B w.
Proof using All.
  intros Hop Hu. destruct Hr as [_ _ (Hi & _) (Hx & _) (Hb & _)]. unfold open_system_tables. erewrite bind_ok by done.
  cbn beta. rewrite (og_types _ _ _ _ Hop), Hi, Hx, Hb. cbn [both checked]. erewrite bind_ok by done. cbn beta iota.
  destruct (open_system_ok _ _ _ _ TypeTable Hop ltac:(set_solver)) as (c1 & Hr1 & Hop1 & Hf1). erewrite bind_ok by exact Hr1.
  destruct (open_system_ok _ _ _ _ ClassTable Hop1 ltac:(set_solver)) as (c2 & Hr2 & Hop2 & Hf2). erewrite bind_ok by exact Hr2.
  destruct (open_system_ok _ _ _ _ AttributeTable Hop2 ltac:(set_solver)) as (c3 & Hr3 & Hop3 & Hf3). erewrite bind_ok by exact Hr3.
  destruct (open_system_ok _ _ _ _ IndexTable Hop3 ltac:(set_solver)) as (c4 & Hr4 & Hop4 & Hf4).
  pose proof (opened_from_trans _ _ _ (opened_from_trans _ _ _ (opened_from_trans _ _ _ Hf1 Hf2) Hf3) Hf4) as Hf.
  assert (Hall : forall w, w ∈ [IndexTable; AttributeTable; ClassTable; TypeTable]) by (intros []; set_solver).
  exists c4. split_and!; [exact Hr4| |done|intros w; by apply (og_open _ _ _ _ Hop4)].
  destruct Hf as (_ & Hu4 & _). split; [apply (og_types _ _ _ _ Hop4)|..].
  - intros w. destruct (og_open _ _ _ _ Hop4 w (Hall w)) as [-> Hs]. split; [apply (og_holds _ _ _ _ Hop4)|done].
  - intros o. rewrite Hu4, Hu, !lookup_empty. constructor.
Qed.

(** ** Bootstrapping *)

(** An operation that only looks at a system table. *)
Lemma stores_look {A} which (m : M Bundle A) c R U a b' :
  stores c R U -> m (system_table which c) = (Ok a, b') -> bundle_holds r b' (schema_of which) (R which) ->
  bundle_keeps_room (system_table which c) b' ->
  exists c', on_system which m c = (Ok a, c') /\ stores c' R U /\ frame r [] c c' /\ same_meta c c'.
Proof using All.
  intros Hst Hm Hb Hroom. destruct (system_op r ti tx tb Hr which m c R U (Ok a) b' _ Hst Hm Hb) as [Hop Hst'].
  exists (after_system which b' c). split; [exact Hop|]. split_and!; try done.
  - eapply catalog_stores_ext; [|exact Hst']. intros w. unfold upd. by case_decide; subst.
  - by eapply (frame_after r ti tx tb Hr).
Qed.

Lemma stores_scan fuel which c R U :
  stores c R U -> (length (R which) < fuel)%nat ->
  exists c', system_scan fuel which c = (Ok (R which), c') /\ stores c' R U /\ frame r [] c c' /\ same_meta c c'.
Proof using All.
  intros Hst Hf. destruct (so_sys _ _ _ _ _ _ _ Hst which) as [Hb _].
  destruct (bundle_scan _ _ _ _ fuel Hb Hf) as (b' & Hrun & Hb' & Hroom). by eapply stores_look.
Qed.

Lemma stores_columns which c R U :
  stores c R U ->
  exists c', system_columns which c = (Ok (table_columns (schema_of which)), c') /\ stores c' R U /\
    frame r [] c c' /\ same_meta c c'.
Proof using All.
  intros Hst. destruct (so_sys _ _ _ _ _ _ _ Hst which) as [Hb _]. pose proof Hb as (e & Hs & HT & _).
  eapply stores_look; [exact Hst| |exact Hb|by intros vss]. unfold on_table. rewrite HT, Hs.
  unfold retM, table_schema_of. cbn. f_equal. by destruct (system_table which c); cbn in *; subst.
Qed.

(** A loop that inserts a row for each item of a list. *)
Lemma insert_each {A B} which (f : B -> list Value) (item : A -> B) (loop : list A -> M Cat unit) (P : A -> Prop) :
  (forall c, loop [] c = (Ok tt, c)) -> (forall b, stored <$> f b = f b) ->
  (forall a l c, cat_types c = r -> P a ->
    loop (a :: l) c = bindM (system_insert which (f (item a))) (fun _ => loop l) c) ->
  forall l c R U bs, stores c R U -> R which = mkrow f <$> bs -> Forall P l ->
    Forall (fits_row r ti tx tb which) (f <$> (item <$> l)) -> bundle_takes (system_table which c) (f <$> (item <$> l)) ->
    exists c' bs', loop l c = (Ok tt, c') /\ stores c' (upd R which (mkrow f <$> bs')) U /\
      bs'.*2 ≡ₚ (item <$> l) ++ bs.*2 /\ frame r [which] c c' /\ same_meta c c'.
Proof using All.
  intros Hnil Hst0 Hcons. induction l as [|a l IH]; intros c R U bs Hst HR HP Hfit Htk.
  - exists c, bs. split; [apply Hnil|]. split_and!; [|done|apply frame_refl|done].
    eapply catalog_stores_ext; [|exact Hst]. intros w. unfold upd. case_decide; [by subst|done].
  - apply Forall_cons in HP as [Ha HP]. rewrite !fmap_cons in Hfit, Htk. apply Forall_cons in Hfit as [Hfa Hfit].
    rewrite Hcons by (done || apply (so_types _ _ _ _ _ _ _ Hst)).
    destruct (system_insert_ok r ti tx tb Hr which c R U _ _ Hst Hfa Hfit Htk)
      as (id & c1 & rows1 & Hrun & Hst1 & Hp1 & Hfr1 & Hca1 & Htk1).
    erewrite bind_ok by exact Hrun. rewrite Hst0, HR in Hp1.
    apply (mkrow_perm f rows1 ((id, item a) :: bs)) in Hp1 as (bs1 & -> & Hp1).
    destruct (IH c1 _ U bs1 Hst1) as (c2 & bs2 & Hrun2 & Hst2 & Hp2 & Hfr2 & Hca2); try done.
    { unfold upd. by rewrite decide_True. }
    exists c2, bs2. split; [exact Hrun2|]. split_and!.
    + eapply catalog_stores_ext; [|exact Hst2]. intros w. unfold upd. by case_decide.
    + rewrite Hp2, Hp1. cbn. by rewrite Permutation_middle.
    + apply (frame_weaken r ([which] ++ [which])); [set_solver|]. by eapply frame_trans.
    + by eapply same_meta_trans.
Qed.

Lemma stored_type t : stored <$> type_row ti tx t = type_row ti tx t.
Proof. apply stored_row. by repeat constructor. Qed.

(** The pair of a name and the type it is registered under. *)
Definition boot_pair (p : string * Type_) : Prop :=
  lookup_name r p.1 = Ok p.2 /\ match fixed_size p.2 with Some n => small n | None => True end.

Lemma bootstrap_type_step p l c :
  cat_types c = r -> boot_pair p ->
  bootstrap_type_rows (p :: l).*1 c =
    bindM (system_insert TypeTable (type_row ti tx (catalog_type p.2))) (fun _ => bootstrap_type_rows l.*1) c.
Proof using Hr.
  destruct p as [n t]. intros Ht [Hl Hs]. cbn [fst snd] in *. rewrite fmap_cons. cbn [fst bootstrap_type_rows].
  erewrite bind_ok by done. cbn beta. rewrite Ht. unfold bindM at 1, liftR. rewrite Hl. unfold bindM at 1.
  destruct (named_lookup r ti tx tb Hr _ _ Hl) as [_ Ho].
  destruct (small_cast (oid t) ltac:(unfold small; lia)) as (Hoi & Hoc & _).
  unfold make_row. rewrite Hoc, (make_int32_ok r ti tx tb Hr), (make_text_ok r ti tx tb Hr) by done.
  rewrite (make_int32_ok r ti tx tb Hr); [done|]. destruct (fixed_size t) as [m|]; cbn [fixed_size_to_catalog_length]; [|done].
  destruct (small_cast m Hs) as (Hmi & -> & _). done.
Qed.

Lemma bootstrap_class_step p l c :
  cat_types c = r -> small p.1 ->
  bootstrap_class_rows (p :: l) c =
    bindM (system_insert ClassTable (class_row ti tx
      {| cc_oid := p.1; cc_name := p.2;
         relkind := if String.eqb p.2 "edb_index" then RELKIND_INDEX else RELKIND_SYSTEM |}))
      (fun _ => bootstrap_class_rows l) c.
Proof using Hr.
  destruct p as [o n]. intros Ht Hs. cbn [fst snd bootstrap_class_rows] in *. erewrite bind_ok by done. cbn beta.
  rewrite Ht. unfold bindM at 1, liftR. by rewrite (class_values_ok r ti tx tb Hr).
Qed.

Definition boot_rows (ts : list Type_) (which : SystemTable) : list (list Value) :=
  match which with
  | TypeTable => type_row ti tx <$> (catalog_type <$> ts)
  | ClassTable => class_row ti tx <$> system_classes
  | AttributeTable => attribute_row ti tx tb <$> system_attributes ti tx tb
  | IndexTable => []
  end.

Lemma class_fits k : sizeZ (String.list_byte_of_string (cc_name k)) + sizeZ (String.list_byte_of_string (relkind k)) < 2 ^ 31 ->
  fits_row r ti tx tb ClassTable (class_row ti tx k).
Proof using Hr. intros Hs. split; [apply (class_row_ok r ti tx tb Hr)|]. rewrite class_row_size. lia. Qed.
Lemma attribute_fits a : sizeZ (String.list_byte_of_string (ca_name a)) < 2 ^ 31 ->
  fits_row r ti tx tb AttributeTable (attribute_row ti tx tb a).
Proof using Hr. intros Hs. split; [apply (attribute_row_ok r ti tx tb Hr)|]. rewrite attribute_row_size. lia. Qed.
Lemma type_fits t : sizeZ (String.list_byte_of_string (ct_name t)) < 2 ^ 31 ->
  fits_row r ti tx tb TypeTable (type_row ti tx t).
Proof using Hr. intros Hs. split; [apply (type_row_ok r ti tx tb Hr)|]. rewrite type_row_size. lia. Qed.

Lemma system_attributes_ok : Forall attribute_ok (system_attributes ti tx tb) /\
  Forall (fits_row r ti tx tb AttributeTable) (attribute_row ti tx tb <$> system_attributes ti tx tb).
Proof using Hr.
  pose proof (named_lookup r ti tx tb Hr) as Hn.
  destruct Hr as [_ _ (Hi & _) (Hx & _) (Hb & _)]. apply Hn in Hi as [_ Hi], Hx as [_ Hx], Hb as [_ Hb].
  split.
  - unfold system_attributes. cbn. unfold TYPE_RELATION_OID, CLASS_RELATION_OID, ATTRIBUTE_RELATION_OID, INDEX_RELATION_OID.
    repeat (apply Forall_cons; split; [unfold attribute_ok, small; cbn; lia|]). by apply Forall_nil.
  - apply Forall_fmap. unfold system_attributes. cbn.
    repeat (apply Forall_cons; split; [apply attribute_fits; by vm_compute|]). by apply Forall_nil.
Qed.

Lemma bootstrap_types_ok ts c R U :
  stores c R U -> R TypeTable = [] -> boot_types r ts -> bundle_takes (type_table c) (boot_rows ts TypeTable) ->
  exists c' types', bootstrap_types c = (Ok tt, c') /\
    stores c' (upd R TypeTable (mkrow (type_row ti tx) <$> types')) U /\ types'.*2 ≡ₚ catalog_type <$> ts /\
    frame r [TypeTable] c c' /\ same_meta c c'.
Proof using All.
  intros Hst HR Hts Htk. pose proof Hts as Hts'. unfold boot_types in Hts'.
  assert (Hz : (zip bootstrap_names ts).*1 = bootstrap_names /\ (zip bootstrap_names ts).*2 = ts).
  { apply Forall2_length in Hts'. split; [by rewrite fst_zip by lia|by rewrite snd_zip by lia]. }
  destruct Hz as [Hz1 Hz2].
  assert (Hitems : (fun p => catalog_type p.2) <$> zip bootstrap_names ts = catalog_type <$> ts)
    by (rewrite <- Hz2 at 2; by rewrite <- list_fmap_compose).
  destruct (insert_each TypeTable (type_row ti tx) (fun p => catalog_type p.2) (fun l => bootstrap_type_rows l.*1)
    boot_pair ltac:(by intros) stored_type bootstrap_type_step (zip bootstrap_names ts) c R U [] Hst HR)
    as (c' & types' & Hrun & Hst' & Hp & Hfr & Hme).
  - clear -Hts'. induction Hts'; constructor; auto.
  - apply Forall_fmap, Forall_fmap, Forall_forall. intros [n t] Hin. apply type_fits. cbn.
    apply elem_of_zip_l in Hin as Hn.
    assert (Hname : type_name t = n).
    { clear -Hts' Hin Hr. destruct Hr as [Hwf _ _ _ _]. induction Hts' as [|n' t' ns ts' [Hl _] _ IH]; [by apply elem_of_nil in Hin|].
      cbn in Hin. apply elem_of_cons in Hin as [[= -> ->]|Hin]; [|auto]. by apply lookup_name_wf in Hl as (_ & _ & ?). }
    rewrite Hname. clear -Hn. unfold bootstrap_names in Hn. repeat (apply elem_of_cons in Hn as [->|Hn]; [by vm_compute|]).
    by apply elem_of_nil in Hn.
  - rewrite Hitems. exact Htk.
  - rewrite Hz1 in Hrun. rewrite Hitems, app_nil_r in Hp. by exists c', types'.
Qed.

Lemma bootstrap_classes_ok c R U :
  stores c R U -> R ClassTable = [] -> bundle_takes (class_table c) (class_row ti tx <$> system_classes) ->
  exists c' classes', bootstrap_classes c = (Ok tt, c') /\
    stores c' (upd R ClassTable (mkrow (class_row ti tx) <$> classes')) U /\ classes'.*2 ≡ₚ system_classes /\
    frame r [ClassTable] c c' /\ same_meta c c'.
Proof using All.
  intros Hst HR Htk.
  destruct (insert_each ClassTable (class_row ti tx) (fun p => {| cc_oid := p.1; cc_name := p.2;
      relkind := if String.eqb p.2 "edb_index" then RELKIND_INDEX else RELKIND_SYSTEM |}) bootstrap_class_rows
    (fun p => small p.1) ltac:(by intros) (stored_class ti tx) bootstrap_class_step
    [(TYPE_RELATION_OID, "edb_type"%string); (CLASS_RELATION_OID, "edb_class"%string);
     (ATTRIBUTE_RELATION_OID, "edb_attribute"%string); (INDEX_RELATION_OID, "edb_index"%string)] c R U [] Hst HR)
    as (c' & classes' & Hrun & Hst' & Hp & Hfr & Hme).
  - repeat (apply Forall_cons; split; [done|]). by apply Forall_nil.
  - cbn. repeat (apply Forall_cons; split; [apply class_fits; by vm_compute|]). by apply Forall_nil.
  - exact Htk.
  - rewrite app_nil_r in Hp. by exists c', classes'.
Qed.

#[local] Abbreviation new_attributes which :=
  (column_attributes (relation_oid (schema_of which)) 0 (table_columns (schema_of which))).

Lemma describe_system_ok which rest c R U attrs :
  stores c R U -> R AttributeTable = mkrow (attribute_row ti tx tb) <$> attrs ->
  Forall attribute_ok (new_attributes which) ->
  Forall (fits_row r ti tx tb AttributeTable) ((attribute_row ti tx tb <$> new_attributes which) ++ rest) ->
  bundle_takes (attribute_table c) ((attribute_row ti tx tb <$> new_attributes which) ++ rest) ->
  exists c1 c' attrs', system_columns which c = (Ok (table_columns (schema_of which)), c1) /\
    write_schema_attributes (relation_oid (schema_of which)) 0 (table_columns (schema_of which)) c1 = (Ok tt, c') /\
    stores c' (upd R AttributeTable (mkrow (attribute_row ti tx tb) <$> attrs')) U /\
    attrs'.*2 ≡ₚ new_attributes which ++ attrs.*2 /\ frame r [AttributeTable] c c' /\ same_meta c c' /\
    bundle_takes (attribute_table c') rest.
Proof using All.
  intros Hst HR Hok Hfit Htk. destruct (stores_columns which c R U Hst) as (c1 & Hc & Hst1 & Hfr1 & Hme1).
  destruct (write_attributes_ok r ti tx tb Hr _ rest (relation_oid (schema_of which)) 0 c1 R U attrs Hst1 HR Hok Hfit)
    as (c' & attrs' & Hrun & Hst' & Hp & Hfr & Hme & Htk').
  { by apply (fr_room _ _ _ _ Hfr1 AttributeTable); [set_solver|]. }
  exists c1, c', attrs'. split_and!; try done; [|by eapply same_meta_trans].
  by apply (frame_trans r [] [AttributeTable] c c1).
Qed.

Lemma bootstrap_attributes_ok fuel c R U :
  stores c R U -> R AttributeTable = [] -> (length (R ClassTable) < fuel)%nat ->
  bundle_takes (attribute_table c) (attribute_row ti tx tb <$> system_attributes ti tx tb) ->
  exists c' attrs, bootstrap_attributes fuel c = (Ok tt, c') /\
    stores c' (upd R AttributeTable (mkrow (attribute_row ti tx tb) <$> attrs)) U /\
    attrs.*2 ≡ₚ system_attributes ti tx tb /\ frame r [AttributeTable] c c' /\ same_meta c c'.
Proof using All.
  intros Hst HR Hf Htk. destruct system_attributes_ok as [Hok Hfit]. unfold system_attributes in Hok, Hfit, Htk.
  rewrite !fmap_app in Hfit, Htk.
  pose proof Hok as Hok'. apply Forall_app in Hok' as [Ho1 Hok']. apply Forall_app in Hok' as [Ho2 Hok'].
  apply Forall_app in Hok' as [Ho3 Ho4].
  unfold bootstrap_attributes. destruct (stores_scan fuel ClassTable c R U Hst Hf) as (c0 & Hs & Hst0 & Hfr0 & Hme0).
  erewrite bind_ok by exact Hs.
  destruct (describe_system_ok TypeTable _ c0 R U [] Hst0 HR Ho1 Hfit)
    as (c1 & c1' & a1 & Hc1 & Hw1 & Hst1 & Hp1 & Hfr1 & Hme1 & Htk1).
  { by apply (fr_room _ _ _ _ Hfr0 AttributeTable); [set_solver|]. }
  erewrite bind_ok by exact Hc1. erewrite bind_ok by exact Hw1. apply Forall_app in Hfit as [_ Hfit].
  destruct (describe_system_ok ClassTable _ c1' _ U a1 Hst1 eq_refl Ho2 Hfit Htk1)
    as (c2 & c2' & a2 & Hc2 & Hw2 & Hst2 & Hp2 & Hfr2 & Hme2 & Htk2).
  erewrite bind_ok by exact Hc2. erewrite bind_ok by exact Hw2. apply Forall_app in Hfit as [_ Hfit].
  destruct (describe_system_ok AttributeTable _ c2' _ U a2 Hst2 eq_refl Ho3 Hfit Htk2)
    as (c3 & c3' & a3 & Hc3 & Hw3 & Hst3 & Hp3 & Hfr3 & Hme3 & Htk3).
  erewrite bind_ok by exact Hc3. erewrite bind_ok by exact Hw3. apply Forall_app in Hfit as [_ Hfit].
  destruct (describe_system_ok IndexTable [] c3' _ U a3 Hst3 eq_refl Ho4)
    as (c4 & c4' & a4 & Hc4 & Hw4 & Hst4 & Hp4 & Hfr4 & Hme4 & _); [by rewrite app_nil_r..|].
  erewrite bind_ok by exact Hc4. exists c4', a4. split; [exact Hw4|]. split_and!.
  - eapply catalog_stores_ext; [|exact Hst4]. intros w. unfold upd. by case_decide.
  - rewrite Hp4, Hp3, Hp2, Hp1. unfold system_attributes. cbn [fmap list_fmap]. rewrite app_nil_r.
    change ([].*2) with (@nil CatalogAttribute). solve_Permutation.
  - apply (frame_weaken r ([] ++ [AttributeTable] ++ [AttributeTable] ++ [AttributeTable] ++ [AttributeTable])); [set_solver|].
    repeat (eapply frame_trans; [eassumption|]). done.
  - do 4 (eapply same_meta_trans; [eassumption|]). done.
Qed.

Lemma boot_data_ok ts X : boot_types r ts -> boot_data ti tx tb ts X -> data_ok X.
Proof using Hr.
  intros Hts [Ht Hc Ha Htab]. split.
  - eexists. rewrite Hc. split; [do 3 right; by left|done].
  - rewrite Ht. apply Forall_fmap. unfold boot_types in Hts. clear -Hts Hr.
    induction Hts as [|n t ns ts [Hl Hs] _ IH]; constructor; [|done].
    destruct (named_lookup r ti tx tb Hr _ _ Hl) as [_ Ho]. split; [unfold small; cbn; lia|exact Hs].
  - rewrite Hc. unfold system_classes. repeat (apply Forall_cons; split; [by vm_compute|]). by apply Forall_nil.
  - rewrite Ha. apply system_attributes_ok.
  - rewrite Hc. apply (bool_decide_eq_true_1 _). by vm_compute.
  - rewrite Hc. apply (bool_decide_eq_true_1 _). by vm_compute.
  - rewrite Ha. apply (bool_decide_eq_true_1 _). by vm_compute.
  - rewrite Ha. apply Forall_forall. intros a Hin. rewrite Hc.
    assert (Hrel : ca_relation_oid a ∈ ca_relation_oid <$> system_attributes ti tx tb) by (by apply list_elem_of_fmap_2).
    revert Hrel. generalize (ca_relation_oid a). intros o Ho. cbn in Ho |- *. by each_elem Ho.
  - apply Forall_forall. intros k Hk Hnil. rewrite Hc in Hk.
    assert (Hin : exists a, a ∈ system_attributes ti tx tb /\ ca_relation_oid a = cc_oid k).
    { assert (Ho : cc_oid k ∈ ca_relation_oid <$> system_attributes ti tx tb).
      { apply (list_elem_of_fmap_2 cc_oid) in Hk. revert Hk. generalize (cc_oid k). intros o Ho. cbn in Ho |- *. by each_elem Ho. }
      apply list_elem_of_fmap in Ho as (a & Hoa & Hin). eauto. }
    destruct Hin as (a & Hin & Hoa). rewrite <- Ha in Hin. unfold attributes_of in Hnil.
    destruct (sort_by_attnum_spec (filter (fun a => ca_relation_oid a = cc_oid k) (d_attributes X).*2)) as [_ Hp].
    rewrite Hnil in Hp. symmetry in Hp. apply Permutation_nil_r in Hp.
    assert (Hf : a ∈ filter (fun a => ca_relation_oid a = cc_oid k) (d_attributes X).*2) by (by apply list_elem_of_filter).
    rewrite Hp in Hf. by apply elem_of_nil in Hf.
  - rewrite Htab. apply map_Forall_empty.
Qed.

Lemma bootstrap_ok fuel ts c :
  stores c (sys_rows ti tx tb empty_data) ∅ -> boot_types r ts -> (4 < fuel)%nat ->
  (forall w, bundle_takes (system_table w c) (boot_rows ts w)) ->
  exists c' X, bootstrap_if_needed fuel c = (Ok tt, c') /\ stores c' (sys_rows ti tx tb X) ∅ /\
    boot_data ti tx tb ts X /\ same_meta c c' /\ frame r [TypeTable; ClassTable; AttributeTable] c c'.
Proof using All.
  intros Hst Hts Hf Htk. unfold bootstrap_if_needed.
  destruct (stores_scan fuel ClassTable c _ _ Hst ltac:(cbn; lia)) as (c0 & Hs & Hst0 & Hfr0 & Hme0).
  erewrite bind_ok by exact Hs. cbn [sys_rows empty_data d_classes fmap list_fmap length Nat.eqb negb].
  unfold bootstrap_catalog.
  destruct (bootstrap_types_ok ts c0 _ _ Hst0) as (c1 & types & Hr1 & Hst1 & Hp1 & Hfr1 & Hme1); [done|done|..].
  { apply (fr_room _ _ _ _ Hfr0 TypeTable); [set_solver|]. apply (Htk TypeTable). }
  erewrite bind_ok by exact Hr1.
  pose proof (frame_trans _ _ _ _ _ _ Hfr0 Hfr1) as Hfr01.
  destruct (bootstrap_classes_ok c1 _ _ Hst1) as (c2 & classes & Hr2 & Hst2 & Hp2 & Hfr2 & Hme2); [done|..].
  { apply (fr_room _ _ _ _ Hfr01 ClassTable); [set_solver|]. apply (Htk ClassTable). }
  erewrite bind_ok by exact Hr2.
  pose proof (frame_trans _ _ _ _ _ _ Hfr01 Hfr2) as Hfr02.
  destruct (bootstrap_attributes_ok fuel c2 _ _ Hst2) as (c3 & attrs & Hr3 & Hst3 & Hp3 & Hfr3 & Hme3); [done|..].
  { unfold upd. rewrite decide_True, length_fmap by done. apply Permutation_length in Hp2. rewrite length_fmap in Hp2.
    rewrite Hp2. cbn. lia. }
  { apply (fr_room _ _ _ _ Hfr02 AttributeTable); [set_solver|]. apply (Htk AttributeTable). }
  exists c3, {| d_types := types; d_classes := classes; d_attributes := attrs; d_tables := ∅ |}.
  split; [exact Hr3|]. split_and!; [|done| |].
  - eapply catalog_stores_ext; [|exact Hst3]. by intros [].
  - do 3 (eapply same_meta_trans; [eassumption|]). done.
  - apply (frame_weaken r (((([] ++ [TypeTable]) ++ [ClassTable]) ++ [AttributeTable]))); [set_solver|].
    by eapply frame_trans.
Qed.

(** ** [Catalog::open] *)

(** The system relations below [d] open as the bundles [B], with rows [R]. *)
Definition relations_hold (d : D) (cfg : EngineConfig) (R : SystemTable -> list TableRow) (B : SystemTable -> Bundle) : Prop :=
  forall w, opens_to r d cfg (schema_of w) (B w) /\ bundle_holds r (B w) (schema_of w) (R w).

(** A catalog that is not open: a new object, or one that was closed. *)
Record resting c : Prop := {
  rt_types : cat_types c = r;
  rt_users : user_tables c = ∅;
  rt_system w : exists ps, system_table w c = closed_bundle ps;
  rt_type_cache : type_cache_by_name c = ∅;
  rt_class_cache : class_cache_by_name c = ∅;
  rt_attribute_cache : attribute_cache_by_relid c = ∅;
}.

Lemma new_resting d cfg : resting (Catalog_new r d cfg).
Proof. split; try done. intros w. exists PageStore_default. by destruct w. Qed.

Lemma resting_opening c R B :
  resting c -> relations_hold (backends c) (cat_config c) R B -> opening c [] R B.
Proof.
  intros Hc Hrel. split; [apply (rt_types _ Hc)|intros w; apply Hrel|intros w Hw; by apply elem_of_nil in Hw|].
  intros w _. split; [apply (rt_system _ Hc)|apply Hrel].
Qed.

Lemma empty_caches c X :
  type_cache_by_name c = ∅ -> class_cache_by_name c = ∅ -> attribute_cache_by_relid c = ∅ -> caches_ok c X.
Proof. intros H1 H2 H3. split; [rewrite H1|rewrite H2|rewrite H3]; intros n x; by rewrite lookup_empty. Qed.

Lemma opened_ok c0 c1 c2 X :
  resting c0 -> opened_from c0 c1 -> same_meta c1 c2 -> stores c2 (sys_rows ti tx tb X) ∅ ->
  data_ok X -> d_tables X = ∅ -> ok (set_opened true c2) X.
Proof.
  intros Hc ((M1 & M2 & M3 & _) & _) (N1 & N2 & N3 & _) [T1 T2 T3] Hd Htab. split; [done| |apply empty_caches|done].
  - rewrite Htab. split; [done| |done]. intros w. specialize (T2 w). by destruct w.
  - cbn. by rewrite N1, M1, (rt_type_cache _ Hc).
  - cbn. by rewrite N2, M2, (rt_class_cache _ Hc).
  - cbn. by rewrite N3, M3, (rt_attribute_cache _ Hc).
Qed.

Lemma catalog_open_new fuel ts c0 B :
  resting c0 -> relations_hold (backends c0) (cat_config c0) (fun _ => []) B -> boot_types r ts -> (4 < fuel)%nat ->
  (forall w, bundle_takes (B w) (boot_rows ts w)) ->
  exists c X, catalog_open fuel c0 = (Ok tt, c) /\ ok c X /\ boot_data ti tx tb ts X.
Proof using All.
  intros Hc0 Hrel Hts Hf Htk. unfold catalog_open.
  destruct (open_system_tables_ok _ _ _ (resting_opening c0 _ B Hc0 Hrel) (rt_users _ Hc0)) as (c1 & Hr1 & Hst1 & Hfrom & HB).
  erewrite bind_ok by exact Hr1.
  destruct (bootstrap_ok fuel ts c1) as (c2 & X & Hr2 & Hst2 & Hboot & Hme & _); [|done|done|by intros w; rewrite HB|].
  { eapply catalog_stores_ext; [|exact Hst1]. by intros []. }
  erewrite bind_ok by exact Hr2. eexists _, X. split; [done|]. split; [|done].
  eapply opened_ok; try done; [by eapply boot_data_ok|apply (bt_tables _ _ _ _ _ Hboot)].
Qed.

Lemma catalog_open_existing fuel c0 B X :
  resting c0 -> relations_hold (backends c0) (cat_config c0) (sys_rows ti tx tb X) B -> data_ok X ->
  (length (d_classes X) < fuel)%nat ->
  exists c, catalog_open fuel c0 = (Ok tt, c) /\ ok c (at_rest X) /\ cat_config c = cat_config c0 /\
    user_tables c = ∅ /\ forall cfg schema b, 4 < relation_oid schema ->
      opens_to r (backends c0) cfg schema b -> opens_to r (backends c) cfg schema b.
Proof using All.
  intros Hc0 Hrel Hd Hf. unfold catalog_open.
  destruct (open_system_tables_ok _ _ _ (resting_opening c0 _ B Hc0 Hrel) (rt_users _ Hc0)) as (c1 & Hr1 & Hst1 & Hfrom & HB).
  erewrite bind_ok by exact Hr1. unfold bootstrap_if_needed.
  destruct (stores_scan fuel ClassTable c1 _ _ Hst1) as (c2 & Hs & Hst2 & Hfr2 & Hme2); [cbn; by rewrite length_fmap|].
  unfold bindM at 1. erewrite bind_ok by exact Hs.
  assert (Hne : (length (sys_rows ti tx tb X ClassTable) =? 0)%nat = false).
  { apply Nat.eqb_neq. cbn. rewrite length_fmap. destruct (do_system _ Hd) as (k & Hk & _).
    destruct (d_classes X); [by apply elem_of_nil in Hk|done]. }
  rewrite Hne. cbn [negb retM]. eexists. split; [done|].
  assert (Hu : user_tables c2 = ∅).
  { apply map_eq. intros o. rewrite lookup_empty. pose proof (so_users _ _ _ _ _ _ _ Hst2 o) as Hu.
    rewrite lookup_empty in Hu. by inversion Hu. }
  split_and!; [|cbn; rewrite (fr_config _ _ _ _ Hfr2); apply Hfrom|done|].
  - eapply opened_ok; try done. destruct Hd as [H0 H1 H2 H3 H4 H5 H6 H7 H8 H9]. by split.
  - intros cfg schema b H4 Hb. apply (fr_opens _ _ _ _ Hfr2); [done|by rewrite Hu, lookup_empty|]. by apply Hfrom.
Qed.
End open.
