(* ===== verification/CatalogClose.v ===== *)
(** * CatalogClose: closing a catalog and opening it again

    [Catalog::close] closes every table.  Over files and engines that keep what
    they were given when they are closed ([DurableFiles]), each relation can then be
    opened again with the rows it had. *)
From S2P Require Import Prelude Utils TypeRegistry BuiltinTypes RowCodec RowCodecSpec StorageIO.
From S2P Require Import PageStore EvictionPolicy BufferPool HeapEngine TupleStore Table Bundle.
From S2P Require Import Catalog CatalogValues CatalogSpec CatalogUpdate CatalogOpen.

(** A page store that is closed, and one that was opened on a backend. *)
Definition closed_store {S} (w : StoreW S) : StoreW S :=
  set_pstore {| ps_io := false; ps_config := ps_config (pstore w) |} w.
Definition opened_store {S} (cfg : EngineConfig) (backend : S) : StoreW S :=
  {| pstore := {| ps_io := true; ps_config := {| cfg_page_size := ec_page_size cfg |} |}; device := backend |}.

(** An engine that is closed, with its page store and its backend, and opened again
    on a new backend of its relation has the same tuples. *)
Class DurableFiles (D S E : Type) `{BackendFactory D S} `{StorageIO S} `{EngineFactory S E} `{TupleStore E}
    (cfg : EngineConfig) := {
  du_page_size : 0 < ec_page_size cfg;
  du_reopen rel name e (d : D) : ts_ok e ->
    exists e' w' backend d1 e2 w2, se_close e = (Ok tt, e') /\
      on_device io_close (closed_store (ef_world e')) = (Ok tt, w') /\
      bf_open_backend rel name (bf_store rel (device w') d) = (Ok backend, d1) /\
      ef_open_engine rel name cfg (opened_store cfg backend) = (Ok e2, w2) /\
      ts_ok e2 /\ ts_tuples e2 = ts_tuples e;
}.

Section close.
Context {D S E : Type} `{!BackendFactory D S} `{!StorageIO S} `{!EngineFactory S E}.
Context `{!StorageEngine E} `{!TupleStore E} `{!RelationFiles D S E} (cfg : EngineConfig) `{!DurableFiles D S E cfg}.
Context (r : TypeRegistry) (ti tx tb : Type_) (Hr : builtin_registry r ti tx tb).
#[local] Abbreviation Cat := (Catalog D S E).
#[local] Abbreviation Bundle := (OpenedTableBundle S E).
Implicit Types (c : Cat) (X : CatalogData) (d : D) (b : Bundle).
#[local] Abbreviation stores := (catalog_stores r ti tx tb).
#[local] Abbreviation ok := (cat_ok r ti tx tb).
#[local] Abbreviation schema_of := (sys_schema ti tx tb).

(** ** One bundle *)

(** What is known of the relation of [schema] below [d]: the rows of the open bundle,
    or those that opening will find. *)
Definition relation_at d (open : option Bundle) (schema : TableSchema) (rows : list TableRow) : Prop :=
  match open with
  | Some b => bundle_holds r b schema rows /\ synced b d
  | None => opens r d cfg schema rows
  end.

Lemma relation_at_other d open schema rows rel s :
  relation_oid schema <> rel -> relation_at d open schema rows -> relation_at (bf_store rel s d) open schema rows.
Proof using All.
  intros Hne. destruct open as [b|]; cbn.
  - intros [Hb Hs]. split; [done|]. eapply synced_same; [by eapply holds_runs| |exact Hs].
    intros s'. by apply rf_load_other.
  - by apply (opens_other r ti tx tb Hr).
Qed.

Lemma bundle_close_ok b d schema rows :
  relation_at d (Some b) schema rows ->
  exists ps s, bundle_close (b, d) = (Ok tt, (closed_bundle ps, bf_store (relation_oid schema) s d)) /\
    relation_at (bf_store (relation_oid schema) s d) None schema rows.
Proof using All.
  intros [(e & Hs & HT & Hok & Hh) Hsync].
  destruct (du_reopen (relation_oid schema) (table_name schema) e d Hok)
    as (e' & w' & backend & d1 & e2 & w2 & Hc & Hio & Hb & Ho & Hok2 & Ht).
  exists (pstore w'), (device w'). split.
  - unfold bundle_close. rewrite Hsync, Hs. unfold close_engine. rewrite Hc. unfold close_storage.
    change (store_close (ef_world e')) with (Ok tt, closed_store (ef_world e')). cbn iota beta. by rewrite Hio.
  - eexists. split.
    + eexists. unfold bundle_open. rewrite Hb. unfold store_open, bindM, assertM, liftR, edb_assert. cbn [cfg_page_size].
      rewrite (proj2 (Z.ltb_lt _ _) du_page_size). cbn [modifyM].
      change (set_pstore _ _) with (opened_store cfg backend). by rewrite Ho.
    + exists e2. split_and!; [done|done|done|]. unfold holds in *. by rewrite Ht.
Qed.

(** ** The user tables *)

(** What closing tables leaves alone. *)
Definition same_shell c c' : Prop :=
  cat_types c' = cat_types c /\ cat_config c' = cat_config c /\ forall w, system_table w c' = system_table w c.

Lemma close_user_tables_ok oids c :
  NoDup oids ->
  (forall o, o ∈ oids -> exists b schema rows, user_tables c !! o = Some b /\ relation_oid schema = o /\
    relation_at (backends c) (Some b) schema rows) ->
  exists c', close_user_tables oids c = (Ok tt, c') /\ same_shell c c' /\
    (forall open schema rows, relation_oid schema ∉ oids ->
      relation_at (backends c) open schema rows -> relation_at (backends c') open schema rows) /\
    (forall b schema rows, relation_oid schema ∈ oids -> user_tables c !! relation_oid schema = Some b ->
      relation_at (backends c) (Some b) schema rows -> relation_at (backends c') None schema rows).
Proof using All.
  revert c. induction oids as [|o oids IH]; intros c Hnd Hall.
  { exists c. split_and!; try done. intros b schema rows Hin. by apply elem_of_nil in Hin. }
  apply NoDup_cons in Hnd as [Ho Hnd]. destruct (Hall o ltac:(by left)) as (b & schema & rows & Hb & Hrel & Hat).
  destruct (bundle_close_ok b (backends c) schema rows Hat) as (ps & s & Hclose & Hat').
  cbn [close_user_tables]. rewrite Hb, Hclose. set (c1 := set_backends _ _).
  destruct (IH c1 Hnd) as (c' & Hrun & (T1 & T2 & T3) & Hothers & Hclosed).
  { intros o' Ho'. assert (o' <> o) by congruence. destruct (Hall o' ltac:(by right)) as (b' & schema' & rows' & Hb' & Hrel' & Hat2).
    exists b', schema', rows'. split_and!; [cbn; by rewrite lookup_insert_ne|done|].
    apply relation_at_other; [congruence|done]. }
  exists c'. split; [exact Hrun|]. split_and!.
  - split_and!; [by rewrite T1|by rewrite T2|]. intros w. rewrite T3. by destruct w.
  - intros open schema' rows' [Hne Hnin]%not_elem_of_cons H'. apply Hothers; [done|].
    apply relation_at_other; [congruence|done].
  - intros b' schema' rows' Hin Hb' H'. destruct (decide (relation_oid schema' = o)) as [Heq|Hne].
    + apply Hothers; [by rewrite Heq|]. rewrite Heq, Hb in Hb'. injection Hb' as <-. destruct H' as [Hh' _], Hat as [Hh _].
      destruct (bundle_holds_functional r _ _ _ _ _ Hh Hh') as [-> ->]. exact Hat'.
    + apply elem_of_cons in Hin as [?|Hin]; [done|]. eapply Hclosed; [done|cbn; by rewrite lookup_insert_ne|].
      apply relation_at_other; [congruence|done].
Qed.

(** ** The system tables *)

Definition oid_of (w : SystemTable) : Z := relation_oid (schema_of w).

Lemma close_system_ok w c rows :
  relation_at (backends c) (Some (system_table w c)) (schema_of w) rows ->
  exists c', on_system_bundle w bundle_close c = (Ok tt, c') /\
    cat_types c' = cat_types c /\ cat_config c' = cat_config c /\ user_tables c' = user_tables c /\
    (exists ps, system_table w c' = closed_bundle ps) /\ (forall w', w' <> w -> system_table w' c' = system_table w' c) /\
    relation_at (backends c') None (schema_of w) rows /\
    (forall open schema rows', relation_oid schema <> oid_of w ->
      relation_at (backends c) open schema rows' -> relation_at (backends c') open schema rows').
Proof using All.
  intros Hat. destruct (bundle_close_ok _ _ _ _ Hat) as (ps & s & Hclose & Hat').
  unfold on_system_bundle. rewrite Hclose. eexists. split; [done|].
  split; [by destruct w|]. split; [by destruct w|]. split; [by destruct w|]. split; [exists ps; by destruct w|].
  split; [intros w'; by destruct w, w'|]. split; [by destruct w|]. intros open schema rows' Hne H'.
  assert (relation_at (bf_store (oid_of w) s (backends c)) open schema rows') by (by apply relation_at_other).
  by destruct w.
Qed.

(** The tables [ws] are still open. *)
Record closing c (ws : list SystemTable) (R : SystemTable -> list TableRow) : Prop := {
  cl_types : cat_types c = r;
  cl_config : cat_config c = cfg;
  cl_users : user_tables c = ∅;
  cl_open w : w ∈ ws -> relation_at (backends c) (Some (system_table w c)) (schema_of w) (R w);
  cl_closed w : w ∉ ws -> (exists ps, system_table w c = closed_bundle ps) /\
    relation_at (backends c) None (schema_of w) (R w);
}.

Lemma closing_step c w ws R :
  closing c (w :: ws) R -> w ∉ ws ->
  exists c', on_system_bundle w bundle_close c = (Ok tt, c') /\ closing c' ws R /\
    forall schema rows, 4 < relation_oid schema ->
      relation_at (backends c) None schema rows -> relation_at (backends c') None schema rows.
Proof using All.
  intros [Ht Hcf Hu Ho Hcl] Hw.
  destruct (close_system_ok w c (R w) (Ho w ltac:(by left))) as (c' & Hrun & T1 & T2 & T3 & Hps & Hsame & Hat & Hothers).
  assert (Hne : forall w', w' <> w -> oid_of w' <> oid_of w).
  { intros w' Hw' Heq. by apply (sys_schema_inj ti tx tb) in Heq. }
  exists c'. split; [exact Hrun|]. split.
  - split; [congruence..| |].
    + intros w' Hw'. assert (w' <> w) by congruence. rewrite Hsame by done. apply Hothers; [by apply Hne|]. apply Ho. by right.
    + intros w' Hw'. destruct (decide (w' = w)) as [->|Hw'']; [done|]. rewrite Hsame by done.
      destruct (Hcl w') as [Hps' Hat']; [by apply not_elem_of_cons|]. split; [done|]. by apply Hothers; [apply Hne|].
  - intros schema rows H4. apply Hothers. pose proof (sys_schema_oid ti tx tb w). unfold oid_of. lia.
Qed.

(** ** [Catalog::close] *)

(** Every relation keeps its rows: the system tables', those of the open user
    tables and those of the other relations. *)
Record rests c c' (R : SystemTable -> list TableRow) (U : gmap Z (TableSchema * list TableRow)) : Prop := {
  re_resting : resting r c';
  re_config : cat_config c' = cfg;
  re_opened : cat_opened c' = false;
  re_system w : opens r (backends c') cfg (schema_of w) (R w);
  re_open o schema rows : U !! o = Some (schema, rows) -> opens r (backends c') cfg schema rows;
  re_other schema rows : 4 < relation_oid schema -> U !! relation_oid schema = None ->
    opens r (backends c) cfg schema rows -> opens r (backends c') cfg schema rows;
}.

Lemma close_users_ok c R U :
  stores c R U -> cat_config c = cfg ->
  exists c', close_user_tables (map_to_list (user_tables c)).*1 c = (Ok tt, c') /\
    closing (set_user_tables ∅ c') [IndexTable; AttributeTable; ClassTable; TypeTable] R /\
    (forall o schema rows, U !! o = Some (schema, rows) -> relation_at (backends c') None schema rows) /\
    (forall schema rows, U !! relation_oid schema = None ->
      relation_at (backends c) None schema rows -> relation_at (backends c') None schema rows).
Proof using All.
  intros [Ht Hsys Hus] Hcf.
  assert (Hkeys : forall o, o ∈ (map_to_list (user_tables c)).*1 <-> is_Some (user_tables c !! o)).
  { intros o. rewrite list_elem_of_fmap. split; [intros ([o' b] & -> & Hb%elem_of_map_to_list); by eexists|].
    intros [b Hb]. exists (o, b). split; [done|]. by apply elem_of_map_to_list. }
  assert (Hopen : forall o b, user_tables c !! o = Some b -> exists schema rows, U !! o = Some (schema, rows) /\
    relation_oid schema = o /\ 4 < o /\ relation_at (backends c) (Some b) schema rows).
  { intros o b Hb. specialize (Hus o). rewrite Hb in Hus. inversion Hus as [? [schema rows] (H1 & H2 & H3)|]; subst. by exists schema, rows. }
  destruct (close_user_tables_ok (map_to_list (user_tables c)).*1 c) as (c' & Hrun & (T1 & T2 & T3) & Hothers & Hclosed).
  - apply NoDup_fst_map_to_list.
  - intros o [b Hb]%Hkeys. destruct (Hopen o b Hb) as (schema & rows & _ & H1 & _ & H3). by exists b, schema, rows.
  - exists c'. split; [exact Hrun|]. split_and!.
    + split; [cbn; congruence..|done| |].
      * intros w _. replace (system_table w (set_user_tables ∅ c')) with (system_table w c) by (by rewrite <- T3; destruct w).
        apply (Hothers (Some (system_table w c))); [|apply Hsys]. rewrite Hkeys. intros [b Hb].
        destruct (Hopen _ _ Hb) as (_ & _ & _ & _ & H4 & _). pose proof (sys_schema_oid ti tx tb w). lia.
      * intros w Hw. destruct Hw. destruct w; set_solver.
    + intros o schema rows HU. pose proof (Hus o) as Hu. rewrite HU in Hu. inversion Hu as [b ? (H1 & H2 & H3) Hb|]; subst. cbn in *.
      eapply Hclosed; [|by symmetry|exact H3]. apply Hkeys. by rewrite <- Hb.
    + intros schema rows HU. apply Hothers. rewrite Hkeys. intros [b Hb].
      destruct (Hopen _ _ Hb) as (? & ? & HU' & _). congruence.
Qed.

Lemma catalog_close_ok c R U :
  stores c R U -> cat_config c = cfg -> exists c', catalog_close c = (Ok tt, c') /\ rests c c' R U.
Proof using All.
  intros Hst Hcf. destruct (close_users_ok c R U Hst Hcf) as (c0 & Hrun0 & Hcl0 & Hopen0 & Hother0).
  unfold catalog_close. erewrite bind_ok by done. erewrite bind_ok by exact Hrun0. erewrite bind_ok by done.
  destruct (closing_step _ _ _ _ Hcl0 ltac:(set_solver)) as (c1 & Hr1 & Hcl1 & Hk1). erewrite bind_ok by exact Hr1.
  destruct (closing_step _ _ _ _ Hcl1 ltac:(set_solver)) as (c2 & Hr2 & Hcl2 & Hk2). erewrite bind_ok by exact Hr2.
  destruct (closing_step _ _ _ _ Hcl2 ltac:(set_solver)) as (c3 & Hr3 & Hcl3 & Hk3). erewrite bind_ok by exact Hr3.
  destruct (closing_step _ _ _ _ Hcl3 ltac:(set_solver)) as (c4 & Hr4 & [Ht4 Hc4 Hu4 _ Hs4] & Hk4). erewrite bind_ok by exact Hr4.
  erewrite bind_ok by done. erewrite bind_ok by done. eexists. split; [done|].
  assert (Hall : forall w : SystemTable, w ∉ []) by (intros w; apply not_elem_of_nil).
  assert (Hchain : forall schema rows, 4 < relation_oid schema ->
    relation_at (backends c0) None schema rows -> relation_at (backends c4) None schema rows) by (intros; auto).
  split; try done.
  - split; try done. intros w. destruct (Hs4 w (Hall w)) as [[ps Hps] _]. exists ps. by destruct w.
  - intros w. apply (Hs4 w (Hall w)).
  - intros o schema rows HU. apply Hchain; [|by eapply Hopen0].
    pose proof (so_users _ _ _ _ _ _ _ Hst o) as Hu. rewrite HU in Hu. inversion Hu as [b ? (H1 & H2 & _)|]; subst. done.
  - intros schema rows H4 HU Hop. apply Hchain; [done|]. by apply Hother0.
Qed.

(** ** Closed and opened again *)

(** The catalog that [c'] opens as: the same object, or a new one over the files. *)
Lemma reopened fuel c c' c0 X :
  rests c c' (sys_rows ti tx tb X) (d_tables X) -> data_ok X -> (length (d_classes X) < fuel)%nat ->
  resting r c0 -> backends c0 = backends c' -> cat_config c0 = cfg ->
  exists c2, catalog_open fuel c0 = (Ok tt, c2) /\ ok c2 (at_rest X) /\ cat_config c2 = cfg /\ user_tables c2 = ∅ /\
    (forall o schema rows, 4 < relation_oid schema -> d_tables X !! o = Some (schema, rows) ->
      opens r (backends c2) cfg schema rows) /\
    (forall schema rows, 4 < relation_oid schema -> d_tables X !! relation_oid schema = None ->
      opens r (backends c) cfg schema rows -> opens r (backends c2) cfg schema rows).
Proof using All.
  intros Hre Hd Hf Hc0 Hback Hcf.
  destruct (re_system _ _ _ _ Hre TypeTable) as (B1 & H1), (re_system _ _ _ _ Hre ClassTable) as (B2 & H2).
  destruct (re_system _ _ _ _ Hre AttributeTable) as (B3 & H3), (re_system _ _ _ _ Hre IndexTable) as (B4 & H4).
  destruct (catalog_open_existing r ti tx tb Hr fuel c0
    (fun w => match w with TypeTable => B1 | ClassTable => B2 | AttributeTable => B3 | IndexTable => B4 end) X)
    as (c2 & Hrun & Hok & Hcf2 & Hu2 & Hkeep); [done| |done|done|].
  { rewrite Hback, Hcf. by intros []. }
  assert (Hopens : forall schema rows, 4 < relation_oid schema -> opens r (backends c') cfg schema rows ->
    opens r (backends c2) cfg schema rows).
  { intros schema rows Hbig (b & Hb & Hh). exists b. split; [|done]. apply Hkeep; [done|]. by rewrite Hback. }
  exists c2. split_and!; [done|done|congruence|done| |].
  - intros o schema rows Hbig HU. apply Hopens; [done|]. by eapply re_open.
  - intros schema rows Hbig HU Hop. apply Hopens; [done|]. by eapply re_other.
Qed.
End close.
