(* ===== verification/CatalogMem.v ===== *)
(** * CatalogMem: catalogs over heap engines in memory

    The in-memory backend factory under heap engines: an empty relation opens as
    an empty table, and [room_check] decides whether an engine can take given
    rows.  The example catalog of the later files. *)
From S2P Require Import Prelude Utils TypeRegistry BuiltinTypes RowCodec RowCodecSpec StorageIO.
From S2P Require Import PageStore EvictionPolicy BufferPool BufferPoolSpec HeapPage HeapEngine.
From S2P Require Import HeapEngineSpec HeapEngineProps TupleStore Table Bundle Catalog CatalogValues.
From S2P Require Import CatalogSpec CatalogUpdate CatalogOpen CatalogClose.

#[local] Abbreviation E := (HeapEngine MemDev.t).
#[local] Abbreviation MemBundle := (OpenedTableBundle MemDev.t (HeapEngine MemDev.t)).
Abbreviation MemCatalog := (Catalog MemFiles MemDev.t (HeapEngine MemDev.t)).

(** A configuration the heap engine accepts. *)
Record config_ok (cfg : EngineConfig) : Prop := {
  cf_page : 28 <= ec_page_size cfg <= 65535;
  cf_pool : 0 < buffer_pool_pages cfg;
}.

Definition mem_world (cfg : EngineConfig) (bs : list byte) : StoreW MemDev.t :=
  {| pstore := {| ps_io := true; ps_config := {| cfg_page_size := ec_page_size cfg |} |};
     device := {| MemDev.bytes := bs; MemDev.faults := [] |} |}.

(** The bundle of an engine for [schema]. *)
Definition mem_bundle (r : TypeRegistry) (schema : TableSchema) (e : E) : MemBundle :=
  {| bd_storage := Running (relation_oid schema) e true; bd_table := Some (Table_new r schema) |}.

Lemma mem_opens r (d : MemFiles) cfg schema :
  let w := mem_world cfg (default [] (d !! relation_oid schema)) in
  config_ok cfg -> store_ok w -> good w -> Forall page_wf (disk w) ->
  exists e, opens_to r d cfg schema (mem_bundle r schema e) /\
    heap_ok e /\ heap_pages e = disk w /\ he_config e = cfg.
Proof.
  intros w [Hp Hc] Hso Hg Hpages.
  destruct (heap_open_spec w cfg Hso Hg Hpages) as (e & Hopen & Hok & Hhp & Hcfg & _); [done|done|done|].
  exists e. split; [|done]. eexists. unfold bundle_open. cbn [bf_open_backend mem_files bundle_pstore Bundle_new bd_storage].
  assert (Hs : store_open {| cfg_page_size := ec_page_size cfg |}
    {| pstore := PageStore_default;
       device := {| MemDev.bytes := default [] (d !! relation_oid schema); MemDev.faults := [] |} |} = (Ok tt, w)).
  { unfold store_open, bindM, assertM, liftR, edb_assert. cbn [cfg_page_size]. rewrite (proj2 (Z.ltb_lt _ _)) by lia. done. }
  rewrite Hs. cbn [ef_open_engine heap_factory]. change (open_engine (relation_oid schema) (table_name schema) cfg w)
    with (open_engine 0 EmptyString cfg w). by rewrite Hopen.
Qed.

Lemma mem_opens_empty (cfg : HeapConfig) r (d : MemFiles) schema :
  config_ok cfg -> default [] (d !! relation_oid schema) = [] ->
  exists e, opens_to r d cfg schema (mem_bundle r schema e) /\
    bundle_holds r (mem_bundle r schema e) schema [] /\
    heap_pages e = [] /\ he_config e = cfg /\ heap_ok e.
Proof.
  intros Hcfg Hd. assert (Hdisk : disk (mem_world cfg []) = []).
  { apply length_zero_iff_nil. unfold disk. rewrite length_chunks. by apply Nat.Div0.div_0_l. }
  destruct (mem_opens r d cfg schema Hcfg) as (e & Ho & Hok & Hp & Hc); rewrite Hd in *; rewrite ?Hdisk in *.
  - split; [done|cbn; destruct Hcfg; lia|by rewrite Hdisk].
  - split; [done|]. by vm_compute.
  - by apply Forall_nil.
  - exists e. split_and!; try done. exists e. split_and!; try done.
    + split_and!; [done|rewrite Hp; cbn; lia|done].
    + unfold holds. cbn. unfold all_tuples. rewrite Hp. constructor.
Qed.

(** A heap file in memory is found again after it was closed. *)
Lemma mem_durable (cfg : HeapConfig) : config_ok cfg -> DurableFiles MemFiles MemDev.t (HeapEngine MemDev.t) cfg.
Proof.
  intros [Hp Hb]. split; [lia|]. intros rel name e d (Hok & Hcount & Hcfg).
  destruct (heap_close_spec e Hok) as (e1 & Hc & _ & Hso & Hg & Hps & Hd). set (w := bp_world (buffer_pool e1)) in *.
  pose proof (ho_config _ Hok) as Hsize. rewrite Hcfg in Hsize. change heap_config with cfg in *.
  assert (Hpage : page_size_of w = ec_page_size cfg).
  { pose proof (so_page_size _ Hso). unfold heap_page_bytes, page_bytes_nat, page_size_of in *. rewrite Hps in *. lia. }
  assert (Hw : opened_store cfg {| MemDev.bytes := MemDev.bytes (device w); MemDev.faults := [] |} = w).
  { destruct Hg as [Hf _]. pose proof (so_open _ Hso) as Ho. clearbody w. destruct w as [[io [ps]] [bs fs]].
    unfold opened_store, page_size_of in *. cbn in *. by subst. }
  destruct (heap_open_spec w cfg Hso Hg) as (e2 & Hopen & Hok2 & Hp2 & Hcfg2 & _); [|by rewrite Hpage|by rewrite Hpage|done|].
  { rewrite Hd. apply Hok. }
  exists e1, (closed_store w), {| MemDev.bytes := MemDev.bytes (device w); MemDev.faults := [] |}. eexists _, e2, _.
  split; [exact Hc|]. split; [done|]. split.
  { cbn [bf_open_backend bf_store mem_files]. by rewrite (lookup_insert_eq d). }
  rewrite Hw. split.
  - cbn [ef_open_engine heap_factory]. change (open_engine rel name cfg w) with (open_engine 0 EmptyString cfg w).
    by rewrite Hopen.
  - split.
    + split_and!; [done|by rewrite Hp2, Hd|done].
    + cbn. unfold all_tuples. by rewrite Hp2, Hd.
Qed.

(** ** Deciding room *)

Definition tuple_fits (limit : Z) (bs : list byte) : bool :=
  (0 <? Z.of_nat (length bs)) && (Z.of_nat (length bs) <? 65536) && (Z.of_nat (length bs) <=? limit).
Definition room_check (T : Table) (e : E) (vss : list (list Value)) : bool :=
  forallb (fun vs => match encode (row_codec T) vs with Ok bs => tuple_fits (max_tuple e) bs | _ => true end) vss &&
  (Z.of_nat (length (heap_pages e) + length vss) * Z.of_nat (heap_page_bytes e) <=? 2 ^ 62) &&
  (Z.of_nat (length (heap_pages e) + length vss) <? 2 ^ 32).
Definition bundle_room_check (b : MemBundle) (vss : list (list Value)) : bool :=
  match bd_storage b, bd_table b with
  | Running _ e _, Some T => room_check T e vss
  | _, _ => false
  end.

Lemma bundle_room_check_ok `{!HeapConfig} b vss : bundle_room_check b vss = true -> bundle_takes b vss.
Proof.
  unfold bundle_room_check, bundle_takes. destruct (bd_storage b) as [| |rel e backed]; try done.
  destruct (bd_table b) as [T|]; [|done]. unfold room_check. intros [[Hf Hl%Z.leb_le]%andb_prop Hc%Z.ltb_lt]%andb_prop datas Henc.
  pose proof (Forall2_length _ _ _ Henc) as Hlen. cbn. split; [|by rewrite <- Hlen].
  clear Hl Hc Hlen. induction Henc as [|vs bs vss datas Hbs _ IH]; [constructor|]. cbn in Hf. rewrite Hbs in Hf.
  apply andb_prop in Hf as [Hb Hf]. constructor; [|auto]. unfold tuple_fits in Hb.
  rewrite !andb_true_iff, !Z.ltb_lt, Z.leb_le in Hb. unfold tuple_ok. lia.
Qed.

(** ** An example: a new catalog on 512-byte pages and four frames *)

(** The C library's conversions and hashes stand for themselves; these suffice for
    the values of the examples. *)
Definition example_strtod (text : list byte) : Z * list byte := (0, text).
Definition std_registry : TypeRegistry :=
  (register_builtin_types example_strtod (fun _ => "0.000000"%string) (fun z => z) (fun _ => 0)
    TypeRegistry_default).2.
Definition std_type (n : Z) (name : string) (T : TypeImpl) : Type_ :=
  {| oid := n; type_name := name; fixed_size := impl_fixed_size T; from_text := impl_from_text T;
     to_text := impl_to_text T; compare := impl_compare T; hash := impl_hash T |}.
Definition std_int32 : Type_ := std_type 1 "int32" Int32Type.
Definition std_int64 : Type_ := std_type 2 "int64" Int64Type.
Definition std_float64 : Type_ :=
  std_type 3 "float64" (Float64Type example_strtod (fun _ => "0.000000"%string) (fun z => z)).
Definition std_bool : Type_ := std_type 4 "bool" BoolType.
Definition std_text : Type_ := std_type 5 "text" (TextType (fun _ => 0)).
Definition std_types : list Type_ := [std_int32; std_int64; std_float64; std_bool; std_text].

Lemma std_registry_ok : builtin_registry std_registry std_int32 std_text std_bool.
Proof.
  split.
  - unfold std_registry, register_builtin_types.
    assert (Hstep : forall T name (m : M TypeRegistry unit) (r : TypeRegistry),
      registry_wf r -> name <> EmptyString -> Z.of_nat (length (types r)) < 2 ^ 32 - 2 ->
      by_name r !! name = None -> registry_wf (m (register_type T name r).2).2 ->
      registry_wf (bindM (register_type T name) (fun _ => m) r).2).
    { intros T name m r Hwf Hn Hl Hb Hm. pose proof (register_type_spec T name r Hwf Hn Hl) as Hs. rewrite Hb in Hs.
      destruct Hs as (r2 & t & Hrun & _). unfold bindM. rewrite Hrun in *. done. }
    do 4 (apply Hstep; [first [exact registry_default_wf|repeat (apply register_type_wf; [|done|by vm_compute]);
      exact registry_default_wf]|done|by vm_compute|by vm_compute|]).
    repeat (apply register_type_wf; [|done|by vm_compute]). exact registry_default_wf.
  - by vm_compute.
  - split_and!; reflexivity.
  - split_and!; reflexivity.
  - split_and!; reflexivity.
Qed.

Lemma std_boot_types : boot_types std_registry std_types.
Proof. repeat (apply Forall2_cons; split; [split; [reflexivity|done]|]). by apply Forall2_nil. Qed.

Definition example_config : EngineConfig :=
  {| ec_page_size := 512; buffer_pool_pages := 4; buffer_eviction := EvictionPolicyConfig_default |}.
#[export] Instance example_heap_config : HeapConfig := example_config.
Definition scan_fuel : nat := 100.
Definition example_catalog : MemCatalog :=
  (catalog_open scan_fuel (Catalog_new std_registry ∅ example_config)).2.

#[local] Abbreviation std_schema := (sys_schema std_int32 std_text std_bool).
Definition first_bundle (w : SystemTable) : MemBundle :=
  (bundle_open std_registry (std_schema w) example_config (Bundle_new, (∅ : MemFiles))).2.1.

Lemma first_bundle_ok w :
  opens_to std_registry (∅ : MemFiles) example_config (std_schema w) (first_bundle w) /\
  bundle_holds std_registry (first_bundle w) (std_schema w) [].
Proof.
  destruct (mem_opens_empty example_config std_registry ∅ (std_schema w)) as (e & Ho & Hh & _).
  - split; cbn; lia.
  - by destruct w.
  - assert (Heq : first_bundle w = mem_bundle std_registry (std_schema w) e).
    { destruct Ho as (d' & Ho). unfold first_bundle. rewrite Ho. reflexivity. }
    rewrite Heq. split; [exact Ho|exact Hh].
Qed.

Lemma first_bundle_takes w :
  bundle_takes (first_bundle w) (boot_rows std_int32 std_text std_bool std_types w).
Proof. apply bundle_room_check_ok. destruct w; vm_compute; reflexivity. Qed.

Lemma example_catalog_ok :
  exists X, cat_ok std_registry std_int32 std_text std_bool example_catalog X /\
    boot_data std_int32 std_text std_bool std_types X.
Proof.
  destruct (catalog_open_new std_registry std_int32 std_text std_bool std_registry_ok scan_fuel std_types
    (Catalog_new std_registry (∅ : MemFiles) example_config) first_bundle (new_resting _ _ _)) as (c & X & Hrun & Hok & Hb).
  - exact first_bundle_ok.
  - exact std_boot_types.
  - unfold scan_fuel. lia.
  - exact first_bundle_takes.
  - exists X. unfold example_catalog. rewrite Hrun. split; [exact Hok|exact Hb].
Qed.

(** The table t of the later examples. *)

Lemma boot_enough X : boot_data std_int32 std_text std_bool std_types X -> enough std_int32 std_text std_bool scan_fuel X.
Proof.
  intros [Ht Hc Ha _]. apply Permutation_length in Ht, Hc, Ha. rewrite !length_fmap in *. unfold scan_fuel.
  intros []; cbn; rewrite ?length_fmap, ?Ht, ?Hc, ?Ha; cbn; lia.
Qed.

Lemma foldr_max_perm (l l' : list Z) : l ≡ₚ l' -> foldr Z.max 0 l = foldr Z.max 0 l'.
Proof. induction 1; cbn; lia. Qed.

Lemma boot_next_oid X : boot_data std_int32 std_text std_bool std_types X -> next_oid X = 5.
Proof. intros [_ Hc _ _]. unfold next_oid, oid_bound. erewrite foldr_max_perm by (by rewrite Hc). done. Qed.

Definition example_columns : list ColumnSchema :=
  [{| col_name := "id"; col_type_oid := 1; nullable := false |};
   {| col_name := "note"; col_type_oid := 5; nullable := true |}].

Lemma example_can_create X :
  cat_ok std_registry std_int32 std_text std_bool example_catalog X ->
  boot_data std_int32 std_text std_bool std_types X ->
  can_create std_registry std_int32 std_text std_bool scan_fuel example_catalog X "t" example_columns [].
Proof.
  intros Hok Hb. pose proof (boot_next_oid X Hb) as Hn. split; rewrite ?Hn.
  - done.
  - apply find_none_iff. rewrite (bt_classes _ _ _ _ _ Hb). apply (bool_decide_eq_true_1 _). by vm_compute.
  - done.
  - repeat (apply Forall_cons; split; [eexists; reflexivity|]). by apply Forall_nil.
  - lia.
  - cbn. lia.
  - by vm_compute.
  - apply bundle_room_check_ok. vm_compute. reflexivity.
  - repeat (apply Forall_cons; split; [by vm_compute|]). by apply Forall_nil.
  - apply bundle_room_check_ok. vm_compute. reflexivity.
  - assert (Hcfg : cat_config example_catalog = example_config) by reflexivity. rewrite Hcfg.
    destruct (mem_opens_empty example_config std_registry (backends example_catalog)
      {| relation_oid := 5; table_name := "t"; table_columns := example_columns |}) as (e & Ho & Hh & _).
    + split; cbn; lia.
    + vm_compute. reflexivity.
    + exists (mem_bundle std_registry {| relation_oid := 5; table_name := "t"; table_columns := example_columns |} e).
      split; [exact Ho|exact Hh].
  - destruct Hb as [Ht Hc Ha _]. apply Permutation_length in Ht, Hc, Ha. rewrite !length_fmap in *.
    rewrite Ht, Hc, Ha. unfold scan_fuel. cbn. lia.
Qed.
