(* ===== verification/CatalogProps.v ===== *)
(** * CatalogProps: what the catalog guarantees

    The properties of src/src/catalog/catalog.cpp, stated on the data the system
    tables hold, with the example catalog of [CatalogMem] as their witness. *)
From S2P Require Import Prelude Utils TypeRegistry BuiltinTypes RowCodec RowCodecSpec StorageIO.
From S2P Require Import PageStore EvictionPolicy BufferPool HeapPage HeapEngine HeapEngineSpec TupleStore.
From S2P Require Import Table Bundle Catalog CatalogValues CatalogSpec CatalogUpdate CatalogOpen CatalogMem.

Section properties.
Context {D S E : Type} `{!BackendFactory D S} `{!StorageIO S} `{!EngineFactory S E}.
Context `{!StorageEngine E} `{!TupleStore E} `{!RelationFiles D S E}.
Context (r : TypeRegistry) (ti tx tb : Type_).
#[local] Abbreviation Cat := (Catalog D S E).
#[local] Abbreviation ok := (cat_ok r ti tx tb).

(** C27: the lookups of an open catalog answer from its data, cached or not.
    [get_type], [get_class] and [get_attributes] return the type, the class and
    the attributes in the order of their numbers that the system tables hold, or
    NotFound; whatever they add to the caches agrees with the tables. *)
Theorem catalog_lookups_agree (fuel : nat) (c : Cat) (X : CatalogData) (name : string) (o : Z) :
  builtin_registry r ti tx tb -> ok c X -> enough ti tx tb fuel X ->
  (exists c', get_type fuel name c = (found (type_named X name), c') /\ ok c' X) /\
  (exists c', get_class fuel name c = (found (class_named X name), c') /\ ok c' X) /\
  (exists c', get_attributes fuel o c =
     (match attributes_of X o with [] => Err NotFound | l => Ok l end, c') /\ ok c' X).
Proof.
  intros Hr Hok Hf. split_and!.
  - destruct (get_type_ok r ti tx tb Hr fuel c X name Hok Hf) as (c' & ? & ? & _). by exists c'.
  - destruct (get_class_ok r ti tx tb Hr fuel c X name Hok Hf) as (c' & ? & ? & _). by exists c'.
  - destruct (get_attributes_ok r ti tx tb Hr fuel c X o Hok Hf) as (c' & ? & ? & _). by exists c'.
Qed.

(** C24: creating a table adds it and nothing else.  [create_table] returns the oid
    after the largest in use; from then on the new name is found with that oid,
    its attributes are the given columns numbered from one, the table is open
    with the rows its relation holds, and every other class, its attributes and
    every open table are what they were. *)
Theorem catalog_create_table (fuel : nat) (c : Cat) (X : CatalogData) (name : string)
    (columns : list ColumnSchema) (rows : list TableRow) :
  builtin_registry r ti tx tb -> ok c X -> can_create r ti tx tb fuel c X name columns rows ->
  exists c' X', create_table fuel {| spec_name := name; spec_columns := columns |} c = (Ok (next_oid X), c') /\
    ok c' X' /\
    class_named X' name = Some (new_class X name) /\
    attributes_of X' (next_oid X) = column_attributes (next_oid X) 0 columns /\
    d_tables X' !! next_oid X =
      Some ({| relation_oid := next_oid X; table_name := name; table_columns := columns |}, rows) /\
    (forall n, n <> name -> class_named X' n = class_named X n) /\
    (forall o, o <> next_oid X -> attributes_of X' o = attributes_of X o) /\
    (forall o, o <> next_oid X -> d_tables X' !! o = d_tables X !! o).
Proof.
  intros Hr Hok Hcn. destruct (create_table_ok r ti tx tb Hr fuel c X name columns rows Hok Hcn)
    as (c' & X' & Hrun & Hadd & Hok' & _).
  pose proof (ck_data _ _ _ _ _ _ Hok) as Hd. pose proof (next_oid_fresh X) as Hfresh.
  pose proof (cn_new _ _ _ _ _ _ _ _ _ _ Hcn) as Hnew.
  assert (Hd' : data_ok X').
  { destruct (ck_data _ _ _ _ _ _ Hok') as [G0 G1 G2 G3 G4 G5 G6 G7 G8 G9]. split; try done.
    rewrite (ac_tables _ _ _ _ Hadd). intros o entry Ho.
    destruct (do_tables _ Hd _ _ Ho) as (k & Hk & Hok1 & Hs). exists k. rewrite (ac_classes _ _ _ _ Hadd).
    split; [by right|]. split; [done|]. by rewrite (added_schema X X' (new_class X name) columns). }
  destruct (added_named X X' (new_class X name) columns Hd Hadd Hfresh Hnew Hd') as [Hnamed Hothers].
  exists c', (with_table X' (next_oid X) (user_schema X' (new_class X name), rows)).
  split; [done|]. split; [done|]. split; [exact Hnamed|]. split_and!.
  - exact (added_own X X' (new_class X name) columns Hd Hadd Hfresh Hnew).
  - cbn. rewrite lookup_insert_eq. by rewrite (added_own_schema X X' (new_class X name) columns).
  - exact Hothers.
  - intros o Ho. by apply (added_other X X' (new_class X name) columns Hd Hadd Hfresh Hnew).
  - intros o Ho. cbn. rewrite lookup_insert_ne by done. by rewrite (ac_tables _ _ _ _ Hadd).
Qed.

(** C25: dropping a table forgets it and nothing else.  After [drop_table] the name
    is not found, the class has no attributes and its table is closed; all other
    names, attributes and open tables are what they were.  An oid that is not in
    use, or that of a system table, is refused and nothing changes. *)
Theorem catalog_drop_table (fuel : nat) (c : Cat) (X : CatalogData) :
  builtin_registry r ti tx tb -> ok c X -> enough ti tx tb fuel X ->
  (forall k, k ∈ (d_classes X).*2 -> relkind k = RELKIND_TABLE ->
    exists c' X', drop_table fuel (cc_oid k) c = (Ok tt, c') /\ ok c' X' /\
      class_named X' (cc_name k) = None /\ attributes_of X' (cc_oid k) = [] /\ d_tables X' !! cc_oid k = None /\
      (forall n, n <> cc_name k -> class_named X' n = class_named X n) /\
      (forall o, o <> cc_oid k -> attributes_of X' o = attributes_of X o /\ d_tables X' !! o = d_tables X !! o)) /\
  (forall k, k ∈ (d_classes X).*2 -> relkind k <> RELKIND_TABLE ->
    exists c', drop_table fuel (cc_oid k) c = (Err InvalidArgument, c') /\ ok c' X) /\
  (forall o, o ∉ cc_oid <$> (d_classes X).*2 -> exists c', drop_table fuel o c = (Err NotFound, c') /\ ok c' X).
Proof.
  intros Hr Hok Hf. pose proof (ck_data _ _ _ _ _ _ Hok) as Hd. split_and!.
  - intros k Hk Hkind. destruct (drop_table_ok r ti tx tb Hr fuel c X k Hok Hf Hk Hkind) as (c' & X' & Hrun & Hok' & Hrem).
    destruct (removed_named X X' k Hd Hrem) as [Hn Hothers]. exists c', X'. split; [done|]. split; [done|].
    split; [done|]. split; [by apply (removed_own X X' k)|]. split; [by rewrite (rc_tables _ _ _ Hrem), lookup_delete_eq|].
    split; [done|]. intros o Ho. split; [by apply (removed_other X X' k)|].
    by rewrite (rc_tables _ _ _ Hrem), lookup_delete_ne.
  - intros k Hk Hkind. destruct (drop_table_refuses r ti tx tb Hr fuel c X (cc_oid k) Hok Hf) as [_ Hsys]. by eapply Hsys.
  - intros o Ho. destruct (drop_table_refuses r ti tx tb Hr fuel c X o Hok Hf) as [Hno _]. by apply Hno.
Qed.

(** C26: opening a catalog.  Over empty relations it creates the system catalog: the
    built-in types, the four system classes and their attributes.  Over relations
    that already hold a catalog it finds exactly what they hold and writes
    nothing more. *)
Theorem catalog_opens (fuel : nat) (d : D) (cfg : EngineConfig) (B : SystemTable -> OpenedTableBundle S E) :
  builtin_registry r ti tx tb ->
  (forall ts, relations_hold r ti tx tb d cfg (fun _ => []) B -> boot_types r ts -> (4 < fuel)%nat ->
    (forall w, bundle_takes (B w) (boot_rows ti tx tb ts w)) ->
    exists c X, catalog_open fuel (Catalog_new r d cfg) = (Ok tt, c) /\ ok c X /\ boot_data ti tx tb ts X) /\
  (forall X, relations_hold r ti tx tb d cfg (sys_rows ti tx tb X) B -> data_ok X ->
    (length (d_classes X) < fuel)%nat ->
    exists c, catalog_open fuel (Catalog_new r d cfg) = (Ok tt, c) /\ ok c (at_rest X)).
Proof.
  intros Hr. split.
  - intros ts Hrel. apply (catalog_open_new r ti tx tb Hr fuel ts (Catalog_new r d cfg) B); [apply new_resting|done].
  - intros X Hrel Hd Hf.
    destruct (catalog_open_existing r ti tx tb Hr fuel (Catalog_new r d cfg) B X) as (c & Hrun & Hok & _);
      [apply new_resting|done..|by exists c].
Qed.
End properties.

(** ** Witnesses *)

#[local] Abbreviation std_ok := (cat_ok std_registry std_int32 std_text std_bool).

Lemma catalog_lookups_agree_witness :
  exists c', get_class scan_fuel "edb_class" example_catalog =
    (Ok {| cc_oid := 2; cc_name := "edb_class"; relkind := "system" |}, c').
Proof.
  destruct example_catalog_ok as (X & Hok & Hb).
  destruct (catalog_lookups_agree std_registry std_int32 std_text std_bool scan_fuel example_catalog X "edb_class" 2
    std_registry_ok Hok (boot_enough X Hb)) as (_ & (c' & Hrun & _) & _).
  exists c'. rewrite Hrun. do 2 f_equal.
  assert (Hc : class_named X "edb_class" = Some {| cc_oid := 2; cc_name := "edb_class"; relkind := "system" |}).
  { apply find_unique; [apply (do_names _ (ck_data _ _ _ _ _ _ Hok))| |reflexivity].
    rewrite (bt_classes _ _ _ _ _ Hb). right. left. }
  rewrite Hc. reflexivity.
Defined.

Lemma catalog_create_table_witness :
  exists c' X', create_table scan_fuel {| spec_name := "t"; spec_columns := example_columns |} example_catalog = (Ok 5, c') /\
    cat_ok std_registry std_int32 std_text std_bool c' X' /\
    class_named X' "t" = Some {| cc_oid := 5; cc_name := "t"; relkind := "table" |}.
Proof.
  destruct example_catalog_ok as (X & Hok & Hb).
  destruct (catalog_create_table std_registry std_int32 std_text std_bool scan_fuel example_catalog X "t" example_columns []
    std_registry_ok Hok (example_can_create X Hok Hb)) as (c' & X' & Hrun & Hok' & Hn & _).
  exists c', X'. unfold new_class in Hn. rewrite (boot_next_oid X Hb) in Hrun, Hn.
  split; [exact Hrun|]. split; [exact Hok'|exact Hn].
Defined.

(** The catalog of the example after [create_table]. *)
Definition example_created : MemCatalog :=
  (create_table scan_fuel {| spec_name := "t"; spec_columns := example_columns |} example_catalog).2.

Lemma example_created_ok :
  exists X', cat_ok std_registry std_int32 std_text std_bool example_created X' /\
    class_named X' "t" = Some {| cc_oid := 5; cc_name := "t"; relkind := "table" |} /\
    enough std_int32 std_text std_bool scan_fuel X'.
Proof.
  destruct example_catalog_ok as (X & Hok & Hb). pose proof (example_can_create X Hok Hb) as Hcn.
  destruct (create_table_ok std_registry std_int32 std_text std_bool std_registry_ok scan_fuel example_catalog X "t"
    example_columns [] Hok Hcn) as (c' & X' & Hrun & Hadd & Hok' & _).
  exists (with_table X' (next_oid X) (user_schema X' (new_class X "t"), [])). unfold example_created.
  rewrite Hrun. split; [exact Hok'|]. split.
  - apply find_unique; [apply (do_names _ (ck_data _ _ _ _ _ _ Hok'))| |reflexivity]. cbn.
    rewrite (ac_classes _ _ _ _ Hadd). unfold new_class. rewrite (boot_next_oid X Hb). left.
  - pose proof (Permutation_length (ac_classes _ _ _ _ Hadd)) as L1.
    pose proof (Permutation_length (ac_attributes _ _ _ _ Hadd)) as L2.
    destruct Hb as [Ht Hc Ha _]. apply Permutation_length in Ht, Hc, Ha.
    rewrite length_app, length_column_attributes in L2. cbn in L1. rewrite !length_fmap in *.
    intros []; cbn; rewrite ?length_fmap, ?(ac_types _ _ _ _ Hadd), ?L1, ?L2, ?Ht, ?Hc, ?Ha; unfold scan_fuel; cbn; lia.
Qed.

Lemma catalog_drop_table_witness :
  exists c' X', drop_table scan_fuel 5 example_created = (Ok tt, c') /\ class_named X' "t" = None.
Proof.
  destruct example_created_ok as (X & Hok & Hn & Hf).
  destruct (catalog_drop_table std_registry std_int32 std_text std_bool scan_fuel example_created X std_registry_ok Hok Hf)
    as (Hdrop & _ & _).
  destruct (class_named_elem _ _ _ Hn) as [Hin _].
  destruct (Hdrop _ Hin ltac:(reflexivity)) as (c' & X' & Hrun & _ & Hnone & _).
  exists c', X'. split; [exact Hrun|exact Hnone].
Defined.

Lemma catalog_opens_witness :
  exists c X, catalog_open scan_fuel (Catalog_new std_registry (∅ : MemFiles) example_config) = (Ok tt, c) /\
    boot_data std_int32 std_text std_bool std_types X.
Proof.
  destruct (catalog_opens std_registry std_int32 std_text std_bool scan_fuel (∅ : MemFiles) example_config first_bundle
    std_registry_ok) as [Hnew _].
  destruct (Hnew std_types first_bundle_ok std_boot_types ltac:(unfold scan_fuel; lia) first_bundle_takes)
    as (c & X & Hrun & _ & Hb).
  exists c, X. split; [exact Hrun|exact Hb].
Defined.

(** ** A dropped table's rows come back *)

(** Create a table, insert a row, close and reopen the catalog, drop the table and
    create another one with the same columns; scan that one. *)
Definition recreate : M MemCatalog (list (list Value)) :=
  let* o := create_table scan_fuel {| spec_name := "t"; spec_columns := example_columns |} in
  let* _ := on_user_table o (on_table (fun T => table_insert T [int_value std_int32 7; text_value std_text "hi"])) in
  let* _ := catalog_close in
  let* _ := catalog_open scan_fuel in
  let* _ := drop_table scan_fuel o in
  let* o' := create_table scan_fuel {| spec_name := "u"; spec_columns := example_columns |} in
  on_user_table o' (on_table (table_scan scan_fuel)).

(** A new table can start with the rows of a dropped one.  [drop_table] removes
    the table from the system tables but leaves its relation as it is, and the
    next table gets the same oid and so the same relation: the new table [u] shows
    the row that was inserted into [t]. *)
Theorem dropped_rows_reappear :
  (recreate example_catalog).1 = Ok [[int_value std_int32 7; text_value std_text "hi"]].
Proof. vm_compute. reflexivity. Qed.

(** ** A table that could not be created exists *)

(** The name of the second column does not fit a page of the attribute relation. *)
Definition bad_columns : list ColumnSchema :=
  [{| col_name := "id"; col_type_oid := 1; nullable := false |};
   {| col_name := Nat.iter 600 (String.append "x") EmptyString; col_type_oid := 5; nullable := true |}].
(** Try to create it; then what the catalog knows of the name. *)
Definition failed_create : M MemCatalog (Result Z * Result Z * list string * Result Z) :=
  let* created := attempt (create_table scan_fuel {| spec_name := "t"; spec_columns := bad_columns |}) in
  let* again := attempt (create_table scan_fuel {| spec_name := "t"; spec_columns := example_columns |}) in
  let* class := get_class scan_fuel "t" in
  let* attributes := get_attributes scan_fuel (cc_oid class) in
  let* opened := attempt (open_table scan_fuel "t") in
  retM (created, again, ca_name <$> attributes, opened).

(** A failed [create_table] leaves a table behind.  The class row and the first
    column are stored before the second column is refused; afterwards the name is
    taken, and [open_table] opens a table with the first column only. *)
Theorem failed_create_leaves_table :
  (failed_create example_catalog).1 = Ok (Err OutOfMemory, Err AlreadyExists, ["id"], Ok 5).
Proof. vm_compute. reflexivity. Qed.

(** ** A table dropped while a pointer to it is in use *)

Definition drop_while_open : M MemCatalog TupleId :=
  let* o := create_table scan_fuel {| spec_name := "t"; spec_columns := example_columns |} in
  let* table := open_table scan_fuel "t" in
  let* _ := drop_table scan_fuel o in
  on_user_table table (on_table (fun T => table_insert T [int_value std_int32 7; text_value std_text "hi"])).

(** The pointer [open_table] returned does not survive [drop_table], which
    destroys the table it points to without a way to know of its users: the next
    use is an access to freed memory. *)
Theorem dropped_table_pointer_dangles :
  is_ok (create_table scan_fuel {| spec_name := "t"; spec_columns := example_columns |} example_catalog).1 = true /\
  (drop_while_open example_catalog).1 = Fault.
Proof. vm_compute. done. Qed.
