(* ===== verification/CatalogConcurrent.v ===== *)
(** * CatalogConcurrent: the catalog called from several threads

    The member functions of src/src/catalog/catalog.cpp under [Catalog::latch], one
    access to the caches or to a system table at a time.  The latch is a
    [std::recursive_mutex]: the functions a method calls lock it again, which the
    thread that holds it passes.  [open] and [close] run before the threads start
    and after they end. *)
From S2P Require Import Prelude Utils TypeRegistry BuiltinTypes RowCodec RowCodecSpec StorageIO.
From S2P Require Import PageStore EvictionPolicy BufferPool HeapPage HeapEngine HeapEngineSpec TupleStore.
From S2P Require Import Table Bundle Catalog CatalogValues CatalogSpec CatalogUpdate CatalogOpen CatalogMem.
From S2P Require Import CatalogProps Latch.

Section bodies.
Context {D S E : Type} `{BackendFactory D S} `{StorageIO S} `{StorageEngine E} `{EngineFactory S E}.
Context (fuel : nat).
#[local] Abbreviation Cat := (Catalog D S E).

(** ** catalog.cpp, access by access *)

Definition get_type_code (name : string) : Code Cat (Result CatalogType) :=
  code* _ := act check_open in
  code* cache := act (getM type_cache_by_name) in
  match cache !! name with
  | Some found => Done (Ok found)
  | None =>
      code* types := act (getM cat_types) in
      code* rows := act (system_scan fuel TypeTable) in
      code* decoded := Done (find_row (decode_type types) (fun t => String.eqb (ct_name t) name) rows) in
      match decoded with
      | None => Done (Err NotFound)
      | Some (_, t) =>
          code* _ := act (modifyM (fun c => set_caches (emplace (ct_name t) t (type_cache_by_name c))
            (class_cache_by_name c) (attribute_cache_by_relid c) c)) in
          Done (Ok t)
      end
  end.

Definition get_class_code (name : string) : Code Cat (Result CatalogClass) :=
  code* _ := act check_open in
  code* cache := act (getM class_cache_by_name) in
  match cache !! name with
  | Some found => Done (Ok found)
  | None =>
      code* types := act (getM cat_types) in
      code* rows := act (system_scan fuel ClassTable) in
      code* decoded := Done (find_row (decode_class types) (fun k => String.eqb (cc_name k) name) rows) in
      match decoded with
      | None => Done (Err NotFound)
      | Some (_, k) =>
          code* _ := act (modifyM (fun c => set_caches (type_cache_by_name c)
            (emplace (cc_name k) k (class_cache_by_name c)) (attribute_cache_by_relid c) c)) in
          Done (Ok k)
      end
  end.

Definition get_attributes_code (class_oid : Z) : Code Cat (Result (list CatalogAttribute)) :=
  code* _ := act check_open in
  code* cache := act (getM attribute_cache_by_relid) in
  match cache !! class_oid with
  | Some found => Done (Ok found)
  | None =>
      code* types := act (getM cat_types) in
      code* rows := act (system_scan fuel AttributeTable) in
      code* decoded := Done (decode_rows (decode_attribute types) rows) in
      let attributes := sort_by_attnum
        (filter (fun a => ca_relation_oid a = class_oid) decoded.*2) in
      if (length attributes =? 0)%nat then Done (Err NotFound)
      else
        code* _ := act (modifyM (fun c => set_caches (type_cache_by_name c) (class_cache_by_name c)
          (emplace class_oid attributes (attribute_cache_by_relid c)) c)) in
        Done (Ok attributes)
  end.

Definition next_relation_oid_code : Code Cat (Result Z) :=
  code* types := act (getM cat_types) in
  code* rows := act (system_scan fuel ClassTable) in
  code* max_oid := Done (max_class_oid types rows) in
  Done (Ok (wrap32 (max_oid + 1))).

Definition lookup_class_row_code (class_oid : Z) : Code Cat (Result (option TableRow)) :=
  code* types := act (getM cat_types) in
  code* rows := act (system_scan fuel ClassTable) in
  code* found := Done (find_row (decode_class types) (fun k => cc_oid k =? class_oid) rows) in
  Done (Ok (fst <$> found)).

Definition lookup_attribute_rows_code (class_oid : Z) : Code Cat (Result (list TableRow)) :=
  code* types := act (getM cat_types) in
  code* rows := act (system_scan fuel AttributeTable) in
  code* decoded := Done (decode_rows (decode_attribute types) rows) in
  Done (Ok (filter (fun ra => ca_relation_oid ra.2 = class_oid) decoded).*1).

(** Opening the bundle and storing it in the map. *)
Definition open_user_bundle (rel : Z) (relation_name : string) (loaded : list CatalogAttribute) : M Cat Z :=
  let resolved_attributes := sort_by_attnum loaded in
  let schema := {| relation_oid := rel; table_name := relation_name;
    table_columns := attribute_column <$> resolved_attributes |} in
  fun c =>
    match bundle_open (cat_types c) schema (cat_config c) (Bundle_new, backends c) with
    | (Ok _, (bundle, d)) =>
        (Ok rel, set_user_tables (emplace rel bundle (user_tables c)) (set_backends d c))
    | (Err er, (_, d)) => (Err er, set_backends d c)
    | (Fault, _) => (Fault, c)
    end.

Definition ensure_user_table_open_code (rel : Z) (relation_name : string)
    (attributes : list CatalogAttribute) : Code Cat (Result Z) :=
  code* tables := act (getM user_tables) in
  match tables !! rel with
  | Some _ => Done (Ok rel)
  | None =>
      code* loaded := match attributes with [] => get_attributes_code rel | _ => Done (Ok attributes) end in
      act (open_user_bundle rel relation_name loaded)
  end.

Definition open_table_code (name : string) : Code Cat (Result Z) :=
  code* _ := act check_open in
  code* klass := get_class_code name in
  ensure_user_table_open_code (cc_oid klass) (cc_name klass) [].

Fixpoint write_schema_attributes_code (relation_oid index : Z) (columns : list ColumnSchema) :
    Code Cat (Result unit) :=
  match columns with
  | [] => Done (Ok tt)
  | column :: rest =>
      code* types := act (getM cat_types) in
      code* values := Done (attribute_values types relation_oid index column) in
      code* _ := act (system_insert AttributeTable values) in
      write_schema_attributes_code relation_oid (index + 1) rest
  end.

Definition create_table_code (spec : CreateTableSpec) : Code Cat (Result Z) :=
  code* _ := act check_open in
  if String.eqb (spec_name spec) EmptyString || (length (spec_columns spec) =? 0)%nat
  then Done (Err InvalidArgument)
  else
    code* existing := attemptC (get_class_code (spec_name spec)) in
    match existing with
    | Ok _ => Done (Err AlreadyExists)
    | Fault => Done Fault
    | Err er =>
        if negb (bool_decide (er = NotFound)) then Done (Err er)
        else
          code* types := act (getM cat_types) in
          code* _ := Done (check_column_types types (spec_columns spec)) in
          code* rel := next_relation_oid_code in
          code* values := Done (class_values types rel (spec_name spec) RELKIND_TABLE) in
          code* _ := act (system_insert ClassTable values) in
          code* _ := write_schema_attributes_code rel 0 (spec_columns spec) in
          code* _ := act (modifyM (invalidate_class_cache rel (spec_name spec))) in
          code* _ := ensure_user_table_open_code rel (spec_name spec) [] in
          Done (Ok rel)
    end.

Fixpoint delete_rows_code (which : SystemTable) (rows : list TableRow) : Code Cat (Result unit) :=
  match rows with
  | [] => Done (Ok tt)
  | row :: rest =>
      code* _ := act (on_system which (on_bundle_engine (se_delete_tuple (row_id row)))) in
      delete_rows_code which rest
  end.

Definition drop_table_code (class_oid : Z) : Code Cat (Result unit) :=
  code* _ := act check_open in
  code* types := act (getM cat_types) in
  code* class_row := lookup_class_row_code class_oid in
  match class_row with
  | None => Done (Err NotFound)
  | Some row =>
      code* decoded_class := Done (decode_class types row) in
      if negb (String.eqb (relkind decoded_class) RELKIND_TABLE) then Done (Err InvalidArgument)
      else
        code* attribute_rows := lookup_attribute_rows_code class_oid in
        code* _ := delete_rows_code AttributeTable attribute_rows in
        code* _ := delete_rows_code ClassTable [row] in
        code* _ := act (modifyM (erase_user_table class_oid)) in
        act (modifyM (invalidate_class_cache class_oid (cc_name decoded_class)))
  end.

(** ** Uninterrupted, the accesses are the member functions *)

Lemma body_get_type name : body (get_type_code name) (get_type fuel name).
Proof. unfold get_type_code, get_type. bodies. Qed.
Lemma body_get_class name : body (get_class_code name) (get_class fuel name).
Proof. unfold get_class_code, get_class. bodies. Qed.
Lemma body_get_attributes o : body (get_attributes_code o) (get_attributes fuel o).
Proof. unfold get_attributes_code, get_attributes. bodies. Qed.
Lemma body_next_oid : body next_relation_oid_code (next_relation_oid fuel).
Proof. unfold next_relation_oid_code, next_relation_oid. bodies. Qed.
Lemma body_class_row o : body (lookup_class_row_code o) (lookup_class_row fuel o).
Proof. unfold lookup_class_row_code, lookup_class_row. bodies. Qed.
Lemma body_attribute_rows o : body (lookup_attribute_rows_code o) (lookup_attribute_rows fuel o).
Proof. unfold lookup_attribute_rows_code, lookup_attribute_rows. bodies. Qed.

#[local] Hint Resolve body_get_class body_get_attributes body_next_oid body_class_row body_attribute_rows : code.

Lemma body_ensure_open rel name attributes :
  body (ensure_user_table_open_code rel name attributes) (ensure_user_table_open fuel rel name attributes).
Proof.
  unfold ensure_user_table_open_code, ensure_user_table_open. bodies.
Qed.

#[local] Hint Resolve body_ensure_open : code.

Lemma body_open_table name : body (open_table_code name) (open_table fuel name).
Proof. unfold open_table_code, open_table. bodies. Qed.

Lemma body_write_attributes rel index columns :
  body (write_schema_attributes_code rel index columns) (write_schema_attributes rel index columns).
Proof.
  revert index. induction columns as [|column rest IH]; intros index;
    cbn [write_schema_attributes_code write_schema_attributes]; bodies.
Qed.
Lemma body_delete_rows which rows : body (delete_rows_code which rows) (delete_rows which rows).
Proof. induction rows as [|row rest IH]; cbn [delete_rows_code delete_rows]; bodies. Qed.

#[local] Hint Resolve body_write_attributes body_delete_rows : code.

Lemma body_create_table spec : body (create_table_code spec) (create_table fuel spec).
Proof. unfold create_table_code, create_table. bodies. Qed.
Lemma body_drop_table o : body (drop_table_code o) (drop_table fuel o).
Proof. unfold drop_table_code, drop_table. bodies. Qed.
End bodies.

(** ** The catalog as a latched object *)

Inductive CatalogOp :=
  | OpGetType (name : string)
  | OpGetClass (name : string)
  | OpGetAttributes (class_oid : Z)
  | OpCreateTable (spec : CreateTableSpec)
  | OpDropTable (class_oid : Z)
  | OpOpenTable (name : string).

Definition catalog_reply (op : CatalogOp) : Type :=
  match op with
  | OpGetType _ => CatalogType
  | OpGetClass _ => CatalogClass
  | OpGetAttributes _ => list CatalogAttribute
  | OpCreateTable _ => Z
  | OpDropTable _ => unit
  | OpOpenTable _ => Z
  end.

Section monitor.
Context (D S E : Type) `{BackendFactory D S} `{StorageIO S} `{StorageEngine E} `{EngineFactory S E}.
Context (fuel : nat).

Definition catalog_method (op : CatalogOp) : Code (Catalog D S E) (Result (catalog_reply op)) :=
  match op with
  | OpGetType name => get_type_code fuel name
  | OpGetClass name => get_class_code fuel name
  | OpGetAttributes class_oid => get_attributes_code fuel class_oid
  | OpCreateTable spec => create_table_code fuel spec
  | OpDropTable class_oid => drop_table_code fuel class_oid
  | OpOpenTable name => open_table_code fuel name
  end.
Definition catalog_monitor : Monitor := {|
  object := Catalog D S E;
  Op := CatalogOp;
  answer := fun op => Result (catalog_reply op);
  method := catalog_method;
  aborts := fun _ => is_fault;
|}.
(** One sequential call. *)
Definition catalog_call (op : CatalogOp) : M (Catalog D S E) (catalog_reply op) :=
  match op with
  | OpGetType name => get_type fuel name
  | OpGetClass name => get_class fuel name
  | OpGetAttributes class_oid => get_attributes fuel class_oid
  | OpCreateTable spec => create_table fuel spec
  | OpDropTable class_oid => drop_table fuel class_oid
  | OpOpenTable name => open_table fuel name
  end.

Lemma body_catalog op : body (catalog_method op) (catalog_call op).
Proof.
  destruct op; [apply body_get_type|apply body_get_class|apply body_get_attributes|apply body_create_table|
    apply body_drop_table|apply body_open_table].
Qed.
End monitor.

(** ** Threads that create the same table *)

Section race.
Context {D S E : Type} `{!BackendFactory D S} `{!StorageIO S} `{!EngineFactory S E}.
Context `{!StorageEngine E} `{!TupleStore E} `{!RelationFiles D S E}.
Context (r : TypeRegistry) (ti tx tb : Type_) (Hr : builtin_registry r ti tx tb).
Context (fuel : nat) (name : string) (columns : list ColumnSchema).
#[local] Abbreviation Cat := (Catalog D S E).
#[local] Abbreviation ok := (cat_ok r ti tx tb).
#[local] Abbreviation O := (catalog_monitor D S E fuel).
#[local] Abbreviation spec := {| spec_name := name; spec_columns := columns |}.

Definition creator : Client O (Result Z) := Do (O := O) (OpCreateTable spec) (fun a => Ret a).

(** Before and after the table exists. *)
Definition absent (o : Z) (c : Cat) : Prop :=
  exists X rows, ok c X /\ can_create r ti tx tb fuel c X name columns rows /\ next_oid X = o.
Definition present (o : Z) (c : Cat) : Prop :=
  exists X, ok c X /\ enough ti tx tb fuel X /\ class_named X name = Some {| cc_oid := o; cc_name := name; relkind := RELKIND_TABLE |}.

Lemma create_absent o c :
  absent o c -> exists c', create_table fuel spec c = (Ok o, c') /\ present o c'.
Proof using All.
  intros (X & rows & Hok & Hcn & <-).
  destruct (create_table_ok r ti tx tb Hr fuel c X name columns rows Hok Hcn)
    as (c' & X' & Hrun & Hadd & Hok' & _ & Hen).
  exists c'. split; [done|]. exists (with_table X' (next_oid X) (user_schema X' (new_class X name), rows)).
  split; [done|]. split; [exact Hen|].
  apply find_unique; [apply (do_names _ (ck_data _ _ _ _ _ _ Hok'))| |done]. cbn.
  rewrite (ac_classes _ _ _ _ Hadd). left.
Qed.

(** A name that exists is refused. *)
Lemma create_existing c X k :
  name <> EmptyString -> columns <> [] -> ok c X -> enough ti tx tb fuel X -> class_named X name = Some k ->
  exists c', create_table fuel spec c = (Err AlreadyExists, c') /\ ok c' X.
Proof using All.
  intros Hn Hcols Hok Hen Hc.
  destruct (get_class_ok r ti tx tb Hr fuel c X name Hok Hen) as (c' & Hg & Hok' & _).
  rewrite Hc in Hg. exists c'. split; [|done].
  unfold create_table. erewrite bind_ok by (by eapply check_open_ok). cbn [spec_name spec_columns].
  rewrite (proj2 (String.eqb_neq _ _) Hn). destruct columns; [done|]. cbn [orb length Nat.eqb].
  unfold bindM, attempt. by rewrite Hg.
Qed.

Lemma create_present o c :
  name <> EmptyString -> columns <> [] -> present o c ->
  exists c', create_table fuel spec c = (Err AlreadyExists, c') /\ present o c'.
Proof using All.
  intros Hn Hcols (X & Hok & Hen & Hc). destruct (create_existing c X _ Hn Hcols Hok Hen Hc) as (c' & Hrun & Hok').
  exists c'. split; [done|]. by exists X.
Qed.

Context (o : Z) (Hname : name <> EmptyString) (Hcolumns : columns <> []).

(** What one creator does to the catalog. *)
Definition create_legal (c : Cat) (op : CatalogOp) : Result (catalog_reply op) -> Cat -> Prop :=
  match op with
  | OpCreateTable _ => fun a c' =>
      absent o c /\ a = Ok o /\ present o c' \/ present o c /\ a = Err AlreadyExists /\ present o c'
  | _ => fun _ _ => False
  end.

Lemma create_step c a c' :
  absent o c \/ present o c -> create_table fuel spec c = (a, c') ->
  is_fault a = false /\ present o c' /\ create_legal c (OpCreateTable spec) a c'.
Proof using All.
  intros [Hab|Hpr] Hrun.
  - destruct (create_absent o c Hab) as (c1 & Hrun1 & Hpr). rewrite Hrun in Hrun1. injection Hrun1 as -> ->.
    split_and!; [done|done|by left].
  - destruct (create_present o c Hname Hcolumns Hpr) as (c1 & Hrun1 & Hpr1). rewrite Hrun in Hrun1.
    injection Hrun1 as -> ->. split_and!; [done|done|by right].
Qed.

Program Definition race_spec : MonitorSpec O := {|
  budget_ok := fun _ c => absent o c \/ present o c;
  op_ok := fun op => op = OpCreateTable spec;
  answer_ok := fun _ _ => True;
  legal := create_legal;
|}.
Next Obligation.
  intros n c op a c' Hb -> Hrun. change (run (create_table_code fuel spec) c = (a, c')) in Hrun.
  rewrite body_create_table in Hrun. destruct (create_step c a c' Hb Hrun) as (Ha & Hpr & Hleg).
  split_and!; [done|done|by right|done].
Qed.
#[local] Existing Instance race_spec.

(** Nobody has created it, or exactly one client has. *)
Definition race_state (am : Atomic O (Result Z)) : Prop :=
  absent o (at_object am) /\ (forall j c, at_clients am !! j = Some c -> c = creator) \/
  present o (at_object am) /\ exists i, at_clients am !! i = Some (Ret (Ok o)) /\
    forall j c, at_clients am !! j = Some c -> j <> i -> c = creator \/ c = Ret (Err AlreadyExists).

Lemma creator_step am j ev am' :
  at_clients am !! j = Some creator -> atomic_step j am = Some (ev, am') ->
  exists a, create_table fuel spec (at_object am) = (a, at_object am') /\
    at_clients am' = <[j := Ret a]> (at_clients am).
Proof.
  intros Hj. unfold atomic_step. rewrite Hj. unfold creator.
  destruct (run _ (at_object am)) as [a c'] eqn:Hrun.
  change (run (create_table_code fuel spec) (at_object am) = (a, c')) in Hrun. rewrite body_create_table in Hrun.
  destruct (aborts _ a); [done|]. intros [= <- <-]. by exists a.
Qed.

(** A client that can still move is a creator. *)
Lemma race_mover am j ev am' :
  race_state am -> atomic_step j am = Some (ev, am') -> at_clients am !! j = Some creator.
Proof using Type.
  intros Hst Hstep. destruct (at_clients am !! j) as [c|] eqn:Hj; [f_equal|unfold atomic_step in Hstep; by rewrite Hj in Hstep].
  assert (Hret : forall x, c <> Ret x) by (intros x ->; unfold atomic_step in Hstep; by rewrite Hj in Hstep).
  destruct Hst as [[_ Hall]|(_ & i & Hi & Hall)]; [by eapply Hall|].
  destruct (decide (j = i)) as [->|Hne].
  - exfalso. apply (Hret (Ok o)). congruence.
  - destruct (Hall j c Hj Hne) as [?|?]; [done|]. exfalso. by apply (Hret (Err AlreadyExists)).
Qed.

Lemma race_step am j ev am' : race_state am -> atomic_step j am = Some (ev, am') -> race_state am'.
Proof using All.
  intros Hst Hstep. pose proof (race_mover _ _ _ _ Hst Hstep) as Hj.
  destruct (creator_step _ _ _ _ Hj Hstep) as (a & Hrun & Hcl). right.
  assert (Hjl : (j < length (at_clients am))%nat) by (by eapply lookup_lt_Some).
  destruct Hst as [[Hab Hall]|(Hpr & i & Hi & Hall)].
  - destruct (create_absent o _ Hab) as (c1 & Hrun1 & Hpr). rewrite Hrun in Hrun1. injection Hrun1 as -> Hc1.
    rewrite Hc1. split; [done|]. exists j. rewrite Hcl. split; [by apply list_lookup_insert_eq|].
    intros j' c. rewrite list_lookup_insert_Some. intros [(<- & _)|[_ Hc]] Hne; [done|]. left. by eapply Hall.
  - destruct (create_present o _ Hname Hcolumns Hpr) as (c1 & Hrun1 & Hpr1). rewrite Hrun in Hrun1.
    injection Hrun1 as -> Hc1. rewrite Hc1. split; [done|].
    assert (Hne : j <> i) by (intros ->; rewrite Hi in Hj; done).
    exists i. rewrite Hcl. split; [by rewrite list_lookup_insert_ne|].
    intros j' c. rewrite list_lookup_insert_Some. intros [(<- & <- & _)|[_ Hc]] Hne'; [by right|]. by eapply Hall.
Qed.

Lemma race_run am h am' : race_state am -> atomic_run am h am' -> race_state am'.
Proof using All. intros Hst Hrun. induction Hrun as [|h m1 j ev m2 _ IH Hstep]; [done|]. by eapply race_step. Qed.

Lemma race_allowed n c : absent o c ->
  allowed n (Build_Atomic (O := O) c (replicate n creator)).
Proof using All.
  intros Hab. exists (replicate n 1%nat). cbn. split_and!.
  - apply Forall2_replicate. done.
  - induction n as [|n IH]; [done|]. change (1 + sum_list (replicate n 1%nat) = Datatypes.S n)%nat. lia.
  - by left.
Qed.

Lemma race_completes n c m : absent o c -> rtc step (start (O := O) c (replicate n creator)) m ->
  inevitable step (fun m => finished m = true) m.
Proof using All.
  intros Hab Hsteps. pose proof (race_allowed n c Hab) as Hal.
  destruct (latch_linearizable (O := O) c _ n m Hal Hsteps) as (h & am & Hrun & Hsim & _).
  destruct (allowed_run _ _ _ _ Hal Hrun) as [[n' Hal'] _]. by eapply latch_completes.
Qed.

Lemma finished_outside (m : Machine O (Result Z)) j t :
  finished m = true -> threads m !! j = Some t -> exists a, t = Outside (Ret a).
Proof using Type.
  unfold finished. rewrite forallb_forall. intros Hf Hj.
  specialize (Hf t). rewrite <- list_elem_of_In in Hf. specialize (Hf (list_elem_of_lookup_2 _ _ _ Hj)).
  destruct t as [[a|op k]|op c k]; [by exists a|done|done].
Qed.

Lemma race_outcome n c m : absent o c -> rtc step (start (O := O) c (replicate (Datatypes.S n) creator)) m ->
  finished m = true ->
  exists i, threads m !! i = Some (Outside (Ret (Ok o))) /\
    forall j t, threads m !! j = Some t -> j <> i -> t = Outside (Ret (Err AlreadyExists)).
Proof using All.
  intros Hab Hsteps Hfin. pose proof (race_allowed (Datatypes.S n) c Hab) as Hal.
  destruct (latch_linearizable (O := O) c _ _ m Hal Hsteps) as (h & am & Hrun & Hsim & _).
  assert (Hst : race_state am).
  { eapply race_run; [|exact Hrun]. left. split; [done|]. intros j c0 Hc0.
    by apply lookup_replicate in Hc0 as [-> _]. }
  pose proof (sim_clients _ _ Hsim) as Hcl.
  destruct Hst as [[_ Hall]|(_ & i & Hi & Hall)].
  - pose proof (atomic_run_length _ _ _ Hrun) as Hlen. cbn in Hlen. rewrite length_replicate in Hlen.
    destruct (lookup_lt_is_Some_2 (at_clients am) 0) as [c0 Hc0]; [lia|]. rewrite (Hall 0%nat c0 Hc0) in Hc0.
    rewrite Hcl, list_lookup_fmap in Hc0. destruct (threads m !! 0%nat) as [t|] eqn:Ht; [|done].
    by destruct (finished_outside m 0 t Hfin Ht) as [a ->].
  - exists i. rewrite Hcl, list_lookup_fmap in Hi. destruct (threads m !! i) as [t|] eqn:Ht; [|done].
    destruct (finished_outside m i t Hfin Ht) as [a ->]. cbn in Hi. injection Hi as ->. split; [done|].
    intros j t Hj Hne. destruct (finished_outside m j t Hfin Hj) as [a ->].
    destruct (Hall j (Ret a)) as [Hc|Hc]; [|done|done|by injection Hc as ->].
    by rewrite Hcl, list_lookup_fmap, Hj.
Qed.
End race.

(** C8: of the threads that create the same table, one succeeds.  Any number of
    threads call [create_table] with the same name and columns on an open catalog
    that can take the table.  Every execution completes all the calls, and in the
    end exactly one thread has the new oid; all others have AlreadyExists. *)
Theorem concurrent_create_once {D S E} `{!BackendFactory D S} `{!StorageIO S} `{!EngineFactory S E}
    `{!StorageEngine E} `{!TupleStore E} `{!RelationFiles D S E} (r : TypeRegistry) (ti tx tb : Type_)
    (fuel n : nat) (c : Catalog D S E) (X : CatalogData) (name : string) (columns : list ColumnSchema)
    (rows : list TableRow) (m : Machine (catalog_monitor D S E fuel) (Result Z)) :
  builtin_registry r ti tx tb -> cat_ok r ti tx tb c X -> can_create r ti tx tb fuel c X name columns rows ->
  rtc step (start (O := catalog_monitor D S E fuel) c (replicate (Datatypes.S n) (creator fuel name columns))) m ->
  inevitable step (fun m => finished m = true) m /\
  (finished m = true ->
    exists i, threads m !! i = Some (Outside (Ret (Ok (next_oid X)))) /\
      forall j t, threads m !! j = Some t -> j <> i -> t = Outside (Ret (Err AlreadyExists))).
Proof.
  intros Hr Hok Hcn Hsteps. pose proof (cn_name _ _ _ _ _ _ _ _ _ _ Hcn) as Hn.
  pose proof (cn_columns _ _ _ _ _ _ _ _ _ _ Hcn) as Hcols.
  assert (Hab : absent r ti tx tb fuel name columns (next_oid X) c) by (by exists X, rows).
  split; [by eapply race_completes|]. intros Hfin. by eapply race_outcome.
Qed.

(** ** Witness: two threads on the catalog of [CatalogMem] *)

Lemma concurrent_create_once_witness :
  inevitable step (fun m => finished m = true)
    (start (O := catalog_monitor _ _ _ scan_fuel) example_catalog (replicate 2 (creator scan_fuel "t" example_columns))).
Proof.
  destruct example_catalog_ok as (X & Hok & Hb).
  destruct (concurrent_create_once std_registry std_int32 std_text std_bool scan_fuel 1 example_catalog X "t"
    example_columns [] _ std_registry_ok Hok (example_can_create X Hok Hb) (rtc_refl _ _)) as [Hlive _].
  exact Hlive.
Defined.
