(* ===== verification/CatalogLocks.v ===== *)
(** * CatalogLocks: the catalog's latch and the engines' latches together

    The member functions of src/src/catalog/catalog.cpp and the table operations of
    src/src/catalog/table.cpp with every latch they take: the catalog's, which its
    methods take again when they call each other, and inside it the latch of an
    engine for each call of the engine.  Threads use tables through the pointer
    [open_table] returned, under the engine's latch alone. *)
From S2P Require Import Prelude Utils TypeRegistry BuiltinTypes RowCodec RowCodecSpec StorageIO.
From S2P Require Import PageStore EvictionPolicy BufferPool HeapPage HeapEngine HeapEngineSpec TupleStore.
From S2P Require Import Table Bundle Catalog CatalogValues CatalogSpec CatalogUpdate CatalogOpen CatalogMem.
From S2P Require Import CatalogProps Latch CatalogConcurrent LockOrder.

(** A table of the catalog: one of its own, or a user table by its pointer. *)
Inductive TableRef := SystemRef (which : SystemTable) | UserRef (ref : Z).
Inductive EdbLatch := CatalogLatch | EngineLatch (table : TableRef).

#[export] Instance TableRef_eq_dec : EqDecision TableRef.
Proof. solve_decision. Defined.
#[export] Instance EdbLatch_eq_dec : EqDecision EdbLatch.
Proof. solve_decision. Defined.

(** [std::recursive_mutex] in catalog.hpp, [std::mutex] in heap_engine.hpp. *)
#[export] Instance edb_latches : Latches EdbLatch := {|
  latch_dec := EdbLatch_eq_dec;
  recursive := fun l => match l with CatalogLatch => true | EngineLatch _ => false end;
  rank := fun l => match l with CatalogLatch => 0%nat | EngineLatch _ => 1%nat end;
|}.

Section programs.
Context {D S E : Type} `{BackendFactory D S} `{StorageIO S} `{StorageEngine E} `{EngineFactory S E}.
Context (fuel : nat).
#[local] Abbreviation Cat := (Catalog D S E).
#[local] Abbreviation Bundle := (OpenedTableBundle S E).
#[local] Abbreviation Prog A := (Prog EdbLatch Cat (Result A)).

Definition on_ref {A} (t : TableRef) (m : M Bundle A) : M Cat A :=
  match t with
  | SystemRef which => on_system which m
  | UserRef ref => on_user_table ref m
  end.

(** [engine->f(...)]: one call of an engine, under its latch. *)
Definition engine_call {A} (t : TableRef) (m : M E A) : Prog A :=
  locked (EngineLatch t) (actP (on_ref t (on_bundle_engine m))).
(** A call that gets the scan handle by reference. *)
Definition engine_call_handle {A} (t : TableRef) (handle : ScanHandle) (m : M (ScanHandle * E) A) :
    Prog (A * ScanHandle) :=
  locked (EngineLatch t) (actP (on_ref t (on_bundle_engine (fun e =>
    match m (handle, e) with
    | (Ok a, (handle', e')) => (Ok (a, handle'), e')
    | (Err er, (_, e')) => (Err er, e')
    | (Fault, (_, e')) => (Fault, e')
    end)))).

(** ** table.cpp *)

(** The table the pointer refers to. *)
Definition the_table (t : TableRef) : Prog Table :=
  actP (on_ref t (on_table (fun T => retM T))).

Definition table_insert_prog (t : TableRef) (values : list Value) : Prog TupleId :=
  prog* T := the_table t in
  if negb (storage T) then Return (Err InvalidArgument)
  else
    prog* encoded := pureP (encode (row_codec T) values) in
    engine_call t (se_insert_tuple encoded).

Fixpoint scan_rows_loop_prog (n : nat) (t : TableRef) (T : Table) (rows : list TableRow) (handle : ScanHandle) :
    Prog (list TableRow * ScanHandle) :=
  match n with
  | O => Abort
  | Datatypes.S n =>
      prog* next := engine_call_handle t handle se_scan_next in
      match next.1 with
      | None => Return (Ok (rows, next.2))
      | Some tuple =>
          prog* decoded := pureP (decode (row_codec T) (tup_data tuple)) in
          scan_rows_loop_prog n t T (rows ++ [{| row_id := tup_id tuple; row_values := decoded |}]) next.2
      end
  end.
Definition scan_rows_prog (t : TableRef) : Prog (list TableRow) :=
  prog* T := the_table t in
  if negb (storage T) then Return (Err InvalidArgument)
  else
    prog* handle := engine_call t se_begin_scan in
    prog* scanned := scan_rows_loop_prog fuel t T [] handle in
    prog* _ := engine_call_handle t scanned.2 se_end_scan in
    Return (Ok scanned.1).
Definition table_scan_prog (t : TableRef) : Prog (list (list Value)) :=
  prog* rows := scan_rows_prog t in Return (Ok (row_values <$> rows)).

(** ** catalog.cpp *)

Definition get_type_prog (name : string) : Prog CatalogType :=
  locked CatalogLatch (
    prog* _ := actP check_open in
    prog* cache := actP (getM type_cache_by_name) in
    match cache !! name with
    | Some found => Return (Ok found)
    | None =>
        prog* types := actP (getM cat_types) in
        prog* rows := scan_rows_prog (SystemRef TypeTable) in
        prog* decoded := pureP (find_row (decode_type types) (fun t => String.eqb (ct_name t) name) rows) in
        match decoded with
        | None => Return (Err NotFound)
        | Some (_, t) =>
            prog* _ := actP (modifyM (fun c => set_caches (emplace (ct_name t) t (type_cache_by_name c))
              (class_cache_by_name c) (attribute_cache_by_relid c) c)) in
            Return (Ok t)
        end
    end).

Definition get_class_prog (name : string) : Prog CatalogClass :=
  locked CatalogLatch (
    prog* _ := actP check_open in
    prog* cache := actP (getM class_cache_by_name) in
    match cache !! name with
    | Some found => Return (Ok found)
    | None =>
        prog* types := actP (getM cat_types) in
        prog* rows := scan_rows_prog (SystemRef ClassTable) in
        prog* decoded := pureP (find_row (decode_class types) (fun k => String.eqb (cc_name k) name) rows) in
        match decoded with
        | None => Return (Err NotFound)
        | Some (_, k) =>
            prog* _ := actP (modifyM (fun c => set_caches (type_cache_by_name c)
              (emplace (cc_name k) k (class_cache_by_name c)) (attribute_cache_by_relid c) c)) in
            Return (Ok k)
        end
    end).

Definition get_attributes_prog (class_oid : Z) : Prog (list CatalogAttribute) :=
  locked CatalogLatch (
    prog* _ := actP check_open in
    prog* cache := actP (getM attribute_cache_by_relid) in
    match cache !! class_oid with
    | Some found => Return (Ok found)
    | None =>
        prog* types := actP (getM cat_types) in
        prog* rows := scan_rows_prog (SystemRef AttributeTable) in
        prog* decoded := pureP (decode_rows (decode_attribute types) rows) in
        let attributes := sort_by_attnum
          (filter (fun a => ca_relation_oid a = class_oid) decoded.*2) in
        if (length attributes =? 0)%nat then Return (Err NotFound)
        else
          prog* _ := actP (modifyM (fun c => set_caches (type_cache_by_name c) (class_cache_by_name c)
            (emplace class_oid attributes (attribute_cache_by_relid c)) c)) in
          Return (Ok attributes)
    end).

(** [engine->open] takes the latch of the engine that is being opened. *)
Definition ensure_user_table_open_prog (rel : Z) (relation_name : string) : Prog Z :=
  prog* tables := actP (getM user_tables) in
  match tables !! rel with
  | Some _ => Return (Ok rel)
  | None =>
      prog* loaded := get_attributes_prog rel in
      locked (EngineLatch (UserRef rel)) (actP (open_user_bundle rel relation_name loaded))
  end.

Definition open_table_prog (name : string) : Prog Z :=
  locked CatalogLatch (
    prog* _ := actP check_open in
    prog* klass := get_class_prog name in
    ensure_user_table_open_prog (cc_oid klass) (cc_name klass)).

Definition next_relation_oid_prog : Prog Z :=
  prog* types := actP (getM cat_types) in
  prog* rows := scan_rows_prog (SystemRef ClassTable) in
  prog* max_oid := pureP (max_class_oid types rows) in
  Return (Ok (wrap32 (max_oid + 1))).

Fixpoint write_schema_attributes_prog (relation_oid index : Z) (columns : list ColumnSchema) : Prog unit :=
  match columns with
  | [] => Return (Ok tt)
  | column :: rest =>
      prog* types := actP (getM cat_types) in
      prog* values := pureP (attribute_values types relation_oid index column) in
      prog* _ := table_insert_prog (SystemRef AttributeTable) values in
      write_schema_attributes_prog relation_oid (index + 1) rest
  end.

Definition create_table_prog (spec : CreateTableSpec) : Prog Z :=
  locked CatalogLatch (
    prog* _ := actP check_open in
    if String.eqb (spec_name spec) EmptyString || (length (spec_columns spec) =? 0)%nat
    then Return (Err InvalidArgument)
    else
      bindP (get_class_prog (spec_name spec)) (fun existing =>
      match existing with
      | Ok _ => Return (Err AlreadyExists)
      | Fault => Abort
      | Err er =>
          if negb (bool_decide (er = NotFound)) then Return (Err er)
          else
            prog* types := actP (getM cat_types) in
            prog* _ := pureP (check_column_types types (spec_columns spec)) in
            prog* rel := next_relation_oid_prog in
            prog* values := pureP (class_values types rel (spec_name spec) RELKIND_TABLE) in
            prog* _ := table_insert_prog (SystemRef ClassTable) values in
            prog* _ := write_schema_attributes_prog rel 0 (spec_columns spec) in
            prog* _ := actP (modifyM (invalidate_class_cache rel (spec_name spec))) in
            prog* _ := ensure_user_table_open_prog rel (spec_name spec) in
            Return (Ok rel)
      end)).

Definition lookup_class_row_prog (class_oid : Z) : Prog (option TableRow) :=
  prog* types := actP (getM cat_types) in
  prog* rows := scan_rows_prog (SystemRef ClassTable) in
  prog* found := pureP (find_row (decode_class types) (fun k => cc_oid k =? class_oid) rows) in
  Return (Ok (fst <$> found)).

Definition lookup_attribute_rows_prog (class_oid : Z) : Prog (list TableRow) :=
  prog* types := actP (getM cat_types) in
  prog* rows := scan_rows_prog (SystemRef AttributeTable) in
  prog* decoded := pureP (decode_rows (decode_attribute types) rows) in
  Return (Ok (filter (fun ra => ca_relation_oid ra.2 = class_oid) decoded).*1).

Fixpoint delete_rows_prog (which : SystemTable) (rows : list TableRow) : Prog unit :=
  match rows with
  | [] => Return (Ok tt)
  | row :: rest =>
      prog* _ := engine_call (SystemRef which) (se_delete_tuple (row_id row)) in
      delete_rows_prog which rest
  end.

Definition drop_table_prog (class_oid : Z) : Prog unit :=
  locked CatalogLatch (
    prog* _ := actP check_open in
    prog* types := actP (getM cat_types) in
    prog* class_row := lookup_class_row_prog class_oid in
    match class_row with
    | None => Return (Err NotFound)
    | Some row =>
        prog* decoded_class := pureP (decode_class types row) in
        if negb (String.eqb (relkind decoded_class) RELKIND_TABLE) then Return (Err InvalidArgument)
        else
          prog* attribute_rows := lookup_attribute_rows_prog class_oid in
          prog* _ := delete_rows_prog AttributeTable attribute_rows in
          prog* _ := delete_rows_prog ClassTable [row] in
          prog* _ := actP (modifyM (erase_user_table class_oid)) in
          actP (modifyM (invalidate_class_cache class_oid (cc_name decoded_class)))
    end).

(** ** The latches are taken in order *)

(** A thread outside the engines holds the catalog's latch, any number of times. *)
#[local] Abbreviation catalog_only h := (Forall (eq CatalogLatch) h).

Lemma lock_catalog h : catalog_only h -> lock_ok h CatalogLatch.
Proof.
  destruct h as [|l h]; [right; by apply Forall_nil|]. intros [<- _]%Forall_cons. left. split; [left|done].
Qed.
Lemma lock_engine h t : catalog_only h -> lock_ok h (EngineLatch t).
Proof. intros Hh. right. eapply Forall_impl; [exact Hh|]. intros l <-. cbn. lia. Qed.
Lemma catalog_only_cons h : catalog_only h -> catalog_only (CatalogLatch :: h).
Proof. intros Hh. by apply Forall_cons. Qed.
#[local] Hint Resolve lock_catalog lock_engine catalog_only_cons : locks.

Ltac in_order := repeat first
  [ solve [eauto 3 with locks]
  | lazymatch goal with |- ordered _ (bindRP _ _) _ => apply ordered_bindR; [|intros ?] end
  | lazymatch goal with |- ordered _ (locked _ _) _ => apply ordered_locked end
  | lazymatch goal with |- ordered _ (bindP _ _) _ => eapply ordered_bind; [|intros ?] end
  | lazymatch goal with |- ordered _ (let x := _ in _) _ => cbv zeta end
  | lazymatch goal with |- ordered _ (if ?b then _ else _) _ => destruct b end
  | lazymatch goal with |- ordered _ (match ?o with _ => _ end) _ => destruct o end
  | reflexivity | exact I ].

Section order.
Context (h : list EdbLatch) (Hh : catalog_only h).

Lemma engine_call_order {A} t (m : M E A) : ordered h (engine_call t m) h.
Proof using Hh. unfold engine_call. in_order. Qed.
Lemma engine_call_handle_order {A} t handle (m : M (ScanHandle * E) A) :
  ordered h (engine_call_handle t handle m) h.
Proof using Hh. unfold engine_call_handle. in_order. Qed.
#[local] Hint Resolve engine_call_order engine_call_handle_order : locks.

Lemma table_insert_order t values : ordered h (table_insert_prog t values) h.
Proof using Hh. unfold table_insert_prog, the_table. in_order. Qed.
Lemma scan_loop_order n t T rows handle : ordered h (scan_rows_loop_prog n t T rows handle) h.
Proof using Hh.
  revert rows handle. induction n as [|n IH]; intros rows handle; cbn [scan_rows_loop_prog]; in_order.
Qed.
#[local] Hint Resolve scan_loop_order : locks.
Lemma scan_rows_order t : ordered h (scan_rows_prog t) h.
Proof using Hh. unfold scan_rows_prog, the_table. in_order. Qed.
Lemma table_scan_order t : ordered h (table_scan_prog t) h.
Proof using Hh. unfold table_scan_prog. in_order. apply scan_rows_order. Qed.
Lemma delete_rows_order which rows : ordered h (delete_rows_prog which rows) h.
Proof using Hh. induction rows as [|row rest IH]; cbn [delete_rows_prog]; in_order. Qed.
End order.
#[local] Hint Resolve engine_call_order table_insert_order scan_rows_order table_scan_order delete_rows_order : locks.

Lemma get_type_order h name : catalog_only h -> ordered h (get_type_prog name) h.
Proof. intros Hh. unfold get_type_prog. in_order. Qed.
Lemma get_class_order h name : catalog_only h -> ordered h (get_class_prog name) h.
Proof. intros Hh. unfold get_class_prog. in_order. Qed.
Lemma get_attributes_order h o : catalog_only h -> ordered h (get_attributes_prog o) h.
Proof. intros Hh. unfold get_attributes_prog. in_order. Qed.
Lemma next_oid_order h : catalog_only h -> ordered h next_relation_oid_prog h.
Proof. intros Hh. unfold next_relation_oid_prog. in_order. Qed.
Lemma class_row_order h o : catalog_only h -> ordered h (lookup_class_row_prog o) h.
Proof. intros Hh. unfold lookup_class_row_prog. in_order. Qed.
Lemma attribute_rows_order h o : catalog_only h -> ordered h (lookup_attribute_rows_prog o) h.
Proof. intros Hh. unfold lookup_attribute_rows_prog. in_order. Qed.
Lemma write_attributes_order h rel index columns :
  catalog_only h -> ordered h (write_schema_attributes_prog rel index columns) h.
Proof.
  intros Hh. revert index. induction columns as [|column rest IH]; intros index;
    cbn [write_schema_attributes_prog]; in_order.
Qed.
#[local] Hint Resolve get_class_order get_attributes_order next_oid_order class_row_order attribute_rows_order
  write_attributes_order : locks.

Lemma ensure_open_order h rel name : catalog_only h -> ordered h (ensure_user_table_open_prog rel name) h.
Proof. intros Hh. unfold ensure_user_table_open_prog. in_order. Qed.
#[local] Hint Resolve ensure_open_order : locks.

Lemma open_table_order h name : catalog_only h -> ordered h (open_table_prog name) h.
Proof. intros Hh. unfold open_table_prog. in_order. Qed.
Lemma create_table_order h spec : catalog_only h -> ordered h (create_table_prog spec) h.
Proof. intros Hh. unfold create_table_prog. in_order. Qed.
Lemma drop_table_order h o : catalog_only h -> ordered h (drop_table_prog o) h.
Proof. intros Hh. unfold drop_table_prog. in_order. Qed.

(** ** The clients of a database *)

Inductive DbCall :=
  | CallGetType (name : string)
  | CallGetClass (name : string)
  | CallGetAttributes (class_oid : Z)
  | CallCreateTable (spec : CreateTableSpec)
  | CallDropTable (class_oid : Z)
  | CallOpenTable (name : string)
  | CallInsert (table : Z) (values : list Value)
  | CallScan (table : Z).
Definition db_answer (call : DbCall) : Type :=
  match call with
  | CallGetType _ => CatalogType
  | CallGetClass _ => CatalogClass
  | CallGetAttributes _ => list CatalogAttribute
  | CallCreateTable _ => Z
  | CallDropTable _ => unit
  | CallOpenTable _ => Z
  | CallInsert _ _ => TupleId
  | CallScan _ => list (list Value)
  end.
Definition db_prog (call : DbCall) : Prog (db_answer call) :=
  match call with
  | CallGetType name => get_type_prog name
  | CallGetClass name => get_class_prog name
  | CallGetAttributes class_oid => get_attributes_prog class_oid
  | CallCreateTable spec => create_table_prog spec
  | CallDropTable class_oid => drop_table_prog class_oid
  | CallOpenTable name => open_table_prog name
  | CallInsert table values => table_insert_prog (UserRef table) values
  | CallScan table => table_scan_prog (UserRef table)
  end.

(** A thread's program: calls, each chosen by the answers to those before. *)
Inductive DbClient (A : Type) :=
  | DbRet (a : A)
  | DbDo (call : DbCall) (k : Result (db_answer call) -> DbClient A).
Arguments DbRet {A}.
Arguments DbDo {A}.
Fixpoint client_prog {A} (c : DbClient A) : LockOrder.Prog EdbLatch Cat A :=
  match c with
  | DbRet a => Return a
  | DbDo call k => bindP (db_prog call) (fun r => client_prog (k r))
  end.

Lemma db_prog_order call : ordered [] (db_prog call) [].
Proof.
  assert (Hh : catalog_only []) by (by apply Forall_nil).
  destruct call; cbn [db_prog db_answer]; auto using get_type_order, get_class_order, get_attributes_order,
    create_table_order, drop_table_order, open_table_order, table_insert_order, table_scan_order.
Qed.
Lemma client_order {A} (c : DbClient A) : ordered [] (client_prog c) [].
Proof. induction c as [a|call k IH]; [done|]. eapply ordered_bind; [apply db_prog_order|]. done. Qed.
End programs.
Arguments DbRet {A}.
Arguments DbDo {A}.

(** The latches do not block each other for ever.  Any number of threads call the
    catalog's methods and insert into and scan tables, in any interleaving of their
    accesses and latch operations: no execution stops with a thread that waits.  It
    stops when all have returned or when one has ended the process; that catalog calls
    do not end it is the subject of [CatalogComplete]. *)
Theorem database_calls_no_deadlock {D S E} `{BackendFactory D S} `{StorageIO S} `{StorageEngine E}
    `{EngineFactory S E} {A} (fuel : nat) (c : Catalog D S E) (clients : list (DbClient A)) :
  inevitable l_step (fun m => l_over m = true) (l_start c (client_prog fuel <$> clients)).
Proof.
  apply ordered_completes, l_inv_start, Forall_fmap, Forall_forall. intros client _. apply client_order.
Qed.

(** Two threads: one creates a table, opens it, inserts and scans; the other creates
    it too and then looks up a type. *)
Definition first_thread : DbClient (list (list Value)) :=
  DbDo (CallCreateTable {| spec_name := "t"; spec_columns := example_columns |}) (fun _ =>
  DbDo (CallOpenTable "t") (fun opened =>
    match opened with
    | Ok t => DbDo (CallInsert t [int_value std_int32 7; text_value std_text "hi"]) (fun _ =>
        DbDo (CallScan t) (fun rows => match rows with Ok l => DbRet l | _ => DbRet [] end))
    | _ => DbRet []
    end)).
Definition second_thread : DbClient (list (list Value)) :=
  DbDo (CallCreateTable {| spec_name := "t"; spec_columns := example_columns |}) (fun created =>
  DbDo (CallGetType "text") (fun _ => DbRet (if is_ok created then [] else [[]]))).

(** They complete side by side: the second one finds the table there. *)
Example two_threads_complete :
  let m := l_schedule (concat (replicate 800 [0; 1; 1]%nat))
             (l_start example_catalog (client_prog scan_fuel <$> [first_thread; second_thread])) in
  (l_result m 0, l_result m 1) =
    (Some [[int_value std_int32 7; text_value std_text "hi"]], Some [[]]).
Proof. vm_compute. reflexivity. Qed.
