(* ===== verification/CatalogSequential.v ===== *)
(** * CatalogSequential: a latched call, run alone, is the sequential call

    [CatalogLocks] writes the catalog's methods and the table operations as programs
    of single accesses and latch operations: a scan is one access per tuple, and each
    access of an engine loads the relation's bytes and stores them again.  Here these
    programs are related to the methods of [Catalog] and [Table], whose effect the
    other files verify: run by one thread with nobody in between, they compute the
    same answer and leave the same catalog. *)
From S2P Require Import Prelude Utils TypeRegistry BuiltinTypes RowCodec RowCodecSpec StorageIO.
From S2P Require Import PageStore EvictionPolicy BufferPool HeapPage HeapEngine HeapEngineSpec TupleStore.
From S2P Require Import Table Bundle Catalog CatalogValues CatalogSpec CatalogUpdate CatalogOpen CatalogMem.
From S2P Require Import CatalogProps Latch CatalogConcurrent LockOrder LockBlocks CatalogLocks.

(** ** Programs and computations *)

(** The answer of a computation; a fault ends the process. *)
Definition outcome {S A} (x : Result A * S) : option (Result A) * S :=
  match x with (Fault, s) => (None, s) | (r, s) => (Some r, s) end.

Section agreement.
Context {L S : Type} `{!Latches L}.

Definition agrees {A} (p : Prog L S (Result A)) (m : M S A) : Prop := forall s, runP p s = outcome (m s).

Lemma agrees_act {A} (m : M S A) : agrees (actP m) m.
Proof. intros s. cbn. by destruct (m s) as [[a|er|] s']. Qed.
Lemma agrees_pure {A} (r : Result A) : agrees (pureP r) (liftR r).
Proof. by destruct r. Qed.
Lemma agrees_ret {A} (a : A) : agrees (Return (Ok a)) (retM a).
Proof. done. Qed.
Lemma agrees_err {A} er : agrees (A := A) (Return (Err er)) (errM er).
Proof. done. Qed.
Lemma agrees_fault {A} : agrees (A := A) Abort faultM.
Proof. done. Qed.
Lemma agrees_locked {A} l (p : Prog L S (Result A)) m : agrees p m -> agrees (locked l p) m.
Proof. intros Hp s. rewrite runP_locked. apply Hp. Qed.

Lemma agrees_bind {A B} (p : Prog L S (Result A)) m (k : A -> Prog L S (Result B)) k' :
  agrees p m -> (forall a, agrees (k a) (k' a)) -> agrees (bindRP p k) (bindM m k').
Proof.
  intros Hp Hk s. unfold bindRP, bindM. rewrite runP_bind, Hp. destruct (m s) as [[a|er|] s']; [apply Hk|done|done].
Qed.
(** [auto r = p;], with the error left to what follows. *)
Lemma agrees_attempt {A B} (p : Prog L S (Result A)) m (k : Result A -> Prog L S (Result B)) k' :
  agrees p m -> (forall r, agrees (k r) (k' r)) -> agrees (bindP p k) (bindM (attempt m) k').
Proof.
  intros Hp Hk s. unfold bindM, attempt. rewrite runP_bind, Hp.
  destruct (m s) as [[a|er|] s']; [apply Hk|apply Hk|done].
Qed.
End agreement.

Create HintDb agree.
#[export] Hint Resolve agrees_act agrees_pure agrees_ret agrees_err agrees_fault : agree.

(** Follow the structure that the program and the method share. *)
Ltac agree := repeat first
  [ solve [eauto 3 with agree]
  | lazymatch goal with |- agrees (bindRP _ _) _ => apply agrees_bind; [|intros ?] end
  | lazymatch goal with |- agrees (locked _ _) _ => apply agrees_locked end
  | lazymatch goal with |- agrees (bindP _ _) _ => apply agrees_attempt; [|intros ?] end
  | lazymatch goal with |- agrees (let x := _ in _) _ => cbv zeta end
  | lazymatch goal with |- agrees (if ?b then _ else _) _ => destruct b end
  | lazymatch goal with |- agrees (match ?o with _ => _ end) _ => destruct o end ].

Section sequential.
Context {D S E : Type} `{RelationFiles D S E} `{!StorageIO S} `{!StorageEngine E}.
(** Storing a relation's bytes forgets what was stored there before. *)
Context (Hstore : forall rel (s1 s2 : S) (d : D), bf_store rel s2 (bf_store rel s1 d) = bf_store rel s2 d).
Context (fuel : nat).
#[local] Abbreviation Cat := (Catalog D S E).
#[local] Abbreviation Bundle := (OpenedTableBundle S E).
Implicit Types c : Cat.

(** ** Several accesses of one table *)

Definition get_ref (t : TableRef) c : option Bundle :=
  match t with SystemRef which => Some (system_table which c) | UserRef ref => user_tables c !! ref end.
Definition put_ref (t : TableRef) (b : Bundle) (d : D) c : Cat :=
  match t with
  | SystemRef which => set_backends d (set_system_table which b c)
  | UserRef ref => set_backends d (set_user_tables (<[ref := b]> (user_tables c)) c)
  end.

Lemma on_ref_eq {A} t (m : M Bundle A) c :
  on_ref t m c = match get_ref t c with
                 | Some b => let '(r, b') := m (bundle_load b (backends c)) in
                             (r, put_ref t b' (bundle_store b' (backends c)) c)
                 | None => (Fault, c)
                 end.
Proof.
  destruct t as [which|ref]; cbn; unfold on_system, on_system_bundle, on_user_table, with_bundle.
  - by destruct (m _) as [r b'].
  - destruct (user_tables c !! ref) as [b|]; [|done]. by destruct (m _) as [r b'].
Qed.

Lemma get_put t b d c : get_ref t (put_ref t b d c) = Some b.
Proof. destruct t as [[]|ref]; cbn; [done..|]. apply lookup_insert_eq. Qed.
Lemma backends_put t b d c : backends (put_ref t b d c) = d.
Proof. by destruct t. Qed.
Lemma put_put t b b' d d' c : put_ref t b' d' (put_ref t b d c) = put_ref t b' d' c.
Proof. destruct t as [[]|ref]; cbn; [done..|]. unfold set_backends, set_user_tables. cbn. by rewrite insert_insert_eq. Qed.

(** The bundle of an open table, around the engine. *)
Definition running (rel : Z) (backed : bool) (T : option Table) (e : E) : Bundle :=
  {| bd_storage := Running rel e backed; bd_table := T |}.

Lemma load_stored rel backed T e d :
  bundle_load (running rel backed T e) (bundle_store (running rel backed T e) d) = running rel backed T e.
Proof using All.
  unfold bundle_load, bundle_store, running, load_device. cbn. destruct backed; [|done].
  rewrite rf_load_store. destruct (ef_world e) as [ps dev] eqn:Hw. unfold set_device. cbn. rewrite <- Hw.
  by rewrite rf_world.
Qed.
Lemma store_stored rel backed T e e' d :
  bundle_store (running rel backed T e') (bundle_store (running rel backed T e) d) =
    bundle_store (running rel backed T e') d.
Proof using Hstore. unfold bundle_store. cbn. destruct backed; [apply Hstore|done]. Qed.

(** The first access of a table loads its engine; [at_engine e] is the catalog from
    then on, and each further access is a step of the engine alone. *)
Lemma on_ref_table t c :
  (forall A (f : Table -> M E A), exists c', on_ref t (on_table (fun T => retM T)) c = (Fault, c') /\
     on_ref t (on_table f) c = (Fault, c')) \/
  exists T e0 (at_engine : E -> Cat),
    (forall A (f : Table -> M E A), on_ref t (on_table f) c = let '(r, e) := f T e0 in (r, at_engine e)) /\
    (forall A (m : M E A) e,
       on_ref t (on_bundle_engine m) (at_engine e) = let '(r, e') := m e in (r, at_engine e')).
Proof using All.
  destruct (get_ref t c) as [b|] eqn:Hb.
  2: { left. intros A f. exists c. by rewrite !on_ref_eq, Hb. }
  destruct (bundle_load b (backends c)) as [sto [T|]] eqn:Hload.
  2: { left. intros A f. eexists. rewrite !on_ref_eq, Hb, Hload. cbn. done. }
  destruct sto as [ps|rel w|rel e0 backed]; [left; intros A f; eexists; rewrite !on_ref_eq, Hb, Hload; cbn; done..|].
  right. exists T, e0.
  exists (fun e => put_ref t (running rel backed (Some T) e) (bundle_store (running rel backed (Some T) e) (backends c)) c).
  split.
  - intros A f. rewrite on_ref_eq, Hb, Hload. unfold on_table. cbn [bd_table bd_storage].
    by destruct (f T e0) as [r e].
  - intros A m e. rewrite on_ref_eq, get_put, backends_put, load_stored.
    change (on_bundle_engine m (running rel backed (Some T) e))
      with (let '(r, e') := m e in (r, running rel backed (Some T) e')).
    destruct (m e) as [r e']. by rewrite put_put, store_stored.
Qed.

(** ** table.cpp *)

(** A program on one engine, from a catalog where its table was accessed. *)
Definition follows {A} (at_engine : E -> Cat) (p : Prog EdbLatch Cat (Result A)) (m : M E A) : Prop :=
  forall e, runP p (at_engine e) = outcome (let '(r, e') := m e in (r, at_engine e')).

Section table.
Context (t : TableRef) (at_engine : E -> Cat).
Context (Hstep : forall A (m : M E A) e,
  on_ref t (on_bundle_engine m) (at_engine e) = let '(r, e') := m e in (r, at_engine e')).

Lemma follows_call {A} (m : M E A) : follows at_engine (engine_call t m) m.
Proof using Hstep. intros e. unfold engine_call. rewrite runP_locked, agrees_act, Hstep. done. Qed.

(** The caller's handle is threaded through the calls that write it. *)
Definition by_handle {A} (handle : ScanHandle) (m : M (ScanHandle * E) A) : M E (A * ScanHandle) := fun e =>
  match m (handle, e) with
  | (Ok a, (handle', e')) => (Ok (a, handle'), e')
  | (Err er, (_, e')) => (Err er, e')
  | (Fault, (_, e')) => (Fault, e')
  end.
Lemma follows_call_handle {A} handle (m : M (ScanHandle * E) A) :
  follows at_engine (engine_call_handle t handle m) (by_handle handle m).
Proof using Hstep. intros e. unfold engine_call_handle. rewrite runP_locked, agrees_act, Hstep. done. Qed.

Lemma follows_bind {A B} (p : Prog EdbLatch Cat (Result A)) m (k : A -> Prog EdbLatch Cat (Result B)) k' :
  follows at_engine p m -> (forall a, follows at_engine (k a) (k' a)) ->
  follows at_engine (bindRP p k) (bindM m k').
Proof.
  intros Hp Hk e. unfold bindRP, bindM. rewrite runP_bind, Hp. destruct (m e) as [[a|er|] e']; [apply Hk|done|done].
Qed.
Lemma follows_pure {A B} (r : Result A) (k : A -> Prog EdbLatch Cat (Result B)) k' :
  (forall a, follows at_engine (k a) (k' a)) -> follows at_engine (bindRP (pureP r) k) (bindM (liftR r) k').
Proof. intros Hk e. destruct r; [apply Hk|done|done]. Qed.

Lemma by_handle_bind {A B} handle (m : M (ScanHandle * E) A) (k : A -> M (ScanHandle * E) B) e :
  by_handle handle (bindM m k) e = (let* x := by_handle handle m in by_handle x.2 (k x.1)) e.
Proof. unfold by_handle, bindM. by destruct (m (handle, e)) as [[a|er|] [h e']]. Qed.
Lemma follows_ext {A} (p : Prog EdbLatch Cat (Result A)) m m' :
  (forall e, m e = m' e) -> follows at_engine p m' -> follows at_engine p m.
Proof. intros Hm Hp e. rewrite Hm. apply Hp. Qed.

Lemma follows_loop n T rows handle :
  follows at_engine (scan_rows_loop_prog n t T rows handle) (by_handle handle (scan_rows_loop n T rows)).
Proof using Hstep.
  revert rows handle. induction n as [|n IH]; intros rows handle; [done|].
  cbn [scan_rows_loop_prog scan_rows_loop]. eapply follows_ext; [intros e; apply by_handle_bind|].
  apply follows_bind; [apply follows_call_handle|]. intros [[tuple|] handle']; [|done].
  cbn [fst snd]. eapply follows_ext; [intros e; apply by_handle_bind|].
  intros e. unfold bindRP. rewrite runP_bind. unfold pureP, by_handle at 1, liftR, bindM.
  destruct (decode (row_codec T) (tup_data tuple)) as [decoded|er|]; [|done|done]. cbn. apply IH.
Qed.
End table.

Lemma table_insert_agrees t values :
  agrees (table_insert_prog t values) (on_ref t (on_table (fun T => table_insert T values))).
Proof using All.
  intros c. unfold table_insert_prog, the_table, bindRP. rewrite runP_bind, agrees_act.
  destruct (on_ref_table t c) as [Hf|(T & e0 & at_engine & Hfirst & Hstep)].
  - destruct (Hf _ (fun T => table_insert T values)) as (c' & -> & ->). done.
  - rewrite !Hfirst. cbn [retM outcome]. unfold table_insert.
    destruct (storage T); cbn [negb]; [|done].
    apply (follows_pure at_engine (encode (row_codec T) values)
      (fun encoded => engine_call t (se_insert_tuple encoded)) se_insert_tuple).
    intros encoded. by apply follows_call.
Qed.

Lemma scan_rows_agrees t :
  agrees (scan_rows_prog fuel t) (on_ref t (on_table (scan_rows fuel))).
Proof using All.
  intros c. unfold scan_rows_prog, the_table. unfold bindRP at 1. rewrite runP_bind, agrees_act.
  destruct (on_ref_table t c) as [Hf|(T & e0 & at_engine & Hfirst & Hstep)].
  - destruct (Hf _ (scan_rows fuel)) as (c' & -> & ->). done.
  - rewrite !Hfirst. cbn [retM outcome]. unfold scan_rows.
    destruct (storage T); cbn [negb]; [|done]. clear Hfirst.
    revert e0. apply (follows_bind at_engine); [by apply follows_call|]. intros handle.
    eapply (follows_ext _ _ _ (let* x := by_handle handle (scan_rows_loop fuel T []) in
      let* _ := by_handle x.2 se_end_scan in retM x.1)).
    + intros e. unfold with_handle, by_handle, bindM.
      destruct (scan_rows_loop fuel T [] (handle, e)) as [[rows|er|] [h e']]; [|done|done].
      cbn. by destruct (se_end_scan (h, e')) as [[u|er|] [h2 e2]].
    + apply follows_bind; [by apply follows_loop|]. intros [rows h]. cbn [fst snd].
      apply follows_bind; [by apply follows_call_handle|]. done.
Qed.

Lemma table_scan_agrees t : agrees (table_scan_prog fuel t) (on_ref t (on_table (table_scan fuel))).
Proof using All.
  intros c. unfold table_scan_prog, bindRP. rewrite runP_bind, scan_rows_agrees.
  destruct (on_ref_table t c) as [Hf|(T & e0 & at_engine & Hfirst & Hstep)].
  - destruct (Hf _ (scan_rows fuel)) as (c1 & Hr & ->). destruct (Hf _ (table_scan fuel)) as (c2 & Hr' & ->).
    rewrite Hr in Hr'. by injection Hr' as ->.
  - rewrite !Hfirst. unfold table_scan, bindM. by destruct (scan_rows fuel T e0) as [[rows|er|] e].
Qed.

Lemma engine_call_agrees {A} t (m : M E A) : agrees (engine_call t m) (on_ref t (on_bundle_engine m)).
Proof. apply agrees_locked, agrees_act. Qed.

(** ** catalog.cpp *)

Lemma system_scan_agrees which : agrees (scan_rows_prog fuel (SystemRef which)) (system_scan fuel which).
Proof using All. apply (scan_rows_agrees (SystemRef which)). Qed.
Lemma system_insert_agrees which values :
  agrees (table_insert_prog (SystemRef which) values) (system_insert which values).
Proof using All. apply (table_insert_agrees (SystemRef which)). Qed.
#[local] Hint Resolve system_scan_agrees system_insert_agrees : agree.

Lemma get_type_agrees name : agrees (get_type_prog fuel name) (get_type fuel name).
Proof using All. unfold get_type_prog, get_type. agree. Qed.
Lemma get_class_agrees name : agrees (get_class_prog fuel name) (get_class fuel name).
Proof using All. unfold get_class_prog, get_class. agree. Qed.
Lemma get_attributes_agrees o : agrees (get_attributes_prog fuel o) (get_attributes fuel o).
Proof using All. unfold get_attributes_prog, get_attributes. agree. Qed.
Lemma next_oid_agrees : agrees (next_relation_oid_prog fuel) (next_relation_oid fuel).
Proof using All. unfold next_relation_oid_prog, next_relation_oid. agree. Qed.
Lemma class_row_agrees o : agrees (lookup_class_row_prog fuel o) (lookup_class_row fuel o).
Proof using All. unfold lookup_class_row_prog, lookup_class_row. agree. Qed.
Lemma attribute_rows_agrees o : agrees (lookup_attribute_rows_prog fuel o) (lookup_attribute_rows fuel o).
Proof using All. unfold lookup_attribute_rows_prog, lookup_attribute_rows. agree. Qed.
Lemma write_attributes_agrees rel index columns :
  agrees (write_schema_attributes_prog rel index columns) (write_schema_attributes rel index columns).
Proof using All.
  revert index. induction columns as [|column rest IH]; intros index;
    cbn [write_schema_attributes_prog write_schema_attributes]; agree.
Qed.
Lemma delete_rows_agrees which rows : agrees (delete_rows_prog which rows) (delete_rows which rows).
Proof using All.
  induction rows as [|row rest IH]; cbn [delete_rows_prog delete_rows]; [apply agrees_ret|].
  apply agrees_bind; [apply (engine_call_agrees (SystemRef which))|]. done.
Qed.
#[local] Hint Resolve get_class_agrees get_attributes_agrees next_oid_agrees class_row_agrees attribute_rows_agrees
  write_attributes_agrees delete_rows_agrees : agree.

Lemma ensure_open_agrees rel name :
  agrees (ensure_user_table_open_prog fuel rel name) (ensure_user_table_open fuel rel name []).
Proof using All.
  unfold ensure_user_table_open_prog, ensure_user_table_open. agree.
Qed.
#[local] Hint Resolve ensure_open_agrees : agree.

Lemma open_table_agrees name : agrees (open_table_prog fuel name) (open_table fuel name).
Proof using All. unfold open_table_prog, open_table. agree. Qed.
Lemma create_table_agrees spec : agrees (create_table_prog fuel spec) (create_table fuel spec).
Proof using All. unfold create_table_prog, create_table. agree. Qed.
Lemma drop_table_agrees o : agrees (drop_table_prog fuel o) (drop_table fuel o).
Proof using All. unfold drop_table_prog, drop_table. agree. Qed.

(** ** The calls of a client *)

Definition db_method (call : DbCall) : M Cat (db_answer call) :=
  match call with
  | CallGetType name => get_type fuel name
  | CallGetClass name => get_class fuel name
  | CallGetAttributes class_oid => get_attributes fuel class_oid
  | CallCreateTable spec => create_table fuel spec
  | CallDropTable class_oid => drop_table fuel class_oid
  | CallOpenTable name => open_table fuel name
  | CallInsert table values => on_user_table table (on_table (fun T => table_insert T values))
  | CallScan table => on_user_table table (on_table (table_scan fuel))
  end.

Lemma db_prog_agrees call : agrees (db_prog fuel call) (db_method call).
Proof using All.
  destruct call; cbn [db_prog db_method db_answer]; auto using get_type_agrees, get_class_agrees,
    get_attributes_agrees, create_table_agrees, drop_table_agrees, open_table_agrees.
  - apply (table_insert_agrees (UserRef table)).
  - apply (table_scan_agrees (UserRef table)).
Qed.
End sequential.
