(* ===== verification/CatalogSerial.v ===== *)
(** * CatalogSerial: concurrent callers of the catalog see whole calls

    The catalog's methods hold its latch from their first access to their last
    (src/src/catalog/catalog.cpp), take it again in the methods they call and take
    engine latches below it.  So threads that only call the catalog are served one
    call after the other: every execution, at the granularity of single accesses and
    latch operations, is a sequence of whole calls with the effect the sequential
    methods of [Catalog] have. *)
From S2P Require Import Prelude Utils TypeRegistry BuiltinTypes RowCodec RowCodecSpec StorageIO.
From S2P Require Import PageStore EvictionPolicy BufferPool HeapPage HeapEngine HeapEngineSpec TupleStore.
From S2P Require Import Table Bundle Catalog CatalogValues CatalogSpec CatalogUpdate CatalogOpen CatalogMem.
From S2P Require Import CatalogProps Latch CatalogConcurrent LockOrder LockBlocks CatalogLocks CatalogSequential.

Create HintDb nest.
#[export] Hint Resolve nested_act nested_pure : nest.

(** Follow the structure of a program that releases what it takes. *)
Ltac nest := repeat first
  [ solve [eauto 3 with nest]
  | lazymatch goal with |- nested (bindRP _ _) => apply nested_bindR; [|intros ?] end
  | lazymatch goal with |- nested (locked _ _) => apply nested_locked end
  | lazymatch goal with |- nested (bindP _ _) => apply nested_bind; [|intros ?] end
  | lazymatch goal with |- nested (let x := _ in _) => cbv zeta end
  | lazymatch goal with |- nested (if ?b then _ else _) => destruct b end
  | lazymatch goal with |- nested (match ?o with _ => _ end) => destruct o end
  | reflexivity | exact I ].

Section blocks.
Context {D S E : Type} `{BackendFactory D S} `{StorageIO S} `{StorageEngine E} `{EngineFactory S E}.
Context (fuel : nat).
#[local] Abbreviation Prog A := (Prog EdbLatch (Catalog D S E) (Result A)).

(** ** The methods are blocks of the catalog's latch *)

Lemma engine_call_nested {A} t (m : M E A) : nested (engine_call t m : Prog A).
Proof. unfold engine_call. nest. Qed.
Lemma engine_call_handle_nested {A} t handle (m : M (ScanHandle * E) A) :
  nested (engine_call_handle t handle m : Prog _).
Proof. unfold engine_call_handle. nest. Qed.
#[local] Hint Resolve engine_call_nested engine_call_handle_nested : nest.
Lemma table_insert_nested t values : nested (table_insert_prog t values : Prog _).
Proof. unfold table_insert_prog, the_table. nest. Qed.
Lemma scan_loop_nested n t T rows handle : nested (scan_rows_loop_prog n t T rows handle : Prog _).
Proof. revert rows handle. induction n as [|n IH]; intros rows handle; cbn [scan_rows_loop_prog]; nest. Qed.
#[local] Hint Resolve table_insert_nested scan_loop_nested : nest.
Lemma scan_rows_nested t : nested (scan_rows_prog fuel t : Prog _).
Proof. unfold scan_rows_prog, the_table. nest. Qed.
Lemma delete_rows_nested which rows : nested (delete_rows_prog which rows : Prog _).
Proof. induction rows as [|row rest IH]; cbn [delete_rows_prog]; nest. Qed.
#[local] Hint Resolve scan_rows_nested delete_rows_nested : nest.
Lemma get_class_nested name : nested (get_class_prog fuel name : Prog _).
Proof. unfold get_class_prog. nest. Qed.
Lemma get_attributes_nested o : nested (get_attributes_prog fuel o : Prog _).
Proof. unfold get_attributes_prog. nest. Qed.
Lemma write_attributes_nested rel index columns : nested (write_schema_attributes_prog rel index columns : Prog _).
Proof.
  revert index. induction columns as [|column rest IH]; intros index; cbn [write_schema_attributes_prog]; nest.
Qed.
#[local] Hint Resolve get_class_nested get_attributes_nested write_attributes_nested : nest.
Lemma ensure_open_nested rel name : nested (ensure_user_table_open_prog fuel rel name : Prog _).
Proof. unfold ensure_user_table_open_prog. nest. Qed.
#[local] Hint Resolve ensure_open_nested : nest.

(** The calls of the catalog itself, as opposed to uses of a table pointer. *)
Definition is_catalog_call (call : DbCall) : bool :=
  match call with CallInsert _ _ | CallScan _ => false | _ => true end.

Lemma catalog_call_block call :
  is_catalog_call call = true ->
  exists body, (db_prog fuel call : Prog _) = locked CatalogLatch body /\ nested body.
Proof.
  destruct call; try done; intros _; cbn [db_prog db_answer]; (eexists; split; [reflexivity|]);
    unfold lookup_class_row_prog, lookup_attribute_rows_prog, next_relation_oid_prog; nest.
Qed.
End blocks.

(** ** Serving one call after the other *)

(** A client that goes on, or one whose call ended the process. *)
Inductive Served (A : Type) := Live (client : DbClient A) | Dead.
Arguments Live {A}.
Arguments Dead {A}.

Section serial.
Context {D S E : Type} `{RelationFiles D S E} `{!StorageIO S} `{!StorageEngine E}.
Context (Hstore : forall rel (s1 s2 : S) (d : D), bf_store rel s2 (bf_store rel s1 d) = bf_store rel s2 d).
Context (fuel : nat) {A : Type}.
#[local] Abbreviation Cat := (Catalog D S E).
#[local] Abbreviation outer := CatalogLatch.

(** A client of the catalog that uses no table pointer. *)
Fixpoint catalog_client (client : DbClient A) : Prop :=
  match client with
  | DbRet _ => True
  | DbDo call k => is_catalog_call call = true /\ forall r, catalog_client (k r)
  end.

(** Some client makes its next call, which runs to its end. *)
Inductive serial_step : Cat * list (Served A) -> Cat * list (Served A) -> Prop :=
  | serial_call c ts i call k r c' :
      ts !! i = Some (Live (DbDo call k)) -> db_method fuel call c = (r, c') -> r <> Fault ->
      serial_step (c, ts) (c', <[i := Live (k r)]> ts)
  | serial_fault c ts i call k c' :
      ts !! i = Some (Live (DbDo call k)) -> db_method fuel call c = (Fault, c') ->
      serial_step (c, ts) (c', <[i := Dead]> ts).

Definition served_prog (sv : Served A) : Prog EdbLatch Cat A :=
  match sv with Live client => client_prog fuel client | Dead => Abort end.
Definition served_ok (sv : Served A) : Prop :=
  match sv with Live client => catalog_client client | Dead => True end.

(** The block of a call, from the catalog's latch to its release. *)
Lemma call_block call (k : Result (db_answer call) -> DbClient A) rest c :
  is_catalog_call call = true -> client_prog fuel (DbDo call k) = Lock outer rest ->
  finish outer rest [outer] c =
    (let '(r, c') := db_method fuel call c in
     ((match r with Fault => Abort | _ => client_prog fuel (k r) end, []), c')).
Proof using All.
  intros Hcall Hrest. destruct (catalog_call_block fuel call Hcall) as (body & Hbody & Hnest).
  cbn [client_prog] in Hrest. rewrite Hbody in Hrest. injection Hrest as <-.
  rewrite finish_block by done. pose proof (db_prog_agrees Hstore fuel call c) as Hrun.
  rewrite Hbody, runP_locked in Hrun. rewrite Hrun.
  destruct (db_method fuel call c) as [[a|er|] c']; done.
Qed.

Definition client_blocky (p : Prog EdbLatch Cat A) : Prop := exists sv, served_ok sv /\ p = served_prog sv.

(** Between calls a client has returned or wants the catalog's latch. *)
Lemma served_lock sv rest :
  served_ok sv -> served_prog sv = Lock outer rest ->
  exists call k, sv = Live (DbDo call k) /\ is_catalog_call call = true /\ (forall r, catalog_client (k r)).
Proof.
  destruct sv as [[a|call k]|]; [done| |done]. intros [Hcall Hk] _. by exists call, k.
Qed.

Lemma client_between p : client_blocky p -> between outer p.
Proof.
  intros (sv & Hsv & ->). destruct sv as [[a|call k]|]; [done| |done]. destruct Hsv as [Hcall _].
  cbn [served_prog client_prog]. destruct (catalog_call_block fuel call Hcall) as (body & Hbody & _).
  by rewrite Hbody.
Qed.
Lemma client_finish rest c :
  client_blocky (Lock outer rest) ->
  exists p' c', finish outer rest [outer] c = ((p', []), c') /\ client_blocky p'.
Proof using All.
  intros (sv & Hsv & Hp). destruct (served_lock sv rest Hsv (eq_sym Hp)) as (call & k & -> & Hcall & Hk).
  rewrite (call_block call k rest c Hcall (eq_sym Hp)). destruct (db_method fuel call c) as [[a|er|] c'];
    eexists _, _; (split; [reflexivity|]); [exists (Live (k (Ok a)))|exists (Live (k (Err er)))|exists Dead];
    (split; [first [apply Hk|done]|done]).
Qed.

Lemma block_serial c cs c' ps' :
  Forall served_ok cs -> block_step outer (c, served_prog <$> cs) (c', ps') ->
  exists cs', serial_step (c, cs) (c', cs') /\ ps' = served_prog <$> cs' /\ Forall served_ok cs'.
Proof using All.
  intros Hcs Hstep. inversion Hstep as [? ? i rest p' ? Hi Hfin]; subst. clear Hstep.
  apply list_lookup_fmap_Some in Hi as (sv & Hp & Hi).
  pose proof (Forall_lookup_1 _ _ _ _ Hcs Hi) as Hsv.
  destruct (served_lock sv rest Hsv (eq_sym Hp)) as (call & k & -> & Hcall & Hk).
  rewrite (call_block call k rest c Hcall (eq_sym Hp)) in Hfin.
  destruct (db_method fuel call c) as [r c1] eqn:Hrun. injection Hfin as <- <-.
  destruct r as [a|er|].
  - exists (<[i := Live (k (Ok a))]> cs). rewrite list_fmap_insert. split_and!; [by eapply serial_call|done|].
    apply Forall_insert; [done|apply Hk].
  - exists (<[i := Live (k (Err er))]> cs). rewrite list_fmap_insert. split_and!; [by eapply serial_call|done|].
    apply Forall_insert; [done|apply Hk].
  - exists (<[i := Dead]> cs). rewrite list_fmap_insert. split_and!; [by eapply serial_fault|done|].
    by apply Forall_insert.
Qed.

Lemma blocks_are_calls c cs am :
  Forall served_ok cs -> rtc (block_step outer) (c, served_prog <$> cs) am ->
  exists cs', rtc serial_step (c, cs) (am.1, cs') /\ am.2 = served_prog <$> cs' /\ Forall served_ok cs'.
Proof using All.
  remember (c, served_prog <$> cs) as am0 eqn:Heq. intros Hcs Hrun. revert c cs Heq Hcs.
  induction Hrun as [am|am1 [c2 ps2] am3 Hstep _ IH]; intros c cs -> Hcs; [by exists cs|].
  destruct (block_serial _ _ _ _ Hcs Hstep) as (cs2 & Hser & -> & Hcs2).
  destruct (IH _ _ eq_refl Hcs2) as (cs' & Hrun & Hps & Hok). exists cs'. split_and!; [by eapply rtc_l|done|done].
Qed.

(** A thread that has returned is where the serial execution has it. *)
Lemma returned_serial (s s' : Cat) t sv :
  thread_sim outer s t (served_prog sv) s' -> served_ok sv -> l_returned t = true ->
  exists a, t = {| prog := Return a; held := [] |} /\ sv = Live (DbRet a).
Proof.
  destruct t as [p h]. unfold l_returned. cbn. intros Hsim Hsv Hp. destruct p as [a| | | |]; try done.
  assert (Heq : h = [] /\ served_prog sv = Return a).
  { destruct Hsim as [[Hh Hq]|[Ho Hf]]; cbn in *; [done|]. injection Hf as _ -> _. by apply not_elem_of_nil in Ho. }
  destruct Heq as [-> Hq]. exists a. split; [done|]. destruct sv as [[a'|call k]|]; [|exfalso|done].
  - by injection Hq as ->.
  - destruct Hsv as [Hcall _]. cbn in Hq. destruct (catalog_call_block fuel call Hcall) as (body & Hbody & _).
    by rewrite Hbody in Hq.
Qed.
Lemma all_returned_serial (s s' : Cat) ts cs :
  Forall2 (fun t p => thread_sim outer s t p s') ts (served_prog <$> cs) -> Forall served_ok cs ->
  forallb l_returned ts = true ->
  exists results, ts = (fun a => {| prog := Return a; held := [] |}) <$> results /\
    cs = (fun a => Live (DbRet a)) <$> results.
Proof.
  intros Hsim Hok. apply Forall2_fmap_r in Hsim.
  induction Hsim as [|t sv ts cs Ht _ IH]; intros Hret; [by exists []|].
  apply Forall_cons in Hok as [Hsv Hok]. cbn in Hret. apply andb_true_iff in Hret as [Hr Hret].
  destruct (returned_serial _ _ _ _ Ht Hsv Hr) as (a & -> & ->). destruct (IH Hok Hret) as (results & -> & ->).
  by exists (a :: results).
Qed.
End serial.

(** C5: the catalog serves whole calls.  Any number of threads look up, create, drop
    and open tables; their accesses and the operations on the catalog's recursive
    latch and on the engines' latches below it interleave in any way.  When all have
    returned, some order of the calls, each thread's own in its order and each with
    the answer and the effect of the sequential method, gives every thread the result
    it has and leaves the catalog as it is. *)
Theorem catalog_calls_serializable {D S E} `{RelationFiles D S E} `{!StorageIO S} `{!StorageEngine E} {A}
    (fuel : nat) (c : Catalog D S E) (clients : list (DbClient A)) (m : LMachine A) :
  (forall rel (s1 s2 : S) (d : D), bf_store rel s2 (bf_store rel s1 d) = bf_store rel s2 d) ->
  Forall catalog_client clients ->
  rtc l_step (l_start c (client_prog fuel <$> clients)) m -> forallb l_returned (l_threads m) = true ->
  exists results,
    rtc (serial_step fuel) (c, Live <$> clients) (l_shared m, (fun a => Live (DbRet a)) <$> results) /\
    l_threads m = (fun a => {| prog := Return a; held := [] |}) <$> results.
Proof.
  intros Hstore Hcl Hsteps Hret.
  assert (Hok : Forall served_ok (Live <$> clients)) by (by apply Forall_fmap).
  assert (Hps : client_prog fuel <$> clients = served_prog fuel <$> (Live <$> clients))
    by (by rewrite <- list_fmap_compose).
  destruct (blocks_serial CatalogLatch (client_blocky fuel) (client_between fuel) (client_finish Hstore fuel)
    c (client_prog fuel <$> clients) m) as ([c' ps] & Hrun & Hsim); [|done|].
  { rewrite Hps. apply Forall_fmap. eapply Forall_impl; [exact Hok|]. intros sv Hsv. by exists sv. }
  rewrite Hps in Hrun. destruct (blocks_are_calls Hstore fuel _ _ _ Hok Hrun) as (cs & Hser & Hcs & Hok').
  cbn [fst snd] in *. subst ps. pose proof (si_threads _ _ _ _ Hsim) as Hth. cbn [fst snd] in Hth.
  destruct (all_returned_serial fuel _ _ _ _ Hth Hok' Hret) as (results & Hts & ->). exists results.
  split; [|done]. rewrite (si_state _ _ _ _ Hsim); [done|]. rewrite Hts. intros i t Hi.
  apply list_lookup_fmap_Some in Hi as (a & -> & _). done.
Qed.

(** ** Witness: two threads create the same table *)

Definition creator (after : Result Z -> DbClient bool) : DbClient bool :=
  DbDo (CallCreateTable {| spec_name := "t"; spec_columns := example_columns |}) after.
Definition creator_threads : list (DbClient bool) :=
  [creator (fun r => DbRet (is_ok r));
   creator (fun r => DbDo (CallGetClass "t") (fun found => DbRet (is_ok r || negb (is_ok found))))].
#[local] Abbreviation in_turns := (concat (replicate 500 [0; 1; 1]%nat)).
#[local] Abbreviation creators_end :=
  (l_schedule in_turns (l_start example_catalog (client_prog scan_fuel <$> creator_threads))).

Lemma l_schedule_steps {L S A : Type} `{!Latches L} sched (m : LMachine (L := L) (S := S) A) :
  rtc l_step m (l_schedule sched m).
Proof.
  revert m. induction sched as [|i sched IH]; intros m; [done|]. cbn.
  destruct (l_step_thread i m) as [m'|] eqn:Hi; [|apply IH]. eapply rtc_l; [by exists i|apply IH].
Qed.
Lemma mem_files_overwrite rel (s1 s2 : MemDev.t) (d : MemFiles) :
  bf_store rel s2 (bf_store rel s1 d) = bf_store rel s2 d.
Proof. apply (insert_insert_eq d). Qed.

Lemma catalog_calls_serializable_witness :
  (l_result creators_end 0, l_result creators_end 1) = (Some true, Some false) /\
  exists results,
    rtc (serial_step scan_fuel) (example_catalog, Live <$> creator_threads)
      (l_shared creators_end, (fun a => Live (DbRet a)) <$> results) /\
    l_threads creators_end = (fun a => {| prog := Return a; held := [] |}) <$> results.
Proof.
  split; [vm_compute; reflexivity|].
  assert (Hcl : Forall catalog_client creator_threads) by (repeat constructor).
  apply (catalog_calls_serializable scan_fuel example_catalog creator_threads creators_end
    mem_files_overwrite Hcl (l_schedule_steps _ _)).
  vm_compute. reflexivity.
Defined.
