(* ===== verification/CatalogComplete.v ===== *)
(** * CatalogComplete: concurrent calls of the catalog return

    No execution of threads that call the catalog blocks ([LockOrder]), and every
    execution is a sequence of whole calls ([CatalogSerial]).  Here the calls are shown
    to end with an answer, on every execution: what a call finds is always an open,
    consistent catalog, on which no access faults and no scan runs out of fuel. *)
From S2P Require Import Prelude Utils TypeRegistry BuiltinTypes RowCodec RowCodecSpec StorageIO.
From S2P Require Import PageStore EvictionPolicy BufferPool HeapPage HeapEngine HeapEngineSpec TupleStore.
From S2P Require Import Table Bundle Catalog CatalogValues CatalogSpec CatalogUpdate CatalogOpen CatalogMem.
From S2P Require Import CatalogProps Latch CatalogConcurrent LockOrder LockBlocks CatalogLocks CatalogSequential.
From S2P Require Import CatalogSerial.

(** What holds of all states on the way holds at the end, too. *)
Lemma inevitable_mono {St} (R : St -> St -> Prop) (I P Q : St -> Prop) (s : St) :
  (forall s1 s2, I s1 -> R s1 s2 -> I s2) -> (forall s1, I s1 -> P s1 -> Q s1) ->
  I s -> inevitable R P s -> inevitable R Q s.
Proof.
  intros Hstep HPQ HI Hin. induction Hin as [s HP|s Hex _ IH]; [by apply now, HPQ|].
  apply later; [done|]. intros s' HR. apply IH; [done|]. by eapply Hstep.
Qed.

(** ** Calls that are always served *)

Section served.
Context {D S E : Type} `{RelationFiles D S E} `{!StorageIO S} `{!StorageEngine E}.
Context (Hstore : forall rel (s1 s2 : S) (d : D), bf_store rel s2 (bf_store rel s1 d) = bf_store rel s2 d).
Context (fuel : nat) {A : Type}.
#[local] Abbreviation Cat := (Catalog D S E).
#[local] Abbreviation outer := CatalogLatch.

(** The sequential methods serve the calls in [fits] on the catalogs in [ready]. *)
Context (ready : Cat -> Prop) (fits : DbCall -> Prop).
Context (Hcalls : forall call, fits call -> is_catalog_call call = true).
Context (Hserve : forall call c, ready c -> fits call ->
  (db_method fuel call c).1 <> Fault /\ ready (db_method fuel call c).2).

(** The client makes no other calls. *)
Fixpoint calls_only (client : DbClient A) : Prop :=
  match client with
  | DbRet _ => True
  | DbDo call k => fits call /\ forall r, calls_only (k r)
  end.
Definition alive (sv : Served A) : Prop := match sv with Live client => calls_only client | Dead => False end.

Lemma calls_only_catalog client : calls_only client -> catalog_client client.
Proof using Hcalls.
  induction client as [a|call k IH]; [done|]. intros [Hfit Hk]. split; [by apply Hcalls|]. intros r. by apply IH.
Qed.

Lemma serial_alive st st' :
  rtc (serial_step fuel) st st' -> ready st.1 -> Forall alive st.2 -> ready st'.1 /\ Forall alive st'.2.
Proof using Hserve.
  induction 1 as [|st1 st2 st3 Hstep _ IH]; intros Hr Hal; [done|].
  assert (Hnext : ready st2.1 /\ Forall alive st2.2); [|destruct Hnext; by apply IH].
  destruct Hstep as [c ts i call k r c' Hi Hrun Hr'|c ts i call k c' Hi Hrun]; cbn in *;
    destruct (Forall_lookup_1 _ _ _ _ Hal Hi) as [Hfit Hk]; destruct (Hserve call c Hr Hfit) as [Hnf Hready];
    rewrite Hrun in Hnf, Hready; cbn in Hnf, Hready; [|done].
  split; [done|]. apply Forall_insert; [done|apply Hk].
Qed.

(** A thread that is where a live client is has not ended the process. *)
Lemma alive_no_abort (s s' : Cat) t sv :
  thread_sim outer s t (served_prog fuel sv) s' -> alive sv -> l_aborts t = false.
Proof using Hcalls.
  intros Hsim Hal. destruct sv as [client|]; [|done].
  assert (Hno : client_prog fuel client <> (Abort : Prog EdbLatch Cat A)).
  { destruct client as [a|call k]; [done|]. destruct Hal as [Hfit _].
    destruct (catalog_call_block fuel call (Hcalls _ Hfit)) as (body & Hbody & _).
    cbn [client_prog]. by rewrite Hbody. }
  destruct t as [[a| |f k|l k|l k] h]; try done. exfalso. apply Hno.
  destruct Hsim as [[_ Hp]|[_ Hf]]; cbn in *; [done|]. by injection Hf.
Qed.

Lemma reachable_no_abort c clients (m : LMachine A) :
  ready c -> Forall calls_only clients -> rtc l_step (l_start c (client_prog fuel <$> clients)) m ->
  existsb l_aborts (l_threads m) = false.
Proof using All.
  intros Hr Hcl Hsteps.
  assert (Hok : Forall served_ok (Live <$> clients)).
  { apply Forall_fmap. eapply Forall_impl; [exact Hcl|]. apply calls_only_catalog. }
  assert (Hps : client_prog fuel <$> clients = served_prog fuel <$> (Live <$> clients))
    by (by rewrite <- list_fmap_compose).
  destruct (blocks_serial CatalogLatch (client_blocky fuel) (client_between fuel) (client_finish Hstore fuel)
    c (client_prog fuel <$> clients) m) as ([c' ps] & Hrun & Hsim); [|done|].
  { rewrite Hps. apply Forall_fmap. eapply Forall_impl; [exact Hok|]. intros sv Hsv. by exists sv. }
  rewrite Hps in Hrun. destruct (blocks_are_calls Hstore fuel _ _ _ Hok Hrun) as (cs & Hser & Hcs & _).
  destruct (serial_alive _ _ Hser) as [_ Hal]; [done|by apply Forall_fmap|]. cbn [fst snd] in *. subst ps.
  apply not_true_iff_false. rewrite existsb_exists. intros (t & [i Hi]%list_elem_of_In%list_elem_of_lookup & Hab).
  pose proof (si_threads _ _ _ _ Hsim) as Hth. cbn [fst snd] in Hth.
  destruct (Forall2_lookup_l _ _ _ _ _ Hth Hi) as (p & Hp & Hts).
  apply list_lookup_fmap_Some in Hp as (sv & -> & Hsv). cbn [snd] in Hal.
  pose proof (alive_no_abort _ _ t sv Hts (Forall_lookup_1 _ _ _ _ Hal Hsv)). congruence.
Qed.

Lemma served_calls_return c clients (m : LMachine A) :
  ready c -> Forall calls_only clients -> rtc l_step (l_start c (client_prog fuel <$> clients)) m ->
  inevitable l_step (fun m => forallb l_returned (l_threads m) = true) m.
Proof using All.
  intros Hr Hcl Hsteps. apply (inevitable_mono _ (rtc l_step (l_start c (client_prog fuel <$> clients)))
    (fun m => l_over m = true)); [by intros; eapply rtc_r| |done|].
  - intros m1 Hm1 Hover. pose proof (reachable_no_abort _ _ _ Hr Hcl Hm1) as Hno.
    unfold l_over in Hover. by rewrite Hno, orb_false_r in Hover.
  - apply ordered_completes. assert (Hinv : l_inv (l_start c (client_prog fuel <$> clients))).
    { apply l_inv_start, Forall_fmap, Forall_forall. intros client _. apply client_order. }
    clear Hr Hcl. induction Hsteps as [|m1 m2 m3 Hstep _ IH]; [done|]. apply IH. by eapply l_step_inv.
Qed.
End served.

(** ** Lookups, drops, and the uses of one table *)

Definition looks_up (call : DbCall) : Prop :=
  match call with CallGetType _ | CallGetClass _ | CallGetAttributes _ => True | _ => False end.
Definition looks_up_or_drops (call : DbCall) : Prop :=
  match call with CallDropTable _ => True | _ => looks_up call end.
Definition uses_table (name : string) (columns : list ColumnSchema) (call : DbCall) : Prop :=
  match call with
  | CallCreateTable spec => spec = {| spec_name := name; spec_columns := columns |}
  | CallOpenTable n => n = name
  | _ => looks_up call
  end.

Section uses.
Context {D S E : Type} `{!BackendFactory D S} `{!StorageIO S} `{!EngineFactory S E}.
Context `{!StorageEngine E} `{!TupleStore E} `{!RelationFiles D S E}.
Context (r : TypeRegistry) (ti tx tb : Type_) (Hr : builtin_registry r ti tx tb).
Context (fuel : nat).
#[local] Abbreviation Cat := (Catalog D S E).
#[local] Abbreviation ok := (cat_ok r ti tx tb).
#[local] Abbreviation enough := (enough ti tx tb fuel).

(** An open, consistent catalog whose system tables a scan gets through. *)
Definition steady (c : Cat) : Prop := exists X, ok c X /\ enough X.

Lemma found_no_fault {A} (o : option A) : found o <> Fault.
Proof. by destruct o. Qed.

Lemma lookup_served call c X :
  ok c X -> enough X -> looks_up call ->
  (db_method fuel call c).1 <> Fault /\ ok (db_method fuel call c).2 X /\ frame r [] c (db_method fuel call c).2.
Proof using All.
  intros Hok Hen Hl. destruct call as [n|n|o| | | | |]; try done; cbn [db_method].
  - destruct (get_type_ok r ti tx tb Hr fuel c X n Hok Hen) as (c' & -> & ? & ?). split_and!; [apply found_no_fault|done|done].
  - destruct (get_class_ok r ti tx tb Hr fuel c X n Hok Hen) as (c' & -> & ? & ?). split_and!; [apply found_no_fault|done|done].
  - destruct (get_attributes_ok r ti tx tb Hr fuel c X o Hok Hen) as (c' & -> & ? & ?). cbn.
    by destruct (attributes_of X o).
Qed.

Lemma removed_enough X X' k : removes_class X X' k -> enough X -> enough X'.
Proof using Type.
  intros [Ht Hc Ha _] Hen. apply Permutation_length in Hc, Ha. cbn in Hc. rewrite !length_fmap in Hc.
  rewrite length_fmap in Ha. pose proof (length_filter (fun a => ca_relation_oid a <> cc_oid k) (d_attributes X).*2) as Hf.
  rewrite length_fmap in Hf. intros which. specialize (Hen which). destruct which; cbn in *; rewrite ?length_fmap in *;
    rewrite ?Ht; lia.
Qed.

Lemma drop_served o c : steady c -> (drop_table fuel o c).1 <> Fault /\ steady (drop_table fuel o c).2.
Proof using All.
  intros (X & Hok & Hen). destruct (drop_table_refuses r ti tx tb Hr fuel c X o Hok Hen) as [Hno Hsys].
  destruct (decide (o ∈ cc_oid <$> (d_classes X).*2)) as [(k & -> & Hk)%list_elem_of_fmap|Hn].
  2:{ destruct (Hno Hn) as (c' & -> & ?). split; [done|by exists X]. }
  destruct (decide (relkind k = RELKIND_TABLE)) as [Hkind|Hkind].
  - destruct (drop_table_ok r ti tx tb Hr fuel c X k Hok Hen Hk Hkind) as (c' & X' & -> & Hok' & Hrem).
    split; [done|]. exists X'. split; [done|]. by eapply removed_enough.
  - destruct (Hsys k Hk eq_refl Hkind) as (c' & -> & ?). split; [done|by exists X].
Qed.

Lemma steady_served call c :
  steady c -> looks_up_or_drops call -> (db_method fuel call c).1 <> Fault /\ steady (db_method fuel call c).2.
Proof using All.
  intros Hs Hf. assert (Hcall : looks_up call \/ exists o, call = CallDropTable o) by (destruct call; eauto).
  destruct Hcall as [Hl|[o ->]]; [|by apply drop_served]. destruct Hs as (X & Hok & Hen).
  destruct (lookup_served call c X Hok Hen Hl) as (? & ? & _). split; [done|by exists X].
Qed.

Context (name : string) (columns : list ColumnSchema).
#[local] Abbreviation spec := {| spec_name := name; spec_columns := columns |}.

(** The table can be created. *)
Definition creatable (c : Cat) : Prop :=
  exists X rows, ok c X /\ can_create r ti tx tb fuel c X name columns rows.
(** The table exists and is open. *)
Definition created (c : Cat) : Prop :=
  exists X k entry, ok c X /\ enough X /\ class_named X name = Some k /\ 4 < cc_oid k /\
    d_tables X !! cc_oid k = Some entry.
Definition usable (c : Cat) : Prop := name <> EmptyString /\ columns <> [] /\ (creatable c \/ created c).

Lemma creatable_steady c X rows :
  can_create r ti tx tb fuel c X name columns rows -> enough X.
Proof using Type. intros (F1 & F2 & F3)%cn_fuel []; cbn; rewrite ?length_fmap; lia. Qed.

Lemma lookup_usable call c :
  usable c -> looks_up call -> (db_method fuel call c).1 <> Fault /\ usable (db_method fuel call c).2.
Proof using All.
  intros (Hn & Hcols & [(X & rows & Hok & Hcn)|(X & k & entry & Hok & Hen & Hk)]) Hl.
  - destruct (lookup_served call c X Hok (creatable_steady _ _ _ Hcn) Hl) as (Hf & Hok' & Hfr).
    split; [done|]. split_and!; [done|done|]. left. exists X, rows. split; [done|].
    apply (can_create_frame r ti tx tb Hr fuel c); [done|done|apply (ck_data _ _ _ _ _ _ Hok)|done].
  - destruct (lookup_served call c X Hok Hen Hl) as (Hf & Hok' & _).
    split; [done|]. split_and!; [done|done|]. right. by exists X, k, entry.
Qed.

Lemma create_usable c : usable c -> (create_table fuel spec c).1 <> Fault /\ usable (create_table fuel spec c).2.
Proof using All.
  intros (Hn & Hcols & [(X & rows & Hok & Hcn)|(X & k & entry & Hok & Hen & Hk & Hrest)]).
  - destruct (create_table_ok r ti tx tb Hr fuel c X name columns rows Hok Hcn) as (c' & X' & -> & Hadd & Hok' & _ & Hen).
    split; [done|]. split_and!; [done|done|]. right.
    exists (with_table X' (next_oid X) (user_schema X' (new_class X name), rows)), (new_class X name).
    eexists. split; [done|]. split; [exact Hen|]. split_and!.
    + apply find_unique; [apply (do_names _ (ck_data _ _ _ _ _ _ Hok'))| |done]. cbn.
      rewrite (ac_classes _ _ _ _ Hadd). left.
    + apply next_oid_user, (ck_data _ _ _ _ _ _ Hok).
    + apply lookup_insert_eq.
  - destruct (create_existing r ti tx tb Hr fuel name columns c X k Hn Hcols Hok Hen Hk) as (c' & -> & Hok').
    split; [done|]. split_and!; [done|done|]. right. by exists X, k, entry.
Qed.

Lemma open_usable c : usable c -> (open_table fuel name c).1 <> Fault /\ usable (open_table fuel name c).2.
Proof using All.
  intros (Hn & Hcols & [(X & rows & Hok & Hcn)|(X & k & entry & Hok & Hen & Hk & Hbig & Hent)]).
  - destruct (get_class_ok r ti tx tb Hr fuel c X name Hok (creatable_steady _ _ _ Hcn)) as (c' & Hg & Hok' & Hfr).
    rewrite (cn_new _ _ _ _ _ _ _ _ _ _ Hcn) in Hg.
    assert (Hrun : open_table fuel name c = (Err NotFound, c')).
    { unfold open_table. erewrite bind_ok by (by eapply check_open_ok). unfold bindM. by rewrite Hg. }
    rewrite Hrun. split; [done|]. split_and!; [done|done|]. left. exists X, rows. split; [done|].
    apply (can_create_frame r ti tx tb Hr fuel c); [done|done|apply (ck_data _ _ _ _ _ _ Hok)|done].
  - destruct (open_table_ok r ti tx tb Hr fuel c X name k entry.2 Hok Hen Hk Hbig) as (c' & -> & Hok' & _).
    { unfold table_holds. by rewrite Hent. }
    split; [done|]. split_and!; [done|done|]. right.
    exists (with_table X (cc_oid k) (user_schema X k, entry.2)), k. eexists.
    split; [done|]. split; [exact Hen|]. split_and!; [exact Hk|done|apply lookup_insert_eq].
Qed.

Lemma usable_served call c :
  usable c -> uses_table name columns call ->
  (db_method fuel call c).1 <> Fault /\ usable (db_method fuel call c).2.
Proof using All.
  intros Hu Hf. destruct call as [n|n|o|sp|o|n|t vs|t]; try done; cbn [uses_table looks_up] in Hf.
  - by apply (lookup_usable (CallGetType n)).
  - by apply (lookup_usable (CallGetClass n)).
  - by apply (lookup_usable (CallGetAttributes o)).
  - subst. by apply create_usable.
  - subst. by apply open_usable.
Qed.
End uses.

(** C9: every call of the catalog returns.  Any number of threads use an open,
    consistent catalog - they look up and drop, or they look up, create and open one
    table - and their accesses, the operations on the catalog's recursive latch and
    those on the engines' latches below it interleave in any way.  From wherever an
    execution has come, it goes on, for finitely many steps, until every thread has
    returned: none waits for ever, none scans for ever (a fuel above the number of
    rows of each system table is never used up), and none ends the process. *)
Theorem catalog_calls_complete {D S E} `{!BackendFactory D S} `{!StorageIO S} `{!EngineFactory S E}
    `{!StorageEngine E} `{!TupleStore E} `{!RelationFiles D S E} {A} (r : TypeRegistry) (ti tx tb : Type_)
    (fuel : nat) (c : Catalog D S E) (X : CatalogData) (clients : list (DbClient A)) (m : LMachine A) :
  (forall rel (s1 s2 : S) (d : D), bf_store rel s2 (bf_store rel s1 d) = bf_store rel s2 d) ->
  builtin_registry r ti tx tb -> cat_ok r ti tx tb c X ->
  enough ti tx tb fuel X /\ Forall (calls_only looks_up_or_drops) clients \/
  (exists name columns rows, can_create r ti tx tb fuel c X name columns rows /\
    Forall (calls_only (uses_table name columns)) clients) ->
  rtc l_step (l_start c (client_prog fuel <$> clients)) m ->
  inevitable l_step (fun m => forallb l_returned (l_threads m) = true) m.
Proof.
  intros Hstore Hr Hok [[Hen Hcl]|(name & columns & rows & Hcn & Hcl)] Hsteps.
  - eapply (served_calls_return Hstore fuel (steady r ti tx tb fuel) looks_up_or_drops); [| |by exists X|done|done].
    + by intros [].
    + intros call c0. by apply steady_served.
  - eapply (served_calls_return Hstore fuel (usable r ti tx tb fuel name columns) (uses_table name columns));
      [| | |done|done].
    + by intros [].
    + intros call c0. by apply usable_served.
    + split_and!; [apply (cn_name _ _ _ _ _ _ _ _ _ _ Hcn)|apply (cn_columns _ _ _ _ _ _ _ _ _ _ Hcn)|].
      left. by exists X, rows.
Qed.

(** ** Witness: the threads that create the table t, with one that opens it *)

Definition opener : DbClient bool := DbDo (CallOpenTable "t") (fun r => DbRet (is_ok r)).

Lemma catalog_calls_complete_witness :
  inevitable l_step (fun m => forallb l_returned (l_threads m) = true)
    (l_start example_catalog (client_prog scan_fuel <$> (opener :: creator_threads))) /\
  inevitable l_step (fun m => forallb l_returned (l_threads m) = true)
    (l_start example_catalog (client_prog scan_fuel <$>
      [DbDo (CallGetClass "t") (fun r => DbRet (is_ok r)); DbDo (CallDropTable 5) (fun r => DbRet (is_ok r))])).
Proof.
  destruct example_catalog_ok as (X & Hok & Hb). split.
  - apply (catalog_calls_complete std_registry std_int32 std_text std_bool scan_fuel example_catalog X
      (opener :: creator_threads) _ mem_files_overwrite std_registry_ok Hok); [|apply rtc_refl].
    right. exists "t", example_columns, []. split; [by apply example_can_create|].
    repeat (apply Forall_cons; split; [repeat split|]). apply Forall_nil; exact I.
  - apply (catalog_calls_complete std_registry std_int32 std_text std_bool scan_fuel example_catalog X
      [DbDo (CallGetClass "t") (fun r => DbRet (is_ok r)); DbDo (CallDropTable 5) (fun r => DbRet (is_ok r))]
      _ mem_files_overwrite std_registry_ok Hok); [|apply rtc_refl].
    left. split; [by apply boot_enough|].
    repeat (apply Forall_cons; split; [repeat split|]). apply Forall_nil; exact I.
Defined.
