(* ===== verification/Lexer.v ===== *)
(** * Lexer: src/src/query/token.hpp, lexer.{hpp,cpp}

    The lexer walks over [src] with a position, a line and a column.  A
    [string_view] into the source is the bytes it covers.  Every loop takes fuel
    and faults without it; [loop_fuel], one more than the length of the source,
    is always enough, since every turn consumes a character. *)
From S2P Require Import Prelude Utils BuiltinTypes RowCodec.

(** ** token.hpp *)

Inductive TokenKind : Set :=
  (* Literals *)
  | LitInteger | LitFloat | LitString
  | Identifier
  (* Keywords *)
  | KwAnd | KwAs | KwCreate | KwDefault | KwExists | KwFalse | KwFrom | KwIf | KwInsert | KwInto
  | KwKey | KwNot | KwNull | KwOr | KwPrimary | KwSelect | KwTable | KwTrue | KwUnique | KwValues
  | KwWhere
  (* Punctuation *)
  | LParen | RParen | Comma | Semicolon | Star | Dot
  (* Comparison operators: Eq, Neq, Lt, Le, Gt, Ge *)
  | TkEq | TkNeq | TkLt | TkLe | TkGt | TkGe
  (* Special *)
  | Eof | Unknown.

#[export] Instance TokenKind_eq_dec : EqDecision TokenKind.
Proof. solve_decision. Defined.

Definition token_kind_name (k : TokenKind) : string :=
  match k with
  | LitInteger => "integer literal"
  | LitFloat => "float literal"
  | LitString => "string literal"
  | Identifier => "identifier"
  | KwAnd => "AND"
  | KwAs => "AS"
  | KwCreate => "CREATE"
  | KwDefault => "DEFAULT"
  | KwExists => "EXISTS"
  | KwFalse => "FALSE"
  | KwFrom => "FROM"
  | KwIf => "IF"
  | KwInsert => "INSERT"
  | KwInto => "INTO"
  | KwKey => "KEY"
  | KwNot => "NOT"
  | KwNull => "NULL"
  | KwOr => "OR"
  | KwPrimary => "PRIMARY"
  | KwSelect => "SELECT"
  | KwTable => "TABLE"
  | KwTrue => "TRUE"
  | KwUnique => "UNIQUE"
  | KwValues => "VALUES"
  | KwWhere => "WHERE"
  | LParen => "("
  | RParen => ")"
  | Comma => ","
  | Semicolon => ";"
  | Star => "*"
  | Dot => "."
  | TkEq => "="
  | TkNeq => "<>"
  | TkLt => "<"
  | TkLe => "<="
  | TkGt => ">"
  | TkGe => ">="
  | Eof => "<EOF>"
  | Unknown => "<unknown>"
  end.

Record Token := { tk_kind : TokenKind; tk_text : list byte; tk_line : Z; tk_col : Z }.
Definition Token_default : Token := {| tk_kind := Unknown; tk_text := []; tk_line := 1; tk_col := 1 |}.

(** ** Characters and keywords *)

Definition is_alpha (c : byte) : bool :=
  let v := byte_to_Z c in ((65 <=? v) && (v <=? 90)) || ((97 <=? v) && (v <=? 122)).
Definition is_alnum (c : byte) : bool := is_alpha c || is_digit c.

Definition to_lower (c : byte) : byte :=
  let v := byte_to_Z c in
  if (65 <=? v) && (v <=? 90) then Z_to_byte (v + (97 - 65)) else c.

Definition KEYWORDS : list (string * TokenKind) :=
  [("and", KwAnd); ("as", KwAs); ("create", KwCreate); ("default", KwDefault); ("exists", KwExists);
   ("false", KwFalse); ("from", KwFrom); ("if", KwIf); ("insert", KwInsert); ("into", KwInto);
   ("key", KwKey); ("not", KwNot); ("null", KwNull); ("or", KwOr); ("primary", KwPrimary);
   ("select", KwSelect); ("table", KwTable); ("true", KwTrue); ("unique", KwUnique);
   ("values", KwValues); ("where", KwWhere)].

Fixpoint find_keyword (table : list (string * TokenKind)) (lower_text : list byte) : TokenKind :=
  match table with
  | [] => Identifier
  | (word, kind) :: table =>
      if bool_decide (lower_text = String.list_byte_of_string word) then kind
      else find_keyword table lower_text
  end.
Definition match_keyword (lower_text : list byte) : TokenKind := find_keyword KEYWORDS lower_text.

(** ** lexer.cpp *)

Record Lexer := {
  src : list byte;
  pos : Z;
  line : Z;
  col : Z;
  has_peek : bool;
  peek_tok : Token;
}.

Definition Lexer_new (src : list byte) : Lexer :=
  {| src := src; pos := 0; line := 1; col := 1; has_peek := false; peek_tok := Token_default |}.

Definition at_end (l : Lexer) : bool := sizeZ (src l) <=? pos l.

Definition cur_char (l : Lexer) : byte :=
  if at_end l then x00 else default x00 (src l !! Z.to_nat (pos l)).

Definition moved (l : Lexer) (line col : Z) : Lexer :=
  {| src := src l; pos := wrap64 (pos l + 1); line := line; col := col;
     has_peek := has_peek l; peek_tok := peek_tok l |}.
Definition advance : M Lexer byte := fun l =>
  let c := cur_char l in
  (Ok c, if bool_decide (c = x0a) then moved l (wrap32 (line l + 1)) 1
         else moved l (line l) (wrap32 (col l + 1))).

(** [src.substr(off, len)] in a [noexcept] function: an offset past the end
    terminates the program. *)
Definition substr (s : list byte) (off len : Z) : Result (list byte) :=
  if sizeZ s <? off then Fault else Ok (take (Z.to_nat len) (drop (Z.to_nat off) s)).

Definition make_tok (k : TokenKind) (start tl tc : Z) : M Lexer Token := fun l =>
  (let? text := substr (src l) start (wrap64 (pos l - start)) in
   Ok {| tk_kind := k; tk_text := text; tk_line := tl; tk_col := tc |}, l).

Definition loop_fuel (l : Lexer) : nat := S (length (src l)).

(** [while (!at_end() && p(cur_char())) advance();] *)
Fixpoint advance_while (fuel : nat) (p : byte -> bool) : M Lexer unit :=
  match fuel with
  | O => faultM
  | S fuel =>
      let* continue := getM (fun l => negb (at_end l) && p (cur_char l)) in
      if (continue : bool) then let* _ := advance in advance_while fuel p else retM tt
  end.

Definition skip_line_comment : M Lexer unit :=
  let* fuel := getM loop_fuel in advance_while fuel (fun c => bool_decide (c <> x0a)).

(** [!at_end() && cur_char() == c]. *)
Definition at_char (c : byte) (l : Lexer) : bool := negb (at_end l) && bool_decide (cur_char l = c).

Fixpoint block_comment_loop (fuel : nat) : M Lexer unit :=
  match fuel with
  | O => faultM
  | S fuel =>
      let* ended := getM at_end in
      if (ended : bool) then retM tt
      else
        let* bc := advance in
        let* closing := getM (at_char "/"%byte) in
        if bool_decide (bc = "*"%byte) && closing then let* _ := advance in retM tt
        else block_comment_loop fuel
  end.
Definition skip_block_comment : M Lexer unit :=
  let* _ := advance in
  let* _ := advance in
  let* fuel := getM loop_fuel in
  block_comment_loop fuel.

(** [next_pos < src.size() && src[next_pos] == c] with [next_pos = pos + 1]. *)
Definition next_is (c : byte) (l : Lexer) : bool :=
  let next_pos := wrap64 (pos l + 1) in
  (next_pos <? sizeZ (src l)) && bool_decide (src l !! Z.to_nat next_pos = Some c).
Definition next_is_digit (l : Lexer) : bool :=
  let next_pos := wrap64 (pos l + 1) in
  (next_pos <? sizeZ (src l)) &&
  match src l !! Z.to_nat next_pos with Some c => is_digit c | None => false end.

Definition is_blank (c : byte) : bool :=
  bool_decide (c = " "%byte) || bool_decide (c = x09) || bool_decide (c = x0d) || bool_decide (c = x0a).

Fixpoint skip_loop (fuel : nat) : M Lexer unit :=
  match fuel with
  | O => faultM
  | S fuel =>
      let* ended := getM at_end in
      if (ended : bool) then retM tt
      else
        let* c := getM cur_char in
        if is_blank c then let* _ := advance in skip_loop fuel
        else if bool_decide (c = "-"%byte) then
          let* comment := getM (next_is "-"%byte) in
          if (comment : bool) then let* _ := skip_line_comment in skip_loop fuel else retM tt
        else if bool_decide (c = "/"%byte) then
          let* comment := getM (next_is "*"%byte) in
          if (comment : bool) then let* _ := skip_block_comment in skip_loop fuel else retM tt
        else retM tt
  end.
Definition skip_whitespace_and_comments : M Lexer unit :=
  let* fuel := getM loop_fuel in skip_loop fuel.

Definition is_ident_char (c : byte) : bool := is_alnum c || bool_decide (c = "_"%byte).
Definition max_kw_len : nat := 64.

Definition scan_ident_or_kw (start tok_line tok_col : Z) : M Lexer Token :=
  let* fuel := getM loop_fuel in
  let* _ := advance_while fuel is_ident_char in
  fun l =>
    (let? raw := substr (src l) start (wrap64 (pos l - start)) in
     let lower_text := to_lower <$> take (min (length raw) max_kw_len) raw in
     Ok {| tk_kind := match_keyword lower_text; tk_text := raw; tk_line := tok_line; tk_col := tok_col |}, l).

(** The fraction: [true] when there is one. *)
Definition scan_fraction : M Lexer bool :=
  let* dot := getM (at_char "."%byte) in
  let* digit := getM next_is_digit in
  if dot && digit then
    let* _ := advance in
    let* fuel := getM loop_fuel in
    let* _ := advance_while fuel is_digit in
    retM true
  else retM false.

Definition scan_exponent : M Lexer bool :=
  let* lower := getM (at_char "e"%byte) in
  let* upper := getM (at_char "E"%byte) in
  if lower || upper then
    let* _ := advance in
    let* plus := getM (at_char "+"%byte) in
    let* minus := getM (at_char "-"%byte) in
    let* _ := if plus || minus then let* _ := advance in retM tt else retM tt in
    let* fuel := getM loop_fuel in
    let* _ := advance_while fuel is_digit in
    retM true
  else retM false.

Definition scan_number (start tok_line tok_col : Z) : M Lexer Token :=
  let* fuel := getM loop_fuel in
  let* _ := advance_while fuel is_digit in
  let* fraction := scan_fraction in
  let* exponent := scan_exponent in
  make_tok (if fraction || exponent then LitFloat else LitInteger) start tok_line tok_col.

Fixpoint string_loop (fuel : nat) : M Lexer unit :=
  match fuel with
  | O => faultM
  | S fuel =>
      let* ended := getM at_end in
      if (ended : bool) then retM tt
      else
        let* c := advance in
        if bool_decide (c = "'"%byte) then
          let* escaped := getM (at_char "'"%byte) in
          if (escaped : bool) then let* _ := advance in string_loop fuel else retM tt
        else string_loop fuel
  end.
Definition scan_string (start tok_line tok_col : Z) : M Lexer Token :=
  let* fuel := getM loop_fuel in
  let* _ := string_loop fuel in
  make_tok LitString start tok_line tok_col.

(** The [switch] on the first character, and the classes after it. *)
Definition scan_token (c : byte) (start tok_line tok_col : Z) : M Lexer Token :=
  match c with
  | "("%byte => make_tok LParen start tok_line tok_col
  | ")"%byte => make_tok RParen start tok_line tok_col
  | ","%byte => make_tok Comma start tok_line tok_col
  | ";"%byte => make_tok Semicolon start tok_line tok_col
  | "*"%byte => make_tok Star start tok_line tok_col
  | "."%byte => make_tok Dot start tok_line tok_col
  | "="%byte => make_tok TkEq start tok_line tok_col
  | "<"%byte =>
      let* eq := getM (at_char "="%byte) in
      if (eq : bool) then let* _ := advance in make_tok TkLe start tok_line tok_col
      else
        let* gt := getM (at_char ">"%byte) in
        if (gt : bool) then let* _ := advance in make_tok TkNeq start tok_line tok_col
        else make_tok TkLt start tok_line tok_col
  | ">"%byte =>
      let* eq := getM (at_char "="%byte) in
      if (eq : bool) then let* _ := advance in make_tok TkGe start tok_line tok_col
      else make_tok TkGt start tok_line tok_col
  | "'"%byte => scan_string start tok_line tok_col
  | _ =>
      if is_alpha c || bool_decide (c = "_"%byte) then scan_ident_or_kw start tok_line tok_col
      else if is_digit c then scan_number start tok_line tok_col
      else make_tok Unknown start tok_line tok_col
  end.

Definition scan_one : M Lexer Token :=
  let* _ := skip_whitespace_and_comments in
  let* ended := getM at_end in
  let* start := getM pos in
  let* tok_line := getM line in
  let* tok_col := getM col in
  if (ended : bool) then
    retM {| tk_kind := Eof; tk_text := []; tk_line := tok_line; tk_col := tok_col |}
  else
    let* c := advance in
    scan_token c start tok_line tok_col.

Definition set_peek (has : bool) (t : Token) (l : Lexer) : Lexer :=
  {| src := src l; pos := pos l; line := line l; col := col l; has_peek := has; peek_tok := t |}.

Definition next : M Lexer Token := fun l =>
  if has_peek l then (Ok (peek_tok l), set_peek false (peek_tok l) l) else scan_one l.

Definition peek : M Lexer Token :=
  let* peeked := getM has_peek in
  if (peeked : bool) then getM peek_tok
  else
    let* t := scan_one in
    let* _ := modifyM (set_peek true t) in
    getM peek_tok.
