(* ===== verification/LexerSpec.v ===== *)
(** * LexerSpec: the lexer against a reference tokenizer

    The reference works on the list of the characters that are left: [skip_len]
    is the automaton for blanks and comments, [lexeme] classifies and measures the
    token that follows.  The lexer computes exactly this, for every source text,
    with the positions of the tokens. *)
From S2P Require Import Prelude Utils BuiltinTypes RowCodec RowCodecSpec Lexer.

(** ** Reference *)

Fixpoint span_len (p : byte -> bool) (s : list byte) : nat :=
  match s with c :: s' => if p c then S (span_len p s') else 0 | [] => 0 end.

Inductive SkipMode := Blanks | LineComment | BlockComment.

Fixpoint skip_len (mode : SkipMode) (s : list byte) : nat :=
  match s with
  | [] => 0
  | c :: s' =>
      match mode with
      | Blanks =>
          if is_blank c then S (skip_len Blanks s')
          else match c, s' with
          | "-"%byte, "-"%byte :: _ => S (skip_len LineComment s')
          | "/"%byte, "*"%byte :: s'' => S (S (skip_len BlockComment s''))
          | _, _ => 0
          end
      | LineComment => if bool_decide (c = x0a) then S (skip_len Blanks s') else S (skip_len LineComment s')
      | BlockComment =>
          match c, s' with
          | "*"%byte, "/"%byte :: s'' => S (S (skip_len Blanks s''))
          | _, _ => S (skip_len BlockComment s')
          end
      end
  end.

(** The characters of a string literal after its opening quote. *)
Fixpoint string_len (s : list byte) : nat :=
  match s with
  | [] => 0
  | "'"%byte :: "'"%byte :: s'' => S (S (string_len s''))
  | "'"%byte :: _ => 1
  | _ :: s' => S (string_len s')
  end.

Definition fraction_len (s : list byte) : nat :=
  match s with
  | "."%byte :: (d :: _) as s' => if is_digit d then S (span_len is_digit s') else 0
  | _ => 0
  end.
Definition is_sign (c : byte) : bool := bool_decide (c = "+"%byte) || bool_decide (c = "-"%byte).
Definition is_exp (c : byte) : bool := bool_decide (c = "e"%byte) || bool_decide (c = "E"%byte).
Definition sign_len (s : list byte) : nat := match s with c :: _ => if is_sign c then 1 else 0 | [] => 0 end.
Definition exponent_len (s : list byte) : nat :=
  match s with
  | c :: s' => if is_exp c then S (sign_len s' + span_len is_digit (drop (sign_len s') s')) else 0
  | [] => 0
  end.
(** The rest of a number after its first digit, and whether it is a float. *)
Definition number_rest (s : list byte) : bool * nat :=
  let n := span_len is_digit s in
  let f := fraction_len (drop n s) in
  let e := exponent_len (drop (n + f) s) in
  (negb (f + e =? 0)%nat, (n + f + e)%nat).

(** The kind of the token that starts with [c] and continues in [s], and the
    number of characters of [s] that belong to it. *)
Definition lexeme (c : byte) (s : list byte) : TokenKind * nat :=
  match c with
  | "("%byte => (LParen, 0%nat)
  | ")"%byte => (RParen, 0%nat)
  | ","%byte => (Comma, 0%nat)
  | ";"%byte => (Semicolon, 0%nat)
  | "*"%byte => (Star, 0%nat)
  | "."%byte => (Dot, 0%nat)
  | "="%byte => (TkEq, 0%nat)
  | "<"%byte => match s with "="%byte :: _ => (TkLe, 1%nat) | ">"%byte :: _ => (TkNeq, 1%nat) | _ => (TkLt, 0%nat) end
  | ">"%byte => match s with "="%byte :: _ => (TkGe, 1%nat) | _ => (TkGt, 0%nat) end
  | "'"%byte => (LitString, string_len s)
  | _ =>
      if is_alpha c || bool_decide (c = "_"%byte) then
        let n := span_len is_ident_char s in (match_keyword (to_lower <$> c :: take n s), n)
      else if is_digit c then
        let '(is_float, n) := number_rest s in (if is_float then LitFloat else LitInteger, n)
      else (Unknown, 0%nat)
  end.

(** The position after reading a character. *)
Definition step_position (p : Z * Z) (c : byte) : Z * Z :=
  if bool_decide (c = x0a) then (wrap32 (p.1 + 1), 1) else (p.1, wrap32 (p.2 + 1)).

(** ** Moving forward *)

Definition rest (l : Lexer) : list byte := drop (Z.to_nat (pos l)) (src l).
(** The lexer [n] characters further on. *)
Definition jump (n : nat) (l : Lexer) : Lexer :=
  let p := foldl step_position (line l, col l) (take n (rest l)) in
  {| src := src l; pos := pos l + Z.of_nat n; line := p.1; col := p.2;
     has_peek := has_peek l; peek_tok := peek_tok l |}.

Record lexer_wf (l : Lexer) : Prop := {
  lw_pos : 0 <= pos l <= sizeZ (src l);
  lw_size : sizeZ (src l) < 2 ^ 63;
}.

Lemma length_rest l : lexer_wf l -> Z.of_nat (length (rest l)) = sizeZ (src l) - pos l.
Proof. intros [Hp _]. unfold rest, sizeZ in *. rewrite length_drop. lia. Qed.

Lemma at_end_rest l : lexer_wf l -> at_end l = bool_decide (rest l = []).
Proof.
  intros Hwf. pose proof (length_rest l Hwf) as Hl. unfold at_end. destruct (rest l) as [|c s]; cbn in Hl.
  - rewrite bool_decide_eq_true_2 by done. apply Z.leb_le. lia.
  - rewrite bool_decide_eq_false_2 by done. apply Z.leb_gt. lia.
Qed.

Lemma lookup_rest l i : rest l !! i = src l !! (Z.to_nat (pos l) + i)%nat.
Proof. unfold rest. apply lookup_drop. Qed.

Lemma cur_char_rest l c s : lexer_wf l -> rest l = c :: s -> cur_char l = c.
Proof.
  intros Hwf Hr. unfold cur_char. rewrite at_end_rest, Hr, bool_decide_eq_false_2 by done.
  pose proof (lookup_rest l 0) as Hl. rewrite Hr, Nat.add_0_r in Hl. by rewrite <- Hl.
Qed.

Lemma jump_0 l : jump 0 l = l.
Proof. unfold jump. rewrite Z.add_0_r. by destruct l. Qed.

Lemma rest_jump n l : lexer_wf l -> rest (jump n l) = drop n (rest l).
Proof.
  intros [Hp _]. unfold rest, jump. cbn [src pos]. rewrite drop_drop. f_equal. lia.
Qed.

Lemma jump_jump n m l : lexer_wf l -> jump m (jump n l) = jump (n + m) l.
Proof.
  intros Hwf. unfold jump at 1. rewrite rest_jump by done. unfold jump. cbn [src pos line col has_peek peek_tok].
  rewrite <- surjective_pairing, <- foldl_app, <- take_take_drop.
  f_equal. lia.
Qed.

Lemma jump_wf n l : lexer_wf l -> (n <= length (rest l))%nat -> lexer_wf (jump n l).
Proof. intros Hwf Hn. pose proof (length_rest l Hwf). destruct Hwf. split; cbn; lia. Qed.

Lemma length_rest_le l : (length (rest l) <= length (src l))%nat.
Proof. unfold rest. rewrite length_drop. lia. Qed.

Lemma advance_rest l c s : lexer_wf l -> rest l = c :: s -> advance l = (Ok c, jump 1 l).
Proof.
  intros Hwf Hr. pose proof (length_rest l Hwf) as Hl. rewrite Hr in Hl. cbn in Hl. pose proof (lw_size _ Hwf).
  pose proof (lw_pos _ Hwf). unfold advance. rewrite (cur_char_rest l c s Hwf Hr). f_equal.
  unfold jump. rewrite Hr. cbn [take foldl]. unfold step_position, moved. cbn [fst snd].
  rewrite (wrap64_id (pos l + 1)) by lia. by destruct (bool_decide (c = x0a)).
Qed.

Lemma at_char_rest l c : lexer_wf l -> at_char c l = bool_decide (head (rest l) = Some c).
Proof.
  intros Hwf. unfold at_char. rewrite at_end_rest by done. destruct (rest l) as [|d s] eqn:Hr.
  - by rewrite bool_decide_eq_true_2.
  - rewrite (cur_char_rest l d s Hwf Hr). rewrite bool_decide_eq_false_2 by done. cbn.
    apply bool_decide_ext. naive_solver.
Qed.

Lemma next_char_rest l c s :
  lexer_wf l -> rest l = c :: s ->
  (wrap64 (pos l + 1) <? sizeZ (src l)) = bool_decide (s <> []) /\ src l !! Z.to_nat (wrap64 (pos l + 1)) = head s.
Proof.
  intros Hwf Hr. pose proof (length_rest l Hwf) as Hl. rewrite Hr in Hl. cbn [length] in Hl.
  pose proof (lw_size _ Hwf). pose proof (lw_pos _ Hwf). rewrite wrap64_id by lia. split.
  - destruct s as [|d s]; cbn [length] in Hl.
    + rewrite bool_decide_eq_false_2 by naive_solver. apply Z.ltb_ge. lia.
    + rewrite bool_decide_eq_true_2 by done. apply Z.ltb_lt. lia.
  - pose proof (lookup_rest l 1) as H1. rewrite Hr in H1. replace (Z.to_nat (pos l + 1)) with (Z.to_nat (pos l) + 1)%nat by lia.
    rewrite <- H1. by destruct s.
Qed.

Lemma next_is_rest l c d s : lexer_wf l -> rest l = c :: s -> next_is d l = bool_decide (head s = Some d).
Proof.
  intros Hwf Hr. unfold next_is. destruct (next_char_rest l c s Hwf Hr) as [-> ->]. by destruct s.
Qed.

Lemma next_is_digit_rest l c s :
  lexer_wf l -> rest l = c :: s ->
  next_is_digit l = match s with d :: _ => is_digit d | [] => false end.
Proof.
  intros Hwf Hr. unfold next_is_digit. destruct (next_char_rest l c s Hwf Hr) as [-> ->]. by destruct s.
Qed.

(** ** The loops *)

Lemma span_len_le p s : (span_len p s <= length s)%nat.
Proof. induction s as [|c s IH]; cbn; [lia|]. destruct (p c); lia. Qed.

(** One character forward, then on. *)
Lemma advance_bind {A} (k : byte -> M Lexer A) l c s :
  lexer_wf l -> rest l = c :: s -> bindM advance k l = k c (jump 1 l).
Proof. intros. apply bind_ok. by eapply advance_rest. Qed.

Lemma jump_1_wf l c s : lexer_wf l -> rest l = c :: s -> lexer_wf (jump 1 l) /\ rest (jump 1 l) = s.
Proof.
  intros Hwf Hr. split; [apply jump_wf; [done|rewrite Hr; cbn; lia]|]. rewrite rest_jump, Hr by done. done.
Qed.

Lemma advance_while_jump fuel p l :
  lexer_wf l -> (length (rest l) < fuel)%nat ->
  advance_while fuel p l = (Ok tt, jump (span_len p (rest l)) l).
Proof.
  revert l. induction fuel as [|fuel IH]; intros l Hwf Hf; [lia|]. cbn [advance_while].
  erewrite bind_ok by done. rewrite at_end_rest by done. destruct (rest l) as [|c s] eqn:Hr.
  { rewrite bool_decide_eq_true_2 by done. cbn. by rewrite jump_0. }
  rewrite bool_decide_eq_false_2 by done. rewrite (cur_char_rest l c s Hwf Hr). cbn [negb andb span_len].
  destruct (p c); [|by rewrite jump_0].
  destruct (jump_1_wf l c s Hwf Hr) as [Hwf1 Hr1].
  rewrite (advance_bind _ l c s Hwf Hr), IH by (done || (rewrite Hr1; cbn in Hf; lia)).
  by rewrite Hr1, jump_jump.
Qed.

Lemma loop_fuel_enough l : (length (rest l) < loop_fuel l)%nat.
Proof. unfold loop_fuel. pose proof (length_rest_le l). lia. Qed.

Lemma loop_fuel_jump n l : loop_fuel (jump n l) = loop_fuel l.
Proof. done. Qed.

(** The characters up to and including the end of a block comment. *)
Fixpoint block_len (s : list byte) : nat :=
  match s with
  | [] => 0
  | c :: s' =>
      match c, s' with
      | "*"%byte, "/"%byte :: _ => 2
      | _, _ => S (block_len s')
      end
  end.

Lemma block_len_cons c s :
  block_len (c :: s) =
    if bool_decide (c = "*"%byte) && bool_decide (head s = Some "/"%byte) then 2%nat else S (block_len s).
Proof.
  cbn [block_len]. destruct (bool_decide (c = "*"%byte)) eqn:Hc.
  - apply bool_decide_eq_true in Hc as ->. destruct s as [|d s]; [done|]. cbn [head].
    destruct (bool_decide (Some d = Some "/"%byte)) eqn:Hd.
    + apply bool_decide_eq_true in Hd as [= ->]. done.
    + apply bool_decide_eq_false in Hd. by destruct d.
  - apply bool_decide_eq_false in Hc. by destruct c.
Qed.

Lemma block_len_le s : (block_len s <= length s)%nat.
Proof.
  induction s as [|c s IH]; [done|]. rewrite block_len_cons. cbn [length].
  destruct (bool_decide _ && _) eqn:Hb; [|lia]. destruct s; [|cbn; lia]. by rewrite andb_false_r in Hb.
Qed.

Lemma block_comment_loop_jump fuel l :
  lexer_wf l -> (length (rest l) < fuel)%nat ->
  block_comment_loop fuel l = (Ok tt, jump (block_len (rest l)) l).
Proof.
  revert l. induction fuel as [|fuel IH]; intros l Hwf Hf; [lia|]. cbn [block_comment_loop].
  erewrite bind_ok by done. rewrite at_end_rest by done. destruct (rest l) as [|c s] eqn:Hr.
  { rewrite bool_decide_eq_true_2 by done. cbn. by rewrite jump_0. }
  rewrite bool_decide_eq_false_2 by done. destruct (jump_1_wf l c s Hwf Hr) as [Hwf1 Hr1].
  rewrite (advance_bind _ l c s Hwf Hr). erewrite bind_ok by done.
  rewrite at_char_rest, Hr1, block_len_cons by done.
  destruct (bool_decide (c = "*"%byte) && bool_decide (head s = Some "/"%byte)) eqn:Hb.
  - destruct s as [|d s]; [by rewrite andb_false_r in Hb|].
    rewrite (advance_bind _ _ d s Hwf1 Hr1), jump_jump by done. done.
  - rewrite IH by (done || (rewrite Hr1; cbn in Hf; lia)). by rewrite Hr1, jump_jump.
Qed.

Lemma string_len_cons c s :
  string_len (c :: s) =
    if bool_decide (c = "'"%byte)
    then if bool_decide (head s = Some "'"%byte) then S (S (string_len (tail s))) else 1%nat
    else S (string_len s).
Proof.
  destruct (bool_decide (c = "'"%byte)) eqn:Hc.
  - apply bool_decide_eq_true in Hc as ->. destruct s as [|d s]; [done|]. cbn [head tail].
    destruct (bool_decide (Some d = Some "'"%byte)) eqn:Hd.
    + apply bool_decide_eq_true in Hd as [= ->]. done.
    + apply bool_decide_eq_false in Hd. by destruct d.
  - apply bool_decide_eq_false in Hc. by destruct c.
Qed.

Lemma string_len_le s : (string_len s <= length s)%nat.
Proof.
  induction s as [s IH] using (induction_ltof1 _ (@length byte)). unfold ltof in IH.
  destruct s as [|c s]; [done|]. rewrite string_len_cons. cbn [length].
  destruct (bool_decide _); [|specialize (IH s); cbn in IH; lia].
  destruct (bool_decide (head s = _)) eqn:Hh; [|lia]. destruct s as [|d s]; [done|].
  specialize (IH s). cbn in IH |- *. lia.
Qed.

Lemma string_loop_jump fuel l :
  lexer_wf l -> (length (rest l) < fuel)%nat ->
  string_loop fuel l = (Ok tt, jump (string_len (rest l)) l).
Proof.
  revert l. induction fuel as [|fuel IH]; intros l Hwf Hf; [lia|]. cbn [string_loop].
  erewrite bind_ok by done. rewrite at_end_rest by done. destruct (rest l) as [|c s] eqn:Hr.
  { rewrite bool_decide_eq_true_2 by done. cbn. by rewrite jump_0. }
  rewrite bool_decide_eq_false_2 by done. destruct (jump_1_wf l c s Hwf Hr) as [Hwf1 Hr1].
  rewrite (advance_bind _ l c s Hwf Hr), string_len_cons. cbn [length] in Hf.
  destruct (bool_decide (c = "'"%byte)).
  2: { rewrite IH by (done || (rewrite Hr1; lia)). by rewrite Hr1, jump_jump. }
  erewrite bind_ok by done. rewrite at_char_rest, Hr1 by done.
  destruct (bool_decide (head s = Some "'"%byte)) eqn:Hh; [|done].
  destruct s as [|d s]; [done|]. destruct (jump_1_wf _ d s Hwf1 Hr1) as [Hwf2 Hr2].
  rewrite (advance_bind _ _ d s Hwf1 Hr1), IH by (done || (rewrite Hr2; cbn in Hf; lia)).
  rewrite Hr2, !jump_jump by done. done.
Qed.

(** ** Blanks and comments *)

Definition not_newline (c : byte) : bool := bool_decide (c <> x0a).

Lemma skip_line_split s :
  skip_len LineComment s = (span_len not_newline s + skip_len Blanks (drop (span_len not_newline s) s))%nat.
Proof.
  induction s as [|c s IH]; [done|]. cbn [skip_len span_len]. unfold not_newline at 1 3.
  destruct (decide (c = x0a)) as [->|Hne]; [done|].
  rewrite (bool_decide_eq_false_2 (c = x0a)), (bool_decide_eq_true_2 (c <> x0a)) by done.
  cbn [drop]. by rewrite IH.
Qed.

Lemma skip_block_cons c s :
  skip_len BlockComment (c :: s) =
    if bool_decide (c = "*"%byte) && bool_decide (head s = Some "/"%byte)
    then S (S (skip_len Blanks (tail s))) else S (skip_len BlockComment s).
Proof.
  cbn [skip_len]. destruct (bool_decide (c = "*"%byte)) eqn:Hc.
  - apply bool_decide_eq_true in Hc as ->. destruct s as [|d s]; [done|]. cbn [head tail].
    destruct (bool_decide (Some d = Some "/"%byte)) eqn:Hd.
    + apply bool_decide_eq_true in Hd as [= ->]. done.
    + apply bool_decide_eq_false in Hd. by destruct d.
  - apply bool_decide_eq_false in Hc. by destruct c.
Qed.

Lemma skip_block_split s :
  skip_len BlockComment s = (block_len s + skip_len Blanks (drop (block_len s) s))%nat.
Proof.
  induction s as [|c s IH]; [done|]. rewrite skip_block_cons, block_len_cons.
  destruct (bool_decide (c = "*"%byte) && bool_decide (head s = Some "/"%byte)) eqn:Hb.
  - destruct s as [|d s]; [by rewrite andb_false_r in Hb|]. done.
  - cbn [drop]. by rewrite IH.
Qed.

Lemma skip_blanks_cons c s :
  skip_len Blanks (c :: s) =
    if is_blank c then S (skip_len Blanks s)
    else if bool_decide (c = "-"%byte) && bool_decide (head s = Some "-"%byte) then S (skip_len LineComment s)
    else if bool_decide (c = "/"%byte) && bool_decide (head s = Some "*"%byte)
      then S (S (skip_len BlockComment (tail s)))
    else 0%nat.
Proof.
  cbn [skip_len]. destruct (is_blank c); [done|].
  destruct (decide (c = "-"%byte)) as [->|Hm]; [|destruct (decide (c = "/"%byte)) as [->|Hs]].
  - rewrite bool_decide_eq_true_2 by done. destruct s as [|d s]; [done|]. cbn [head].
    destruct (decide (d = "-"%byte)) as [->|Hd]; [done|].
    rewrite (bool_decide_eq_false_2 (Some d = _)) by congruence. by destruct d.
  - destruct s as [|d s]; [done|]. cbn [head tail].
    destruct (decide (d = "*"%byte)) as [->|Hd]; [done|].
    rewrite (bool_decide_eq_false_2 (Some d = Some "*"%byte)) by congruence. by destruct d.
  - rewrite !bool_decide_eq_false_2 by done. by destruct c.
Qed.

Lemma skip_line_comment_jump l :
  lexer_wf l -> skip_line_comment l = (Ok tt, jump (span_len not_newline (rest l)) l).
Proof.
  intros Hwf. unfold skip_line_comment. erewrite bind_ok by done.
  by apply advance_while_jump; [|apply loop_fuel_enough].
Qed.

Lemma skip_block_comment_jump l c d s :
  lexer_wf l -> rest l = c :: d :: s -> skip_block_comment l = (Ok tt, jump (2 + block_len s) l).
Proof.
  intros Hwf Hr. unfold skip_block_comment. destruct (jump_1_wf l c _ Hwf Hr) as [Hwf1 Hr1].
  destruct (jump_1_wf _ d s Hwf1 Hr1) as [Hwf2 Hr2].
  rewrite (advance_bind _ l c _ Hwf Hr), (advance_bind _ _ d s Hwf1 Hr1). erewrite bind_ok by done.
  rewrite block_comment_loop_jump by (done || apply loop_fuel_enough). by rewrite Hr2, !jump_jump.
Qed.

Lemma skip_loop_jump fuel l :
  lexer_wf l -> (length (rest l) < fuel)%nat ->
  skip_loop fuel l = (Ok tt, jump (skip_len Blanks (rest l)) l).
Proof.
  revert l. induction fuel as [|fuel IH]; intros l Hwf Hf; [lia|]. cbn [skip_loop].
  erewrite bind_ok by done. rewrite at_end_rest by done. destruct (rest l) as [|c s] eqn:Hr.
  { rewrite bool_decide_eq_true_2 by done. cbn. by rewrite jump_0. }
  rewrite bool_decide_eq_false_2 by done. erewrite bind_ok by done. rewrite (cur_char_rest l c s Hwf Hr).
  rewrite skip_blanks_cons. destruct (jump_1_wf l c s Hwf Hr) as [Hwf1 Hr1]. cbn [length] in Hf.
  assert (Hgo : forall n, (1 <= n <= length (rest l))%nat ->
    skip_loop fuel (jump n l) = (Ok tt, jump (n + skip_len Blanks (drop n (rest l))) l)).
  { intros n Hn. rewrite Hr in Hn. cbn [length] in Hn.
    rewrite IH by ((apply jump_wf; [done|rewrite Hr; cbn; lia]) || (rewrite rest_jump, length_drop, Hr by done; cbn; lia)).
    by rewrite rest_jump, jump_jump. }
  rewrite Hr in Hgo. cbn [length] in Hgo.
  destruct (is_blank c) eqn:Hb.
  { rewrite (advance_bind _ l c s Hwf Hr), Hgo by lia. done. }
  destruct (decide (c = "-"%byte)) as [->|Hm].
  { rewrite bool_decide_eq_true_2 by done. erewrite bind_ok by done. rewrite (next_is_rest l _ _ s Hwf Hr). cbn [andb].
    destruct (bool_decide (head s = Some "-"%byte)); [|by rewrite jump_0].
    erewrite bind_ok by (by apply skip_line_comment_jump). rewrite Hr, Hgo, skip_line_split; [done|].
    change (span_len not_newline ("-"%byte :: s)) with (S (span_len not_newline s)).
    pose proof (span_len_le not_newline s). lia. }
  rewrite (bool_decide_eq_false_2 (c = "-"%byte)) by done. cbn [andb].
  destruct (decide (c = "/"%byte)) as [->|Hs]; [|by rewrite bool_decide_eq_false_2, jump_0].
  rewrite bool_decide_eq_true_2 by done. erewrite bind_ok by done. rewrite (next_is_rest l _ _ s Hwf Hr). cbn [andb].
  destruct (bool_decide (head s = Some "*"%byte)) eqn:Hh; [|by rewrite jump_0].
  destruct s as [|d s]; [done|]. erewrite bind_ok by (by eapply skip_block_comment_jump).
  rewrite Hgo, skip_block_split; [done|]. cbn. pose proof (block_len_le s). lia.
Qed.

Lemma skip_len_le s : (skip_len Blanks s <= length s)%nat.
Proof.
  induction s as [s IH] using (induction_ltof1 _ (@length byte)). unfold ltof in IH.
  assert (Hd : forall n, (0 < n <= length s)%nat -> (n + skip_len Blanks (drop n s) <= length s)%nat).
  { intros n Hn. specialize (IH (drop n s)). rewrite length_drop in IH. lia. }
  destruct s as [|c s]; [done|]. rewrite skip_blanks_cons. cbn [length] in *.
  destruct (is_blank c); [exact (Hd 1%nat ltac:(lia))|].
  destruct (_ && _) eqn:H1.
  { rewrite skip_line_split. pose proof (span_len_le not_newline s).
    exact (Hd (S (span_len not_newline s)) ltac:(lia)). }
  destruct (_ && _) eqn:H2 in |- *; [|lia]. destruct s as [|d s]; [by rewrite andb_false_r in H2|].
  cbn [tail length] in *. rewrite skip_block_split. pose proof (block_len_le s).
  exact (Hd (S (S (block_len s))) ltac:(lia)).
Qed.

Lemma skip_jump l :
  lexer_wf l ->
  skip_whitespace_and_comments l = (Ok tt, jump (skip_len Blanks (rest l)) l).
Proof.
  intros Hwf. unfold skip_whitespace_and_comments. erewrite bind_ok by done.
  by apply skip_loop_jump; [|apply loop_fuel_enough].
Qed.

(** ** Tokens *)

Lemma make_tok_jump k l n tl tc :
  lexer_wf l -> (n <= length (rest l))%nat ->
  make_tok k (pos l) tl tc (jump n l) =
    (Ok {| tk_kind := k; tk_text := take n (rest l); tk_line := tl; tk_col := tc |}, jump n l).
Proof.
  intros Hwf Hn. pose proof (length_rest l Hwf). pose proof (lw_pos _ Hwf). pose proof (lw_size _ Hwf).
  unfold make_tok, substr, jump. cbn [src pos]. rewrite (proj2 (Z.ltb_ge _ _)) by lia. cbn [bindR].
  rewrite wrap64_id by lia. replace (Z.to_nat (pos l + Z.of_nat n - pos l)) with n by lia. done.
Qed.

Lemma find_keyword_long table text :
  Forall (fun e => (length (String.list_byte_of_string e.1) < length text)%nat) table ->
  find_keyword table text = Identifier.
Proof.
  induction 1 as [|[w k] table Hl _ IH]; [done|]. cbn [find_keyword fst] in *.
  rewrite bool_decide_eq_false_2; [done|]. intros ->. lia.
Qed.

(** No keyword is as long as the prefix that is compared. *)
Lemma match_keyword_prefix raw :
  match_keyword (to_lower <$> take (min (length raw) max_kw_len) raw) = match_keyword (to_lower <$> raw).
Proof.
  destruct (decide (length raw <= max_kw_len)%nat).
  { by rewrite Nat.min_l, take_ge by lia. }
  assert (Hshort : Forall (fun e => (length (String.list_byte_of_string e.1) < max_kw_len)%nat) KEYWORDS).
  { unfold max_kw_len. repeat constructor; cbn; lia. }
  unfold match_keyword. rewrite !find_keyword_long; [done|..].
  - eapply Forall_impl; [exact Hshort|]. intros e He. cbn beta in *. rewrite length_fmap. lia.
  - eapply Forall_impl; [exact Hshort|]. intros e He. cbn beta in *. rewrite length_fmap, length_take. lia.
Qed.

Lemma scan_ident_jump l c s tl tc :
  lexer_wf l -> rest l = c :: s ->
  let n := span_len is_ident_char s in
  scan_ident_or_kw (pos l) tl tc (jump 1 l) =
    (Ok {| tk_kind := match_keyword (to_lower <$> c :: take n s); tk_text := c :: take n s;
           tk_line := tl; tk_col := tc |}, jump (S n) l).
Proof.
  intros Hwf Hr n. destruct (jump_1_wf l c s Hwf Hr) as [Hwf1 Hr1]. unfold scan_ident_or_kw.
  erewrite bind_ok by done.
  erewrite bind_ok by (by apply advance_while_jump; [|apply loop_fuel_enough]).
  rewrite Hr1, jump_jump by done. fold n. pose proof (span_len_le is_ident_char s).
  pose proof (make_tok_jump LParen l (S n) 0 0 Hwf ltac:(rewrite Hr; cbn; lia)) as Hm.
  unfold make_tok in Hm. cbn [Nat.add] in *.
  destruct (substr (src (jump (S n) l)) (pos l) (wrap64 (pos (jump (S n) l) - pos l))) as [raw| |]; [|done..].
  cbn [bindR] in *. injection Hm as Hraw. rewrite Hr in Hraw. cbn [take] in Hraw. subst raw.
  by rewrite match_keyword_prefix.
Qed.

Lemma fraction_len_spec s : (fraction_len s <= length s)%nat.
Proof.
  assert (H0 : forall c s, c <> "."%byte \/ s = [] -> fraction_len (c :: s) = 0%nat)
    by (intros c s' [Hc| ->]; by destruct c).
  destruct s as [|c [|d s]]; [cbn; lia|rewrite H0 by auto; lia|].
  destruct (decide (c = "."%byte)) as [->|Hc]; [|rewrite H0 by auto; lia].
  cbn [fraction_len]. destruct (is_digit d); [|lia]. pose proof (span_len_le is_digit (d :: s)). cbn in *. lia.
Qed.

Lemma scan_fraction_jump l :
  lexer_wf l ->
  scan_fraction l = (Ok (negb (fraction_len (rest l) =? 0)%nat), jump (fraction_len (rest l)) l).
Proof.
  intros Hwf. unfold scan_fraction. do 2 erewrite bind_ok by done. rewrite at_char_rest by done.
  destruct (rest l) as [|c s] eqn:Hr; [cbn; by rewrite jump_0|].
  rewrite (next_is_digit_rest l c s Hwf Hr). destruct (jump_1_wf l c s Hwf Hr) as [Hwf1 Hr1]. cbn [head].
  destruct (decide (c = "."%byte)) as [->|Hc].
  2: { rewrite bool_decide_eq_false_2 by congruence. cbn [andb]. by destruct c; try done; rewrite jump_0. }
  rewrite bool_decide_eq_true_2 by done. destruct s as [|d s]; [cbn; by rewrite jump_0|].
  cbn [fraction_len andb]. destruct (is_digit d) eqn:Hd; [|cbn; by rewrite jump_0].
  rewrite (advance_bind _ l _ _ Hwf Hr). erewrite bind_ok by done.
  erewrite bind_ok by (by apply advance_while_jump; [|apply loop_fuel_enough]).
  by rewrite Hr1, jump_jump.
Qed.

Lemma exponent_len_le s : (exponent_len s <= length s)%nat.
Proof.
  destruct s as [|c s]; [done|]. cbn [exponent_len length]. destruct (is_exp c); [|lia].
  pose proof (span_len_le is_digit (drop (sign_len s) s)). rewrite length_drop in *.
  assert (sign_len s <= length s)%nat; [|lia]. destruct s as [|d s]; [done|]. cbn. destruct (is_sign d); lia.
Qed.

(** An optional sign. *)
Lemma sign_jump l :
  lexer_wf l ->
  (if at_char "+"%byte l || at_char "-"%byte l then let* _ := advance in retM tt else retM tt) l
    = (Ok tt, jump (sign_len (rest l)) l).
Proof.
  intros Hwf. rewrite !at_char_rest by done. destruct (rest l) as [|d s] eqn:Hr; [cbn; by rewrite jump_0|].
  cbn [head sign_len]. unfold is_sign.
  assert (Hb : forall c, bool_decide (Some d = Some c) = bool_decide (d = c)) by (intros; apply bool_decide_ext; naive_solver).
  rewrite !Hb. destruct (bool_decide _ || _); [|by rewrite jump_0]. by rewrite (advance_bind _ l d s Hwf Hr).
Qed.

Lemma scan_exponent_jump l :
  lexer_wf l ->
  scan_exponent l = (Ok (negb (exponent_len (rest l) =? 0)%nat), jump (exponent_len (rest l)) l).
Proof.
  intros Hwf. unfold scan_exponent. do 2 erewrite bind_ok by done. rewrite !at_char_rest by done.
  destruct (rest l) as [|c s] eqn:Hr; [cbn; by rewrite jump_0|]. cbn [head exponent_len]. unfold is_exp.
  assert (Hb : forall d, bool_decide (Some c = Some d) = bool_decide (c = d)) by (intros; apply bool_decide_ext; naive_solver).
  rewrite !Hb. destruct (bool_decide _ || _); [|by rewrite jump_0].
  destruct (jump_1_wf l c s Hwf Hr) as [Hwf1 Hr1].
  rewrite (advance_bind _ l c s Hwf Hr). do 2 erewrite bind_ok by done.
  erewrite bind_ok by (by apply sign_jump). rewrite Hr1, jump_jump by done. erewrite bind_ok by done.
  assert (Hs : (sign_len s <= length s)%nat) by (destruct s as [|d s']; [done|cbn; destruct (is_sign d); lia]).
  assert (Hwf2 : lexer_wf (jump (1 + sign_len s) l)) by (apply jump_wf; [done|rewrite Hr; cbn; lia]).
  erewrite bind_ok by (by apply advance_while_jump; [|apply loop_fuel_enough]).
  rewrite rest_jump, Hr, jump_jump by done. done.
Qed.

Lemma number_rest_le s : ((number_rest s).2 <= length s)%nat.
Proof.
  unfold number_rest. cbn [snd]. pose proof (span_len_le is_digit s).
  pose proof (fraction_len_spec (drop (span_len is_digit s) s)).
  pose proof (exponent_len_le (drop (span_len is_digit s + fraction_len (drop (span_len is_digit s) s)) s)).
  rewrite !length_drop in *. lia.
Qed.

Lemma scan_number_jump l c s tl tc :
  lexer_wf l -> rest l = c :: s ->
  let '(is_float, n) := number_rest s in
  scan_number (pos l) tl tc (jump 1 l) =
    (Ok {| tk_kind := if is_float then LitFloat else LitInteger; tk_text := c :: take n s;
           tk_line := tl; tk_col := tc |}, jump (S n) l).
Proof.
  intros Hwf Hr. destruct (jump_1_wf l c s Hwf Hr) as [Hwf1 Hr1].
  pose proof (number_rest_le s) as Hle. unfold number_rest in *. cbn [snd] in Hle.
  set (n := span_len is_digit s) in *. set (f := fraction_len (drop n s)) in *.
  set (x := exponent_len (drop (n + f) s)) in *. unfold scan_number.
  erewrite bind_ok by done. erewrite bind_ok by (by apply advance_while_jump; [|apply loop_fuel_enough]).
  rewrite Hr1, jump_jump by done. fold n.
  assert (Hrest : forall k, rest (jump (1 + k) l) = drop k s) by (intros k; by rewrite rest_jump, Hr).
  assert (Hwfs : forall k, (k <= length s)%nat -> lexer_wf (jump (1 + k) l))
    by (intros k Hk; apply jump_wf; [done|rewrite Hr; cbn; lia]).
  erewrite bind_ok by (apply scan_fraction_jump, Hwfs; lia). rewrite Hrest, jump_jump by done. fold f.
  rewrite <- Nat.add_assoc.
  erewrite bind_ok by (apply scan_exponent_jump, Hwfs; lia). rewrite Hrest, jump_jump by done. fold x.
  rewrite <- Nat.add_assoc. cbn [Nat.add]. rewrite make_tok_jump by (done || (rewrite Hr; cbn; lia)).
  rewrite Hr. cbn [take]. do 4 f_equal. by destruct f, x.
Qed.

Definition special (c : byte) : bool :=
  match c with
  | "("%byte | ")"%byte | ","%byte | ";"%byte | "*"%byte | "."%byte | "="%byte | "<"%byte | ">"%byte
  | "'"%byte => true
  | _ => false
  end.

Lemma lexeme_word c s :
  special c = false ->
  lexeme c s =
    if is_alpha c || bool_decide (c = "_"%byte) then
      let n := span_len is_ident_char s in (match_keyword (to_lower <$> c :: take n s), n)
    else if is_digit c then
      let '(is_float, n) := number_rest s in (if is_float then LitFloat else LitInteger, n)
    else (Unknown, 0%nat).
Proof. by destruct c. Qed.

Lemma scan_token_word c start tl tc :
  special c = false ->
  scan_token c start tl tc =
    if is_alpha c || bool_decide (c = "_"%byte) then scan_ident_or_kw start tl tc
    else if is_digit c then scan_number start tl tc
    else make_tok Unknown start tl tc.
Proof. by destruct c. Qed.

(** The two-character operators. *)
Lemma head_char (s : list byte) c : bool_decide (head s = Some c) = match s with d :: _ => bool_decide (d = c) | [] => false end.
Proof. destruct s; cbn; [done|]. apply bool_decide_ext. naive_solver. Qed.

Lemma lexeme_le c s : ((lexeme c s).2 <= length s)%nat.
Proof.
  destruct (special c) eqn:Hc.
  - destruct c; try done; cbn [lexeme snd]; try lia; try apply string_len_le.
    + destruct s as [|d s]; [cbn; lia|]. destruct d; cbn; lia.
    + destruct s as [|d s]; [cbn; lia|]. destruct d; cbn; lia.
  - rewrite lexeme_word by done. destruct (_ || _); [apply span_len_le|].
    destruct (is_digit c); [|cbn; lia]. pose proof (number_rest_le s). by destruct (number_rest s).
Qed.

Lemma scan_token_jump l c s tl tc :
  lexer_wf l -> rest l = c :: s ->
  scan_token c (pos l) tl tc (jump 1 l) =
    (Ok {| tk_kind := (lexeme c s).1; tk_text := c :: take (lexeme c s).2 s; tk_line := tl; tk_col := tc |},
     jump (S (lexeme c s).2) l).
Proof.
  intros Hwf Hr. destruct (jump_1_wf l c s Hwf Hr) as [Hwf1 Hr1].
  assert (Hmk : forall k n, (n <= length s)%nat -> make_tok k (pos l) tl tc (jump (S n) l) =
    (Ok {| tk_kind := k; tk_text := c :: take n s; tk_line := tl; tk_col := tc |}, jump (S n) l)).
  { intros k n Hn. rewrite make_tok_jump by (done || (rewrite Hr; cbn; lia)). by rewrite Hr. }
  assert (Hop : forall k d s', s = d :: s' ->
    (let* _ := advance in make_tok k (pos l) tl tc) (jump 1 l) =
    (Ok {| tk_kind := k; tk_text := c :: take 1 s; tk_line := tl; tk_col := tc |}, jump 2 l)).
  { intros k d s' ->. rewrite (advance_bind _ _ d s' Hwf1 Hr1), jump_jump by done. apply Hmk. cbn. lia. }
  destruct (special c) eqn:Hc.
  2: { rewrite scan_token_word, lexeme_word by done. destruct (_ || _); [by apply scan_ident_jump|].
       destruct (is_digit c); [|exact (Hmk _ 0%nat ltac:(lia))].
       pose proof (scan_number_jump l c s tl tc Hwf Hr) as Hn. by destruct (number_rest s). }
  destruct c; try done; cbn [scan_token lexeme fst snd]; try exact (Hmk _ 0%nat ltac:(lia)).
  - unfold scan_string. erewrite bind_ok by done.
    erewrite bind_ok by (by apply string_loop_jump; [|apply loop_fuel_enough]).
    rewrite Hr1, jump_jump by done. apply Hmk, string_len_le.
  - erewrite bind_ok by done. rewrite at_char_rest, Hr1, head_char by done.
    destruct s as [|d s']; [erewrite bind_ok by done; rewrite at_char_rest, Hr1 by done; exact (Hmk _ 0%nat ltac:(lia))|].
    destruct (decide (d = "="%byte)) as [->|Hd]; [by eapply Hop|].
    rewrite bool_decide_eq_false_2 by done. erewrite bind_ok by done. rewrite at_char_rest, Hr1, head_char by done.
    destruct (decide (d = ">"%byte)) as [->|Hg]; [by eapply Hop|].
    rewrite bool_decide_eq_false_2 by done. assert (Hlt : lexeme "<"%byte (d :: s') = (TkLt, 0%nat)) by (by destruct d).
    cbn [lexeme] in Hlt. rewrite Hlt. exact (Hmk _ 0%nat ltac:(lia)).
  - erewrite bind_ok by done. rewrite at_char_rest, Hr1, head_char by done.
    destruct s as [|d s']; [exact (Hmk _ 0%nat ltac:(lia))|].
    destruct (decide (d = "="%byte)) as [->|Hd]; [by eapply Hop|].
    rewrite bool_decide_eq_false_2 by done. assert (Hgt : lexeme ">"%byte (d :: s') = (TkGt, 0%nat)) by (by destruct d).
    cbn [lexeme] in Hgt. rewrite Hgt. exact (Hmk _ 0%nat ltac:(lia)).
Qed.

(** The token the lexer returns from [l], and where it then stands. *)
Definition next_token (l : Lexer) : Token * Lexer :=
  let n := skip_len Blanks (rest l) in
  let l1 := jump n l in
  match rest l1 with
  | [] => ({| tk_kind := Eof; tk_text := []; tk_line := line l1; tk_col := col l1 |}, l1)
  | c :: s =>
      let '(kind, m) := lexeme c s in
      ({| tk_kind := kind; tk_text := c :: take m s; tk_line := line l1; tk_col := col l1 |},
       jump (n + S m) l)
  end.

Lemma scan_one_next_token l : lexer_wf l -> scan_one l = (Ok (next_token l).1, (next_token l).2).
Proof.
  intros Hwf. unfold scan_one, next_token. erewrite bind_ok by (by apply skip_jump).
  set (n := skip_len Blanks (rest l)). pose proof (skip_len_le (rest l)).
  assert (Hwf1 : lexer_wf (jump n l)) by (by apply jump_wf).
  do 4 erewrite bind_ok by done. rewrite at_end_rest by done. destruct (rest (jump n l)) as [|c s] eqn:Hr; [done|].
  rewrite bool_decide_eq_false_2 by done. rewrite (advance_bind _ _ c s Hwf1 Hr).
  rewrite (scan_token_jump _ c s) by done. rewrite jump_jump by done. by destruct (lexeme c s).
Qed.

Lemma next_token_wf l : lexer_wf l -> lexer_wf (next_token l).2 /\ has_peek (next_token l).2 = has_peek l.
Proof.
  intros Hwf. unfold next_token. set (n := skip_len Blanks (rest l)). pose proof (skip_len_le (rest l)).
  pose proof (rest_jump n l Hwf) as Hrn. destruct (rest (jump n l)) as [|c s] eqn:Hr.
  { split; [by apply jump_wf|done]. }
  pose proof (lexeme_le c s). destruct (lexeme c s) as [k m]. cbn [snd] in *. split; [|done].
  apply jump_wf; [done|]. apply (f_equal length) in Hrn. rewrite length_drop in Hrn. cbn in Hrn. lia.
Qed.

(** C34: the lexer is the reference tokenizer.  From every state reached on a source
    shorter than 2^63 bytes, [next] returns the token that the reference finds
    after the blanks and comments, with its kind, its text and the position of its
    first character, and moves exactly past it.  [peek] returns the same token and
    the [next] after it does so again. *)
Theorem lexer_next_reference (l : Lexer) :
  lexer_wf l -> has_peek l = false ->
  next l = (Ok (next_token l).1, (next_token l).2) /\ lexer_wf (next_token l).2 /\
  peek l = (Ok (next_token l).1, set_peek true (next_token l).1 (next_token l).2) /\
  (let* _ := peek in next) l = (Ok (next_token l).1, set_peek false (next_token l).1 (next_token l).2).
Proof.
  intros Hwf Hp. pose proof (scan_one_next_token l Hwf) as Hs. pose proof (next_token_wf l Hwf) as [Hwf' _].
  assert (Hpeek : peek l = (Ok (next_token l).1, set_peek true (next_token l).1 (next_token l).2)).
  { unfold peek. erewrite bind_ok by done. rewrite Hp. by do 2 erewrite bind_ok by done. }
  split_and!; [|done|done|].
  - unfold next. by rewrite Hp.
  - by erewrite bind_ok by done.
Qed.

(** ** All tokens of a source *)

(** The client's loop: [next] until [Eof]. *)
Fixpoint tokenize (fuel : nat) (l : Lexer) : Result (list Token) :=
  match fuel with
  | O => Fault
  | S fuel =>
      match next l with
      | (Ok t, l') => if decide (tk_kind t = Eof) then Ok [t] else let? ts := tokenize fuel l' in Ok (t :: ts)
      | (Err e, _) => Err e
      | (Fault, _) => Fault
      end
  end.

(** [ts] covers [s], which starts at position [p]: between two tokens there are
    only blanks and comments, every token but the last has a text, and each knows
    where it starts. *)
Inductive tiles (p : Z * Z) : list byte -> list Token -> Prop :=
  | tiles_end gap t :
      skip_len Blanks gap = length gap ->
      tk_kind t = Eof -> tk_text t = [] -> (tk_line t, tk_col t) = foldl step_position p gap ->
      tiles p gap [t]
  | tiles_token gap t s ts :
      skip_len Blanks (gap ++ tk_text t ++ s) = length gap ->
      tk_kind t <> Eof -> tk_text t <> [] -> (tk_line t, tk_col t) = foldl step_position p gap ->
      tiles (foldl step_position p (gap ++ tk_text t)) s ts ->
      tiles p (gap ++ tk_text t ++ s) (t :: ts).

Lemma find_keyword_not_eof table text :
  Forall (fun e => e.2 <> Eof) table -> find_keyword table text <> Eof.
Proof. induction 1 as [|[w k] table Hk _ IH]; [done|]. cbn [find_keyword]. by destruct (bool_decide _). Qed.

Lemma lexeme_not_eof c s : (lexeme c s).1 <> Eof.
Proof.
  destruct (special c) eqn:Hc.
  - destruct c; try done; (destruct s as [|d s]; [done|]; by destruct d).
  - rewrite lexeme_word by done. destruct (_ || _).
    + apply find_keyword_not_eof. by repeat constructor.
    + destruct (is_digit c); [|done]. by destruct (number_rest s) as [[] ?].
Qed.

Lemma tokenize_tiles fuel l :
  lexer_wf l -> has_peek l = false -> (length (rest l) < fuel)%nat ->
  exists ts, tokenize fuel l = Ok ts /\ tiles (line l, col l) (rest l) ts /\ (length ts <= S (length (rest l)))%nat.
Proof.
  revert l. induction fuel as [|fuel IH]; intros l Hwf Hp Hf; [lia|]. cbn [tokenize].
  unfold next. rewrite Hp, scan_one_next_token by done. destruct (next_token_wf l Hwf) as [Hwf' Hp'].
  unfold next_token in *. set (n := skip_len Blanks (rest l)) in *. pose proof (skip_len_le (rest l)) as Hn. fold n in Hn.
  assert (Hsplit : rest l = take n (rest l) ++ rest (jump n l)) by (by rewrite rest_jump, take_drop).
  destruct (rest (jump n l)) as [|c s] eqn:Hr.
  - rewrite decide_True by done. eexists. split; [done|]. split; [|cbn; lia]. rewrite app_nil_r in Hsplit.
    assert (Hlen : n = length (rest l)).
    { apply (f_equal length) in Hsplit. rewrite length_take in Hsplit. lia. }
    constructor; try done. cbn [tk_line tk_col jump line col fst snd]. by rewrite <- surjective_pairing, <- Hsplit.
  - pose proof (lexeme_not_eof c s) as Hne. pose proof (lexeme_le c s) as Hle.
    destruct (lexeme c s) as [k m]. cbn [fst snd tk_kind] in *. rewrite decide_False by done.
    assert (Hlen : (length (rest l) = n + S (length s))%nat).
    { rewrite Hsplit, length_app, length_take. cbn. lia. }
    assert (Hrest : rest (jump (n + S m) l) = drop m s).
    { rewrite rest_jump by done. rewrite Hsplit, drop_app_ge by (rewrite length_take; lia).
      rewrite length_take, Nat.min_l by lia. replace (n + S m - n)%nat with (S m) by lia. done. }
    destruct (IH (jump (n + S m) l)) as (ts & -> & Htiles & Hcount); [done|by rewrite Hp'|rewrite Hrest, length_drop; lia|].
    cbn [bindR]. eexists. split; [done|]. rewrite Hrest, length_drop in *.
    set (t := {| tk_kind := k; tk_text := c :: take m s; tk_line := line (jump n l); tk_col := col (jump n l) |}).
    assert (Heq : rest l = take n (rest l) ++ tk_text t ++ drop m s).
    { cbn [tk_text t app]. rewrite take_drop. exact Hsplit. }
    split; [|cbn; lia]. rewrite Heq at 1. apply tiles_token.
    + rewrite <- Heq, length_take. fold n. lia.
    + done.
    + done.
    + cbn [tk_line tk_col t jump line col fst snd]. by rewrite <- surjective_pairing.
    + assert (Htake : take (n + S m) (rest l) = take n (rest l) ++ tk_text t).
      { rewrite Heq at 1. rewrite app_assoc. apply take_app_length'. rewrite length_app, length_take. cbn.
        rewrite length_take. lia. }
      rewrite <- Htake. cbn [jump line col] in Htiles. by rewrite <- surjective_pairing in Htiles.
Qed.

(** Every source text is tokenised.  Whatever the bytes, calling [next] until
    [Eof] ends after at most one call per character and one more, and the tokens
    tile the source: together with the blanks and comments between them they are
    the source, in order, each at its line and column. *)
Theorem lexer_tiles_source (source : list byte) :
  sizeZ source < 2 ^ 63 ->
  exists ts, tokenize (S (length source)) (Lexer_new source) = Ok ts /\
    tiles (1, 1) source ts /\ (length ts <= S (length source))%nat.
Proof.
  intros Hs. pose proof (tokenize_tiles (S (length source)) (Lexer_new source)) as Ht.
  assert (Hr : rest (Lexer_new source) = source) by done. rewrite Hr in Ht. cbn [line col Lexer_new] in Ht.
  apply Ht; [|done|lia]. split; cbn; [|done]. pose proof (sizeZ_nonneg source). lia.
Qed.

Lemma lexer_next_reference_witness :
  next (Lexer_new [x2d; x2d; x0a; x61; x3b])
    = (Ok {| tk_kind := Identifier; tk_text := [x61]; tk_line := 2; tk_col := 1 |},
       (next_token (Lexer_new [x2d; x2d; x0a; x61; x3b])).2).
Proof.
  destruct (lexer_next_reference (Lexer_new [x2d; x2d; x0a; x61; x3b])) as [Hn _];
    [split; unfold sizeZ; cbn; lia|reflexivity|exact Hn].
Defined.

Lemma lexer_tiles_source_witness :
  exists ts, tokenize 6 (Lexer_new [x61; x3c; x3e; x62; x20]) = Ok ts /\
    tk_kind <$> ts = [Identifier; TkNeq; Identifier; Eof].
Proof.
  destruct (lexer_tiles_source [x61; x3c; x3e; x62; x20]) as (ts & Hrun & _); [vm_compute; reflexivity|].
  exists ts. split; [exact Hrun|]. vm_compute in Hrun. injection Hrun as <-. reflexivity.
Defined.
