(* ===== verification/Ast.v ===== *)
(** * Ast: src/src/query/ast.hpp

    The syntax tree of the SQL front end.  A floating-point literal is its 64-bit
    pattern; the [unique_ptr] of a binary expression is ownership only. *)
From S2P Require Import Prelude.

Inductive Literal : Set :=
  | IntLiteral (value : Z)
  | FloatLiteral (value : Z)
  | StrLiteral (value : string)
  | NullLiteral
  | BoolLiteral (value : bool).

(** Eq, Neq, Lt, Le, Gt, Ge, And, Or. *)
Inductive BinaryOp : Set := OpEq | OpNeq | OpLt | OpLe | OpGt | OpGe | OpAnd | OpOr.

Inductive Expr : Set :=
  | LiteralExpr (l : Literal)
  | ColumnRef (name : string)
  | BinaryExpr (op : BinaryOp) (lhs rhs : Expr).

Record TypeName := { ty_name : string; ty_param : option Z }.

Record ColumnDef := {
  cd_name : string;
  cd_type : TypeName;
  cd_not_null : bool;
  cd_primary_key : bool;
  cd_unique : bool;
}.

Record CreateTableStmt := {
  ct_table_name : string;
  ct_columns : list ColumnDef;
  ct_if_not_exists : bool;
}.

(** An empty [is_column_names] means positional values. *)
Record InsertStmt := {
  is_table_name : string;
  is_column_names : list string;
  is_rows : list (list Expr);
}.

Inductive SelectItem : Set :=
  | StarItem
  | ExprItem (expr : Expr) (alias : option string).

Record SelectStmt := {
  ss_items : list SelectItem;
  ss_table_name : string;
  ss_where : option Expr;
}.

Inductive Stmt : Set :=
  | CreateTable (s : CreateTableStmt)
  | Insert (s : InsertStmt)
  | Select (s : SelectStmt).

#[export] Instance Literal_eq_dec : EqDecision Literal.
Proof. solve_decision. Defined.
#[export] Instance BinaryOp_eq_dec : EqDecision BinaryOp.
Proof. solve_decision. Defined.
#[export] Instance Expr_eq_dec : EqDecision Expr.
Proof. solve_decision. Defined.
