(* ===== verification/Parser.v ===== *)
(** * Parser: src/src/query/parser.{hpp,cpp}

    The recursive-descent parser, one definition per member function.  The
    expression parsers call each other through [parse_expr]; the recursion and
    the loops take fuel, [parser_fuel], which is more than the number of tokens
    the source can hold.  [std::from_chars] of a floating-point number is a
    parameter. *)
From S2P Require Import Prelude Utils BuiltinTypes RowCodec Lexer Ast.

(** A [std::string] of a [string_view]. *)
Definition str (text : list byte) : string := String.string_of_list_byte text.

(** [std::from_chars] of an integer of type [T]: an optional minus sign for a
    signed type, then digits; [None] when there are none or they do not fit. *)
Definition from_chars (T : Prim) (text : list byte) : option Z :=
  let '(negative, digits) :=
    match text with
    | b :: text' => if prim_signed T && bool_decide (b = "-"%byte) then (true, text') else (false, text)
    | [] => (false, [])
    end in
  let '(seen, magnitude, _) := read_digits false 0 digits in
  let v := if negative : bool then - magnitude else magnitude in
  if seen && (prim_min T <=? v) && (v <=? prim_max T) then Some v else None.

Record Parser := { lexer : Lexer; cur : Token; last_error : string }.

(** ** Token control *)

Definition parser_advance : M Parser unit := fun p =>
  match next (lexer p) with
  | (Ok t, l) => (Ok tt, {| lexer := l; cur := t; last_error := last_error p |})
  | (Err e, l) => (Err e, {| lexer := l; cur := cur p; last_error := last_error p |})
  | (Fault, l) => (Fault, {| lexer := l; cur := cur p; last_error := last_error p |})
  end.

Definition Parser_new (source : list byte) : Parser :=
  (parser_advance {| lexer := Lexer_new source; cur := Token_default; last_error := EmptyString |}).2.

Definition check (k : TokenKind) (p : Parser) : bool := bool_decide (tk_kind (cur p) = k).

Definition match_tok (k : TokenKind) : M Parser bool :=
  let* found := getM (check k) in
  if (found : bool) then let* _ := parser_advance in retM true else retM false.

Definition parse_err (msg : string) : M Parser Error := fun p =>
  (Ok ParseError, {| lexer := lexer p; cur := cur p; last_error := msg |}).
(** [parse_err(msg); return std::unexpected(Error::ParseError);] *)
Definition parse_fail {A} (msg : string) : M Parser A :=
  let* e := parse_err msg in errM e.

Definition error_message (p : Parser) : string := last_error p.

(** ["'{}' at line {}:{}"] of the current token. *)
Definition cur_at_line (p : Parser) : string :=
  "'" +:+ str (tk_text (cur p)) +:+ "' at line " +:+ to_string_int (tk_line (cur p)) +:+ ":" +:+
  to_string_int (tk_col (cur p)).

Definition expect (k : TokenKind) : M Parser Token :=
  let* found := getM (check k) in
  if negb found then
    let* at_ := getM cur_at_line in
    parse_fail ("expected " +:+ token_kind_name k +:+ " but got " +:+ at_)
  else
    let* t := getM cur in
    let* _ := parser_advance in
    retM t.

Definition expect_identifier : M Parser string :=
  let* found := getM (check Identifier) in
  if negb found then
    let* at_ := getM cur_at_line in
    parse_fail ("expected identifier but got " +:+ at_)
  else
    let* name := getM (fun p => str (tk_text (cur p))) in
    let* _ := parser_advance in
    retM name.

(** ** Expressions *)

(** [for (i = 1; i + 1 < raw.size(); ++i)]: the text without its first and last
    character, with '' read as one quote; [raw] is what is left of it, its last
    character being the closing quote. *)
Fixpoint unescape (raw : list byte) : list byte :=
  match raw with
  | [] | [_] => []
  | c :: ((d :: ((_ :: _) as raw'')) as raw') =>
      if bool_decide (c = "'"%byte) && bool_decide (d = "'"%byte) then c :: unescape raw''
      else c :: unescape raw'
  | c :: raw' => c :: unescape raw'
  end.

Section expressions.
Context (from_chars_double : list byte -> option Z).

Section recursive.
(** The parser of a parenthesised expression. *)
Context (parse_inner : M Parser Expr).

Definition parse_primary : M Parser Expr :=
  let* paren := match_tok LParen in
  if (paren : bool) then
    let* inner := parse_inner in
    let* _ := expect RParen in
    retM inner
  else
  let* null := match_tok KwNull in
  if (null : bool) then retM (LiteralExpr NullLiteral) else
  let* true_ := match_tok KwTrue in
  if (true_ : bool) then retM (LiteralExpr (BoolLiteral true)) else
  let* false_ := match_tok KwFalse in
  if (false_ : bool) then retM (LiteralExpr (BoolLiteral false)) else
  let* text := getM (fun p => tk_text (cur p)) in
  let* integer := getM (check LitInteger) in
  if (integer : bool) then
    match from_chars I64 text with
    | None => parse_fail ("invalid integer literal '" +:+ str text +:+ "'")
    | Some val => let* _ := parser_advance in retM (LiteralExpr (IntLiteral val))
    end
  else
  let* float := getM (check LitFloat) in
  if (float : bool) then
    match from_chars_double text with
    | None => parse_fail ("invalid float literal '" +:+ str text +:+ "'")
    | Some val => let* _ := parser_advance in retM (LiteralExpr (FloatLiteral val))
    end
  else
  let* string_ := getM (check LitString) in
  if (string_ : bool) then
    let* _ := parser_advance in
    retM (LiteralExpr (StrLiteral (str (unescape (tail text)))))
  else
  let* ident := getM (check Identifier) in
  if (ident : bool) then
    let* _ := parser_advance in
    retM (ColumnRef (str text))
  else
    let* at_ := getM (fun p => "'" +:+ str (tk_text (cur p)) +:+ "' in expression at line " +:+
      to_string_int (tk_line (cur p)) +:+ ":" +:+ to_string_int (tk_col (cur p))) in
    parse_fail ("unexpected token " +:+ at_).

(** The comparison operators in the order in which they are tried. *)
Definition comparisons : list (TokenKind * BinaryOp) :=
  [(TkEq, OpEq); (TkNeq, OpNeq); (TkLt, OpLt); (TkLe, OpLe); (TkGt, OpGt); (TkGe, OpGe)].
Fixpoint match_comparison (ops : list (TokenKind * BinaryOp)) : M Parser (option BinaryOp) :=
  match ops with
  | [] => retM None
  | (k, op) :: ops =>
      let* found := match_tok k in
      if (found : bool) then retM (Some op) else match_comparison ops
  end.

Definition parse_cmp : M Parser Expr :=
  let* left_ := parse_primary in
  let* op := match_comparison comparisons in
  match op with
  | Some op =>
      let* right_ := parse_primary in
      retM (BinaryExpr op left_ right_)
  | None => retM left_
  end.

Definition parse_not : M Parser Expr :=
  let* not_ := match_tok KwNot in
  if (not_ : bool) then parse_fail "NOT is not yet supported in WHERE expressions" else parse_cmp.

Fixpoint parse_and_loop (fuel : nat) (left_ : Expr) : M Parser Expr :=
  match fuel with
  | O => faultM
  | S fuel =>
      let* more := match_tok KwAnd in
      if (more : bool) then
        let* right_ := parse_not in
        parse_and_loop fuel (BinaryExpr OpAnd left_ right_)
      else retM left_
  end.
Definition parse_and (fuel : nat) : M Parser Expr :=
  let* left_ := parse_not in parse_and_loop fuel left_.

Fixpoint parse_or_loop (fuel fuel' : nat) (left_ : Expr) : M Parser Expr :=
  match fuel with
  | O => faultM
  | S fuel =>
      let* more := match_tok KwOr in
      if (more : bool) then
        let* right_ := parse_and fuel' in
        parse_or_loop fuel fuel' (BinaryExpr OpOr left_ right_)
      else retM left_
  end.
Definition parse_or (fuel : nat) : M Parser Expr :=
  let* left_ := parse_and fuel in parse_or_loop fuel fuel left_.
End recursive.

Fixpoint parse_expr (fuel : nat) : M Parser Expr :=
  match fuel with
  | O => faultM
  | S fuel => parse_or (parse_expr fuel) fuel
  end.

(** [while (!check(RParen) && !check(Eof))]. *)
Definition list_continues (p : Parser) : bool := negb (check RParen p) && negb (check Eof p).

(** The shape of the three comma-separated loops. *)
Fixpoint comma_loop {A} (fuel : nat) (item : M Parser A) (items : list A) : M Parser (list A) :=
  match fuel with
  | O => faultM
  | S fuel =>
      let* continue := getM list_continues in
      if (continue : bool) then
        let* x := item in
        let* comma := match_tok Comma in
        if negb comma then retM (items ++ [x]) else comma_loop fuel item (items ++ [x])
      else retM items
  end.

Definition parse_expr_list (fuel : nat) : M Parser (list Expr) := comma_loop fuel (parse_expr fuel) [].

(** ** SELECT *)

Definition parse_select_item (fuel : nat) : M Parser SelectItem :=
  let* star := match_tok Star in
  if (star : bool) then retM StarItem
  else
    let* e := parse_expr fuel in
    let* as_ := match_tok KwAs in
    if (as_ : bool) then
      let* a := expect_identifier in
      retM (ExprItem e (Some a))
    else retM (ExprItem e None).

Fixpoint select_items_loop (loop fuel : nat) (items : list SelectItem) : M Parser (list SelectItem) :=
  match loop with
  | O => faultM
  | S loop =>
      let* item := parse_select_item fuel in
      let* comma := match_tok Comma in
      if negb comma then retM (items ++ [item]) else select_items_loop loop fuel (items ++ [item])
  end.
Definition parse_select_items (fuel : nat) : M Parser (list SelectItem) := select_items_loop fuel fuel [].

Definition parse_select (fuel : nat) : M Parser SelectStmt :=
  let* items := parse_select_items fuel in
  let* _ := expect KwFrom in
  let* table := expect_identifier in
  let* where_ := match_tok KwWhere in
  if (where_ : bool) then
    let* e := parse_expr fuel in
    retM {| ss_items := items; ss_table_name := table; ss_where := Some e |}
  else retM {| ss_items := items; ss_table_name := table; ss_where := None |}.

(** ** INSERT *)

Fixpoint insert_rows_loop (loop fuel : nat) (rows : list (list Expr)) : M Parser (list (list Expr)) :=
  match loop with
  | O => faultM
  | S loop =>
      let* _ := expect LParen in
      let* exprs := parse_expr_list fuel in
      let* _ := expect RParen in
      let* comma := match_tok Comma in
      if negb comma then retM (rows ++ [exprs]) else insert_rows_loop loop fuel (rows ++ [exprs])
  end.

Definition parse_insert (fuel : nat) : M Parser InsertStmt :=
  let* _ := expect KwInto in
  let* name := expect_identifier in
  let* paren := match_tok LParen in
  let* col_names :=
    if (paren : bool) then
      let* names := comma_loop fuel expect_identifier [] in
      let* _ := expect RParen in
      retM names
    else retM [] in
  let* _ := expect KwValues in
  let* rows := insert_rows_loop fuel fuel [] in
  retM {| is_table_name := name; is_column_names := col_names; is_rows := rows |}.
End expressions.

(** ** CREATE TABLE *)

Definition text_is (word : string) (text : string) : bool := String.eqb text word.

Definition parse_type_name : M Parser TypeName :=
  let* name := expect_identifier in
  let* ident := getM (check Identifier) in
  let* text := getM (fun p => str (tk_text (cur p))) in
  if (text_is "double" name || text_is "DOUBLE" name) &&
     (ident && (text_is "precision" text || text_is "PRECISION" text)) then
    let* _ := parser_advance in
    retM {| ty_name := "double precision"; ty_param := None |}
  else
    let* paren := match_tok LParen in
    if (paren : bool) then
      let* integer := getM (check LitInteger) in
      if negb integer then parse_fail "expected integer parameter in type name"
      else
        let* num_text := getM (fun p => tk_text (cur p)) in
        match from_chars U32 num_text with
        | None => parse_fail ("invalid type parameter '" +:+ str num_text +:+ "'")
        | Some val =>
            let* _ := parser_advance in
            let* _ := expect RParen in
            retM {| ty_name := name; ty_param := Some val |}
        end
    else retM {| ty_name := name; ty_param := None |}.

Definition col_set (not_null primary_key unique_constraint : bool) (c : ColumnDef) : ColumnDef :=
  {| cd_name := cd_name c; cd_type := cd_type c; cd_not_null := not_null; cd_primary_key := primary_key;
     cd_unique := unique_constraint |}.

Fixpoint constraints_loop (fuel : nat) (c : ColumnDef) : M Parser ColumnDef :=
  match fuel with
  | O => faultM
  | S fuel =>
      let* not_ := match_tok KwNot in
      if (not_ : bool) then
        let* _ := expect KwNull in
        constraints_loop fuel (col_set true (cd_primary_key c) (cd_unique c) c)
      else
      let* null := match_tok KwNull in
      if (null : bool) then
        constraints_loop fuel (col_set false (cd_primary_key c) (cd_unique c) c)
      else
      let* primary := match_tok KwPrimary in
      if (primary : bool) then
        let* _ := expect KwKey in
        constraints_loop fuel (col_set true true (cd_unique c) c)
      else
      let* unique := match_tok KwUnique in
      if (unique : bool) then
        constraints_loop fuel (col_set (cd_not_null c) (cd_primary_key c) true c)
      else retM c
  end.

Definition parse_col_def (fuel : nat) : M Parser ColumnDef :=
  let* col_name := expect_identifier in
  let* type := parse_type_name in
  constraints_loop fuel
    {| cd_name := col_name; cd_type := type; cd_not_null := false; cd_primary_key := false; cd_unique := false |}.

Definition parse_create_table (fuel : nat) : M Parser CreateTableStmt :=
  let* _ := expect KwTable in
  let* if_ := match_tok KwIf in
  let* if_not_exists :=
    if (if_ : bool) then
      let* _ := expect KwNot in
      let* _ := expect KwExists in
      retM true
    else retM false in
  let* name := expect_identifier in
  let* _ := expect LParen in
  let* cols := comma_loop fuel (parse_col_def fuel) [] in
  let* _ := expect RParen in
  retM {| ct_table_name := name; ct_columns := cols; ct_if_not_exists := if_not_exists |}.

(** ** Statements *)

Definition em_dash : string := str [xe2; x80; x94].

Section statements.
Context (from_chars_double : list byte -> option Z).

Definition parse_stmt (fuel : nat) : M Parser Stmt :=
  let* create := match_tok KwCreate in
  if (create : bool) then let* s := parse_create_table fuel in retM (CreateTable s) else
  let* insert := match_tok KwInsert in
  if (insert : bool) then let* s := parse_insert from_chars_double fuel in retM (Insert s) else
  let* select := match_tok KwSelect in
  if (select : bool) then let* s := parse_select from_chars_double fuel in retM (Select s) else
  let* at_ := getM cur_at_line in
  parse_fail ("unexpected token " +:+ at_ +:+ " " +:+ em_dash +:+ " expected CREATE, INSERT, or SELECT").

Fixpoint parse_loop (loop fuel : nat) (stmts : list Stmt) : M Parser (list Stmt) :=
  match loop with
  | O => faultM
  | S loop =>
      let* eof := getM (check Eof) in
      if (eof : bool) then retM stmts
      else
        let* _ := match_tok Semicolon in
        let* eof := getM (check Eof) in
        if (eof : bool) then retM stmts
        else
          let* stmt := parse_stmt fuel in
          let* _ := match_tok Semicolon in
          parse_loop loop fuel (stmts ++ [stmt])
  end.

Definition parser_fuel (p : Parser) : nat := S (S (length (src (lexer p)))).
Definition parse : M Parser (list Stmt) :=
  let* fuel := getM parser_fuel in parse_loop fuel fuel [].
End statements.
