(* ===== verification/Grammar.v ===== *)
(** * Grammar: the SQL that src/src/query/parser.cpp accepts

    The grammar as derivations from token lists to syntax trees, production by
    production after the functions of parser.cpp.  Operators of one level associate to
    the left, OR binds weaker than AND, AND weaker than the comparisons, which do not
    chain.  It is not quite the grammar in the comment of parser.hpp, which is
    [DocumentedGrammar]: NOT in an expression, documented there, is refused by
    [parse_not] (parser.cpp:457-462) and so underivable here; and the comma-separated
    lists are those the parser accepts, empty and with a trailing comma, too, with
    stars among other items. *)
From S2P Require Import Prelude Utils BuiltinTypes RowCodec Lexer Ast Parser.

Definition is_kind (k : TokenKind) (t : Token) : Prop := tk_kind t = k.

Section grammar.
Context (from_chars_double : list byte -> option Z).

(** A single token that is an expression. *)
Definition atom (t : Token) : option Expr :=
  match tk_kind t with
  | KwNull => Some (LiteralExpr NullLiteral)
  | KwTrue => Some (LiteralExpr (BoolLiteral true))
  | KwFalse => Some (LiteralExpr (BoolLiteral false))
  | LitInteger => (fun v => LiteralExpr (IntLiteral v)) <$> from_chars I64 (tk_text t)
  | LitFloat => (fun v => LiteralExpr (FloatLiteral v)) <$> from_chars_double (tk_text t)
  | LitString => Some (LiteralExpr (StrLiteral (str (unescape (tail (tk_text t))))))
  | Identifier => Some (ColumnRef (str (tk_text t)))
  | _ => None
  end.

Definition comparison_op (k : TokenKind) : option BinaryOp :=
  match k with
  | TkEq => Some OpEq | TkNeq => Some OpNeq | TkLt => Some OpLt | TkLe => Some OpLe
  | TkGt => Some OpGt | TkGe => Some OpGe | _ => None
  end.

Inductive Level := Primary | Comparison | Conjunction | Disjunction.

Inductive derives : Level -> list Token -> Expr -> Prop :=
  | d_atom t e : atom t = Some e -> derives Primary [t] e
  | d_paren lp ts rp e :
      is_kind LParen lp -> derives Disjunction ts e -> is_kind RParen rp ->
      derives Primary (lp :: ts ++ [rp]) e
  | d_primary ts e : derives Primary ts e -> derives Comparison ts e
  | d_comparison ts1 t ts2 op e1 e2 :
      derives Primary ts1 e1 -> comparison_op (tk_kind t) = Some op -> derives Primary ts2 e2 ->
      derives Comparison (ts1 ++ t :: ts2) (BinaryExpr op e1 e2)
  | d_one_comparison ts e : derives Comparison ts e -> derives Conjunction ts e
  | d_and ts1 t ts2 e1 e2 :
      derives Conjunction ts1 e1 -> is_kind KwAnd t -> derives Comparison ts2 e2 ->
      derives Conjunction (ts1 ++ t :: ts2) (BinaryExpr OpAnd e1 e2)
  | d_one_conjunction ts e : derives Conjunction ts e -> derives Disjunction ts e
  | d_or ts1 t ts2 e1 e2 :
      derives Disjunction ts1 e1 -> is_kind KwOr t -> derives Conjunction ts2 e2 ->
      derives Disjunction (ts1 ++ t :: ts2) (BinaryExpr OpOr e1 e2).

Definition derives_expr : list Token -> Expr -> Prop := derives Disjunction.

(** One token of a kind; an identifier and its name. *)
Definition one_token (k : TokenKind) (ts : list Token) (t : Token) : Prop := ts = [t] /\ is_kind k t.
Definition derives_name (ts : list Token) (name : string) : Prop :=
  exists t, one_token Identifier ts t /\ name = str (tk_text t).

(** [item {, item} [,]], or nothing. *)
Inductive derives_list {A} (item : list Token -> A -> Prop) : list Token -> list A -> Prop :=
  | dl_nil : derives_list item [] []
  | dl_last ts x : item ts x -> derives_list item ts [x]
  | dl_more ts x t us xs :
      item ts x -> is_kind Comma t -> derives_list item us xs ->
      derives_list item (ts ++ t :: us) (x :: xs).

(** [item {, item}]. *)
Inductive derives_list1 {A} (item : list Token -> A -> Prop) : list Token -> list A -> Prop :=
  | dl1_last ts x : item ts x -> derives_list1 item ts [x]
  | dl1_more ts x t us xs :
      item ts x -> is_kind Comma t -> derives_list1 item us xs ->
      derives_list1 item (ts ++ t :: us) (x :: xs).

(** [( body )]. *)
Definition in_parens {A} (body : list Token -> A -> Prop) (ts : list Token) (x : A) : Prop :=
  exists lp ts' rp, ts = lp :: ts' ++ [rp] /\ is_kind LParen lp /\ body ts' x /\ is_kind RParen rp.

(** ** SELECT *)

Inductive derives_item : list Token -> SelectItem -> Prop :=
  | di_star t : is_kind Star t -> derives_item [t] StarItem
  | di_expr ts e : derives_expr ts e -> derives_item ts (ExprItem e None)
  | di_alias ts e t us name :
      derives_expr ts e -> is_kind KwAs t -> derives_name us name ->
      derives_item (ts ++ t :: us) (ExprItem e (Some name)).

Inductive derives_where : list Token -> option Expr -> Prop :=
  | dw_none : derives_where [] None
  | dw_some t ts e : is_kind KwWhere t -> derives_expr ts e -> derives_where (t :: ts) (Some e).

Definition derives_select (ts : list Token) (s : SelectStmt) : Prop :=
  exists items from table where_, ts = items ++ from :: table ++ where_ /\
    derives_list1 derives_item items (ss_items s) /\ is_kind KwFrom from /\
    derives_name table (ss_table_name s) /\ derives_where where_ (ss_where s).

(** ** INSERT *)

Inductive derives_columns : list Token -> list string -> Prop :=
  | dc_none : derives_columns [] []
  | dc_some ts names : in_parens (derives_list derives_name) ts names -> derives_columns ts names.

Definition derives_insert (ts : list Token) (s : InsertStmt) : Prop :=
  exists into table cols values rows, ts = into :: table ++ cols ++ values :: rows /\
    is_kind KwInto into /\ derives_name table (is_table_name s) /\
    derives_columns cols (is_column_names s) /\ is_kind KwValues values /\
    derives_list1 (in_parens (derives_list derives_expr)) rows (is_rows s).
End grammar.

(** ** CREATE TABLE *)

Definition is_double (name : string) : bool := text_is "double" name || text_is "DOUBLE" name.
Definition is_precision (t : Token) : Prop :=
  is_kind Identifier t /\
  text_is "precision" (str (tk_text t)) || text_is "PRECISION" (str (tk_text t)) = true.

Inductive derives_type : list Token -> TypeName -> Prop :=
  | dt_double ts name t :
      derives_name ts name -> is_double name = true -> is_precision t ->
      derives_type (ts ++ [t]) {| ty_name := "double precision"; ty_param := None |}
  | dt_plain ts name : derives_name ts name -> derives_type ts {| ty_name := name; ty_param := None |}
  | dt_param ts name lp n v rp :
      derives_name ts name -> is_kind LParen lp -> is_kind LitInteger n ->
      from_chars U32 (tk_text n) = Some v -> is_kind RParen rp ->
      derives_type (ts ++ [lp; n; rp]) {| ty_name := name; ty_param := Some v |}.

(** The constraints of a column, applied from left to right. *)
Inductive derives_constraints : ColumnDef -> list Token -> ColumnDef -> Prop :=
  | dk_none c : derives_constraints c [] c
  | dk_not_null c t1 t2 ts c' :
      is_kind KwNot t1 -> is_kind KwNull t2 ->
      derives_constraints (col_set true (cd_primary_key c) (cd_unique c) c) ts c' ->
      derives_constraints c (t1 :: t2 :: ts) c'
  | dk_null c t ts c' :
      is_kind KwNull t -> derives_constraints (col_set false (cd_primary_key c) (cd_unique c) c) ts c' ->
      derives_constraints c (t :: ts) c'
  | dk_primary c t1 t2 ts c' :
      is_kind KwPrimary t1 -> is_kind KwKey t2 ->
      derives_constraints (col_set true true (cd_unique c) c) ts c' ->
      derives_constraints c (t1 :: t2 :: ts) c'
  | dk_unique c t ts c' :
      is_kind KwUnique t ->
      derives_constraints (col_set (cd_not_null c) (cd_primary_key c) true c) ts c' ->
      derives_constraints c (t :: ts) c'.

Definition derives_column (ts : list Token) (c : ColumnDef) : Prop :=
  exists name type constraints n ty, ts = name ++ type ++ constraints /\
    derives_name name n /\ derives_type type ty /\
    derives_constraints
      {| cd_name := n; cd_type := ty; cd_not_null := false; cd_primary_key := false; cd_unique := false |}
      constraints c.

Inductive derives_if_not_exists : list Token -> bool -> Prop :=
  | de_no : derives_if_not_exists [] false
  | de_yes t1 t2 t3 :
      is_kind KwIf t1 -> is_kind KwNot t2 -> is_kind KwExists t3 -> derives_if_not_exists [t1; t2; t3] true.

Definition derives_create (ts : list Token) (s : CreateTableStmt) : Prop :=
  exists table exists_ name cols, ts = table :: exists_ ++ name ++ cols /\
    is_kind KwTable table /\ derives_if_not_exists exists_ (ct_if_not_exists s) /\
    derives_name name (ct_table_name s) /\ in_parens (derives_list derives_column) cols (ct_columns s).

(** ** Statements *)

Section statements.
Context (from_chars_double : list byte -> option Z).

Inductive derives_stmt : list Token -> Stmt -> Prop :=
  | ds_create t ts s : is_kind KwCreate t -> derives_create ts s -> derives_stmt (t :: ts) (CreateTable s)
  | ds_insert t ts s :
      is_kind KwInsert t -> derives_insert from_chars_double ts s -> derives_stmt (t :: ts) (Insert s)
  | ds_select t ts s :
      is_kind KwSelect t -> derives_select from_chars_double ts s -> derives_stmt (t :: ts) (Select s).

(** An optional semicolon. *)
Definition semi (ts : list Token) : Prop := ts = [] \/ exists t, ts = [t] /\ is_kind Semicolon t.

(** Statements with an optional semicolon on either side. *)
Inductive derives_script : list Token -> list Stmt -> Prop :=
  | dsc_end ts : semi ts -> derives_script ts []
  | dsc_stmt s1 ts s2 us stmt stmts :
      semi s1 -> derives_stmt ts stmt -> semi s2 -> derives_script us stmts ->
      derives_script (s1 ++ ts ++ s2 ++ us) (stmt :: stmts).
End statements.
