(* ===== verification/DocumentedGrammar.v ===== *)
(** * DocumentedGrammar: the grammar in the comment of src/src/query/parser.hpp

    The productions of the comment (parser.hpp:10-22), as the token lists they
    describe.  [Grammar] is the language parser.cpp accepts; the two differ.  The
    comment has [not_expr ::= [NOT] cmp_expr], and the parser answers every NOT in an
    expression with a parse error: [documented_not_underivable].  The parser accepts
    lists that are empty or end in a comma, a star beside other items, and several
    statements, which the comment does not have.  Without NOT, what the comment
    describes is accepted: [documented_derivable].  [col_defs] has no production in
    the comment; they are those of the parser. *)
From S2P Require Import Prelude Utils BuiltinTypes RowCodec Lexer Ast Parser Grammar.

Section documented.
Context (from_chars_double : list byte -> option Z).

(** The nonterminals for expressions. *)
Inductive Nonterminal := PrimaryNT | CmpExprNT | NotExprNT | AndExprNT | OrExprNT.

(** A literal is one that has a value. *)
Inductive documented : Nonterminal -> list Token -> Prop :=
  | doc_atom t e : atom from_chars_double t = Some e -> documented PrimaryNT [t]
  | doc_paren lp ts rp :
      is_kind LParen lp -> documented OrExprNT ts -> is_kind RParen rp -> documented PrimaryNT (lp :: ts ++ [rp])
  | doc_primary ts : documented PrimaryNT ts -> documented CmpExprNT ts
  | doc_comparison ts1 t ts2 op :
      documented PrimaryNT ts1 -> comparison_op (tk_kind t) = Some op -> documented PrimaryNT ts2 ->
      documented CmpExprNT (ts1 ++ t :: ts2)
  | doc_cmp_expr ts : documented CmpExprNT ts -> documented NotExprNT ts
  | doc_not t ts : is_kind KwNot t -> documented CmpExprNT ts -> documented NotExprNT (t :: ts)
  | doc_not_expr ts : documented NotExprNT ts -> documented AndExprNT ts
  | doc_and ts1 t ts2 :
      documented AndExprNT ts1 -> is_kind KwAnd t -> documented NotExprNT ts2 ->
      documented AndExprNT (ts1 ++ t :: ts2)
  | doc_and_expr ts : documented AndExprNT ts -> documented OrExprNT ts
  | doc_or ts1 t ts2 :
      documented OrExprNT ts1 -> is_kind KwOr t -> documented AndExprNT ts2 ->
      documented OrExprNT (ts1 ++ t :: ts2).

(** An expression, as an item of the lists of [Grammar]. *)
Definition documented_expr (ts : list Token) (_ : unit) : Prop := documented OrExprNT ts.

Inductive documented_item : list Token -> unit -> Prop :=
  | doc_expr ts : documented_expr ts tt -> documented_item ts tt
  | doc_alias ts t us name :
      documented_expr ts tt -> is_kind KwAs t -> derives_name us name -> documented_item (ts ++ t :: us) tt.

Inductive documented_items : list Token -> Prop :=
  | doc_star t : is_kind Star t -> documented_items [t]
  | doc_items ts us : derives_list1 documented_item ts us -> documented_items ts.

Inductive documented_where : list Token -> Prop :=
  | doc_no_where : documented_where []
  | doc_where t ts : is_kind KwWhere t -> documented_expr ts tt -> documented_where (t :: ts).

Definition documented_select (ts : list Token) : Prop :=
  exists items from table name where_, ts = items ++ from :: table ++ where_ /\
    documented_items items /\ is_kind KwFrom from /\ derives_name table name /\ documented_where where_.

Inductive documented_columns : list Token -> Prop :=
  | doc_no_columns : documented_columns []
  | doc_columns ts names : in_parens (derives_list1 derives_name) ts names -> documented_columns ts.

Definition documented_insert (ts : list Token) : Prop :=
  exists into table name cols values rows us, ts = into :: table ++ cols ++ values :: rows /\
    is_kind KwInto into /\ derives_name table name /\ documented_columns cols /\ is_kind KwValues values /\
    derives_list1 (in_parens (derives_list1 documented_expr)) rows us.

Definition documented_create (ts : list Token) : Prop :=
  exists table exists_ b name n cols cs, ts = table :: exists_ ++ name ++ cols /\
    is_kind KwTable table /\ derives_if_not_exists exists_ b /\ derives_name name n /\
    in_parens (derives_list1 derives_column) cols cs.

(** A token list without tokens of the kind [k]. *)
Definition free_of (k : TokenKind) (ts : list Token) : Prop := Forall (fun t => tk_kind t <> k) ts.
#[global] Instance free_of_dec k ts : Decision (free_of k ts).
Proof. unfold free_of. apply _. Defined.

(** Whether an expression of a SELECT or an INSERT uses NOT. *)
Definition uses_not (ts : list Token) : bool := negb (bool_decide (free_of KwNot ts)).

(** A statement, and whether NOT is used in its expressions. *)
Inductive documented_stmt : bool -> list Token -> Prop :=
  | doc_create t ts : is_kind KwCreate t -> documented_create ts -> documented_stmt false (t :: ts)
  | doc_insert t ts : is_kind KwInsert t -> documented_insert ts -> documented_stmt (uses_not ts) (t :: ts)
  | doc_select t ts : is_kind KwSelect t -> documented_select ts -> documented_stmt (uses_not ts) (t :: ts).

End documented.

(** ** Token kinds that do not occur *)

Lemma free_cons k t ts : free_of k (t :: ts) <-> tk_kind t <> k /\ free_of k ts.
Proof. unfold free_of. by rewrite Forall_cons. Qed.
Lemma free_app k ts us : free_of k (ts ++ us) <-> free_of k ts /\ free_of k us.
Proof. unfold free_of. by rewrite Forall_app. Qed.
Lemma free_nil k : free_of k [].
Proof. apply Forall_nil_2. Qed.
Lemma kind_other k k' t : is_kind k' t -> k' <> k -> tk_kind t <> k.
Proof. by intros ->. Qed.

(** Splits a token list into its parts. *)
Ltac free := rewrite ?free_app, ?free_cons, ?free_app, ?free_cons, ?free_app, ?free_cons in *;
  repeat match goal with |- _ /\ _ => split end; eauto using free_nil, kind_other.

Section lists.
Context {A : Type} (item : list Token -> A -> Prop) (k : TokenKind).
Context (Hitem : forall ts x, item ts x -> free_of k ts).

Lemma list1_free ts xs : k <> Comma -> derives_list1 item ts xs -> free_of k ts.
Proof using Hitem. intros Hk. induction 1 as [ts x Hx|ts x t us xs Hx Ht _ IH]; free. Qed.
Lemma list_free ts xs : k <> Comma -> derives_list item ts xs -> free_of k ts.
Proof using Hitem. intros Hk. induction 1 as [|ts x Hx|ts x t us xs Hx Ht _ IH]; free. Qed.
Lemma parens_free ts x : k <> LParen -> k <> RParen -> in_parens item ts x -> free_of k ts.
Proof using Hitem. intros H1 H2 (lp & us & rp & -> & Hlp & Hx & Hrp). free. Qed.
End lists.

Lemma name_free k ts name : k <> Identifier -> derives_name ts name -> free_of k ts.
Proof. intros Hk (t & [-> Ht] & _). free. Qed.

(** [KwNot] and [KwCreate] occur in no part of an expression but the [NOT] of the comment. *)
Lemma atom_kind fcd t e k : atom fcd t = Some e -> k = KwNot \/ k = KwCreate -> tk_kind t <> k.
Proof. unfold atom. intros Ha [-> | ->] Ht; by rewrite Ht in Ha. Qed.
Lemma comparison_kind t op k : comparison_op (tk_kind t) = Some op -> k = KwNot \/ k = KwCreate -> tk_kind t <> k.
Proof. intros Ha [-> | ->] Ht; by rewrite Ht in Ha. Qed.

Section occurrences.
Context (fcd : list byte -> option Z).

Lemma derives_no_not L ts e : derives fcd L ts e -> free_of KwNot ts.
Proof.
  induction 1; try done; free.
  - eapply atom_kind; [done|by left].
  - eapply comparison_kind; [done|by left].
Qed.
Lemma documented_no_create N ts : documented fcd N ts -> free_of KwCreate ts.
Proof.
  induction 1; try done; free.
  - eapply atom_kind; [done|by right].
  - eapply comparison_kind; [done|by right].
Qed.

Lemma item_no_not ts it : derives_item fcd ts it -> free_of KwNot ts.
Proof.
  destruct 1 as [t Ht|ts e He|ts e t us name He Ht Hn]; free; try (by eapply derives_no_not).
  by eapply name_free.
Qed.

Lemma select_no_not ts s : derives_select fcd ts s -> free_of KwNot ts.
Proof.
  intros (items & from & table & where_ & -> & Hitems & Hfrom & Htable & Hwhere). free.
  - by eapply list1_free; [apply item_no_not| |done].
  - by eapply name_free.
  - destruct Hwhere as [|t us e Ht He]; free. by eapply derives_no_not.
Qed.

Lemma insert_no_not ts s : derives_insert fcd ts s -> free_of KwNot ts.
Proof.
  intros (into & table & cols & values & rows & -> & Hinto & Htable & Hcols & Hvalues & Hrows). free.
  - by eapply name_free.
  - destruct Hcols as [|us names Hcols]; [free|]. eapply parens_free; [|done..|exact Hcols].
    intros us' names'. apply list_free; [|done]. intros ? ?. by apply name_free.
  - eapply list1_free; [|done|exact Hrows]. intros us es. apply parens_free; [|done..].
    intros us' es'. apply list_free; [|done]. intros ? ?. apply derives_no_not.
Qed.

(** A script without CREATE has no NOT. *)
Lemma script_no_not ts ss : derives_script fcd ts ss -> free_of KwCreate ts -> free_of KwNot ts.
Proof.
  assert (Hsemi : forall us, semi us -> free_of KwNot us) by (intros us [->|(t & -> & Ht)]; free).
  induction 1 as [ts Hs|s1 ts s2 us stmt stmts Hs1 Hst Hs2 _ IH]; intros Hc; [by apply Hsemi|].
  rewrite !free_app in Hc. destruct Hc as (_ & Hc & _ & Hus). free.
  destruct Hst as [t ts s Ht _|t ts s Ht Hi|t ts s Ht Hs]; rewrite free_cons in Hc |- *.
  - by destruct Hc.
  - split; [by eapply kind_other|by eapply insert_no_not].
  - split; [by eapply kind_other|by eapply select_no_not].
Qed.
End occurrences.

(** ** What the comment describes is accepted when it has no NOT *)

(** Lists whose items are derivable without NOT. *)
Section convert.
Context {A B : Type} (item : list Token -> A -> Prop) (item' : list Token -> B -> Prop).
Context (Hitem : forall ts x, item ts x -> free_of KwNot ts -> exists y, item' ts y).

Lemma list1_convert ts xs :
  derives_list1 item ts xs -> free_of KwNot ts -> exists ys, derives_list1 item' ts ys.
Proof using Hitem.
  induction 1 as [ts x Hx|ts x t us xs Hx Ht _ IH]; intros Hf.
  - destruct (Hitem ts x Hx Hf) as [y Hy]. exists [y]. by constructor.
  - rewrite free_app, free_cons in Hf. destruct Hf as (Hf1 & _ & Hf2).
    destruct (Hitem ts x Hx Hf1) as [y Hy], (IH Hf2) as [ys Hys]. exists (y :: ys). by constructor.
Qed.
Lemma parens_convert ts x :
  in_parens item ts x -> free_of KwNot ts -> exists y, in_parens item' ts y.
Proof using Hitem.
  intros (lp & us & rp & -> & Hlp & Hx & Hrp) Hf. rewrite free_cons, free_app in Hf. destruct Hf as (_ & Hf & _).
  destruct (Hitem us x Hx Hf) as [y Hy]. by exists y, lp, us, rp.
Qed.
End convert.

Lemma list1_list {A} (item : list Token -> A -> Prop) ts xs : derives_list1 item ts xs -> derives_list item ts xs.
Proof. induction 1; by constructor. Qed.
Lemma parens_mono {A} (item item' : list Token -> A -> Prop) ts x :
  (forall us y, item us y -> item' us y) -> in_parens item ts x -> in_parens item' ts x.
Proof. intros Hi (lp & us & rp & -> & Hlp & Hx & Hrp). exists lp, us, rp. auto. Qed.

Section accepted.
Context (fcd : list byte -> option Z).

(** The level of [Grammar] a nonterminal belongs to; NOT apart, [not_expr] is [cmp_expr]. *)
Definition level_of (N : Nonterminal) : Level :=
  match N with
  | PrimaryNT => Primary | CmpExprNT | NotExprNT => Comparison
  | AndExprNT => Conjunction | OrExprNT => Disjunction
  end.

Lemma documented_derives N ts :
  documented fcd N ts -> free_of KwNot ts -> exists e, derives fcd (level_of N) ts e.
Proof.
  induction 1 as [t e Ha|lp ts rp Hlp _ IH Hrp|ts _ IH|ts1 t ts2 op _ IH1 Hop _ IH2|ts _ IH|t ts Ht|ts _ IH
    |ts1 t ts2 _ IH1 Ht _ IH2|ts _ IH|ts1 t ts2 _ IH1 Ht _ IH2]; intros Hf; cbn [level_of] in *;
    rewrite ?free_cons, ?free_app, ?free_cons in Hf;
    try (destruct IH1 as [e1 H1], IH2 as [e2 H2]; [tauto..|]); try (destruct IH as [e He]; [tauto|]);
    try (eexists; by econstructor).
  - by exists e.
  - by destruct Hf.
Qed.

Lemma documented_item_derives ts u :
  documented_item fcd ts u -> free_of KwNot ts -> exists it, derives_item fcd ts it.
Proof.
  intros [us He|us t vs name He Ht Hn] Hf.
  - destruct (documented_derives _ _ He Hf) as [e Hd]. exists (ExprItem e None). by constructor.
  - rewrite free_app in Hf. destruct Hf as [Hf _]. destruct (documented_derives _ _ He Hf) as [e Hd].
    exists (ExprItem e (Some name)). by constructor.
Qed.

Lemma documented_select_derives ts :
  documented_select fcd ts -> free_of KwNot ts -> exists s, derives_select fcd ts s.
Proof.
  intros (items & from & table & name & where_ & -> & Hitems & Hfrom & Hname & Hwhere) Hf.
  rewrite free_app, free_cons, free_app in Hf. destruct Hf as (Hf1 & _ & _ & Hf2).
  assert (Hits : exists its, derives_list1 (derives_item fcd) items its).
  { destruct Hitems as [t Ht|us l Hl]; [exists [StarItem]; by do 2 constructor|].
    by apply (list1_convert _ _ documented_item_derives us l). }
  assert (Hw : exists w, derives_where fcd where_ w).
  { destruct Hwhere as [|t us Ht He]; [by exists None; constructor|]. rewrite free_cons in Hf2.
    destruct (documented_derives _ _ He (proj2 Hf2)) as [e Hd]. exists (Some e). by constructor. }
  destruct Hits as [its Hits], Hw as [w Hw].
  by exists {| ss_items := its; ss_table_name := name; ss_where := w |}, items, from, table, where_.
Qed.

Lemma documented_insert_derives ts :
  documented_insert fcd ts -> free_of KwNot ts -> exists s, derives_insert fcd ts s.
Proof.
  intros (into & table & name & cols & values & rows & us & -> & Hinto & Hname & Hcols & Hvalues & Hrows) Hf.
  rewrite !free_cons, !free_app, !free_cons in Hf. destruct Hf as (_ & _ & _ & _ & Hf).
  assert (Hc : exists names, derives_columns cols names).
  { destruct Hcols as [|vs names Hn]; [by exists []; constructor|]. exists names. constructor.
    eapply parens_mono; [|exact Hn]. apply list1_list. }
  assert (Hr : exists rs, derives_list1 (in_parens (derives_list (derives_expr fcd))) rows rs).
  { eapply list1_convert; [|exact Hrows|exact Hf]. apply parens_convert. intros vs l Hl Hvs.
    destruct (list1_convert _ (derives_expr fcd) (fun ts' _ => documented_derives OrExprNT ts') vs l Hl Hvs) as [es Hes].
    exists es. by apply list1_list. }
  destruct Hc as [names Hc], Hr as [rs Hr].
  by exists {| is_table_name := name; is_column_names := names; is_rows := rs |}, into, table, cols, values, rows.
Qed.

(** A statement of the comment without NOT in its expressions is one of the parser. *)
Lemma documented_derivable ts : documented_stmt fcd false ts -> exists s, derives_stmt fcd ts s.
Proof.
  remember false as b eqn:Hb. intros Hd. destruct Hd as [t ts Ht Hc|t ts Ht Hi|t ts Ht Hs].
  - destruct Hc as (table & ex & b & name & n & cols & cs & -> & Htable & Hex & Hname & Hcols).
    exists (CreateTable {| ct_table_name := n; ct_columns := cs; ct_if_not_exists := b |}). constructor; [done|].
    exists table, ex, name, cols. split_and!; try done. eapply parens_mono; [|exact Hcols]. apply list1_list.
  - apply negb_false_iff, bool_decide_eq_true_1 in Hb. destruct (documented_insert_derives ts Hi Hb) as [s Hs].
    exists (Insert s). by constructor.
  - apply negb_false_iff, bool_decide_eq_true_1 in Hb. destruct (documented_select_derives ts Hs Hb) as [s Hd].
    exists (Select s). by constructor.
Qed.

(** ** NOT in an expression is never accepted *)

Lemma documented_query_no_create ts :
  documented_insert fcd ts \/ documented_select fcd ts -> free_of KwCreate ts.
Proof.
  intros [(into & table & name & cols & values & rows & us & -> & Hinto & Hname & Hcols & Hvalues & Hrows)
    |(items & from & table & name & where_ & -> & Hitems & Hfrom & Hname & Hwhere)]; free;
    try (by eapply name_free).
  - destruct Hcols as [|vs names Hn]; [free|]. eapply parens_free; [|done..|exact Hn].
    intros ? ?. apply list1_free; [|done]. intros ? ?. by apply name_free.
  - eapply list1_free; [|done|exact Hrows]. intros ? ?. apply parens_free; [|done..].
    intros ? ?. apply list1_free; [|done]. intros ? ?. apply documented_no_create.
  - destruct Hitems as [t Ht|vs l Hl]; [free|]. eapply list1_free; [|done|exact Hl].
    intros ? ? [ws He|ws t ws' n He Ht Hn]; free; try (by eapply documented_no_create). by eapply name_free.
  - destruct Hwhere as [|t vs Ht He]; free. by eapply documented_no_create.
Qed.

Lemma documented_not_underivable ts ss : documented_stmt fcd true ts -> ~ derives_script fcd ts ss.
Proof.
  remember true as b eqn:Hb. intros Hd Hs.
  destruct Hd as [t ts Ht Hc|t ts Ht Hq|t ts Ht Hq]; [done| |];
    apply negb_true_iff, bool_decide_eq_false_1 in Hb; apply Hb;
    (assert (Hf : free_of KwCreate (t :: ts)); [free; apply documented_query_no_create; auto|]);
    apply (script_no_not fcd _ _ Hs) in Hf; rewrite free_cons in Hf; tauto.
Qed.
End accepted.
