(* ===== verification/ParserSound.v ===== *)
(** * ParserSound: the parser stops on every input and accepts only the grammar

    [sees p ts] says that the parser's current token and the tokens its lexer will
    still deliver are [ts].  [runs m p ts G]: from there [m] either consumes a
    prefix of [ts] that [G] derives its result from, or reports [ParseError]; it
    neither faults nor runs out of fuel. *)
From S2P Require Import Prelude Utils BuiltinTypes RowCodec RowCodecSpec Lexer LexerSpec Ast Parser.
From S2P Require Import Grammar.

(** ** What the parser sees *)

Fixpoint lexes (l : Lexer) (ts : list Token) : Prop :=
  match ts with
  | [] => exists t l', next l = (Ok t, l') /\ tk_kind t = Eof
  | t :: ts => exists l', next l = (Ok t, l') /\ tk_kind t <> Eof /\ lexes l' ts
  end.

Definition sees (p : Parser) (ts : list Token) : Prop :=
  match ts with
  | [] => tk_kind (cur p) = Eof
  | t :: ts => cur p = t /\ tk_kind t <> Eof /\ lexes (lexer p) ts
  end.

(** Every source has its tokens, at most one per character. *)
Lemma lexes_total n l :
  (length (rest l) <= n)%nat -> lexer_wf l -> has_peek l = false ->
  exists ts, lexes l ts /\ (length ts <= length (rest l))%nat.
Proof.
  revert l. induction n as [|n IH]; intros l Hn Hwf Hp.
  all: pose proof (scan_one_next_token l Hwf) as Hs; pose proof (next_token_wf l Hwf) as [Hwf' Hp'].
  all: assert (Hnext : next l = (Ok (next_token l).1, (next_token l).2)) by (unfold next; by rewrite Hp).
  all: unfold next_token in *; pose proof (rest_jump (skip_len Blanks (rest l)) l Hwf) as Hr.
  all: destruct (rest (jump (skip_len Blanks (rest l)) l)) as [|c s] eqn:Hrest;
    [exists []; split; [by eexists _, _|cbn; lia]|].
  - apply (f_equal length) in Hr. rewrite length_drop in Hr. cbn in Hr. lia.
  - pose proof (lexeme_not_eof c s) as Hne. pose proof (lexeme_le c s). destruct (lexeme c s) as [k m]. cbn [fst snd] in *.
    assert (Hlen : (length (rest (jump (skip_len Blanks (rest l) + S m) l)) < length (rest l))%nat).
    { rewrite rest_jump, length_drop by done. apply (f_equal length) in Hr. rewrite length_drop in Hr. cbn in Hr. lia. }
    destruct (IH (jump (skip_len Blanks (rest l) + S m) l)) as (ts & Hts & Hl); [lia|done|by rewrite Hp'|].
    eexists (_ :: ts). split; [eexists; by split_and!|cbn; lia].
Qed.

Lemma parser_advance_sees p t ts :
  sees p (t :: ts) -> exists p', parser_advance p = (Ok tt, p') /\ sees p' ts.
Proof.
  intros (_ & _ & Hl). unfold parser_advance. destruct ts as [|u ts]; cbn [lexes] in Hl.
  - destruct Hl as (t' & l' & -> & Hk). by eexists.
  - destruct Hl as (l' & -> & Hk & Hl). by eexists.
Qed.

Lemma src_next_token l : src (next_token l).2 = src l.
Proof.
  unfold next_token. destruct (rest (jump (skip_len Blanks (rest l)) l)) as [|c s]; [done|].
  by destruct (lexeme c s).
Qed.

Lemma parser_new_eq source :
  sizeZ source < 2 ^ 63 ->
  next (Lexer_new source) = (Ok (next_token (Lexer_new source)).1, (next_token (Lexer_new source)).2).
Proof.
  intros Hs. apply (scan_one_next_token (Lexer_new source)). split; cbn; [|done].
  pose proof (sizeZ_nonneg source). lia.
Qed.

Lemma parser_new_src source :
  sizeZ source < 2 ^ 63 -> src (lexer (Parser_new source)) = source.
Proof.
  intros Hs. unfold Parser_new, parser_advance. cbn [lexer]. rewrite parser_new_eq by done. apply src_next_token.
Qed.

Lemma parser_new_lexes source ts : lexes (Lexer_new source) ts -> sees (Parser_new source) ts.
Proof.
  unfold Parser_new, parser_advance. cbn [lexer]. destruct ts as [|t ts]; cbn [lexes sees].
  - intros (t' & l' & -> & Hk). done.
  - intros (l' & -> & Hk & Hl). by split_and!.
Qed.

Lemma check_sees k p ts :
  sees p ts -> k <> Eof -> check k p = match ts with t :: _ => bool_decide (tk_kind t = k) | [] => false end.
Proof.
  intros Hs Hk. unfold check. destruct ts as [|t ts]; [|by destruct Hs as [-> _]].
  cbn in Hs. rewrite Hs. by apply bool_decide_eq_false_2.
Qed.

Lemma check_eof_sees p ts : sees p ts -> check Eof p = match ts with [] => true | _ => false end.
Proof.
  unfold check. destruct ts as [|t ts]; cbn; [intros ->; by apply bool_decide_eq_true_2|].
  intros (-> & Hk & _). by apply bool_decide_eq_false_2.
Qed.

(** ** Runs *)

Definition runs {A} (m : M Parser A) (p : Parser) (ts : list Token) (G : list Token -> A -> Prop) : Prop :=
  (exists a p' used rest, m p = (Ok a, p') /\ ts = used ++ rest /\ sees p' rest /\ G used a) \/
  (exists p', m p = (Err ParseError, p')).

Lemma runs_ret {A} (a : A) p ts G : sees p ts -> G [] a -> runs (retM a) p ts G.
Proof. intros Hs HG. left. by exists a, p, [], ts. Qed.

Lemma runs_fail {A} msg p ts (G : list Token -> A -> Prop) : runs (parse_fail msg) p ts G.
Proof. right. by eexists. Qed.

Lemma runs_mono {A} (m : M Parser A) p ts (G G' : list Token -> A -> Prop) :
  runs m p ts G -> (forall used a, G used a -> G' used a) -> runs m p ts G'.
Proof.
  intros [(a & p' & used & rest & Hm & Ht & Hs & HG)|He] Himp; [left|by right].
  exists a, p', used, rest. split_and!; auto.
Qed.

Lemma runs_bind {A B} (m : M Parser A) (k : A -> M Parser B) p ts G G' :
  runs m p ts G ->
  (forall a p' used rest, ts = used ++ rest -> sees p' rest -> G used a ->
    runs (k a) p' rest (fun u b => G' (used ++ u) b)) ->
  runs (bindM m k) p ts G'.
Proof.
  intros [(a & p1 & used & rest & Hm & Ht & Hs & HG)|[p1 Hm]] Hk.
  - destruct (Hk a p1 used rest Ht Hs HG) as [(b & p2 & u & r & Hk2 & -> & Hs2 & HG2)|[p2 Hk2]].
    + left. exists b, p2, (used ++ u), r. split_and!; try done; [by erewrite bind_ok by done|by rewrite <- app_assoc].
    + right. exists p2. by erewrite bind_ok by done.
  - right. exists p1. unfold bindM. by rewrite Hm.
Qed.

Lemma runs_eq_bind {A B} (m : M Parser A) (k : A -> M Parser B) p a p' used rest G :
  m p = (Ok a, p') -> runs (k a) p' rest (fun u b => G (used ++ u) b) ->
  runs (bindM m k) p (used ++ rest) G.
Proof.
  intros Hm [(b & p2 & u & r & Hk2 & -> & Hs2 & HG2)|[p2 Hk2]].
  - left. exists b, p2, (used ++ u), r. rewrite <- app_assoc. split_and!; try done. by erewrite bind_ok by done.
  - right. exists p2. by erewrite bind_ok by done.
Qed.

Lemma runs_err_bind {A B} (m : M Parser A) (k : A -> M Parser B) p p' ts G :
  m p = (Err ParseError, p') -> runs (bindM m k) p ts G.
Proof. intros Hm. right. exists p'. unfold bindM. by rewrite Hm. Qed.

(** The effect of the token operations. *)

Lemma match_tok_yes k p t ts :
  sees p (t :: ts) -> is_kind k t -> exists p', match_tok k p = (Ok true, p') /\ sees p' ts.
Proof.
  intros Hs Hk. destruct (parser_advance_sees p t ts Hs) as (p' & Ha & Hs'). exists p'. split; [|done].
  unfold match_tok. erewrite bind_ok by done. unfold check. destruct Hs as [-> _].
  rewrite bool_decide_eq_true_2 by done. by erewrite bind_ok by done.
Qed.

Lemma match_tok_no k p : check k p = false -> match_tok k p = (Ok false, p).
Proof. intros Hc. unfold match_tok. erewrite bind_ok by done. by rewrite Hc. Qed.

Lemma expect_yes k p t ts :
  sees p (t :: ts) -> is_kind k t -> exists p', expect k p = (Ok t, p') /\ sees p' ts.
Proof.
  intros Hs Hk. destruct (parser_advance_sees p t ts Hs) as (p' & Ha & Hs'). exists p'. split; [|done].
  destruct Hs as [Hcur _]. unfold expect, check. erewrite bind_ok by done. rewrite Hcur, bool_decide_eq_true_2 by done.
  cbn [negb]. do 2 erewrite bind_ok by done. by rewrite Hcur.
Qed.

Lemma expect_no k p : check k p = false -> exists p', expect k p = (Err ParseError, p').
Proof. intros Hc. unfold expect. erewrite bind_ok by done. rewrite Hc. by eexists. Qed.

Lemma expect_identifier_yes p t ts :
  sees p (t :: ts) -> is_kind Identifier t ->
  exists p', expect_identifier p = (Ok (str (tk_text t)), p') /\ sees p' ts.
Proof.
  intros Hs Hk. destruct (parser_advance_sees p t ts Hs) as (p' & Ha & Hs'). exists p'. split; [|done].
  destruct Hs as [Hcur _]. unfold expect_identifier, check. erewrite bind_ok by done.
  rewrite Hcur, bool_decide_eq_true_2 by done. cbn [negb]. do 2 erewrite bind_ok by done. by rewrite Hcur.
Qed.

Lemma expect_identifier_no p :
  check Identifier p = false -> exists p', expect_identifier p = (Err ParseError, p').
Proof. intros Hc. unfold expect_identifier. erewrite bind_ok by done. rewrite Hc. by eexists. Qed.

Lemma check_true k p ts : sees p ts -> k <> Eof -> check k p = true -> exists t ts', ts = t :: ts' /\ is_kind k t.
Proof.
  intros Hs Hk. rewrite (check_sees k p ts Hs Hk). destruct ts as [|t ts']; [done|].
  intros Hb%bool_decide_eq_true. by exists t, ts'.
Qed.

Lemma runs_get_bind {A B} (f : Parser -> A) (k : A -> M Parser B) p ts G :
  runs (k (f p)) p ts G -> runs (bindM (getM f) k) p ts G.
Proof. done. Qed.

Lemma runs_advance_bind {B} (k : unit -> M Parser B) p t ts G :
  sees p (t :: ts) -> (forall p', sees p' ts -> runs (k tt) p' ts (fun u b => G (t :: u) b)) ->
  runs (bindM parser_advance k) p (t :: ts) G.
Proof.
  intros Hs Hk. destruct (parser_advance_sees p t ts Hs) as (p' & Ha & Hs').
  apply (runs_eq_bind _ _ p tt p' [t] ts); [done|by apply Hk].
Qed.

Lemma runs_match_bind {B} k (kk : bool -> M Parser B) p ts G :
  sees p ts -> k <> Eof ->
  (forall t ts' p', ts = t :: ts' -> is_kind k t -> sees p' ts' -> runs (kk true) p' ts' (fun u b => G (t :: u) b)) ->
  (check k p = false -> runs (kk false) p ts G) ->
  runs (bindM (match_tok k) kk) p ts G.
Proof.
  intros Hs Hk Ht Hf. destruct (check k p) eqn:Hc.
  - destruct (check_true k p ts Hs Hk Hc) as (t & ts' & -> & Hkt).
    destruct (match_tok_yes k p t ts' Hs Hkt) as (p' & Hm & Hs').
    apply (runs_eq_bind _ _ p true p' [t] ts'); [done|by apply Ht].
  - apply (runs_eq_bind _ _ p false p [] ts); [by apply match_tok_no|exact (Hf eq_refl)].
Qed.

Lemma runs_expect_bind {B} k (kk : Token -> M Parser B) p ts G :
  sees p ts -> k <> Eof ->
  (forall t ts' p', ts = t :: ts' -> is_kind k t -> sees p' ts' -> runs (kk t) p' ts' (fun u b => G (t :: u) b)) ->
  runs (bindM (expect k) kk) p ts G.
Proof.
  intros Hs Hk Ht. destruct (check k p) eqn:Hc.
  - destruct (check_true k p ts Hs Hk Hc) as (t & ts' & -> & Hkt).
    destruct (expect_yes k p t ts' Hs Hkt) as (p' & Hm & Hs').
    apply (runs_eq_bind _ _ p t p' [t] ts'); [done|by apply Ht].
  - destruct (expect_no k p Hc) as [p' Hm]. by eapply runs_err_bind.
Qed.

Lemma runs_ident_bind {B} (kk : string -> M Parser B) p ts G :
  sees p ts ->
  (forall t ts' p', ts = t :: ts' -> is_kind Identifier t -> sees p' ts' ->
    runs (kk (str (tk_text t))) p' ts' (fun u b => G (t :: u) b)) ->
  runs (bindM expect_identifier kk) p ts G.
Proof.
  intros Hs Ht. destruct (check Identifier p) eqn:Hc.
  - destruct (check_true Identifier p ts Hs ltac:(done) Hc) as (t & ts' & -> & Hkt).
    destruct (expect_identifier_yes p t ts' Hs Hkt) as (p' & Hm & Hs').
    apply (runs_eq_bind _ _ p (str (tk_text t)) p' [t] ts'); [done|by apply Ht].
  - destruct (expect_identifier_no p Hc) as [p' Hm]. by eapply runs_err_bind.
Qed.

(** ** Expressions *)

Section expressions.
Context (fcd : list byte -> option Z).

Lemma parse_primary_runs pe p ts :
  (forall p' ts', (length ts' < length ts)%nat -> sees p' ts' -> runs pe p' ts' (derives_expr fcd)) ->
  sees p ts -> runs (parse_primary fcd pe) p ts (derives fcd Primary).
Proof.
  intros Hpe Hs. unfold parse_primary.
  apply runs_match_bind; [done..| |intros _].
  { intros t ts' p' -> Hk Hs'. eapply runs_bind; [apply Hpe; [cbn; lia|done]|].
    intros e p2 used rest -> Hs2 He. apply runs_expect_bind; [done..|]. intros rp ts2 p3 -> Hrp Hs3.
    apply runs_ret; [done|]. by apply d_paren. }
  do 3 (apply runs_match_bind; [done..| |intros _];
    [intros t ts' p' -> Hk Hs'; apply runs_ret; [done|]; apply d_atom; unfold atom; by rewrite Hk|]).
  assert (Hcase : forall k (m : M Parser Expr) (m' : M Parser Expr), k <> Eof ->
    (forall t ts', ts = t :: ts' -> is_kind k t -> cur p = t -> runs m p ts (derives fcd Primary)) ->
    runs m' p ts (derives fcd Primary) -> runs (if check k p then m else m') p ts (derives fcd Primary)).
  { intros k m m' Hk Hm Hm'. destruct (check k p) eqn:Hc; [|done].
    destruct (check_true k p ts Hs Hk Hc) as (t & ts' & -> & Hkt). eapply Hm; [done|done|by destruct Hs]. }
  do 2 apply runs_get_bind. apply Hcase; [done| |].
  { intros t ts' -> Hk ->. destruct (from_chars I64 (tk_text t)) as [v|] eqn:Hv; [|apply runs_fail].
    apply runs_advance_bind; [done|]. intros p' Hs'. apply runs_ret; [done|]. apply d_atom. unfold atom.
    by rewrite Hk, Hv. }
  apply runs_get_bind. apply Hcase; [done| |].
  { intros t ts' -> Hk ->. destruct (fcd (tk_text t)) as [v|] eqn:Hv; [|apply runs_fail].
    apply runs_advance_bind; [done|]. intros p' Hs'. apply runs_ret; [done|]. apply d_atom. unfold atom.
    by rewrite Hk, Hv. }
  apply runs_get_bind. apply Hcase; [done| |].
  { intros t ts' -> Hk ->. apply runs_advance_bind; [done|]. intros p' Hs'. apply runs_ret; [done|].
    apply d_atom. unfold atom. by rewrite Hk. }
  apply runs_get_bind. apply Hcase; [done| |apply runs_fail].
  intros t ts' -> Hk ->. apply runs_advance_bind; [done|]. intros p' Hs'. apply runs_ret; [done|].
  apply d_atom. unfold atom. by rewrite Hk.
Qed.

Section inner.
(** The recursive call parses whatever is shorter than the bound. *)
Context (pe : M Parser Expr) (bound : nat).
Context (Hpe : forall p ts, (length ts < bound)%nat -> sees p ts -> runs pe p ts (derives_expr fcd)).

Lemma primary_runs p ts :
  (length ts <= bound)%nat -> sees p ts -> runs (parse_primary fcd pe) p ts (derives fcd Primary).
Proof using Hpe. intros Hb. apply parse_primary_runs. intros p' ts' Hl. apply Hpe. lia. Qed.

Lemma match_comparison_runs {B} ops (kk : option BinaryOp -> M Parser B) p ts G :
  Forall (fun e => e.1 <> Eof /\ comparison_op e.1 = Some e.2) ops -> sees p ts ->
  (forall t ts' op p', ts = t :: ts' -> comparison_op (tk_kind t) = Some op -> sees p' ts' ->
    runs (kk (Some op)) p' ts' (fun u b => G (t :: u) b)) ->
  runs (kk None) p ts G ->
  runs (bindM (match_comparison ops) kk) p ts G.
Proof.
  intros Hops Hs Hsome Hnone. induction Hops as [|[k op] ops [Hk Hop] _ IH]; [done|]. cbn [fst snd] in *.
  cbn [match_comparison]. destruct (check k p) eqn:Hc.
  - destruct (check_true k p ts Hs Hk Hc) as (t & ts' & -> & Hkt).
    destruct (match_tok_yes k p t ts' Hs Hkt) as (p' & Hm & Hs').
    apply (runs_eq_bind _ _ p (Some op) p' [t] ts'); [by erewrite bind_ok by done|].
    apply (Hsome t ts' op p'); [done|by rewrite Hkt|done].
  - assert (Hm : match_comparison ((k, op) :: ops) p = match_comparison ops p)
      by (cbn [match_comparison]; by erewrite bind_ok by (by apply match_tok_no)).
    cbn [match_comparison] in Hm. unfold runs, bindM at 1 3. rewrite Hm. exact IH.
Qed.

Lemma comparisons_ok : Forall (fun e => e.1 <> Eof /\ comparison_op e.1 = Some e.2) comparisons.
Proof. by repeat constructor. Qed.

Lemma cmp_runs p ts :
  (length ts <= bound)%nat -> sees p ts -> runs (parse_cmp fcd pe) p ts (derives fcd Comparison).
Proof using Hpe.
  intros Hb Hs. unfold parse_cmp. eapply runs_bind; [by apply primary_runs|].
  intros e p1 used rest -> Hs1 He. rewrite length_app in Hb.
  apply match_comparison_runs; [apply comparisons_ok|done| |].
  - intros t ts' op p2 -> Hop Hs2. eapply runs_bind; [apply primary_runs; [cbn in Hb; lia|done]|].
    intros e2 p3 used2 rest2 -> Hs3 He2. apply runs_ret; [done|]. rewrite app_nil_r. by apply d_comparison.
  - apply runs_ret; [done|]. rewrite app_nil_r. by apply d_primary.
Qed.

Lemma not_runs p ts :
  (length ts <= bound)%nat -> sees p ts -> runs (parse_not fcd pe) p ts (derives fcd Comparison).
Proof using Hpe.
  intros Hb Hs. unfold parse_not. apply runs_match_bind; [done..| |intros _].
  - intros t ts' p' _ _ _. apply runs_fail.
  - by apply cmp_runs.
Qed.

Lemma and_loop_runs fuel left_ before p ts :
  (length ts <= bound)%nat -> (length ts < fuel)%nat -> sees p ts -> derives fcd Conjunction before left_ ->
  runs (parse_and_loop fcd pe fuel left_) p ts (fun u e => derives fcd Conjunction (before ++ u) e).
Proof using Hpe.
  revert left_ before p ts. induction fuel as [|fuel IH]; intros left_ before p ts Hb Hf Hs Hd; [lia|].
  cbn [parse_and_loop]. apply runs_match_bind; [done..| |intros _].
  - intros t ts' p' -> Hk Hs'. cbn [length] in *. eapply runs_bind; [apply not_runs; [lia|done]|].
    intros e p2 used rest -> Hs2 He. rewrite length_app in *.
    eapply runs_mono; [apply (IH _ (before ++ t :: used)); [lia|lia|done|by apply d_and]|].
    intros u a. cbv beta. by rewrite <- app_assoc.
  - apply runs_ret; [done|]. by rewrite app_nil_r.
Qed.

Lemma and_runs fuel p ts :
  (length ts <= bound)%nat -> (length ts < fuel)%nat -> sees p ts ->
  runs (parse_and fcd pe fuel) p ts (derives fcd Conjunction).
Proof using Hpe.
  intros Hb Hf Hs. unfold parse_and. eapply runs_bind; [by apply not_runs|].
  intros e p1 used rest -> Hs1 He. rewrite length_app in *. apply and_loop_runs; [lia|lia|done|]. by apply d_one_comparison.
Qed.

Lemma or_loop_runs fuel fuel' left_ before p ts :
  (length ts <= bound)%nat -> (length ts < fuel)%nat -> (length ts < fuel')%nat -> sees p ts ->
  derives fcd Disjunction before left_ ->
  runs (parse_or_loop fcd pe fuel fuel' left_) p ts (fun u e => derives fcd Disjunction (before ++ u) e).
Proof using Hpe.
  revert left_ before p ts. induction fuel as [|fuel IH]; intros left_ before p ts Hb Hf Hf' Hs Hd; [lia|].
  cbn [parse_or_loop]. apply runs_match_bind; [done..| |intros _].
  - intros t ts' p' -> Hk Hs'. cbn [length] in *. eapply runs_bind; [apply and_runs; [lia|lia|done]|].
    intros e p2 used rest -> Hs2 He. rewrite length_app in *.
    eapply runs_mono; [apply (IH _ (before ++ t :: used)); [lia|lia|lia|done|by apply d_or]|].
    intros u a. cbv beta. by rewrite <- app_assoc.
  - apply runs_ret; [done|]. by rewrite app_nil_r.
Qed.

Lemma or_runs fuel p ts :
  (length ts <= bound)%nat -> (length ts < fuel)%nat -> sees p ts ->
  runs (parse_or fcd pe fuel) p ts (derives_expr fcd).
Proof using Hpe.
  intros Hb Hf Hs. unfold parse_or. eapply runs_bind; [by apply and_runs|].
  intros e p1 used rest -> Hs1 He. rewrite length_app in *.
  apply or_loop_runs; [lia|lia|lia|done|]. by apply d_one_conjunction.
Qed.
End inner.

(** Fuel two above the number of tokens is enough. *)
Lemma parse_expr_runs fuel p ts :
  (S (length ts) < fuel)%nat -> sees p ts -> runs (parse_expr fcd fuel) p ts (derives_expr fcd).
Proof.
  revert p ts. induction fuel as [|fuel IH]; intros p ts Hf Hs; [lia|]. cbn [parse_expr].
  apply (or_runs _ (length ts)); [|lia|lia|done]. intros p' ts' Hl Hs'. apply IH; [lia|done].
Qed.
End expressions.

(** ** Lists *)

(** A list grammar after the items that were read before. *)
Definition appended_to {A} (items : list A) (G : list Token -> list A -> Prop) (u : list Token) (xs : list A) : Prop :=
  exists ys, xs = items ++ ys /\ G u ys.

Lemma comma_loop_runs {A} fuel bound (item : M Parser A) G items p ts :
  (forall p ts, (length ts <= bound)%nat -> sees p ts -> runs item p ts G) ->
  (length ts <= bound)%nat -> (length ts < fuel)%nat -> sees p ts ->
  runs (comma_loop fuel item items) p ts (appended_to items (derives_list G)).
Proof.
  intros Hitem. revert items p ts. induction fuel as [|fuel IH]; intros items p ts Hb Hf Hs; [lia|].
  cbn [comma_loop]. apply runs_get_bind. destruct (list_continues p).
  2: { apply runs_ret; [done|]. exists []. rewrite app_nil_r. split; [done|constructor]. }
  eapply runs_bind; [by apply Hitem|]. intros x p1 used rest -> Hs1 Hx. rewrite length_app in *.
  apply runs_match_bind; [done..| |intros _; cbn [negb]].
  - intros t ts' p2 -> Hk Hs2. cbn [length negb] in *. eapply runs_mono; [apply IH; [lia|lia|done]|].
    intros u xs (ys & -> & Hys). exists (x :: ys). rewrite <- app_assoc. split; [done|]. by constructor.
  - apply runs_ret; [done|]. exists [x]. split; [done|]. rewrite app_nil_r. by constructor.
Qed.

(** A comma-separated list from its start. *)
Lemma comma_list_runs {A} fuel (item : M Parser A) G p ts :
  (forall p ts', (length ts' <= length ts)%nat -> sees p ts' -> runs item p ts' G) ->
  (length ts < fuel)%nat -> sees p ts -> runs (comma_loop fuel item []) p ts (derives_list G).
Proof.
  intros Hitem Hf Hs. eapply runs_mono; [by apply (comma_loop_runs fuel (length ts) item G [])|].
  intros u xs (ys & -> & Hys). exact Hys.
Qed.

Lemma name_runs p ts : sees p ts -> runs expect_identifier p ts derives_name.
Proof.
  intros Hs. destruct (check Identifier p) eqn:Hc.
  - destruct (check_true Identifier p ts Hs ltac:(done) Hc) as (t & ts' & -> & Hkt).
    destruct (expect_identifier_yes p t ts' Hs Hkt) as (p' & Hm & Hs'). left.
    exists (str (tk_text t)), p', [t], ts'. split_and!; try done. by exists t.
  - destruct (expect_identifier_no p Hc) as [p' Hm]. right. by exists p'.
Qed.

Section statements.
Context (fcd : list byte -> option Z).

Lemma select_item_runs fuel p ts :
  (S (length ts) < fuel)%nat -> sees p ts -> runs (parse_select_item fcd fuel) p ts (derives_item fcd).
Proof.
  intros Hf Hs. unfold parse_select_item. apply runs_match_bind; [done..| |intros _].
  - intros t ts' p' -> Hk Hs'. apply runs_ret; [done|]. by constructor.
  - eapply runs_bind; [by apply parse_expr_runs|]. intros e p1 used rest -> Hs1 He.
    apply runs_match_bind; [done..| |intros _].
    + intros t ts' p2 -> Hk Hs2. eapply runs_bind; [by apply name_runs|].
      intros name p3 used2 rest2 -> Hs3 Hname. apply runs_ret; [done|]. rewrite app_nil_r. by constructor.
    + apply runs_ret; [done|]. rewrite app_nil_r. by constructor.
Qed.

Lemma select_items_runs loop fuel items p ts :
  (length ts < loop)%nat -> (S (length ts) < fuel)%nat -> sees p ts ->
  runs (select_items_loop fcd loop fuel items) p ts (appended_to items (derives_list1 (derives_item fcd))).
Proof.
  revert items p ts. induction loop as [|loop IH]; intros items p ts Hl Hf Hs; [lia|].
  cbn [select_items_loop]. eapply runs_bind; [by apply select_item_runs|].
  intros x p1 used rest -> Hs1 Hx. rewrite length_app in *.
  apply runs_match_bind; [done..| |intros _; cbn [negb]].
  - intros t ts' p2 -> Hk Hs2. cbn [length negb] in *. eapply runs_mono; [apply IH; [lia|lia|done]|].
    intros u xs (ys & -> & Hys). exists (x :: ys). rewrite <- app_assoc. split; [done|]. by constructor.
  - apply runs_ret; [done|]. exists [x]. split; [done|]. rewrite app_nil_r. by constructor.
Qed.

Lemma select_runs fuel p ts :
  (S (length ts) < fuel)%nat -> sees p ts -> runs (parse_select fcd fuel) p ts (derives_select fcd).
Proof.
  intros Hf Hs. unfold parse_select, parse_select_items.
  eapply runs_bind; [apply select_items_runs; [lia|lia|done]|].
  intros items p1 used rest -> Hs1 (ys & -> & Hitems). rewrite length_app in *.
  apply runs_expect_bind; [done..|]. intros from ts2 p2 -> Hfrom Hs2.
  eapply runs_bind; [by apply name_runs|]. intros name p3 table rest3 -> Hs3 Hname. cbn [length] in *. rewrite length_app in *.
  apply runs_match_bind; [done..| |intros _].
  - intros t ts' p4 -> Hk Hs4. eapply runs_bind; [apply parse_expr_runs; [cbn in *; lia|done]|].
    intros e p5 wh rest5 -> Hs5 He. apply runs_ret; [done|]. rewrite app_nil_r.
    exists used, from, table, (t :: wh). split_and!; try done. by constructor.
  - apply runs_ret; [done|]. exists used, from, table, []. split_and!; try done. constructor.
Qed.

Lemma expr_list_runs fuel p ts :
  (S (length ts) < fuel)%nat -> sees p ts ->
  runs (parse_expr_list fcd fuel) p ts (derives_list (derives_expr fcd)).
Proof.
  intros Hf Hs. apply comma_list_runs; [|lia|done].
  intros p' ts' Hl Hs'. apply parse_expr_runs; [lia|done].
Qed.

Lemma insert_rows_runs loop fuel rows p ts :
  (length ts < loop)%nat -> (S (length ts) < fuel)%nat -> sees p ts ->
  runs (insert_rows_loop fcd loop fuel rows) p ts
    (appended_to rows (derives_list1 (in_parens (derives_list (derives_expr fcd))))).
Proof.
  revert rows p ts. induction loop as [|loop IH]; intros rows p ts Hl Hf Hs; [lia|]. cbn [insert_rows_loop].
  apply runs_expect_bind; [done..|]. intros lp ts1 p1 -> Hlp Hs1. cbn [length] in *.
  eapply runs_bind; [apply expr_list_runs; [lia|done]|]. intros es p2 body rest2 -> Hs2 Hes. rewrite length_app in *.
  apply runs_expect_bind; [done..|]. intros rp ts3 p3 -> Hrp Hs3. cbn [length] in *.
  assert (Hrow : in_parens (derives_list (derives_expr fcd)) (lp :: body ++ [rp]) es) by (by exists lp, body, rp).
  apply runs_match_bind; [done..| |intros _; cbn [negb]].
  - intros t ts' p4 -> Hk Hs4. cbn [length negb] in *. eapply runs_mono; [apply IH; [lia|lia|done]|].
    intros u xs (ys & -> & Hys). exists (es :: ys). rewrite <- app_assoc. split; [done|].
    pose proof (dl1_more _ _ _ t u ys Hrow Hk Hys) as Hd. cbn [app] in Hd. by rewrite <- app_assoc in Hd.
  - apply runs_ret; [done|]. exists [es]. split; [done|]. by constructor.
Qed.

Lemma columns_runs {B} fuel (kk : list string -> M Parser B) p ts G :
  (length ts < fuel)%nat -> sees p ts ->
  (forall names p' cols rest, ts = cols ++ rest -> sees p' rest -> derives_columns cols names ->
    runs (kk names) p' rest (fun u b => G (cols ++ u) b)) ->
  runs (let* paren := match_tok LParen in
        let* col_names :=
          if (paren : bool) then
            let* names := comma_loop fuel expect_identifier [] in
            let* _ := expect RParen in
            retM names
          else retM [] in
        kk col_names) p ts G.
Proof.
  intros Hf Hs Hk. apply runs_match_bind; [done..| |intros _].
  - intros lp ts1 p1 -> Hlp Hs1. cbn [length] in *.
    apply runs_bind with (G := fun u names => derives_columns (lp :: u) names).
    + eapply runs_bind; [apply comma_list_runs; [intros; by apply name_runs|lia|done]|].
      intros names p2 body rest2 -> Hs2 Hnames. apply runs_expect_bind; [done..|]. intros rp ts3 p3 -> Hrp Hs3.
      apply runs_ret; [done|]. constructor. by exists lp, body, rp.
    + intros names p2 used rest -> Hs2 Hd. by apply (Hk names p2 (lp :: used) rest).
  - eapply (runs_eq_bind _ _ p [] p [] ts); [done|]. apply (Hk [] p [] ts); [done..|constructor].
Qed.

Lemma insert_runs fuel p ts :
  (S (length ts) < fuel)%nat -> sees p ts -> runs (parse_insert fcd fuel) p ts (derives_insert fcd).
Proof.
  intros Hf Hs. unfold parse_insert. apply runs_expect_bind; [done..|]. intros into ts1 p1 -> Hinto Hs1.
  cbn [length] in *. eapply runs_bind; [by apply name_runs|]. intros name p2 table rest2 -> Hs2 Hname.
  rewrite length_app in *. apply columns_runs; [lia|done|]. intros cols p3 ctoks rest3 -> Hs3 Hcols. rewrite length_app in *.
  apply runs_expect_bind; [done..|]. intros values ts4 p4 -> Hvalues Hs4. cbn [length] in *.
  eapply runs_bind; [apply insert_rows_runs; [lia|lia|done]|]. intros rows p5 rtoks rest5 -> Hs5 (ys & -> & Hrows).
  apply runs_ret; [done|]. rewrite app_nil_r. by exists into, table, ctoks, values, rtoks.
Qed.
End statements.

(** ** CREATE TABLE *)

Lemma type_name_runs p ts : sees p ts -> runs parse_type_name p ts derives_type.
Proof.
  intros Hs. unfold parse_type_name. eapply runs_bind; [by apply name_runs|].
  intros name p1 ntoks rest -> Hs1 Hname. do 2 apply runs_get_bind.
  destruct (_ && (check Identifier p1 && _)) eqn:Hd.
  - apply andb_prop in Hd as [Hdbl Hd]. apply andb_prop in Hd as [Hc Hprec].
    destruct (check_true Identifier p1 rest Hs1 ltac:(done) Hc) as (t & ts' & -> & Hkt).
    destruct Hs1 as (Hcur & Hs1). rewrite Hcur in Hprec.
    apply runs_advance_bind; [by split|]. intros p2 Hs2. apply runs_ret; [done|]. by eapply dt_double.
  - clear Hd. apply runs_match_bind; [done..| |intros _].
    2: { apply runs_ret; [done|]. rewrite app_nil_r. by constructor. }
    intros lp ts2 p2 -> Hlp Hs2. apply runs_get_bind. destruct (check LitInteger p2) eqn:Hc; [|apply runs_fail].
    destruct (check_true LitInteger p2 ts2 Hs2 ltac:(done) Hc) as (n & ts3 & -> & Hn). cbn [negb]. apply runs_get_bind.
    destruct Hs2 as (Hcur & Hs2). rewrite Hcur. destruct (from_chars U32 (tk_text n)) as [v|] eqn:Hv; [|apply runs_fail].
    apply runs_advance_bind; [by split|]. intros p3 Hs3. apply runs_expect_bind; [done..|]. intros rp ts4 p4 -> Hrp Hs4.
    apply runs_ret; [done|]. by apply dt_param.
Qed.

Lemma constraints_runs fuel c p ts :
  (length ts < fuel)%nat -> sees p ts -> runs (constraints_loop fuel c) p ts (derives_constraints c).
Proof.
  revert c p ts. induction fuel as [|fuel IH]; intros c p ts Hf Hs; [lia|]. cbn [constraints_loop].
  apply runs_match_bind; [done..| |intros _].
  { intros t ts' p' -> Hk Hs'. apply runs_expect_bind; [done..|]. intros t2 ts2 p2 -> Hk2 Hs2.
    eapply runs_mono; [apply IH; [cbn in Hf; lia|done]|]. intros u c' Hd. by apply dk_not_null. }
  apply runs_match_bind; [done..| |intros _].
  { intros t ts' p' -> Hk Hs'. eapply runs_mono; [apply IH; [cbn in Hf; lia|done]|]. intros u c' Hd. by apply dk_null. }
  apply runs_match_bind; [done..| |intros _].
  { intros t ts' p' -> Hk Hs'. apply runs_expect_bind; [done..|]. intros t2 ts2 p2 -> Hk2 Hs2.
    eapply runs_mono; [apply IH; [cbn in Hf; lia|done]|]. intros u c' Hd. by apply dk_primary. }
  apply runs_match_bind; [done..| |intros _].
  { intros t ts' p' -> Hk Hs'. eapply runs_mono; [apply IH; [cbn in Hf; lia|done]|]. intros u c' Hd. by apply dk_unique. }
  apply runs_ret; [done|constructor].
Qed.

Lemma col_def_runs fuel p ts :
  (length ts < fuel)%nat -> sees p ts -> runs (parse_col_def fuel) p ts derives_column.
Proof.
  intros Hf Hs. unfold parse_col_def. eapply runs_bind; [by apply name_runs|].
  intros n p1 name rest -> Hs1 Hname. eapply runs_bind; [by apply type_name_runs|].
  intros ty p2 type rest2 -> Hs2 Hty. rewrite !length_app in *.
  eapply runs_mono; [apply constraints_runs; [lia|done]|]. intros u c Hc.
  exists name, type, u, n, ty. by split_and!.
Qed.

Lemma if_not_exists_runs p ts :
  sees p ts ->
  runs (let* if_ := match_tok KwIf in
        if (if_ : bool) then
          let* _ := expect KwNot in
          let* _ := expect KwExists in
          retM true
        else retM false) p ts derives_if_not_exists.
Proof.
  intros Hs. apply runs_match_bind; [done..| |intros _; apply runs_ret; [done|constructor]].
  intros t1 ts1 p1 -> Hk1 Hs1. apply runs_expect_bind; [done..|]. intros t2 ts2 p2 -> Hk2 Hs2.
  apply runs_expect_bind; [done..|]. intros t3 ts3 p3 -> Hk3 Hs3. apply runs_ret; [done|]. by constructor.
Qed.

Lemma bindM_assoc {S A B C} (m : M S A) (f : A -> M S B) (g : B -> M S C) s :
  bindM m (fun a => bindM (f a) g) s = bindM (bindM m f) g s.
Proof. unfold bindM. by destruct (m s) as [[] ?]. Qed.

Lemma create_runs fuel p ts :
  (length ts < fuel)%nat -> sees p ts -> runs (parse_create_table fuel) p ts derives_create.
Proof.
  intros Hf Hs. unfold parse_create_table. apply runs_expect_bind; [done..|]. intros table ts1 p1 -> Htable Hs1.
  cbn [length] in Hf. unfold runs. rewrite bindM_assoc. eapply runs_bind; [by apply if_not_exists_runs|].
  intros ine p2 etoks rest2 -> Hs2 Hine. rewrite length_app in *.
  eapply runs_bind; [by apply name_runs|]. intros name p3 ntoks rest3 -> Hs3 Hname. rewrite length_app in *.
  apply runs_expect_bind; [done..|]. intros lp ts4 p4 -> Hlp Hs4. cbn [length] in *.
  eapply runs_bind; [apply comma_list_runs; [intros p' ts' Hl Hs'; apply col_def_runs; [|done]|lia|done]; lia|].
  intros cols p5 ctoks rest5 -> Hs5 Hcols. apply runs_expect_bind; [done..|]. intros rp ts6 p6 -> Hrp Hs6.
  apply runs_ret; [done|]. exists table, etoks, ntoks, (lp :: ctoks ++ [rp]). split_and!; try done.
  by exists lp, ctoks, rp.
Qed.

(** ** Scripts *)

Section scripts.
Context (fcd : list byte -> option Z).

Lemma stmt_runs fuel p ts :
  (S (length ts) < fuel)%nat -> sees p ts -> runs (parse_stmt fcd fuel) p ts (derives_stmt fcd).
Proof.
  intros Hf Hs. unfold parse_stmt.
  apply runs_match_bind; [done..| |intros _].
  { intros t ts' p' -> Hk Hs'. eapply runs_bind; [apply create_runs; [cbn in Hf; lia|done]|].
    intros s p2 used rest -> Hs2 Hd. apply runs_ret; [done|]. rewrite app_nil_r. by constructor. }
  apply runs_match_bind; [done..| |intros _].
  { intros t ts' p' -> Hk Hs'. eapply runs_bind; [apply insert_runs; [cbn in Hf; lia|done]|].
    intros s p2 used rest -> Hs2 Hd. apply runs_ret; [done|]. rewrite app_nil_r. by constructor. }
  apply runs_match_bind; [done..| |intros _].
  { intros t ts' p' -> Hk Hs'. eapply runs_bind; [apply select_runs; [cbn in Hf; lia|done]|].
    intros s p2 used rest -> Hs2 Hd. apply runs_ret; [done|]. rewrite app_nil_r. by constructor. }
  apply runs_get_bind, runs_fail.
Qed.

Lemma semi_runs {B} (k : bool -> M Parser B) p ts G :
  sees p ts ->
  (forall b p' s rest, ts = s ++ rest -> semi s -> sees p' rest -> runs (k b) p' rest (fun u b => G (s ++ u) b)) ->
  runs (bindM (match_tok Semicolon) k) p ts G.
Proof.
  intros Hs Hk. apply runs_match_bind; [done..| |intros _].
  - intros t ts' p' -> Hkt Hs'. apply (Hk true p' [t] ts'); [done| |done]. right. by exists t.
  - apply (Hk false p [] ts); [done|by left|done].
Qed.

(** The script grammar, with everything consumed. *)
Definition whole (ts : list Token) (G : list Token -> list Stmt -> Prop) (r : Result (list Stmt)) : Prop :=
  match r with Ok stmts => G ts stmts | Err e => e = ParseError | Fault => False end.

Lemma runs_whole (m : M Parser (list Stmt)) p ts G :
  runs m p ts (fun u ss => u = ts /\ G u ss) -> whole ts G (m p).1.
Proof. intros [(a & p' & used & rest & -> & _ & _ & -> & HG)|[p' ->]]; done. Qed.

(** A statement is never empty. *)
Lemma derives_stmt_nonempty ts s : derives_stmt fcd ts s -> (0 < length ts)%nat.
Proof. destruct 1; cbn; lia. Qed.

Lemma parse_loop_runs loop fuel stmts p ts :
  (length ts < loop)%nat -> (S (length ts) < fuel)%nat -> sees p ts ->
  runs (parse_loop fcd loop fuel stmts) p ts
    (fun u ss => u = ts /\ appended_to stmts (derives_script fcd) u ss).
Proof.
  revert stmts p ts. induction loop as [|loop IH]; intros stmts p ts Hl Hf Hs; [lia|]. cbn [parse_loop].
  apply runs_get_bind. rewrite (check_eof_sees p ts Hs). destruct ts as [|t0 ts0] eqn:Hts.
  { apply runs_ret; [done|]. split; [done|]. exists []. rewrite app_nil_r. split; [done|]. constructor. by left. }
  rewrite <- Hts in *. clear Hts t0 ts0. apply semi_runs; [done|]. intros _ p1 s1 rest1 -> Hsemi1 Hs1. rewrite length_app in *.
  apply runs_get_bind. rewrite (check_eof_sees p1 rest1 Hs1). destruct rest1 as [|t1 ts1] eqn:Hrest1.
  { apply runs_ret; [done|]. rewrite app_nil_r. split; [done|]. exists []. rewrite app_nil_r. split; [done|]. by constructor. }
  rewrite <- Hrest1 in *. clear Hrest1 t1 ts1.
  eapply runs_bind; [apply stmt_runs; [lia|done]|]. intros stmt p2 used rest2 -> Hs2 Hstmt.
  pose proof (derives_stmt_nonempty _ _ Hstmt). rewrite length_app in *.
  apply semi_runs; [done|]. intros _ p3 s2 rest3 -> Hsemi2 Hs3. rewrite length_app in *.
  eapply runs_mono; [apply IH; [lia|lia|done]|]. intros u ss [-> (ys & -> & Hys)]. split; [done|].
  exists (stmt :: ys). rewrite <- app_assoc. split; [done|]. by constructor.
Qed.
End scripts.

(** The tokens of a source, [Eof] aside. *)
Definition source_tokens (source : list byte) (ts : list Token) : Prop := lexes (Lexer_new source) ts.

Lemma source_tokens_unique l ts ts' : lexes l ts -> lexes l ts' -> ts = ts'.
Proof.
  revert l ts'. induction ts as [|t ts IH]; intros l [|t' ts']; cbn; try done.
  - intros (t1 & l1 & -> & H1) (l2 & Heq & H2 & _). naive_solver.
  - intros (l2 & -> & H2 & _) (t1 & l1 & Heq & H1). naive_solver.
  - intros (l1 & -> & _ & H1) (l2 & Heq & _ & H2). injection Heq as -> ->. f_equal. eauto.
Qed.

Lemma parser_new_tokens source ts :
  sizeZ source < 2 ^ 63 -> source_tokens source ts ->
  sees (Parser_new source) ts /\ (length ts <= length source)%nat /\
  src (lexer (Parser_new source)) = source.
Proof.
  intros Hs Hts. assert (Hwf : lexer_wf (Lexer_new source)).
  { split; cbn; [|done]. pose proof (sizeZ_nonneg source). lia. }
  destruct (lexes_total (length source) (Lexer_new source) (le_n _) Hwf eq_refl) as (ts' & Hl & Hlen).
  rewrite <- (source_tokens_unique _ _ _ Hts Hl) in Hlen. split_and!; [|done|].
  - by apply parser_new_lexes.
  - by apply parser_new_src.
Qed.

(** The outcome of [parse] on a source with these tokens. *)
Lemma parse_whole fcd source ts :
  sizeZ source < 2 ^ 63 -> source_tokens source ts ->
  whole ts (derives_script fcd) (parse fcd (Parser_new source)).1.
Proof.
  intros Hs Hl. destruct (parser_new_tokens source ts Hs Hl) as (Hsees & Hlen & Hsrc).
  apply runs_whole. unfold parse. apply runs_get_bind. unfold parser_fuel. rewrite Hsrc.
  eapply runs_mono; [apply parse_loop_runs; [lia|lia|done]|]. intros u ss [-> (ys & -> & Hys)]. done.
Qed.

Lemma source_tokens_total source :
  sizeZ source < 2 ^ 63 -> exists ts, source_tokens source ts.
Proof.
  intros Hs. assert (Hwf : lexer_wf (Lexer_new source)).
  { split; cbn; [|done]. pose proof (sizeZ_nonneg source). lia. }
  destruct (lexes_total (length source) (Lexer_new source) (le_n _) Hwf eq_refl) as (ts & Hl & _). by exists ts.
Qed.

(** C28: the parser stops on every input, and what it accepts is in the grammar.  For
    every source text [parse] either reports [ParseError] or returns statements
    that the grammar derives from exactly the tokens of the source: nothing is
    skipped, and neither the recursion nor a loop runs out of fuel. *)
Theorem parse_total_sound (fcd : list byte -> option Z) (source : list byte) :
  sizeZ source < 2 ^ 63 ->
  exists ts, source_tokens source ts /\
    whole ts (derives_script fcd) (parse fcd (Parser_new source)).1.
Proof.
  intros Hs. destruct (source_tokens_total source Hs) as [ts Hts]. exists ts. split; [done|].
  by apply parse_whole.
Qed.

Lemma parse_total_sound_witness :
  exists ts, source_tokens (String.list_byte_of_string "SELECT a FROM t WHERE b = 1") ts /\
    exists stmts, (parse (fun _ => None) (Parser_new (String.list_byte_of_string "SELECT a FROM t WHERE b = 1"))).1
      = Ok stmts /\ derives_script (fun _ => None) ts stmts.
Proof.
  destruct (parse_total_sound (fun _ => None) (String.list_byte_of_string "SELECT a FROM t WHERE b = 1")
    ltac:(vm_compute; reflexivity)) as (ts & Hts & Hw).
  exists ts. split; [exact Hts|].
  destruct (parse (fun _ => None) (Parser_new (String.list_byte_of_string "SELECT a FROM t WHERE b = 1"))) as [[ss|e|] p] eqn:Hp.
  - exists ss. split; [reflexivity|exact Hw].
  - vm_compute in Hp. discriminate Hp.
  - vm_compute in Hp. discriminate Hp.
Defined.
