(* ===== verification/ParserComplete.v ===== *)
(** * ParserComplete: the parser accepts everything the grammar derives

    [gives m p a rest]: from [p] the parser [m] returns [a] and then sees [rest].
    Together with [ParserSound] this makes [parse] a decision procedure for the
    grammar, with the syntax tree as its evidence. *)
From S2P Require Import Prelude Utils BuiltinTypes RowCodec RowCodecSpec Lexer LexerSpec Ast Parser.
From S2P Require Import Grammar DocumentedGrammar ParserSound.

Definition gives {A} (m : M Parser A) (p : Parser) (a : A) (rest : list Token) : Prop :=
  exists p', m p = (Ok a, p') /\ sees p' rest.

(** The kind of the next token. *)
Definition hk (ts : list Token) : TokenKind := match ts with [] => Eof | t :: _ => tk_kind t end.

Lemma check_hk k p ts : sees p ts -> check k p = bool_decide (hk ts = k).
Proof. unfold check. destruct ts as [|t ts]; cbn; [by intros ->|]. by intros (-> & _). Qed.

Lemma gives_bind {A B} (m : M Parser A) (k : A -> M Parser B) p a b rest rest' :
  gives m p a rest -> (forall p', sees p' rest -> gives (k a) p' b rest') -> gives (bindM m k) p b rest'.
Proof.
  intros (p1 & Hm & Hs1) Hk. destruct (Hk p1 Hs1) as (p2 & Hk2 & Hs2). exists p2.
  split; [|done]. by erewrite bind_ok by done.
Qed.

Lemma gives_get_bind {A B} (f : Parser -> A) (k : A -> M Parser B) p b rest :
  gives (k (f p)) p b rest -> gives (bindM (getM f) k) p b rest.
Proof. done. Qed.

Lemma gives_ret {A} (a : A) p rest : sees p rest -> gives (retM a) p a rest.
Proof. intros Hs. by exists p. Qed.

Lemma gives_advance p t ts : sees p (t :: ts) -> gives parser_advance p tt ts.
Proof. apply parser_advance_sees. Qed.

Lemma gives_match_yes k p t ts : sees p (t :: ts) -> is_kind k t -> gives (match_tok k) p true ts.
Proof. apply match_tok_yes. Qed.

Lemma gives_match_no k p ts : sees p ts -> hk ts <> k -> gives (match_tok k) p false ts.
Proof.
  intros Hs Hk. exists p. split; [|done]. apply match_tok_no. rewrite (check_hk k p ts Hs).
  by apply bool_decide_eq_false_2.
Qed.

Lemma gives_expect k p t ts : sees p (t :: ts) -> is_kind k t -> gives (expect k) p t ts.
Proof. apply expect_yes. Qed.

Lemma gives_name p ts name rest :
  sees p (ts ++ rest) -> derives_name ts name -> gives expect_identifier p name rest.
Proof. intros Hs (t & [-> Hk] & ->). by apply expect_identifier_yes. Qed.

(** ** First tokens and what may follow *)

Definition starts_expr (k : TokenKind) : bool :=
  match k with
  | LParen | KwNull | KwTrue | KwFalse | LitInteger | LitFloat | LitString | Identifier => true
  | _ => false
  end.
(** Not a comparison operator; nor AND; nor OR. *)
Definition ends_comparison (k : TokenKind) : bool := match comparison_op k with Some _ => false | None => true end.
Definition ends_conjunction (k : TokenKind) : bool := ends_comparison k && bool_decide (k <> KwAnd).
Definition ends_expr (k : TokenKind) : bool := ends_conjunction k && bool_decide (k <> KwOr).

Section expressions.
Context (fcd : list byte -> option Z).

Lemma hk_app ts us : ts <> [] -> hk (ts ++ us) = hk ts.
Proof. by destruct ts. Qed.

Lemma derives_starts L ts e : derives fcd L ts e -> ts <> [] /\ starts_expr (hk ts) = true.
Proof.
  induction 1 as [t e Ha|lp ts rp e Hlp _ _ _|ts e _ IH|ts1 t ts2 op e1 e2 _ [Hne IH] _ _ _|ts e _ IH
    |ts1 t ts2 e1 e2 _ [Hne IH] _ _ _|ts e _ IH|ts1 t ts2 e1 e2 _ [Hne IH] _ _ _];
    try done; try (rewrite hk_app by done; split; [by destruct ts1|done]).
  - split; [done|]. unfold atom in Ha. cbn. by destruct (tk_kind t).
  - split; [done|]. cbn. by rewrite Hlp.
Qed.

(** A token kind that is not there is passed over. *)
Ltac no_match p Hs :=
  eapply gives_bind; [eapply gives_match_no; [exact Hs|cbn; congruence]|];
  clear p Hs; intros p Hs.

Lemma gives_atom pe p t e rest :
  atom fcd t = Some e -> sees p (t :: rest) -> gives (parse_primary fcd pe) p e rest.
Proof.
  intros Ha Hs. unfold parse_primary. unfold atom in Ha.
  assert (Htext : forall q, sees q (t :: rest) -> tk_text (cur q) = tk_text t) by (by intros q [-> _]).
  assert (Hcheck : forall k q, sees q (t :: rest) -> check k q = bool_decide (tk_kind t = k))
    by (intros k q Hq; by apply (check_hk k q (t :: rest))).
  destruct (tk_kind t) eqn:Hk; try done; repeat no_match p Hs.
  5-7: eapply gives_bind; [by eapply gives_match_yes|]; intros q Hq; injection Ha as <-; by apply gives_ret.
  all: apply gives_get_bind; rewrite (Htext p Hs);
    repeat (apply gives_get_bind; rewrite (Hcheck _ p Hs); cbn [bool_decide decide_rel]).
  1,2: destruct (_ : option Z) as [v|]; [injection Ha as <-|done].
  3,4: injection Ha as <-.
  all: eapply gives_bind; [by eapply gives_advance|]; intros q Hq; by apply gives_ret.
Qed.

(** ** Expressions *)

(** [m] brings the parser to the loop with [e] read, and fuel to spare: fewer turns
    than tokens were used. *)
Definition reaches (m : M Parser Expr) (loop : nat -> Expr -> M Parser Expr) (n : nat) (p : Parser)
    (ts rest : list Token) (e : Expr) : Prop :=
  exists n' p', (n < n' + length ts)%nat /\ sees p' rest /\ m p = loop n' e p'.

Definition complete_at (L : Level) (ts : list Token) (e : Expr) : Prop :=
  forall fuel p rest, (length ts <= fuel)%nat -> sees p (ts ++ rest) ->
  let pe := parse_expr fcd fuel in
  match L with
  | Primary => gives (parse_primary fcd pe) p e rest
  | Comparison => ends_comparison (hk rest) = true -> gives (parse_not fcd pe) p e rest
  | Conjunction => forall n, (length ts <= n)%nat -> ends_comparison (hk rest) = true ->
      reaches (parse_and fcd pe n) (parse_and_loop fcd pe) n p ts rest e
  | Disjunction => forall n, (length ts <= n)%nat -> ends_conjunction (hk rest) = true ->
      reaches (parse_or fcd pe n) (fun n' => parse_or_loop fcd pe n' n) n p ts rest e
  end.

Lemma and_loop_stops pe n e p ts :
  (0 < n)%nat -> sees p ts -> hk ts <> KwAnd -> parse_and_loop fcd pe n e p = (Ok e, p).
Proof.
  intros Hn Hs Hk. destruct n as [|n]; [lia|]. cbn [parse_and_loop].
  erewrite bind_ok by (apply match_tok_no; rewrite (check_hk _ _ _ Hs); by apply bool_decide_eq_false_2). done.
Qed.

Lemma or_loop_stops pe n n' e p ts :
  (0 < n)%nat -> sees p ts -> hk ts <> KwOr -> parse_or_loop fcd pe n n' e p = (Ok e, p).
Proof.
  intros Hn Hs Hk. destruct n as [|n]; [lia|]. cbn [parse_or_loop].
  erewrite bind_ok by (apply match_tok_no; rewrite (check_hk _ _ _ Hs); by apply bool_decide_eq_false_2). done.
Qed.

Lemma and_loop_step pe n e e2 p t ts rest :
  (0 < n)%nat -> sees p (t :: ts) -> is_kind KwAnd t ->
  (forall p1, sees p1 ts -> gives (parse_not fcd pe) p1 e2 rest) ->
  exists p2, sees p2 rest /\
    parse_and_loop fcd pe n e p = parse_and_loop fcd pe (n - 1) (BinaryExpr OpAnd e e2) p2.
Proof.
  intros Hn Hs Hk Hnot. destruct n as [|n]; [lia|]. destruct (match_tok_yes _ _ _ _ Hs Hk) as (p1 & Hm & Hs1).
  destruct (Hnot p1 Hs1) as (p2 & Hn2 & Hs2). exists p2. split; [done|]. cbn [parse_and_loop].
  rewrite (bind_ok _ _ _ _ _ Hm). rewrite (bind_ok _ _ _ _ _ Hn2). by rewrite Nat.sub_1_r.
Qed.

Lemma or_loop_step pe n n' e e2 p t ts rest :
  (0 < n)%nat -> sees p (t :: ts) -> is_kind KwOr t ->
  (forall p1, sees p1 ts -> gives (parse_and fcd pe n') p1 e2 rest) ->
  exists p2, sees p2 rest /\
    parse_or_loop fcd pe n n' e p = parse_or_loop fcd pe (n - 1) n' (BinaryExpr OpOr e e2) p2.
Proof.
  intros Hn Hs Hk Hand. destruct n as [|n]; [lia|]. destruct (match_tok_yes _ _ _ _ Hs Hk) as (p1 & Hm & Hs1).
  destruct (Hand p1 Hs1) as (p2 & Hn2 & Hs2). exists p2. split; [done|]. cbn [parse_or_loop].
  rewrite (bind_ok _ _ _ _ _ Hm). rewrite (bind_ok _ _ _ _ _ Hn2). by rewrite Nat.sub_1_r.
Qed.

(** A conjunction that nothing continues. *)
Lemma gives_conjunction ts e fuel n p rest :
  complete_at Conjunction ts e -> (length ts <= fuel)%nat -> (length ts <= n)%nat ->
  ends_conjunction (hk rest) = true -> sees p (ts ++ rest) ->
  gives (parse_and fcd (parse_expr fcd fuel) n) p e rest.
Proof.
  intros Hc Hf Hn Hend Hs. apply andb_prop in Hend as [Hend Hand]. apply bool_decide_eq_true in Hand.
  destruct (Hc fuel p rest Hf Hs n Hn Hend) as (n' & p' & Hn' & Hs' & Hm).
  exists p'. split; [|done]. rewrite Hm. by apply (and_loop_stops _ _ _ _ rest); [lia|..].
Qed.

Lemma parse_expr_of_disjunction ts e fuel p rest :
  complete_at Disjunction ts e -> (length ts < fuel)%nat -> ends_expr (hk rest) = true -> sees p (ts ++ rest) ->
  gives (parse_expr fcd fuel) p e rest.
Proof.
  intros Hc Hf Hend Hs. destruct fuel as [|fuel]; [lia|]. apply andb_prop in Hend as [Hend Hor].
  apply bool_decide_eq_true in Hor.
  destruct (Hc fuel p rest ltac:(lia) Hs fuel ltac:(lia) Hend) as (n' & p' & Hn & Hs' & Hm).
  exists p'. split; [|done]. cbn [parse_expr]. rewrite Hm. by apply (or_loop_stops _ _ _ _ _ rest); [lia|..].
Qed.

Lemma gives_not_cmp pe p ts e rest :
  starts_expr (hk ts) = true -> sees p ts ->
  gives (parse_cmp fcd pe) p e rest -> gives (parse_not fcd pe) p e rest.
Proof.
  intros Hst Hs (p' & Hc & Hs'). exists p'. split; [|done]. unfold parse_not.
  assert (Hno : match_tok KwNot p = (Ok false, p)).
  { apply match_tok_no. rewrite (check_hk _ _ _ Hs). apply bool_decide_eq_false_2. by destruct (hk ts). }
  by rewrite (bind_ok _ _ _ _ _ Hno).
Qed.

Lemma gives_no_comparison p rest :
  sees p rest -> ends_comparison (hk rest) = true -> gives (match_comparison comparisons) p None rest.
Proof.
  intros Hs He. unfold comparisons. cbn [match_comparison].
  assert (Hops : forall k op, comparison_op k = Some op -> hk rest <> k).
  { intros k op Hop <-. unfold ends_comparison in He. by rewrite Hop in He. }
  do 6 (eapply gives_bind; [eapply gives_match_no; [exact Hs|by eapply Hops]|]; clear p Hs; intros p Hs).
  by apply gives_ret.
Qed.

Lemma gives_comparison p t op rest :
  sees p (t :: rest) -> comparison_op (tk_kind t) = Some op -> gives (match_comparison comparisons) p (Some op) rest.
Proof.
  intros Hs Hop. unfold comparisons. cbn [match_comparison].
  destruct (tk_kind t) eqn:Hk; try done; injection Hop as <-;
    repeat (eapply gives_bind; [eapply gives_match_no; [exact Hs|cbn; congruence]|]; clear p Hs; intros p Hs);
    (eapply gives_bind; [by eapply gives_match_yes|]; intros q Hq; by apply gives_ret).
Qed.

Lemma ends_comparison_and t : is_kind KwAnd t -> ends_comparison (tk_kind t) = true.
Proof. by intros ->. Qed.
Lemma ends_conjunction_or t : is_kind KwOr t -> ends_conjunction (tk_kind t) = true.
Proof. by intros ->. Qed.

Lemma complete_comparison ts1 t ts2 op e1 e2 :
  derives fcd Primary ts1 e1 -> complete_at Primary ts1 e1 -> comparison_op (tk_kind t) = Some op ->
  complete_at Primary ts2 e2 -> complete_at Comparison (ts1 ++ t :: ts2) (BinaryExpr op e1 e2).
Proof.
  intros Hd1 Hc1 Hop Hc2 fuel p rest Hf Hs pe Hend. rewrite length_app in Hf. cbn [length] in Hf.
  destruct (derives_starts _ _ _ Hd1) as [Hne Hst]. rewrite <- app_assoc in Hs.
  eapply gives_not_cmp; [|exact Hs|]; [by rewrite hk_app|].
  unfold parse_cmp. eapply gives_bind; [apply (Hc1 fuel p); [lia|exact Hs]|]. intros p1 Hs1.
  eapply gives_bind; [by apply (gives_comparison p1 t op (ts2 ++ rest))|]. intros p2 Hs2. cbn match.
  eapply gives_bind; [apply (Hc2 fuel p2); [lia|done]|]. intros p3 Hs3. by apply gives_ret.
Qed.

Lemma complete_primary ts e : derives fcd Primary ts e -> complete_at Primary ts e -> complete_at Comparison ts e.
Proof.
  intros Hd Hc fuel p rest Hf Hs pe Hend. destruct (derives_starts _ _ _ Hd) as [Hne Hst].
  apply (gives_not_cmp pe p (ts ++ rest)); [by rewrite hk_app|done|]. unfold parse_cmp.
  eapply gives_bind; [by apply (Hc fuel p rest)|]. intros p1 Hs1.
  eapply gives_bind; [by apply gives_no_comparison|]. intros p2 Hs2. by apply gives_ret.
Qed.

Lemma derives_complete L ts e : derives fcd L ts e -> complete_at L ts e.
Proof.
  induction 1 as [t e Ha|lp ts rp e Hlp Hd IH Hrp|ts e Hd IH|ts1 t ts2 op e1 e2 Hd1 IH1 Hop Hd2 IH2|ts e Hd IH
    |ts1 t ts2 e1 e2 Hd1 IH1 Hk Hd2 IH2|ts e Hd IH|ts1 t ts2 e1 e2 Hd1 IH1 Hk Hd2 IH2].
  - intros fuel p rest _ Hs. by eapply gives_atom.
  - intros fuel p rest Hf Hs. cbn [app length] in *. rewrite <- app_assoc in Hs. rewrite length_app in Hf. cbn in Hf.
    unfold parse_primary. eapply gives_bind; [by eapply gives_match_yes|]. intros p1 Hs1.
    eapply gives_bind; [eapply (parse_expr_of_disjunction ts e fuel p1 ([rp] ++ rest) IH); [lia|cbn; by rewrite Hrp|done]|].
    intros p2 Hs2. eapply gives_bind; [by eapply gives_expect|]. intros p3 Hs3. by apply gives_ret.
  - by apply complete_primary.
  - by apply complete_comparison.
  - intros fuel p rest Hf Hs pe n Hn Hend. destruct (IH fuel p rest Hf Hs Hend) as (p' & Hm & Hs').
    exists n, p'. split_and!; [|done|].
    + destruct (derives_starts _ _ _ Hd) as [Hne _]. destruct ts; [done|cbn; lia].
    + unfold parse_and. by rewrite (bind_ok _ _ _ _ _ Hm).
  - intros fuel p rest Hf Hs pe n Hn Hend. rewrite length_app in *. cbn [length] in *. rewrite <- app_assoc in Hs.
    destruct (IH1 fuel p (t :: ts2 ++ rest) ltac:(lia) Hs n ltac:(lia) (ends_comparison_and t Hk))
      as (n1 & p1 & Hn1 & Hs1 & Hm1).
    destruct (and_loop_step pe n1 e1 e2 p1 t (ts2 ++ rest) rest ltac:(lia) Hs1 Hk) as (p2 & Hs2 & Hm2).
    { intros q Hq. apply (IH2 fuel q rest); [lia|done|done]. }
    exists (n1 - 1)%nat, p2. rewrite length_app. cbn [length]. split_and!; [lia|done|exact (eq_trans Hm1 Hm2)].
  - intros fuel p rest Hf Hs pe n Hn Hend.
    destruct (gives_conjunction ts e fuel n p rest IH Hf Hn Hend Hs) as (p' & Hm & Hs').
    exists n, p'. split_and!; [|done|].
    + destruct (derives_starts _ _ _ Hd) as [Hne _]. destruct ts; [done|cbn; lia].
    + unfold parse_or. by rewrite (bind_ok _ _ _ _ _ Hm).
  - intros fuel p rest Hf Hs pe n Hn Hend. rewrite length_app in *. cbn [length] in *. rewrite <- app_assoc in Hs.
    destruct (IH1 fuel p (t :: ts2 ++ rest) ltac:(lia) Hs n ltac:(lia) (ends_conjunction_or t Hk))
      as (n1 & p1 & Hn1 & Hs1 & Hm1).
    destruct (or_loop_step pe n1 n e1 e2 p1 t (ts2 ++ rest) rest ltac:(lia) Hs1 Hk) as (p2 & Hs2 & Hm2).
    { intros q Hq. apply (gives_conjunction ts2 e2 fuel n q rest); [done|lia|lia|done|done]. }
    exists (n1 - 1)%nat, p2. rewrite length_app. cbn [length]. split_and!; [lia|done|exact (eq_trans Hm1 Hm2)].
Qed.

Lemma gives_expr ts e fuel p rest :
  derives_expr fcd ts e -> (length ts < fuel)%nat -> ends_expr (hk rest) = true -> sees p (ts ++ rest) ->
  gives (parse_expr fcd fuel) p e rest.
Proof. intros Hd. apply parse_expr_of_disjunction. by apply derives_complete. Qed.
End expressions.

(** ** Lists *)

(** [item] parses what [G] derives when a comma or a closing parenthesis follows. *)
Definition item_complete {A} (item : M Parser A) (G : list Token -> A -> Prop) (bound : nat) : Prop :=
  forall ts x p rest, G ts x -> (length ts <= bound)%nat -> hk rest = Comma \/ hk rest = RParen ->
    sees p (ts ++ rest) -> gives item p x rest.
(** No item starts with what ends the list. *)
Definition item_starts {A} (G : list Token -> A -> Prop) : Prop :=
  forall ts x, G ts x -> ts <> [] /\ hk ts <> RParen /\ hk ts <> Eof.

Lemma list_continues_hk p ts : sees p ts -> list_continues p = bool_decide (hk ts <> RParen) && bool_decide (hk ts <> Eof).
Proof.
  intros Hs. unfold list_continues. rewrite !(check_hk _ _ _ Hs). by rewrite !bool_decide_not.
Qed.

Lemma gives_comma_loop {A} fuel bound (item : M Parser A) G items ts xs p rest :
  item_complete item G bound -> item_starts G -> derives_list G ts xs ->
  (length ts < fuel)%nat -> (length ts <= bound)%nat -> hk rest = RParen -> sees p (ts ++ rest) ->
  gives (comma_loop fuel item items) p (items ++ xs) rest.
Proof.
  intros Hitem Hst Hd. revert fuel items p.
  induction Hd as [|ts x Hx|ts x t us xs Hx Hk Hd IH]; intros fuel items p Hf Hb Hr Hs;
    (destruct fuel as [|fuel]; [lia|]); cbn [comma_loop]; apply gives_get_bind.
  - rewrite (list_continues_hk p rest Hs), Hr. rewrite app_nil_r. by apply gives_ret.
  - destruct (Hst _ _ Hx) as (Hne & Hnr & Hneof). rewrite (list_continues_hk p _ Hs), hk_app by done.
    rewrite !bool_decide_eq_true_2 by done. cbn [andb].
    eapply gives_bind; [eapply Hitem; eauto|]. intros p1 Hs1.
    eapply gives_bind; [eapply gives_match_no; [done|by rewrite Hr]|]. intros p2 Hs2. by apply gives_ret.
  - destruct (Hst _ _ Hx) as (Hne & Hnr & Hneof). rewrite length_app in *. cbn [length] in *. rewrite <- app_assoc in Hs.
    rewrite (list_continues_hk p _ Hs), hk_app by done. rewrite !bool_decide_eq_true_2 by done. cbn [andb].
    eapply gives_bind; [eapply Hitem; [done|lia| |exact Hs]; left; exact Hk|]. intros p1 Hs1.
    eapply gives_bind; [by eapply gives_match_yes|]. intros p2 Hs2. cbn [negb].
    replace (items ++ x :: xs) with ((items ++ [x]) ++ xs) by (by rewrite <- app_assoc). apply IH; [lia|lia|done|done].
Qed.

Lemma names_complete bound : item_complete expect_identifier derives_name bound.
Proof. intros ts x p rest Hd _ _ Hs. by eapply gives_name. Qed.
Lemma names_start : item_starts derives_name.
Proof. intros ts x (t & [-> Hk] & _). cbn. by rewrite Hk. Qed.

(** ** SELECT and INSERT *)

Section statements.
Context (fcd : list byte -> option Z).

Lemma exprs_start : item_starts (derives_expr fcd).
Proof.
  intros ts e Hd. destruct (derives_starts fcd _ _ _ Hd) as [Hne Hst]. split; [done|]. by destruct (hk ts).
Qed.

Lemma exprs_complete fuel bound : (bound < fuel)%nat -> item_complete (parse_expr fcd fuel) (derives_expr fcd) bound.
Proof.
  intros Hb ts e p rest Hd Hl Hr Hs. eapply gives_expr; [done|lia| |done]. by destruct Hr as [-> | ->].
Qed.

Definition ends_items (k : TokenKind) : bool := ends_expr k && bool_decide (k <> KwAs).

Lemma gives_item fuel ts x p rest :
  derives_item fcd ts x -> (length ts < fuel)%nat -> ends_items (hk rest) = true -> sees p (ts ++ rest) ->
  gives (parse_select_item fcd fuel) p x rest.
Proof.
  intros Hd Hf Hend Hs. apply andb_prop in Hend as [Hend Has]. apply bool_decide_eq_true in Has.
  unfold parse_select_item. destruct Hd as [t Hk|ts e He|ts e t us name He Hk Hname].
  - eapply gives_bind; [by eapply gives_match_yes|]. intros p1 Hs1. by apply gives_ret.
  - destruct (derives_starts fcd _ _ _ He) as [Hne Hst].
    eapply gives_bind; [eapply gives_match_no; [exact Hs|]; rewrite hk_app by done; by destruct (hk ts)|]. intros p1 Hs1.
    eapply gives_bind; [by eapply gives_expr|]. intros p2 Hs2.
    eapply gives_bind; [by eapply gives_match_no|]. intros p3 Hs3. by apply gives_ret.
  - destruct (derives_starts fcd _ _ _ He) as [Hne Hst]. rewrite length_app in Hf. rewrite <- app_assoc in Hs.
    eapply gives_bind; [eapply gives_match_no; [exact Hs|]; rewrite hk_app by done; by destruct (hk ts)|]. intros p1 Hs1.
    eapply gives_bind; [eapply gives_expr; [done|lia| |exact Hs1]; cbn; by rewrite Hk|]. intros p2 Hs2.
    eapply gives_bind; [by eapply gives_match_yes|]. intros p3 Hs3.
    eapply gives_bind; [by eapply gives_name|]. intros p4 Hs4. by apply gives_ret.
Qed.

Lemma gives_items loop fuel items ts xs p rest :
  derives_list1 (derives_item fcd) ts xs -> (length ts < loop)%nat -> (length ts < fuel)%nat ->
  ends_items (hk rest) = true -> hk rest <> Comma -> sees p (ts ++ rest) ->
  gives (select_items_loop fcd loop fuel items) p (items ++ xs) rest.
Proof.
  intros Hd. revert loop items p.
  induction Hd as [ts x Hx|ts x t us xs Hx Hk Hd IH]; intros loop items p Hl Hf Hend Hc Hs;
    (destruct loop as [|loop]; [lia|]); cbn [select_items_loop].
  - eapply gives_bind; [by eapply gives_item|]. intros p1 Hs1.
    eapply gives_bind; [by eapply gives_match_no|]. intros p2 Hs2. by apply gives_ret.
  - rewrite length_app in *. cbn [length] in *. rewrite <- app_assoc in Hs.
    eapply gives_bind; [eapply gives_item; [done|lia| |exact Hs]; cbn; by rewrite Hk|]. intros p1 Hs1.
    eapply gives_bind; [by eapply gives_match_yes|]. intros p2 Hs2. cbn [negb].
    replace (items ++ x :: xs) with ((items ++ [x]) ++ xs) by (by rewrite <- app_assoc). apply IH; [lia|lia|done..].
Qed.

(** What may follow a statement: its end, a semicolon or the next statement. *)
Definition ends_stmt (k : TokenKind) : bool :=
  match k with Eof | Semicolon | KwCreate | KwInsert | KwSelect => true | _ => false end.

Lemma gives_select fuel ts s p rest :
  derives_select fcd ts s -> (length ts < fuel)%nat -> ends_stmt (hk rest) = true -> sees p (ts ++ rest) ->
  gives (parse_select fcd fuel) p s rest.
Proof.
  intros (items & from & table & wh & -> & Hitems & Hfrom & Hname & Hwh) Hf Hend Hs.
  rewrite !length_app in *. cbn [length] in *. rewrite !length_app in *. rewrite <- app_assoc in Hs. cbn [app] in Hs.
  rewrite <- app_assoc in Hs. unfold parse_select, parse_select_items. destruct s as [its tn wo]; cbn [ss_items ss_table_name ss_where] in *.
  eapply gives_bind.
  { eapply (gives_items fuel fuel []); [done|lia|lia| | |exact Hs]; cbn; by rewrite Hfrom. }
  intros p1 Hs1. eapply gives_bind; [by eapply gives_expect|]. intros p2 Hs2.
  eapply gives_bind; [by eapply gives_name|]. intros p3 Hs3. destruct Hwh as [|t ts e Hk He].
  - eapply gives_bind; [eapply gives_match_no; [exact Hs3|cbn [app]; by destruct (hk rest)]|]. intros p4 Hs4. by apply gives_ret.
  - eapply gives_bind; [by eapply gives_match_yes|]. intros p4 Hs4. cbn [length] in *.
    eapply gives_bind; [eapply gives_expr; [done|lia| |exact Hs4]; by destruct (hk rest)|]. intros p5 Hs5. by apply gives_ret.
Qed.

Lemma gives_row fuel {B} (k : list Expr -> M Parser B) row xs b p rest rest' :
  in_parens (derives_list (derives_expr fcd)) row xs -> (length row < fuel)%nat -> sees p (row ++ rest) ->
  (forall p', sees p' rest -> gives (k xs) p' b rest') ->
  gives (let* _ := expect LParen in
         let* exprs := parse_expr_list fcd fuel in
         let* _ := expect RParen in
         k exprs) p b rest'.
Proof.
  intros (lp & ts' & rp & -> & Hlp & Hd & Hrp) Hf Hs Hk. cbn [length app] in *. rewrite <- app_assoc in Hs.
  rewrite length_app in *. cbn [length] in *.
  eapply gives_bind; [by eapply gives_expect|]. intros p1 Hs1.
  eapply gives_bind.
  { eapply (gives_comma_loop fuel (length ts') _ (derives_expr fcd) []);
      [apply exprs_complete; lia|apply exprs_start|done|lia|lia| |exact Hs1]. exact Hrp. }
  intros p2 Hs2. eapply gives_bind; [by eapply gives_expect|]. intros p3 Hs3. by apply Hk.
Qed.

Lemma gives_rows loop fuel rows ts xs p rest :
  derives_list1 (in_parens (derives_list (derives_expr fcd))) ts xs ->
  (length ts < loop)%nat -> (length ts < fuel)%nat -> hk rest <> Comma -> sees p (ts ++ rest) ->
  gives (insert_rows_loop fcd loop fuel rows) p (rows ++ xs) rest.
Proof.
  intros Hd. revert loop rows p.
  induction Hd as [ts x Hx|ts x t us xs Hx Hk Hd IH]; intros loop rows p Hl Hf Hc Hs;
    (destruct loop as [|loop]; [lia|]); cbn [insert_rows_loop].
  - eapply gives_row; [done|lia|done|]. intros p1 Hs1.
    eapply gives_bind; [by eapply gives_match_no|]. intros p2 Hs2. by apply gives_ret.
  - rewrite length_app in *. cbn [length] in *. rewrite <- app_assoc in Hs.
    eapply gives_row; [done|lia|exact Hs|]. intros p1 Hs1.
    eapply gives_bind; [by eapply gives_match_yes|]. intros p2 Hs2. cbn [negb].
    replace (rows ++ x :: xs) with ((rows ++ [x]) ++ xs) by (by rewrite <- app_assoc). apply IH; [lia|lia|done..].
Qed.

Lemma gives_insert fuel ts s p rest :
  derives_insert fcd ts s -> (length ts < fuel)%nat -> ends_stmt (hk rest) = true -> sees p (ts ++ rest) ->
  gives (parse_insert fcd fuel) p s rest.
Proof.
  intros (into & table & cols & values & rows & -> & Hinto & Hname & Hcols & Hvalues & Hrows) Hf Hend Hs.
  cbn [length app] in *. rewrite !length_app in *. cbn [length] in *. rewrite <- !app_assoc in Hs. cbn [app] in Hs.
  unfold parse_insert. destruct s as [tn cn rs]; cbn [is_table_name is_column_names is_rows] in *.
  eapply gives_bind; [by eapply gives_expect|]. intros p1 Hs1.
  eapply gives_bind; [by eapply gives_name|]. intros p2 Hs2.
  assert (Hrest : forall q, sees q (values :: rows ++ rest) ->
    gives (let* _ := expect KwValues in
           let* rows := insert_rows_loop fcd fuel fuel [] in
           retM {| is_table_name := tn; is_column_names := cn; is_rows := rows |}) q
      {| is_table_name := tn; is_column_names := cn; is_rows := rs |} rest).
  { intros q Hq. eapply gives_bind; [by eapply gives_expect|]. intros q1 Hq1.
    eapply gives_bind; [apply (gives_rows fuel fuel [] rows rs q1 rest); [done|lia|lia|by destruct (hk rest)|done]|].
    intros q2 Hq2. by apply gives_ret. }
  destruct Hcols as [|cols names (lp & cs & rp & -> & Hlp & Hcs & Hrp)].
  - eapply gives_bind; [eapply gives_match_no; [exact Hs2|cbn; by rewrite Hvalues]|]. intros p3 Hs3.
    eapply gives_bind; [by apply gives_ret|]. exact Hrest.
  - cbn [length app] in *. rewrite length_app in *. rewrite <- app_assoc in Hs2.
    eapply gives_bind; [by eapply gives_match_yes|]. intros p3 Hs3. eapply gives_bind; [|exact Hrest].
    eapply gives_bind.
    { eapply (gives_comma_loop fuel (length cs) _ derives_name []);
        [apply names_complete|apply names_start|done|lia|lia| |exact Hs3]. exact Hrp. }
    intros p4 Hs4. eapply gives_bind; [by eapply gives_expect|]. intros p5 Hs5. by apply gives_ret.
Qed.
End statements.

(** ** CREATE TABLE *)

Lemma gives_type ts ty p rest :
  derives_type ts ty -> hk rest <> Identifier -> hk rest <> LParen -> sees p (ts ++ rest) ->
  gives parse_type_name p ty rest.
Proof.
  intros Hd Hni Hnl Hs. unfold parse_type_name.
  destruct Hd as [ts name t Hname Hdbl [Hkt Hprec]|ts name Hname|ts name lp n v rp Hname Hlp Hn Hv Hrp];
    rewrite <- ?app_assoc in Hs; (eapply gives_bind; [by eapply gives_name|]); intros p1 Hs1; do 2 apply gives_get_bind;
    rewrite (check_hk _ _ _ Hs1).
  - unfold is_double in Hdbl. cbn [app hk]. rewrite Hdbl, bool_decide_eq_true_2 by done.
    destruct Hs1 as (Hcur & Hs1). rewrite Hcur, Hprec. cbn [andb].
    eapply gives_bind; [by eapply (gives_advance p1 t)|]. intros p2 Hs2. by apply gives_ret.
  - rewrite bool_decide_eq_false_2 by done. rewrite andb_false_l, andb_false_r.
    eapply gives_bind; [by eapply gives_match_no|]. intros p2 Hs2. by apply gives_ret.
  - cbn [app hk] in *. rewrite bool_decide_eq_false_2 by (by rewrite Hlp). rewrite andb_false_l, andb_false_r.
    eapply gives_bind; [by eapply gives_match_yes|]. intros p2 Hs2. apply gives_get_bind.
    rewrite (check_hk _ _ _ Hs2). cbn [hk]. rewrite bool_decide_eq_true_2 by done. cbn [negb]. apply gives_get_bind.
    assert (Hcur : cur p2 = n) by apply Hs2. rewrite Hcur, Hv.
    eapply gives_bind; [by eapply gives_advance|]. intros p3 Hs3.
    eapply gives_bind; [by eapply gives_expect|]. intros p4 Hs4. by apply gives_ret.
Qed.

Definition starts_constraint (k : TokenKind) : bool :=
  match k with KwNot | KwNull | KwPrimary | KwUnique => true | _ => false end.

Lemma gives_constraints fuel c ts c' p rest :
  derives_constraints c ts c' -> (length ts < fuel)%nat -> starts_constraint (hk rest) = false -> sees p (ts ++ rest) ->
  gives (constraints_loop fuel c) p c' rest.
Proof.
  intros Hd. revert fuel p.
  induction Hd as [c|c t1 t2 ts c' Hk1 Hk2 Hd IH|c t ts c' Hk Hd IH|c t1 t2 ts c' Hk1 Hk2 Hd IH|c t ts c' Hk Hd IH];
    intros fuel p Hf Hr Hs; (destruct fuel as [|fuel]; [lia|]); cbn [constraints_loop app length] in *.
  - do 4 (eapply gives_bind; [eapply gives_match_no; [exact Hs|by destruct (hk rest)]|]; clear p Hs; intros p Hs).
    by apply gives_ret.
  - eapply gives_bind; [by eapply gives_match_yes|]. intros p1 Hs1.
    eapply gives_bind; [by eapply gives_expect|]. intros p2 Hs2. apply IH; [lia|done|done].
  - eapply gives_bind; [eapply gives_match_no; [exact Hs|cbn; by rewrite Hk]|]; clear p Hs; intros p Hs.
    eapply gives_bind; [by eapply gives_match_yes|]. intros p1 Hs1. apply IH; [lia|done|done].
  - do 2 (eapply gives_bind; [eapply gives_match_no; [exact Hs|cbn; by rewrite Hk1]|]; clear p Hs; intros p Hs).
    eapply gives_bind; [by eapply gives_match_yes|]. intros p1 Hs1.
    eapply gives_bind; [by eapply gives_expect|]. intros p2 Hs2. apply IH; [lia|done|done].
  - do 3 (eapply gives_bind; [eapply gives_match_no; [exact Hs|cbn; by rewrite Hk]|]; clear p Hs; intros p Hs).
    eapply gives_bind; [by eapply gives_match_yes|]. intros p1 Hs1. apply IH; [lia|done|done].
Qed.

Lemma constraints_start c ts c' rest :
  derives_constraints c ts c' -> hk rest = Comma \/ hk rest = RParen ->
  hk (ts ++ rest) <> Identifier /\ hk (ts ++ rest) <> LParen.
Proof.
  intros Hd Hr. destruct Hd as [c|c t1 t2 ts c' Hk1 _ _|c t ts c' Hk _|c t1 t2 ts c' Hk1 _ _|c t ts c' Hk _]; cbn [app hk].
  - by destruct Hr as [-> | ->].
  - by rewrite Hk1.
  - by rewrite Hk.
  - by rewrite Hk1.
  - by rewrite Hk.
Qed.

Lemma columns_complete fuel bound : (bound < fuel)%nat -> item_complete (parse_col_def fuel) derives_column bound.
Proof.
  intros Hb ts c p rest (name & type & cs & n & ty & -> & Hname & Hty & Hcs) Hl Hr Hs.
  rewrite !length_app in Hl. rewrite <- !app_assoc in Hs. unfold parse_col_def.
  eapply gives_bind; [by eapply gives_name|]. intros p1 Hs1.
  destruct (constraints_start _ _ _ rest Hcs Hr) as [Hni Hnl].
  eapply gives_bind; [by eapply gives_type|]. intros p2 Hs2.
  eapply gives_constraints; [done|lia| |done]. by destruct Hr as [-> | ->].
Qed.

Lemma columns_start : item_starts derives_column.
Proof.
  intros ts c (name & type & cs & n & ty & -> & Hname & _). destruct (names_start _ _ Hname) as (Hne & H1 & H2).
  rewrite hk_app by done. split; [|done]. by destruct name.
Qed.

Lemma gives_create fuel ts s p rest :
  derives_create ts s -> (length ts < fuel)%nat -> sees p (ts ++ rest) -> gives (parse_create_table fuel) p s rest.
Proof.
  intros (table & ex & name & cols & -> & Htable & Hex & Hname & lp & cs & rp & -> & Hlp & Hcs & Hrp) Hf Hs.
  cbn [length app] in *. rewrite !length_app in *. cbn [length] in *. rewrite !length_app in *. cbn [length] in *.
  repeat (rewrite <- app_assoc in Hs; cbn [app] in Hs). unfold parse_create_table.
  destruct s as [tn cols ine]; cbn [ct_table_name ct_columns ct_if_not_exists] in *.
  eapply gives_bind; [by eapply gives_expect|]. intros p1 Hs1.
  assert (Hrest : forall q, sees q (name ++ lp :: cs ++ rp :: rest) ->
    gives (let* name := expect_identifier in
           let* _ := expect LParen in
           let* cols := comma_loop fuel (parse_col_def fuel) [] in
           let* _ := expect RParen in
           retM {| ct_table_name := name; ct_columns := cols; ct_if_not_exists := ine |}) q
      {| ct_table_name := tn; ct_columns := cols; ct_if_not_exists := ine |} rest).
  { intros q Hq. eapply gives_bind; [by eapply gives_name|]. intros q1 Hq1.
    eapply gives_bind; [by eapply gives_expect|]. intros q2 Hq2. eapply gives_bind.
    { eapply (gives_comma_loop fuel (length cs) _ derives_column []);
        [apply columns_complete; lia|apply columns_start|done|lia|lia| |exact Hq2]. exact Hrp. }
    intros q3 Hq3. eapply gives_bind; [by eapply gives_expect|]. intros q4 Hq4. by apply gives_ret. }
  destruct Hex as [|t1 t2 t3 H1 H2 H3]; cbn [app] in Hs1.
  - destruct (names_start _ _ Hname) as (Hne & _). destruct Hname as (t & [-> Hk] & ->).
    eapply gives_bind; [eapply gives_match_no; [exact Hs1|cbn; by rewrite Hk]|]. intros p2 Hs2.
    eapply gives_bind; [by apply gives_ret|]. exact Hrest.
  - eapply gives_bind; [by eapply gives_match_yes|]. intros p2 Hs2. eapply gives_bind; [|exact Hrest].
    eapply gives_bind; [by eapply gives_expect|]. intros p3 Hs3.
    eapply gives_bind; [by eapply gives_expect|]. intros p4 Hs4. by apply gives_ret.
Qed.

(** ** Scripts *)

Section scripts.
Context (fcd : list byte -> option Z).

Lemma gives_stmt fuel ts s p rest :
  derives_stmt fcd ts s -> (length ts < fuel)%nat -> ends_stmt (hk rest) = true -> sees p (ts ++ rest) ->
  gives (parse_stmt fcd fuel) p s rest.
Proof.
  intros Hd Hf Hend Hs. unfold parse_stmt. destruct Hd as [t ts s Hk Hd|t ts s Hk Hd|t ts s Hk Hd]; cbn [length app] in *.
  - eapply gives_bind; [by eapply gives_match_yes|]. intros p1 Hs1.
    eapply gives_bind; [eapply gives_create; [done|lia|done]|]. intros p2 Hs2. by apply gives_ret.
  - eapply gives_bind; [eapply gives_match_no; [exact Hs|cbn; by rewrite Hk]|]; clear p Hs; intros p Hs.
    eapply gives_bind; [by eapply gives_match_yes|]. intros p1 Hs1.
    eapply gives_bind; [eapply gives_insert; [done|lia|done|done]|]. intros p2 Hs2. by apply gives_ret.
  - do 2 (eapply gives_bind; [eapply gives_match_no; [exact Hs|cbn; by rewrite Hk]|]; clear p Hs; intros p Hs).
    eapply gives_bind; [by eapply gives_match_yes|]. intros p1 Hs1.
    eapply gives_bind; [eapply gives_select; [done|lia|done|done]|]. intros p2 Hs2. by apply gives_ret.
Qed.

Lemma derives_stmt_starts ts s :
  derives_stmt fcd ts s -> ts <> [] /\ (hk ts = KwCreate \/ hk ts = KwInsert \/ hk ts = KwSelect).
Proof. destruct 1 as [t ts s Hk _|t ts s Hk _|t ts s Hk _]; (split; [done|]); cbn; rewrite Hk; auto. Qed.

Lemma script_hk ts ss : derives_script fcd ts ss -> ends_stmt (hk ts) = true.
Proof.
  intros Hd. destruct Hd as [ts [->|(t & -> & Hk)]|s1 ts s2 us stmt stmts [->|(t & -> & Hk)] Hst _ _]; try done.
  - cbn. by rewrite Hk.
  - destruct (derives_stmt_starts _ _ Hst) as [Hne Hk]. cbn [app]. rewrite hk_app by done.
    by destruct Hk as [-> |[-> | ->]].
  - cbn. by rewrite Hk.
Qed.

(** The semicolon in front of a script can be dropped, and only one is there. *)
Lemma script_drop_semi t us ss :
  derives_script fcd (t :: us) ss -> is_kind Semicolon t -> derives_script fcd us ss /\ hk us <> Semicolon.
Proof.
  intros Hd Ht. remember (t :: us) as ts eqn:Heq.
  destruct Hd as [ts [->|(t' & -> & Hk)]|s1 ts s2 us' stmt stmts [->|(t' & -> & Hk)] Hst Hs2 Hus]; try done.
  - injection Heq as -> <-. split; [|done]. constructor. by left.
  - destruct (derives_stmt_starts _ _ Hst) as [Hne Hk]. destruct ts as [|t1 ts]; [done|]. cbn in Heq.
    injection Heq as -> _. cbn in Hk. rewrite Ht in Hk. naive_solver.
  - cbn in Heq. injection Heq as -> <-. destruct (derives_stmt_starts _ _ Hst) as [Hne Hkt]. split.
    + apply (dsc_stmt fcd [] ts s2 us' stmt stmts); [by left|done..].
    + rewrite hk_app by done. by destruct Hkt as [-> |[-> | ->]].
Qed.

(** Skipping a semicolon, if there is one, leaves a script without one in front. *)
Lemma gives_semi {B} (k : M Parser B) p ts ss b rest' :
  derives_script fcd ts ss -> sees p ts ->
  (forall p' ts', (length ts' <= length ts)%nat -> derives_script fcd ts' ss -> hk ts' <> Semicolon ->
    sees p' ts' -> gives k p' b rest') ->
  gives (let* _ := match_tok Semicolon in k) p b rest'.
Proof.
  intros Hd Hs Hk. destruct (decide (hk ts = Semicolon)) as [Hsemi|Hn].
  - destruct ts as [|t ts]; [done|]. destruct (script_drop_semi t ts ss Hd Hsemi) as [Hd' Hn'].
    eapply gives_bind; [by eapply gives_match_yes|]. intros p1 Hs1. eapply Hk; [|done|done|exact Hs1]. cbn. lia.
  - eapply gives_bind; [by eapply gives_match_no|]. intros p1 Hs1. by eapply Hk.
Qed.

Lemma script_nil ss : derives_script fcd [] ss -> ss = [].
Proof.
  intros Hd. remember [] as ts eqn:Heq. destruct Hd as [ts _|s1 ts s2 us stmt stmts _ Hst _ _]; [done|].
  destruct (derives_stmt_starts _ _ Hst) as [Hne _]. destruct s1, ts; done.
Qed.

(** A script that does not start with a semicolon starts with a statement. *)
Lemma script_stmt ts ss :
  derives_script fcd ts ss -> ts <> [] -> hk ts <> Semicolon ->
  exists us rest s2 stmt stmts, ts = us ++ s2 ++ rest /\ ss = stmt :: stmts /\ derives_stmt fcd us stmt /\
    semi s2 /\ derives_script fcd rest stmts.
Proof.
  intros Hd Hne Hn. destruct Hd as [ts [->|(t & -> & Hk)]|s1 ts s2 us stmt stmts [->|(t & -> & Hk)] Hst Hs2 Hus]; try done.
  by exists ts, us, s2, stmt, stmts.
Qed.

Lemma gives_parse_loop loop fuel stmts ts ss p :
  derives_script fcd ts ss -> (length ts < loop)%nat -> (length ts < fuel)%nat -> sees p ts ->
  gives (parse_loop fcd loop fuel stmts) p (stmts ++ ss) [].
Proof.
  revert stmts ts ss p. induction loop as [|loop IH]; intros stmts ts ss p Hd Hl Hf Hs; [lia|]. cbn [parse_loop].
  apply gives_get_bind. rewrite (check_eof_sees p ts Hs). destruct ts as [|t0 ts0] eqn:Hts.
  { rewrite (script_nil ss Hd), app_nil_r. by apply gives_ret. }
  rewrite <- Hts in *. clear Hts t0 ts0. eapply gives_semi; [done|done|]. clear p Hs. intros p ts1 Hlen Hd1 Hn1 Hs1.
  apply gives_get_bind. rewrite (check_eof_sees p ts1 Hs1). destruct ts1 as [|t1 ts1'] eqn:Hts1.
  { rewrite (script_nil ss Hd1), app_nil_r. by apply gives_ret. }
  rewrite <- Hts1 in *. destruct (script_stmt ts1 ss Hd1) as (us & rest & s2 & stmt & stmts' & -> & -> & Hst & Hs2 & Hrest);
    [by rewrite Hts1|done|]. clear Hts1 t1 ts1'. rewrite !length_app in *.
  pose proof (derives_stmt_nonempty fcd _ _ Hst).
  assert (Hafter : ends_stmt (hk (s2 ++ rest)) = true).
  { destruct Hs2 as [->|(t & -> & Hk)]; [by eapply script_hk|]. cbn. by rewrite Hk. }
  eapply gives_bind; [eapply gives_stmt; [done|lia|done|done]|]. intros p2 Hs2'.
  replace (stmts ++ stmt :: stmts') with ((stmts ++ [stmt]) ++ stmts') by (by rewrite <- app_assoc).
  destruct Hs2 as [->|(t & -> & Hk)]; cbn [app length] in *.
  - eapply gives_semi; [done|done|]. intros p3 ts3 Hl3 Hd3 _ Hs3. eapply IH; [done|lia|lia|done].
  - eapply gives_bind; [by eapply gives_match_yes|]. intros p3 Hs3. eapply IH; [done|lia|lia|done].
Qed.
End scripts.

(** The statements the grammar gives to a source text. *)
Definition script_of (fcd : list byte -> option Z) (source : list byte) (stmts : list Stmt) : Prop :=
  exists ts, source_tokens source ts /\ derives_script fcd ts stmts.

Lemma parse_complete fcd source ts stmts :
  sizeZ source < 2 ^ 63 -> source_tokens source ts -> derives_script fcd ts stmts ->
  (parse fcd (Parser_new source)).1 = Ok stmts.
Proof.
  intros Hs Hts Hd. destruct (parser_new_tokens source ts Hs Hts) as (Hsees & Hlen & Hsrc).
  unfold parse. erewrite bind_ok by done. unfold parser_fuel. rewrite Hsrc.
  destruct (gives_parse_loop fcd (S (S (length source))) (S (S (length source))) [] ts stmts _ Hd
    ltac:(lia) ltac:(lia) Hsees) as (p' & -> & _). done.
Qed.

Lemma parse_script_iff (fcd : list byte -> option Z) (source : list byte) (stmts : list Stmt) :
  sizeZ source < 2 ^ 63 ->
  (parse fcd (Parser_new source)).1 = Ok stmts <-> script_of fcd source stmts.
Proof.
  intros Hs. split.
  - intros Hp. destruct (source_tokens_total source Hs) as [ts Hts]. exists ts. split; [done|].
    pose proof (parse_whole fcd source ts Hs Hts) as Hw. by rewrite Hp in Hw.
  - intros (ts & Hts & Hd). by eapply parse_complete.
Qed.

(** One statement of the comment at the top of parser.hpp. *)
Lemma parse_documented (fcd : list byte -> option Z) (source : list byte) (ts : list Token) (uses : bool) :
  sizeZ source < 2 ^ 63 -> source_tokens source ts -> documented_stmt fcd uses ts ->
  if uses then (parse fcd (Parser_new source)).1 = Err ParseError
  else exists stmt, derives_stmt fcd ts stmt /\ (parse fcd (Parser_new source)).1 = Ok [stmt].
Proof.
  intros Hs Hts Hd. destruct uses.
  - pose proof (parse_whole fcd source ts Hs Hts) as Hw. destruct (parse fcd (Parser_new source)).1 as [ss|e|]; cbn in Hw.
    + by destruct (documented_not_underivable fcd ts ss Hd).
    + by rewrite Hw.
    + done.
  - destruct (documented_derivable fcd ts Hd) as [stmt Hst]. exists stmt. split; [done|].
    apply (parse_complete fcd source ts); [done|done|]. rewrite <- (app_nil_r ts).
    apply (dsc_stmt fcd [] ts [] [] stmt []); [by left|done|by left|]. constructor. by left.
Qed.

(** C18: [parse] decides its grammar, and what that is of the documented one.  It
    returns statements exactly when [Grammar] derives them from the tokens of the
    source; nothing else is accepted.  A statement of the grammar documented in
    parser.hpp is accepted, and as one statement of [Grammar], unless one of its
    expressions uses NOT: then, although the comment has [not_expr ::= [NOT] cmp_expr],
    it is rejected with ParseError. *)
Theorem parse_decides_grammar (fcd : list byte -> option Z) (source : list byte) :
  sizeZ source < 2 ^ 63 ->
  (forall stmts, (parse fcd (Parser_new source)).1 = Ok stmts <-> script_of fcd source stmts) /\
  (forall ts, source_tokens source ts -> documented_stmt fcd false ts ->
    exists stmt, derives_stmt fcd ts stmt /\ (parse fcd (Parser_new source)).1 = Ok [stmt]) /\
  (forall ts, source_tokens source ts -> documented_stmt fcd true ts ->
    (parse fcd (Parser_new source)).1 = Err ParseError).
Proof.
  intros Hs. split_and!.
  - intros stmts. by apply parse_script_iff.
  - intros ts. by apply (parse_documented fcd source ts false).
  - intros ts. by apply (parse_documented fcd source ts true).
Qed.

(** A token with the given text, and the tokens of [SELECT * FROM t;]. *)
Definition tok (k : TokenKind) (text : string) (c : Z) : Token :=
  {| tk_kind := k; tk_text := String.list_byte_of_string text; tk_line := 1; tk_col := c |}.
Definition example_tokens : list Token :=
  [tok KwSelect "SELECT" 1; tok Star "*" 8; tok KwFrom "FROM" 10; tok Identifier "t" 15; tok Semicolon ";" 16].
Definition example_select : Stmt :=
  Select {| ss_items := [StarItem]; ss_table_name := "t"; ss_where := None |}.

Definition not_tokens : list Token :=
  [tok KwSelect "SELECT" 1; tok Star "*" 8; tok KwFrom "FROM" 10; tok Identifier "t" 15; tok KwWhere "WHERE" 17;
   tok KwNot "NOT" 23; tok Identifier "a" 27; tok TkEq "=" 29; tok LitInteger "1" 31].

Lemma example_derivation : derives_script (fun _ => None) example_tokens [example_select].
Proof.
  apply (dsc_stmt _ [] [tok KwSelect "SELECT" 1; tok Star "*" 8; tok KwFrom "FROM" 10; tok Identifier "t" 15]
    [tok Semicolon ";" 16] [] example_select []).
  - by left.
  - constructor; [done|].
    exists [tok Star "*" 8], (tok KwFrom "FROM" 10), [tok Identifier "t" 15], [].
    split_and!; try done; [by repeat constructor|by eexists|constructor].
  - right. by eexists.
  - constructor. by left.
Qed.

(** [SELECT * FROM t WHERE NOT a = 1] is documented. *)
Lemma not_documented : documented_stmt (fun _ => None) true not_tokens.
Proof.
  apply (doc_select (fun _ => None) (tok KwSelect "SELECT" 1) (tail not_tokens)); [done|].
  exists [tok Star "*" 8], (tok KwFrom "FROM" 10), [tok Identifier "t" 15], "t", (drop 4 not_tokens).
  split_and!; [done|by repeat constructor|done|by eexists|]. constructor; [done|].
  apply doc_and_expr, doc_not_expr, doc_not; [done|].
  apply (doc_comparison _ [tok Identifier "a" 27] (tok TkEq "=" 29) [tok LitInteger "1" 31] OpEq).
  - by eapply doc_atom.
  - done.
  - by eapply doc_atom.
Qed.

Lemma parse_decides_grammar_witness :
  (parse (fun _ => None) (Parser_new (String.list_byte_of_string "SELECT * FROM t;"))).1 = Ok [example_select] /\
  (parse (fun _ => None) (Parser_new (String.list_byte_of_string "SELECT * FROM t WHERE NOT a = 1"))).1
    = Err ParseError.
Proof.
  split.
  - apply (parse_decides_grammar (fun _ => None)); [vm_compute; reflexivity|]. exists example_tokens.
    split; [|exact example_derivation].
    do 5 (eexists; split; [vm_compute; reflexivity|]; split; [discriminate|]).
    eexists _, _. split; [vm_compute; reflexivity|reflexivity].
  - apply (parse_decides_grammar (fun _ => None) (String.list_byte_of_string "SELECT * FROM t WHERE NOT a = 1")
      ltac:(vm_compute; reflexivity)) with (ts := not_tokens); [|exact not_documented].
    do 9 (eexists; split; [vm_compute; reflexivity|]; split; [discriminate|]).
    eexists _, _. split; [vm_compute; reflexivity|reflexivity].
Defined.

(** A star beside other items, which the comment of parser.hpp does not have. *)
Example star_beside_items :
  (parse (fun _ => None) (Parser_new (String.list_byte_of_string "SELECT *, a FROM t"))).1 =
    Ok [Select {| ss_items := [StarItem; ExprItem (ColumnRef "a") None]; ss_table_name := "t"; ss_where := None |}].
Proof. vm_compute. reflexivity. Qed.
