(* ===== verification/QueryCatalog.v ===== *)
(** * QueryCatalog: what the query layer uses of the catalog

    The calls that the binder and the executor make, as a class, so that their
    models and theorems do not depend on how the catalog is stored; the catalog of
    src/src/catalog/catalog.cpp is an instance. *)
From S2P Require Import Prelude Utils TypeRegistry RowCodec StorageIO PageStore EvictionPolicy.
From S2P Require Import BufferPool HeapEngine Table Bundle Catalog.

(** A [Table*] is the oid under which the catalog keeps the table. *)
Class QueryCatalog (C : Type) := {
  qc_get_type : string -> M C CatalogType;
  qc_get_class : string -> M C CatalogClass;
  qc_create_table : CreateTableSpec -> M C Z;
  qc_open_table : string -> M C Z;
  qc_schema : Z -> M C TableSchema;
  qc_insert : Z -> list Value -> M C TupleId;
  qc_scan : Z -> M C (list (list Value));
}.

(** The catalog, with [fuel] for its table scans. *)
Definition catalog_calls {D S E : Type} `{BackendFactory D S} `{StorageIO S} `{StorageEngine E} `{EngineFactory S E}
    (fuel : nat) : QueryCatalog (Catalog D S E) := {|
  qc_get_type := get_type fuel;
  qc_get_class := get_class fuel;
  qc_create_table := create_table fuel;
  qc_open_table := open_table fuel;
  qc_schema ref := on_user_table ref (on_table (fun T => retM (table_schema_of T)));
  qc_insert ref values := on_user_table ref (on_table (fun T => table_insert T values));
  qc_scan ref := on_user_table ref (on_table (table_scan fuel));
|}.
