(* ===== verification/Binder.v ===== *)
(** * Binder: src/src/query/binder.{hpp,cpp}

    Names and literals resolved against the catalog and the type registry.  The
    constructor takes references, so [catalog] and [types] are never null and the
    checks for null pointers are left out.  [std::to_string] of a [double] is a
    parameter. *)
From S2P Require Import Prelude Utils TypeRegistry BuiltinTypes RowCodec Table Catalog Ast QueryCatalog.

Record BoundTypeRef := { bt_oid : Z; bt_name : string; bt_param : option Z }.
Record BoundColumnDef := {
  bd_name : string;
  bd_type : BoundTypeRef;
  bd_nullable : bool;
  bd_primary_key : bool;
  bd_unique : bool;
}.
Record BoundLiteral := { bl_type : BoundTypeRef; bl_value : Value }.
Record BoundColumnRef := {
  br_relation_oid : Z;
  br_attnum : Z;
  br_name : string;
  br_type : BoundTypeRef;
  br_nullable : bool;
}.
Inductive BoundExpr :=
  | BLiteral (l : BoundLiteral)
  | BColumn (c : BoundColumnRef)
  | BBinary (op : BinaryOp) (lhs rhs : BoundExpr) (type : BoundTypeRef).
Record BoundTableRef := { tr_relation_oid : Z; tr_name : string; tr_columns : list BoundColumnRef }.
Inductive BoundSelectItem :=
  | BoundStarItem
  | BoundExprItem (expr : BoundExpr) (alias : option string).
Record BoundCreateTableStmt := {
  bc_table_name : string;
  bc_columns : list BoundColumnDef;
  bc_if_not_exists : bool;
}.
Record BoundInsertStmt := {
  bi_table : BoundTableRef;
  bi_columns : list BoundColumnRef;
  bi_rows : list (list BoundLiteral);
}.
Record BoundSelectStmt := {
  bs_table : BoundTableRef;
  bs_items : list BoundSelectItem;
  bs_where : option BoundExpr;
}.
Inductive BoundStmt :=
  | BoundCreateTable (s : BoundCreateTableStmt)
  | BoundInsert (s : BoundInsertStmt)
  | BoundSelect (s : BoundSelectStmt).

(** ** Names *)

Definition ascii_lower (ch : byte) : byte :=
  let c := byte_to_Z ch in if (65 <=? c) && (c <=? 90) then Z_to_byte (c + 32) else ch.
Definition lower_ascii (text : string) : string :=
  String.string_of_list_byte (ascii_lower <$> String.list_byte_of_string text).
Definition normalized_column_name (name : string) : string := lower_ascii name.

Definition string_in (s : string) (l : list string) : bool := existsb (String.eqb s) l.
Definition canonical_type_name (type_name : TypeName) : string :=
  let lowered := lower_ascii (ty_name type_name) in
  if string_in lowered ["integer"; "int"; "int4"] then "int32"%string
  else if string_in lowered ["bigint"; "int8"] then "int64"%string
  else if string_in lowered ["double precision"; "double"; "float8"] then "float64"%string
  else if String.eqb lowered "boolean" then "bool"%string
  else if string_in lowered ["varchar"; "character varying"] then "text"%string
  else lowered.

Definition bound_expr_type (expr : BoundExpr) : BoundTypeRef :=
  match expr with
  | BLiteral l => bl_type l
  | BColumn c => br_type c
  | BBinary _ _ _ type => type
  end.
Definition is_bool_expr (expr : BoundExpr) (bool_type : BoundTypeRef) : bool :=
  bt_oid (bound_expr_type expr) =? bt_oid bool_type.

(** The 1-based number of the column at [index]. *)
Definition make_attnum (index : Z) : Z := wrap32 (wrap64 (index + 1)).

(** [std::format] of a message with its arguments in place. *)
Definition format1 (a : string) (x : string) (b : string) : string := a +:+ x +:+ b.
Definition format2 (a x b y c : string) : string := a +:+ x +:+ b +:+ y +:+ c.

Section binder.
Context {C : Type} `{QueryCatalog C} (double_to_string : Z -> string).

Record Binder := { types_of : TypeRegistry; bind_error : string; catalog_of : C }.
Definition Binder_new (catalog : C) (types : TypeRegistry) : Binder :=
  {| types_of := types; bind_error := EmptyString; catalog_of := catalog |}.
Definition set_catalog (c : C) (b : Binder) : Binder :=
  {| types_of := types_of b; bind_error := bind_error b; catalog_of := c |}.
Definition on_catalog {A} (m : M C A) : M Binder A := zoom catalog_of set_catalog m.
Definition bind_err (msg : string) : M Binder unit :=
  modifyM (fun b => {| types_of := types_of b; bind_error := msg; catalog_of := catalog_of b |}).
(** [bind_err(msg); return std::unexpected(er);] *)
Definition bind_fail {A} (msg : string) (er : Error) : M Binder A :=
  let* _ := bind_err msg in errM er.

Definition literal_text (literal : Literal) : option string :=
  match literal with
  | IntLiteral v => Some (to_string_int v)
  | FloatLiteral v => Some (double_to_string v)
  | StrLiteral s => Some s
  | BoolLiteral b => Some (if b then "true" else "false")%string
  | NullLiteral => None
  end.

Definition missing_type (er : Error) : Error := if bool_decide (er = NotFound) then TypeNotFound else er.

Definition lookup_type_name (name : string) : M Binder BoundTypeRef :=
  let* type := attempt (on_catalog (qc_get_type name)) in
  match type with
  | Ok t => retM {| bt_oid := ct_oid t; bt_name := ct_name t; bt_param := None |}
  | Err er => errM (missing_type er)
  | Fault => faultM
  end.

Definition lookup_type_oid (o : Z) : M Binder BoundTypeRef :=
  let* types := getM types_of in
  match lookup_oid types o with
  | Ok t => retM {| bt_oid := oid t; bt_name := type_name t; bt_param := None |}
  | Err er => errM (missing_type er)
  | Fault => faultM
  end.

Fixpoint find_bound_column (wanted : string) (columns : list BoundColumnRef) : option BoundColumnRef :=
  match columns with
  | [] => None
  | column :: rest =>
      if String.eqb (normalized_column_name (br_name column)) wanted then Some column
      else find_bound_column wanted rest
  end.
Definition bind_column_ref (name : string) (table : BoundTableRef) : M Binder BoundColumnRef :=
  match find_bound_column (normalized_column_name name) (tr_columns table) with
  | Some column => retM column
  | None => bind_fail (format2 "unknown column '" name "' on table '" (tr_name table) "'") AnalyzerError
  end.

(** ** Literals *)

Definition infer_literal_type (literal : Literal) : M Binder BoundTypeRef :=
  match literal with
  | NullLiteral => bind_fail "NULL literal requires a target type" AnalyzerError
  | IntLiteral _ => lookup_type_name "int64"
  | FloatLiteral _ => lookup_type_name "float64"
  | StrLiteral _ => lookup_type_name "text"
  | BoolLiteral _ => lookup_type_name "bool"
  end.

Definition coerce_literal_to_type (literal : Literal) (target_type : BoundTypeRef) (target_nullable : bool) :
    M Binder BoundLiteral :=
  match literal_text literal with
  | None =>
      if negb target_nullable then
        bind_fail (format1 "NULL is not allowed for non-nullable type '" (bt_name target_type) "'") AnalyzerError
      else retM {| bl_type := target_type;
                   bl_value := {| v_type_oid := bt_oid target_type; v_bytes := []; is_null := true |} |}
  | Some text =>
      let* types := getM types_of in
      match lookup_oid types (bt_oid target_type) with
      | Err er => errM (missing_type er)
      | Fault => faultM
      | Ok type =>
          match from_text type text with
          | Ok bytes =>
              retM {| bl_type := target_type;
                      bl_value := {| v_type_oid := bt_oid target_type; v_bytes := bytes; is_null := false |} |}
          | Err _ =>
              bind_fail (format2 "cannot coerce literal '" text "' to type '" (bt_name target_type) "'")
                AnalyzerError
          | Fault => faultM
          end
      end
  end.

Definition bind_literal (literal : Literal) (target_type : option BoundTypeRef) (target_nullable : bool) :
    M Binder BoundLiteral :=
  let* target := match target_type with Some t => retM t | None => infer_literal_type literal end in
  coerce_literal_to_type literal target target_nullable.

(** ** Expressions *)

Definition is_literal (e : Expr) : bool := match e with LiteralExpr _ => true | _ => false end.

(** The last part of [bind_binary_expr], for a comparison: a literal operand of
    another type is bound again, with the type of the other operand.  [bind_left]
    and [bind_right] are [bind_expr] on the two operands. *)
Definition bind_comparison (op : BinaryOp) (lhs rhs : Expr)
    (bind_left bind_right : option BoundTypeRef -> M Binder BoundExpr)
    (bool_type : BoundTypeRef) (left_ right_ : BoundExpr) : M Binder BoundExpr :=
  let differ l r := negb (bt_oid (bound_expr_type l) =? bt_oid (bound_expr_type r)) in
  let* operands :=
    if differ left_ right_ then
      if is_literal lhs then
        let* left_again := bind_left (Some (bound_expr_type right_)) in retM (left_again, right_)
      else if is_literal rhs then
        let* right_again := bind_right (Some (bound_expr_type left_)) in retM (left_, right_again)
      else retM (left_, right_)
    else retM (left_, right_) in
  let '(left_, right_) := operands in
  if differ left_ right_ then
    bind_fail (format2 "type mismatch in comparison: '" (bt_name (bound_expr_type left_)) "' vs '"
                 (bt_name (bound_expr_type right_)) "'") AnalyzerError
  else retM (BBinary op left_ right_ bool_type).

Definition bind_binary_expr (op : BinaryOp) (lhs rhs : Expr)
    (bind_left bind_right : option BoundTypeRef -> M Binder BoundExpr) : M Binder BoundExpr :=
  let* bool_type := lookup_type_name "bool" in
  let* left_ := bind_left None in
  let* right_ := bind_right None in
  match op with
  | OpAnd | OpOr =>
      if negb (is_bool_expr left_ bool_type) || negb (is_bool_expr right_ bool_type)
      then bind_fail "logical expressions require bool operands" AnalyzerError
      else retM (BBinary op left_ right_ bool_type)
  | _ => bind_comparison op lhs rhs bind_left bind_right bool_type left_ right_
  end.

Fixpoint bind_expr (expr : Expr) (table : BoundTableRef) (target_type : option BoundTypeRef) :
    M Binder BoundExpr :=
  match expr with
  | LiteralExpr literal =>
      let* bound_literal := bind_literal literal target_type true in
      retM (BLiteral bound_literal)
  | ColumnRef name =>
      let* bound_column := bind_column_ref name table in
      retM (BColumn bound_column)
  | BinaryExpr op lhs rhs => bind_binary_expr op lhs rhs (bind_expr lhs table) (bind_expr rhs table)
  end.

(** ** Tables *)

Fixpoint bind_columns (relation_oid index : Z) (columns : list ColumnSchema) : M Binder (list BoundColumnRef) :=
  match columns with
  | [] => retM []
  | column :: rest =>
      let* type := lookup_type_oid (col_type_oid column) in
      let* more := bind_columns relation_oid (index + 1) rest in
      retM ({| br_relation_oid := relation_oid; br_attnum := make_attnum index; br_name := col_name column;
               br_type := type; br_nullable := nullable column |} :: more)
  end.

(** A table that is not found is reported by name; other errors pass. *)
Definition known_table {A} (table_name : string) (m : M C A) : M Binder A :=
  let* r := attempt (on_catalog m) in
  match r with
  | Ok a => retM a
  | Err er =>
      if bool_decide (er = NotFound) then bind_fail (format1 "unknown table '" table_name "'") AnalyzerError
      else errM er
  | Fault => faultM
  end.

Definition bind_table (table_name : string) : M Binder BoundTableRef :=
  let* catalog_class := known_table table_name (qc_get_class table_name) in
  let* opened_table := known_table table_name (qc_open_table table_name) in
  let* schema := on_catalog (qc_schema opened_table) in
  let* columns := bind_columns (cc_oid catalog_class) 0 (table_columns schema) in
  retM {| tr_relation_oid := cc_oid catalog_class; tr_name := Table.table_name schema; tr_columns := columns |}.

(** ** Statements *)

Fixpoint bind_column_defs (table_name : string) (seen_columns : gset string) (columns : list ColumnDef) :
    M Binder (list BoundColumnDef) :=
  match columns with
  | [] => retM []
  | column :: rest =>
      let dedup_name := normalized_column_name (cd_name column) in
      if bool_decide (dedup_name ∈ seen_columns) then
        bind_fail (format2 "duplicate column '" (cd_name column) "' in CREATE TABLE '" table_name "'")
          AnalyzerError
      else
        let* type := attempt (on_catalog (qc_get_type (canonical_type_name (cd_type column)))) in
        match type with
        | Err er =>
            bind_fail (format2 "unknown type '" (ty_name (cd_type column)) "' for column '"
                         (cd_name column) "'") (missing_type er)
        | Fault => faultM
        | Ok t =>
            let* more := bind_column_defs table_name ({[dedup_name]} ∪ seen_columns) rest in
            retM ({| bd_name := cd_name column;
                     bd_type := {| bt_oid := ct_oid t; bt_name := ct_name t; bt_param := ty_param (cd_type column) |};
                     bd_nullable := negb (cd_not_null column); bd_primary_key := cd_primary_key column;
                     bd_unique := cd_unique column |} :: more)
        end
  end.
Definition bind_create_table (stmt : CreateTableStmt) : M Binder BoundCreateTableStmt :=
  let* columns := bind_column_defs (ct_table_name stmt) ∅ (ct_columns stmt) in
  retM {| bc_table_name := ct_table_name stmt; bc_columns := columns;
          bc_if_not_exists := ct_if_not_exists stmt |}.

Fixpoint bind_target_columns (stmt_table : string) (table : BoundTableRef) (seen_columns : gset string)
    (names : list string) : M Binder (list BoundColumnRef) :=
  match names with
  | [] => retM []
  | column_name :: rest =>
      let* bound_column := bind_column_ref column_name table in
      let normalized := normalized_column_name (br_name bound_column) in
      if bool_decide (normalized ∈ seen_columns) then
        bind_fail (format2 "duplicate target column '" (br_name bound_column) "' in INSERT into '"
                     stmt_table "'") AnalyzerError
      else
        let* more := bind_target_columns stmt_table table ({[normalized]} ∪ seen_columns) rest in
        retM (bound_column :: more)
  end.

(** The values of one row, each with its target column. *)
Fixpoint bind_row (row : list Expr) (targets : list BoundColumnRef) : M Binder (list BoundLiteral) :=
  match row, targets with
  | value :: row, target :: targets =>
      match value with
      | LiteralExpr literal =>
          let* bound_literal := bind_literal literal (Some (br_type target)) (br_nullable target) in
          let* more := bind_row row targets in
          retM (bound_literal :: more)
      | _ => bind_fail "INSERT VALUES currently supports only literal expressions" AnalyzerError
      end
  | _, _ => retM []
  end.
Fixpoint bind_rows (rows : list (list Expr)) (targets : list BoundColumnRef) : M Binder (list (list BoundLiteral)) :=
  match rows with
  | [] => retM []
  | row :: rest =>
      if negb (length row =? length targets)%nat then
        bind_fail (format2 "INSERT row has " (to_string_int (sizeZ row)) " values but target column list has "
                     (to_string_int (sizeZ targets)) " entries") AnalyzerError
      else
        let* bound_row := bind_row row targets in
        let* more := bind_rows rest targets in
        retM (bound_row :: more)
  end.
Definition bind_insert (stmt : InsertStmt) : M Binder BoundInsertStmt :=
  let* table := bind_table (is_table_name stmt) in
  let* target_columns :=
    match is_column_names stmt with
    | [] => retM (tr_columns table)
    | names => bind_target_columns (is_table_name stmt) table ∅ names
    end in
  let* bound_rows := bind_rows (is_rows stmt) target_columns in
  retM {| bi_table := table; bi_columns := target_columns; bi_rows := bound_rows |}.

Fixpoint bind_items (table : BoundTableRef) (items : list SelectItem) : M Binder (list BoundSelectItem) :=
  match items with
  | [] => retM []
  | StarItem :: rest =>
      let* more := bind_items table rest in retM (BoundStarItem :: more)
  | ExprItem expr alias :: rest =>
      let* bound := bind_expr expr table None in
      let* more := bind_items table rest in
      retM (BoundExprItem bound alias :: more)
  end.
Definition bind_select (stmt : SelectStmt) : M Binder BoundSelectStmt :=
  let* table := bind_table (ss_table_name stmt) in
  let* bound_items := bind_items table (ss_items stmt) in
  let* bound_where :=
    match ss_where stmt with
    | None => retM None
    | Some expr =>
        let* where_expr := bind_expr expr table None in
        let* bool_type := lookup_type_name "bool" in
        if negb (is_bool_expr where_expr bool_type) then
          bind_fail "WHERE expression must have type bool" AnalyzerError
        else retM (Some where_expr)
    end in
  retM {| bs_table := table; bs_items := bound_items; bs_where := bound_where |}.

Definition bind (stmt : Stmt) : M Binder BoundStmt :=
  match stmt with
  | CreateTable s => let* bound := bind_create_table s in retM (BoundCreateTable bound)
  | Insert s => let* bound := bind_insert s in retM (BoundInsert bound)
  | Select s => let* bound := bind_select s in retM (BoundSelect bound)
  end.

Definition binder_error_message (b : Binder) : string := bind_error b.
End binder.
Arguments Binder C : clear implicits.
