(* ===== verification/Plan.v ===== *)
(** * Plan: src/src/query/logical_plan.{hpp,cpp}, physical_plan.{hpp,cpp}

    Logical plans from bound statements and physical plans from logical ones.  An
    input is a [unique_ptr] that may be null.  The [plan_err] at the end of each
    planner follows a test of every alternative of the variant and is never
    reached, so a planner's message stays empty. *)
From S2P Require Import Prelude Utils Ast Binder.

Inductive LogicalPlan :=
  | LogicalCreateTable (stmt : BoundCreateTableStmt)
  | LogicalInsert (stmt : BoundInsertStmt)
  | LogicalScan (table : BoundTableRef)
  | LogicalFilter (input : option LogicalPlan) (predicate : BoundExpr)
  | LogicalProject (input : option LogicalPlan) (items : list BoundSelectItem).

Definition build_select (stmt : BoundSelectStmt) : LogicalPlan :=
  let plan := LogicalScan (bs_table stmt) in
  let plan :=
    match bs_where stmt with
    | Some predicate => LogicalFilter (Some plan) predicate
    | None => plan
    end in
  LogicalProject (Some plan) (bs_items stmt).

Definition logical_build (stmt : BoundStmt) : Result LogicalPlan :=
  match stmt with
  | BoundCreateTable s => Ok (LogicalCreateTable s)
  | BoundInsert s => Ok (LogicalInsert s)
  | BoundSelect s => Ok (build_select s)
  end.
Definition logical_error_message : string := EmptyString.

Inductive PhysicalPlan :=
  | PhysicalCreateTable (stmt : BoundCreateTableStmt)
  | PhysicalInsert (stmt : BoundInsertStmt)
  | PhysicalSeqScan (table : BoundTableRef)
  | PhysicalFilter (input : option PhysicalPlan) (predicate : BoundExpr)
  | PhysicalProject (input : option PhysicalPlan) (items : list BoundSelectItem).

(** [build_unary_input] on top of [build]. *)
Definition build_unary_input (build : LogicalPlan -> Result PhysicalPlan) (input : option LogicalPlan) :
    Result PhysicalPlan :=
  match input with None => Err ExecutorError | Some plan => build plan end.

Fixpoint physical_build (plan : LogicalPlan) : Result PhysicalPlan :=
  match plan with
  | LogicalCreateTable stmt => Ok (PhysicalCreateTable stmt)
  | LogicalInsert stmt => Ok (PhysicalInsert stmt)
  | LogicalScan table => Ok (PhysicalSeqScan table)
  | LogicalFilter input predicate =>
      let? input := build_unary_input physical_build input in
      Ok (PhysicalFilter (Some input) predicate)
  | LogicalProject input items =>
      let? input := build_unary_input physical_build input in
      Ok (PhysicalProject (Some input) items)
  end.
Definition physical_error_message : string := EmptyString.
