(* ===== verification/Exec.v ===== *)
(** * Exec: src/src/query/exec.{hpp,cpp}

    Expression evaluation and the row-at-a-time executor.  A node is its fields:
    [open] gives the node it leaves (on an error the node is as it was), [next]
    and [close] act on the node.  Constructors take references and the builder
    never passes a null input, so those null checks are left out.  The loop of
    the filter's [next] and the nesting of nodes take fuel; [node_fuel] is enough. *)
From S2P Require Import Prelude Utils TypeRegistry BuiltinTypes RowCodec Table Catalog Ast.
From S2P Require Import QueryCatalog Binder Plan.

Record ExecRow := { er_columns : list BoundColumnRef; er_values : list Value }.

(** ** Expressions *)

(** [values] is indexed by the position of the first matching column. *)
Fixpoint find_value (ref : BoundColumnRef) (columns : list BoundColumnRef) (values : list Value) : Result Value :=
  match columns with
  | [] => Err AnalyzerError
  | column :: columns' =>
      if (br_attnum column =? br_attnum ref) && String.eqb (br_name column) (br_name ref)
      then match values with value :: _ => Ok value | [] => Fault end
      else find_value ref columns' (drop 1 values)
  end.
Definition find_column_value (row : ExecRow) (ref : BoundColumnRef) : Result Value :=
  find_value ref (er_columns row) (er_values row).

Definition make_bool_value (bool_type : Type_) (value : bool) : Result Value :=
  let? bytes := from_text bool_type (if value then "true" else "false") in
  Ok {| v_type_oid := oid bool_type; v_bytes := bytes; is_null := false |}.

Definition value_as_bool (value : Value) (types : TypeRegistry) : Result bool :=
  let? type := lookup_oid types (v_type_oid value) in
  Ok (String.eqb (to_text type (v_bytes value)) "true").

(** The tests of [compare_values] on the ordering of two values. *)
Definition order_test (op : BinaryOp) (ordering : comparison) : Result bool :=
  match op with
  | OpEq => Ok (bool_decide (ordering = Eq))
  | OpNeq => Ok (negb (bool_decide (ordering = Eq)))
  | OpLt => Ok (bool_decide (ordering = Lt))
  | OpLe => Ok (bool_decide (ordering = Lt) || bool_decide (ordering = Eq))
  | OpGt => Ok (bool_decide (ordering = Gt))
  | OpGe => Ok (bool_decide (ordering = Gt) || bool_decide (ordering = Eq))
  | OpAnd | OpOr => Err InvalidArgument
  end.
Definition compare_values (op : BinaryOp) (lhs rhs : Value) (types : TypeRegistry) : Result bool :=
  if is_null lhs || is_null rhs then Ok false
  else
    let? type := lookup_oid types (v_type_oid lhs) in
    order_test op (compare type (v_bytes lhs) (v_bytes rhs)).

Fixpoint eval_expr (expr : BoundExpr) (row : ExecRow) (types : TypeRegistry) : Result Value :=
  match expr with
  | BLiteral l => Ok (bl_value l)
  | BColumn c => find_column_value row c
  | BBinary op lhs rhs _ =>
      let? lhs := eval_expr lhs row types in
      let? rhs := eval_expr rhs row types in
      let? bool_type := lookup_name types "bool" in
      match op with
      | OpAnd | OpOr =>
          let? left_bool := value_as_bool lhs types in
          let? right_bool := value_as_bool rhs types in
          make_bool_value bool_type
            (if bool_decide (op = OpAnd) then left_bool && right_bool else left_bool || right_bool)
      | _ =>
          let? comparison := compare_values op lhs rhs types in
          make_bool_value bool_type comparison
      end
  end.

Definition output_column (expr : BoundExpr) (alias : option string) (index : Z) : BoundColumnRef :=
  match alias, expr with
  | Some alias, _ =>
      {| br_relation_oid := 0; br_attnum := make_attnum index; br_name := alias;
         br_type := bound_expr_type expr; br_nullable := true |}
  | None, BColumn column =>
      {| br_relation_oid := 0; br_attnum := make_attnum index; br_name := br_name column;
         br_type := br_type column; br_nullable := br_nullable column |}
  | None, _ =>
      {| br_relation_oid := 0; br_attnum := make_attnum index; br_name := "?column?";
         br_type := bound_expr_type expr; br_nullable := true |}
  end.

(** The columns and values that a star appends; a value without a column is out
    of range. *)
Fixpoint star_columns (columns : list BoundColumnRef) (values : list Value) (projected : ExecRow) : Result ExecRow :=
  match values, columns with
  | [], _ => Ok projected
  | _ :: _, [] => Fault
  | value :: values, column :: columns =>
      star_columns columns values
        {| er_columns := er_columns projected ++ [column]; er_values := er_values projected ++ [value] |}
  end.
Fixpoint project_items (types : TypeRegistry) (input_row : ExecRow) (items : list BoundSelectItem)
    (projected : ExecRow) : Result ExecRow :=
  match items with
  | [] => Ok projected
  | BoundStarItem :: items =>
      let? projected := star_columns (er_columns input_row) (er_values input_row) projected in
      project_items types input_row items projected
  | BoundExprItem expr alias :: items =>
      let? value := eval_expr expr input_row types in
      project_items types input_row items
        {| er_columns := er_columns projected ++ [output_column expr alias (sizeZ (er_columns projected))];
           er_values := er_values projected ++ [value] |}
  end.
Definition ExecRow_empty : ExecRow := {| er_columns := []; er_values := [] |}.

(** ** Nodes *)

Inductive ExecNode :=
  | CreateTableExecNode (stmt : BoundCreateTableStmt) (opened done : bool)
  | InsertExecNode (stmt : BoundInsertStmt) (opened done : bool)
  | SeqScanExecNode (table : BoundTableRef) (rows : list (list Value)) (index : nat) (opened : bool)
  | FilterExecNode (input : ExecNode) (predicate : BoundExpr)
  | ProjectExecNode (input : ExecNode) (items : list BoundSelectItem).

Definition create_spec (stmt : BoundCreateTableStmt) : CreateTableSpec :=
  {| spec_name := bc_table_name stmt;
     spec_columns := (fun column =>
       {| col_name := bd_name column; col_type_oid := bt_oid (bd_type column); nullable := bd_nullable column |})
       <$> bc_columns stmt |}.

Section open.
Context {C : Type} `{QueryCatalog C}.

Fixpoint insert_rows (table : Z) (rows : list (list BoundLiteral)) : M C unit :=
  match rows with
  | [] => retM tt
  | row :: rows =>
      let* _ := qc_insert table (bl_value <$> row) in
      insert_rows table rows
  end.

Definition create_table_open (stmt : BoundCreateTableStmt) : M C ExecNode :=
  let* created := attempt (qc_create_table (create_spec stmt)) in
  match created with
  | Ok _ => retM (CreateTableExecNode stmt true false)
  | Err er =>
      if bc_if_not_exists stmt && bool_decide (er = AlreadyExists)
      then retM (CreateTableExecNode stmt true false)
      else errM er
  | Fault => faultM
  end.

Definition insert_open (stmt : BoundInsertStmt) : M C ExecNode :=
  let* table := qc_open_table (tr_name (bi_table stmt)) in
  let* _ := insert_rows table (bi_rows stmt) in
  retM (InsertExecNode stmt true false).

Definition seq_scan_open (table : BoundTableRef) : M C ExecNode :=
  let* opened_table := qc_open_table (tr_name table) in
  let* scanned := qc_scan opened_table in
  retM (SeqScanExecNode table scanned 0 true).

(** The virtual [open]; a filter and a projection open their input. *)
Fixpoint exec_open (node : ExecNode) : M C ExecNode :=
  match node with
  | CreateTableExecNode stmt _ _ => create_table_open stmt
  | InsertExecNode stmt _ _ => insert_open stmt
  | SeqScanExecNode table _ _ _ => seq_scan_open table
  | FilterExecNode input predicate =>
      let* input := exec_open input in retM (FilterExecNode input predicate)
  | ProjectExecNode input items =>
      let* input := exec_open input in retM (ProjectExecNode input items)
  end.
End open.

Definition keeps_row (types : TypeRegistry) (predicate : BoundExpr) (candidate : ExecRow) : Result bool :=
  let? predicate_value := eval_expr predicate candidate types in
  value_as_bool predicate_value types.

(** [None] is the [false] that ends the rows. *)
Definition create_table_next (stmt : BoundCreateTableStmt) (opened done : bool) : Result (option ExecRow) * ExecNode :=
  if negb opened then (Err InvalidArgument, CreateTableExecNode stmt opened done)
  else if done then (Ok None, CreateTableExecNode stmt opened done)
  else (Ok None, CreateTableExecNode stmt opened true).

Definition insert_next (stmt : BoundInsertStmt) (opened done : bool) : Result (option ExecRow) * ExecNode :=
  if negb opened then (Err InvalidArgument, InsertExecNode stmt opened done)
  else if done then (Ok None, InsertExecNode stmt opened done)
  else (Ok None, InsertExecNode stmt opened true).

Definition seq_scan_next (table : BoundTableRef) (rows : list (list Value)) (index : nat) (opened : bool) :
    Result (option ExecRow) * ExecNode :=
  if negb opened then (Err InvalidArgument, SeqScanExecNode table rows index opened)
  else match rows !! index with
  | None => (Ok None, SeqScanExecNode table rows index opened)
  | Some values =>
      (Ok (Some {| er_columns := tr_columns table; er_values := values |}),
       SeqScanExecNode table rows (S index) opened)
  end.

(** The projection of what the input's [next] gave. *)
Definition project_next (types : TypeRegistry) (items : list BoundSelectItem) (has_row : Result (option ExecRow))
    (input : ExecNode) : Result (option ExecRow) * ExecNode :=
  match has_row with
  | Ok None => (Ok None, ProjectExecNode input items)
  | Ok (Some input_row) =>
      match project_items types input_row items ExecRow_empty with
      | Ok projected => (Ok (Some projected), ProjectExecNode input items)
      | Err er => (Err er, ProjectExecNode input items)
      | Fault => (Fault, ProjectExecNode input items)
      end
  | Err er => (Err er, ProjectExecNode input items)
  | Fault => (Fault, ProjectExecNode input items)
  end.

(** The virtual [next].  A candidate the filter drops is another turn of its loop. *)
Fixpoint exec_next (types : TypeRegistry) (fuel : nat) (node : ExecNode) : Result (option ExecRow) * ExecNode :=
  match fuel with
  | O => (Fault, node)
  | S fuel =>
      match node with
      | CreateTableExecNode stmt opened done => create_table_next stmt opened done
      | InsertExecNode stmt opened done => insert_next stmt opened done
      | SeqScanExecNode table rows index opened => seq_scan_next table rows index opened
      | FilterExecNode input predicate =>
          let '(has_row, input) := exec_next types fuel input in
          match has_row with
          | Ok None => (Ok None, FilterExecNode input predicate)
          | Ok (Some candidate) =>
              match keeps_row types predicate candidate with
              | Ok true => (Ok (Some candidate), FilterExecNode input predicate)
              | Ok false => exec_next types fuel (FilterExecNode input predicate)
              | Err er => (Err er, FilterExecNode input predicate)
              | Fault => (Fault, FilterExecNode input predicate)
              end
          | Err er => (Err er, FilterExecNode input predicate)
          | Fault => (Fault, FilterExecNode input predicate)
          end
      | ProjectExecNode input items =>
          let '(has_row, input) := exec_next types fuel input in
          project_next types items has_row input
      end
  end.

Definition create_table_close (stmt : BoundCreateTableStmt) : ExecNode := CreateTableExecNode stmt false false.
Definition insert_close (stmt : BoundInsertStmt) : ExecNode := InsertExecNode stmt false false.
Definition seq_scan_close (table : BoundTableRef) : ExecNode := SeqScanExecNode table [] 0 false.
(** The node after the virtual [close], which never fails. *)
Fixpoint closed (node : ExecNode) : ExecNode :=
  match node with
  | CreateTableExecNode stmt _ _ => create_table_close stmt
  | InsertExecNode stmt _ _ => insert_close stmt
  | SeqScanExecNode table _ _ _ => seq_scan_close table
  | FilterExecNode input predicate => FilterExecNode (closed input) predicate
  | ProjectExecNode input items => ProjectExecNode (closed input) items
  end.
Definition exec_close : M ExecNode unit := fun node => (Ok tt, closed node).

(** Enough turns for one call of [next]: the rows left and the depth. *)
Fixpoint node_fuel (node : ExecNode) : nat :=
  match node with
  | CreateTableExecNode _ _ _ | InsertExecNode _ _ _ => 1
  | SeqScanExecNode _ rows index _ => S (length rows - index)
  | FilterExecNode input _ | ProjectExecNode input _ => S (node_fuel input)
  end.

(** ** The builder: the state is [last_error] *)

Definition exec_err {A} (msg : string) : M string A := fun _ => (Err ExecutorError, msg).

Definition build_input (build : PhysicalPlan -> M string ExecNode) (msg : string) (input : option PhysicalPlan) :
    M string ExecNode :=
  match input with None => exec_err msg | Some plan => build plan end.

Fixpoint build_node (plan : PhysicalPlan) : M string ExecNode :=
  match plan with
  | PhysicalCreateTable stmt => retM (CreateTableExecNode stmt false false)
  | PhysicalInsert stmt => retM (InsertExecNode stmt false false)
  | PhysicalSeqScan table => retM (SeqScanExecNode table [] 0 false)
  | PhysicalFilter input predicate =>
      let* input := build_input build_node "physical filter requires an input plan" input in
      retM (FilterExecNode input predicate)
  | PhysicalProject input items =>
      let* input := build_input build_node "physical project requires an input plan" input in
      retM (ProjectExecNode input items)
  end.
