(* ===== verification/QueryEngine.v ===== *)
(** * QueryEngine: src/src/query/query_engine.{hpp,cpp}

    One SQL statement from text to rows.  [std::from_chars] and [std::to_string]
    of a [double] are parameters; the parser computes its own fuel and the loop over
    the rows takes more turns than the opened plan has rows. *)
From S2P Require Import Prelude Utils TypeRegistry RowCodec Table Catalog Lexer Ast Parser.
From S2P Require Import QueryCatalog Binder Plan Exec.

Record QueryResult := { qr_rows : list ExecRow }.

(** The [while (true)] loop over the rows, with the [close] that follows it, after
    an error too: the result, or the message and the error. *)
Fixpoint fetch_rows (types : TypeRegistry) (fuel : nat) (rows : list ExecRow) :
    M ExecNode (QueryResult + string * Error) := fun node =>
  match fuel with
  | O => (Fault, node)
  | S fuel =>
      match exec_next types (node_fuel node) node with
      | (Fault, node) => (Fault, node)
      | (Err error, node) =>
          match exec_close node with
          | (Ok _, node) => (Ok (inr ("executor next failed"%string, error)), node)
          | (Err er, node) => (Ok (inr ("executor close after next failure failed"%string, er)), node)
          | (Fault, node) => (Fault, node)
          end
      | (Ok (Some row), node) => fetch_rows types fuel (rows ++ [row]) node
      | (Ok None, node) =>
          match exec_close node with
          | (Ok _, node) => (Ok (inl {| qr_rows := rows |}), node)
          | (Err er, node) => (Ok (inr ("executor close failed"%string, er)), node)
          | (Fault, node) => (Fault, node)
          end
      end
  end.

Section engine.
Context {C : Type} `{QueryCatalog C}.
Context (from_chars_double : list byte -> option Z) (double_to_string : Z -> string).

Record QueryEngine := { qe_catalog : C; qe_types : TypeRegistry; query_error : string }.
Definition QueryEngine_new (catalog : C) (types : TypeRegistry) : QueryEngine :=
  {| qe_catalog := catalog; qe_types := types; query_error := EmptyString |}.
Definition set_qe_catalog (c : C) (q : QueryEngine) : QueryEngine :=
  {| qe_catalog := c; qe_types := qe_types q; query_error := query_error q |}.

Definition query_err {A} (msg : string) (error : Error) : M QueryEngine A := fun q =>
  (Err error, {| qe_catalog := qe_catalog q; qe_types := qe_types q; query_error := msg |}).
Definition query_error_message (q : QueryEngine) : string := query_error q.

(** The outcome of a stage; an error is reported with the stage's message. *)
Definition reported {A} (r : Result A) (msg : string) : M QueryEngine A :=
  match r with Ok a => retM a | Err er => query_err msg er | Fault => faultM end.

Definition bind_stage (stmt : Stmt) : M QueryEngine BoundStmt := fun q =>
  let '(bound, binder) := bind double_to_string stmt (Binder_new (qe_catalog q) (qe_types q)) in
  reported bound (binder_error_message binder) (set_qe_catalog (catalog_of binder) q).

(** The planners, the builder and the executor on a bound statement. *)
Definition run_bound (bound : BoundStmt) : M QueryEngine QueryResult :=
  let* types := getM qe_types in
  let* logical := reported (logical_build bound) logical_error_message in
  let* physical := reported (physical_build logical) physical_error_message in
  let '(built, message) := build_node physical EmptyString in
  let* exec := reported built message in
  let* opened := attempt (zoom qe_catalog set_qe_catalog (exec_open exec)) in
  let* exec := reported opened "executor open failed" in
  let* result := liftR (fetch_rows types (S (node_fuel exec)) [] exec).1 in
  match result with
  | inl result => retM result
  | inr (msg, error) => query_err msg error
  end.

Definition execute (sql : list byte) : M QueryEngine QueryResult :=
  let '(parsed, parser) := parse from_chars_double (Parser_new sql) in
  let* parsed := reported parsed (error_message parser) in
  match parsed with
  | [stmt] => let* bound := bind_stage stmt in run_bound bound
  | _ => query_err "execute expects exactly one SQL statement" InvalidArgument
  end.
End engine.
Arguments QueryEngine C : clear implicits.
