(* ===== verification/Database.v ===== *)
(** * Database: what the catalog promises to the query layer

    A database is a set of named tables, each with a schema and rows of typed
    values, and the types that have a name.  [DatabaseLaws] states the calls of
    [QueryCatalog] as operations on it; the binder, the executor and the query
    engine are verified against these laws and [CatalogDb] shows them of the
    catalog. *)
From S2P Require Import Prelude Utils TypeRegistry BuiltinTypes RowCodec RowCodecSpec Table Catalog QueryCatalog.

Record DbTable := { db_schema : TableSchema; db_rows : list (list Value) }.

(** [db_system] are the names of the system relations. *)
Record Database := {
  db_type : string -> option CatalogType;
  db_tables : gmap string DbTable;
  db_system : string -> bool;
}.
Definition db_put (name : string) (T : DbTable) (B : Database) : Database :=
  {| db_type := db_type B; db_tables := <[name := T]> (db_tables B); db_system := db_system B |}.
Definition with_rows (T : DbTable) (rows : list (list Value)) : DbTable :=
  {| db_schema := db_schema T; db_rows := rows |}.
Definition db_oid (T : DbTable) : Z := relation_oid (db_schema T).
Definition db_columns (T : DbTable) : list ColumnSchema := table_columns (db_schema T).

(** ** Types and values *)

Section types.
Context (r : TypeRegistry).

(** A value of the type [o]: of its size, or null. *)
Definition has_type (o : Z) (v : Value) : Prop :=
  v_type_oid v = o /\ exists t, lookup_oid r o = Ok t /\
    (is_null v = false -> size_mismatch t (sizeZ (v_bytes v)) = false).
Definition known_type (o : Z) : Prop := exists t, lookup_oid r o = Ok t.

(** What the query layer needs of the registered types: reading a text is total
    and gives bytes of the type's size, and [bool] is the built-in type. *)
Record registry_ok (bool_type : Type_) : Prop := {
  rk_wf : registry_wf r;
  rk_bool : lookup_name r "bool" = Ok bool_type;
  rk_bool_from : from_text bool_type = bool_from_text;
  rk_bool_to : to_text bool_type = bool_to_text;
  rk_bool_size : fixed_size bool_type = Some 1;
  rk_texts o t text : lookup_oid r o = Ok t ->
    match from_text t text with
    | Ok bs => size_mismatch t (sizeZ bs) = false
    | Err _ => True
    | Fault => False
    end;
}.

Record table_wf (name : string) (T : DbTable) : Prop := {
  tw_name : table_name (db_schema T) = name;
  tw_types : Forall (fun column => known_type (col_type_oid column)) (db_columns T);
  tw_count : Z.of_nat (length (db_columns T)) < 2 ^ 32;
  tw_rows : Forall (Forall2 (fun column v => has_type (col_type_oid column) v) (db_columns T)) (db_rows T);
}.

(** The types with a name are those of the registry, [bool] among them. *)
Record database_wf (B : Database) : Prop := {
  dw_types name t : db_type B name = Some t ->
    exists ty, lookup_name r name = Ok ty /\ oid ty = ct_oid t /\ type_name ty = ct_name t;
  dw_bool : is_Some (db_type B "bool");
  dw_tables : map_Forall table_wf (db_tables B);
}.

(** The rows that the table stores of [vss] before it meets one that does not fit
    its columns. *)
Fixpoint accepted (T : DbTable) (vss : list (list Value)) : list (list Value) :=
  match vss with
  | [] => []
  | vs :: rest => if decide (row_ok (RowCodec_new r (db_columns T)) vs) then vs :: accepted T rest else []
  end.

Lemma accepted_with_rows T rows vss : accepted (with_rows T rows) vss = accepted T vss.
Proof. induction vss as [|vs vss IH]; [done|]. cbn. by rewrite IH. Qed.
Lemma accepted_all T vss : Forall (row_ok (RowCodec_new r (db_columns T))) vss -> accepted T vss = vss.
Proof. induction 1 as [|vs vss Hvs _ IH]; [done|]. cbn. by rewrite decide_True, IH. Qed.

Lemma accepted_Forall T (P : list Value -> Prop) vss :
  Forall P vss -> Forall (fun vs => row_ok (RowCodec_new r (db_columns T)) vs /\ P vs) (accepted T vss).
Proof. induction 1 as [|vs vss Hvs _ IH]; [constructor|]. cbn. case_decide; [by constructor|constructor]. Qed.

Lemma lookup_name_oid name t : registry_wf r -> lookup_name r name = Ok t -> lookup_oid r (oid t) = Ok t.
Proof.
  intros Hwf (i & Hi & _)%lookup_name_wf; [|done]. apply lookup_oid_wf; [done|]. eauto.
Qed.

Lemma lookup_oid_positive o t : lookup_oid r o = Ok t -> 0 < o.
Proof. unfold lookup_oid, edb_assert. destruct (Z.ltb_spec 0 o); [done|]. done. Qed.

Lemma lookup_oid_oid o t : registry_wf r -> lookup_oid r o = Ok t -> oid t = o.
Proof. intros Hwf (i & _ & Ho)%lookup_oid_wf; done. Qed.
End types.

(** ** The laws *)

(** How a catalog is seen as a database: [db_ready] says that the table of an oid
    is open, [db_room] that a table can take given rows one after the other. *)
Class DatabaseView (C : Type) := {
  db_holds : C -> Database -> Prop;
  db_ready : C -> Z -> Prop;
  db_room : C -> TableSchema -> list (list Value) -> Prop;
  db_can_create : C -> Database -> CreateTableSpec -> Prop;
}.

Section view.
Context {C : Type} `{!DatabaseView C}.

(** The database is as before, open tables stay open, room stays, and so does what
    can be created. *)
Record db_keeps (B : Database) (c c' : C) : Prop := {
  kp_holds : db_holds c' B;
  kp_ready o : db_ready c o -> db_ready c' o;
  kp_room name T vss : db_tables B !! name = Some T ->
    db_room c (db_schema T) vss -> db_room c' (db_schema T) vss;
  kp_create spec : db_can_create c B spec -> db_can_create c' B spec;
}.
Lemma db_keeps_refl B c : db_holds c B -> db_keeps B c c.
Proof. by split. Qed.
Lemma db_keeps_trans B c c1 c2 : db_keeps B c c1 -> db_keeps B c1 c2 -> db_keeps B c c2.
Proof. intros [H1 H2 H3 H4] [G1 G2 G3 G4]. split; eauto. Qed.

Definition found_type (B : Database) (name : string) : Result CatalogType :=
  match db_type B name with Some t => Ok t | None => Err NotFound end.
Definition new_table (o : Z) (spec : CreateTableSpec) : DbTable :=
  {| db_schema := {| relation_oid := o; table_name := spec_name spec; table_columns := spec_columns spec |};
     db_rows := [] |}.
End view.

Class DatabaseLaws (C : Type) `{QueryCatalog C} `{!DatabaseView C} (r : TypeRegistry) := {
  law_wf c B : db_holds c B -> database_wf r B;
  law_get_type c B name : db_holds c B ->
    exists c', qc_get_type name c = (found_type B name, c') /\ db_keeps B c c';
  law_get_class c B name : db_holds c B -> db_system B name = false ->
    exists res c', qc_get_class name c = (res, c') /\ db_keeps B c c' /\
      match db_tables B !! name with
      | Some T => exists k, res = Ok k /\ cc_oid k = db_oid T
      | None => res = Err NotFound
      end;
  law_open c B name T : db_holds c B -> db_tables B !! name = Some T ->
    exists c', qc_open_table name c = (Ok (db_oid T), c') /\ db_keeps B c c' /\ db_ready c' (db_oid T);
  law_schema c B name T : db_holds c B -> db_tables B !! name = Some T -> db_ready c (db_oid T) ->
    exists c', qc_schema (db_oid T) c = (Ok (db_schema T), c') /\ db_keeps B c c';
  law_scan c B name T : db_holds c B -> db_tables B !! name = Some T -> db_ready c (db_oid T) ->
    exists c', qc_scan (db_oid T) c = (Ok (db_rows T), c') /\ db_keeps B c c';
  law_insert c B name T vs rest : db_holds c B -> db_tables B !! name = Some T -> db_ready c (db_oid T) ->
    Forall (fun vs => row_ok (RowCodec_new r (db_columns T)) vs /\ row_size vs < 2 ^ 32) (vs :: rest) ->
    db_room c (db_schema T) (vs :: rest) ->
    exists id c' rows, qc_insert (db_oid T) vs c = (Ok id, c') /\ db_holds c' (db_put name (with_rows T rows) B) /\
      db_ready c' (db_oid T) /\ db_room c' (db_schema T) rest /\ rows ≡ₚ (stored <$> vs) :: db_rows T;
  law_insert_bad c B name T vs : db_holds c B -> db_tables B !! name = Some T -> db_ready c (db_oid T) ->
    ~ row_ok (RowCodec_new r (db_columns T)) vs ->
    exists er c', qc_insert (db_oid T) vs c = (Err er, c') /\ db_keeps B c c';
  law_create c B spec : db_holds c B -> db_can_create c B spec ->
    exists o c', qc_create_table spec c = (Ok o, c') /\ db_tables B !! spec_name spec = None /\
      db_holds c' (db_put (spec_name spec) (new_table o spec) B);
  law_create_again c B spec T : db_holds c B -> db_tables B !! spec_name spec = Some T ->
    spec_name spec <> EmptyString -> spec_columns spec <> [] ->
    exists c', qc_create_table spec c = (Err AlreadyExists, c') /\ db_holds c' B;
  law_create_invalid c B spec : db_holds c B -> spec_name spec = EmptyString \/ spec_columns spec = [] ->
    exists c', qc_create_table spec c = (Err InvalidArgument, c') /\ db_holds c' B;
}.
