(* ===== verification/BinderSpec.v ===== *)
(** * BinderSpec: elaboration

    [elaborates] gives the typing rules of the SQL subset: which bound expression
    an expression stands for over a table of a database.  The binder decides it:
    it returns the elaborated expression when there is one and an error when there
    is none.  Bound expressions are well typed. *)
From S2P Require Import Prelude Utils TypeRegistry BuiltinTypes RowCodec RowCodecSpec Table Catalog Ast.
From S2P Require Import QueryCatalog Binder Database.

(** ** Deciding a relation *)

(** The result is the only element of [R], or an error when [R] has none. *)
Definition decides {A} (R : A -> Prop) (res : Result A) : Prop :=
  match res with
  | Ok a => forall a', R a' <-> a' = a
  | Err _ => forall a, ~ R a
  | Fault => False
  end.

(** ** The rules *)

Section rules.
Context (r : TypeRegistry) (double_to_string : Z -> string) (B : Database).

Definition type_ref (t : CatalogType) : BoundTypeRef :=
  {| bt_oid := ct_oid t; bt_name := ct_name t; bt_param := None |}.
Definition named_type (name : string) : option BoundTypeRef := type_ref <$> db_type B name.

(** The type a literal has on its own. *)
Definition literal_type (l : Literal) : option BoundTypeRef :=
  match l with
  | NullLiteral => None
  | IntLiteral _ => named_type "int64"
  | FloatLiteral _ => named_type "float64"
  | StrLiteral _ => named_type "text"
  | BoolLiteral _ => named_type "bool"
  end.

(** A literal as a value of the type [t]: null where nulls are allowed, or what
    the type reads from the literal's text. *)
Inductive literal_as (t : BoundTypeRef) (nulls : bool) : Literal -> BoundLiteral -> Prop :=
  | literal_null : nulls = true ->
      literal_as t nulls NullLiteral
        {| bl_type := t; bl_value := {| v_type_oid := bt_oid t; v_bytes := []; is_null := true |} |}
  | literal_read l text ty bytes :
      literal_text double_to_string l = Some text -> lookup_oid r (bt_oid t) = Ok ty -> from_text ty text = Ok bytes ->
      literal_as t nulls l
        {| bl_type := t; bl_value := {| v_type_oid := bt_oid t; v_bytes := bytes; is_null := false |} |}.

(** The first column with the name, whatever its case. *)
Definition first_column (name : string) (columns : list BoundColumnRef) (c : BoundColumnRef) : Prop :=
  exists before after, columns = before ++ c :: after /\
    lower_ascii (br_name c) = lower_ascii name /\
    Forall (fun c' => lower_ascii (br_name c') <> lower_ascii name) before.

Definition logical (op : BinaryOp) : bool := match op with OpAnd | OpOr => true | _ => false end.
Definition oid_of (e : BoundExpr) : Z := bt_oid (bound_expr_type e).

(** A literal operand that is not of the type of the other operand is read again
    as a literal of that type, the left one first. *)
Inductive elaborates (columns : list BoundColumnRef) : option BoundTypeRef -> Expr -> BoundExpr -> Prop :=
  | elab_literal target t l v :
      (if target is Some t' then t = t' else literal_type l = Some t) -> literal_as t true l v ->
      elaborates columns target (LiteralExpr l) (BLiteral v)
  | elab_column target name c :
      first_column name columns c -> elaborates columns target (ColumnRef name) (BColumn c)
  | elab_logical target op x y x' y' bt :
      logical op = true -> named_type "bool" = Some bt ->
      elaborates columns None x x' -> elaborates columns None y y' ->
      oid_of x' = bt_oid bt -> oid_of y' = bt_oid bt ->
      elaborates columns target (BinaryExpr op x y) (BBinary op x' y' bt)
  | elab_same target op x y x' y' bt :
      logical op = false -> named_type "bool" = Some bt ->
      elaborates columns None x x' -> elaborates columns None y y' -> oid_of x' = oid_of y' ->
      elaborates columns target (BinaryExpr op x y) (BBinary op x' y' bt)
  | elab_left target op x y x0 x' y' bt :
      logical op = false -> named_type "bool" = Some bt ->
      elaborates columns None x x0 -> elaborates columns None y y' -> oid_of x0 <> oid_of y' ->
      is_literal x = true -> elaborates columns (Some (bound_expr_type y')) x x' ->
      elaborates columns target (BinaryExpr op x y) (BBinary op x' y' bt)
  | elab_right target op x y x' y0 y' bt :
      logical op = false -> named_type "bool" = Some bt ->
      elaborates columns None x x' -> elaborates columns None y y0 -> oid_of x' <> oid_of y0 ->
      is_literal x = false -> is_literal y = true -> elaborates columns (Some (bound_expr_type x')) y y' ->
      elaborates columns target (BinaryExpr op x y) (BBinary op x' y' bt).

(** ** Tables and statements *)

Definition column_type (o : Z) : BoundTypeRef :=
  match lookup_oid r o with
  | Ok t => {| bt_oid := oid t; bt_name := type_name t; bt_param := None |}
  | _ => {| bt_oid := o; bt_name := EmptyString; bt_param := None |}
  end.
Definition bound_column (rel : Z) (i : nat) (column : ColumnSchema) : BoundColumnRef :=
  {| br_relation_oid := rel; br_attnum := Z.of_nat i + 1; br_name := col_name column;
     br_type := column_type (col_type_oid column); br_nullable := nullable column |}.
Definition table_columns_of (T : DbTable) : list BoundColumnRef :=
  imap (bound_column (db_oid T)) (db_columns T).
Definition table_ref (T : DbTable) : BoundTableRef :=
  {| tr_relation_oid := db_oid T; tr_name := table_name (db_schema T); tr_columns := table_columns_of T |}.

Inductive item_elaborates (columns : list BoundColumnRef) : SelectItem -> BoundSelectItem -> Prop :=
  | item_star : item_elaborates columns StarItem BoundStarItem
  | item_expr e alias e' : elaborates columns None e e' ->
      item_elaborates columns (ExprItem e alias) (BoundExprItem e' alias).

Inductive where_elaborates (columns : list BoundColumnRef) : option Expr -> option BoundExpr -> Prop :=
  | where_none : where_elaborates columns None None
  | where_some e e' bt : elaborates columns None e e' -> named_type "bool" = Some bt -> oid_of e' = bt_oid bt ->
      where_elaborates columns (Some e) (Some e').

Record select_elaborates (T : DbTable) (s : SelectStmt) (b : BoundSelectStmt) : Prop := {
  se_table : bs_table b = table_ref T;
  se_items : Forall2 (item_elaborates (table_columns_of T)) (ss_items s) (bs_items b);
  se_where : where_elaborates (table_columns_of T) (ss_where s) (bs_where b);
}.

(** A row of literals for the given target columns. *)
Definition row_elaborates (targets : list BoundColumnRef) (row : list Expr) (b : list BoundLiteral) : Prop :=
  Forall3 (fun target e v => exists l, e = LiteralExpr l /\ literal_as (br_type target) (br_nullable target) l v)
    targets row b.

(** The columns an INSERT names, without repetition; all of them if it names none. *)
Definition targets_elaborate (T : DbTable) (names : list string) (targets : list BoundColumnRef) : Prop :=
  match names with
  | [] => targets = table_columns_of T
  | _ => Forall2 (fun name c => first_column name (table_columns_of T) c) names targets /\
      NoDup ((fun c => lower_ascii (br_name c)) <$> targets)
  end.

Record insert_elaborates (T : DbTable) (s : InsertStmt) (b : BoundInsertStmt) : Prop := {
  ie_table : bi_table b = table_ref T;
  ie_columns : targets_elaborate T (is_column_names s) (bi_columns b);
  ie_rows : Forall2 (row_elaborates (bi_columns b)) (is_rows s) (bi_rows b);
}.

(** A column definition with a type of the database. *)
Definition def_elaborates (d : ColumnDef) (b : BoundColumnDef) : Prop :=
  exists t, db_type B (canonical_type_name (cd_type d)) = Some t /\
    b = {| bd_name := cd_name d;
           bd_type := {| bt_oid := ct_oid t; bt_name := ct_name t; bt_param := ty_param (cd_type d) |};
           bd_nullable := negb (cd_not_null d); bd_primary_key := cd_primary_key d; bd_unique := cd_unique d |}.
Record create_elaborates (s : CreateTableStmt) (b : BoundCreateTableStmt) : Prop := {
  ce_name : bc_table_name b = ct_table_name s;
  ce_if_not_exists : bc_if_not_exists b = ct_if_not_exists s;
  ce_distinct : NoDup ((fun d => lower_ascii (cd_name d)) <$> ct_columns s);
  ce_columns : Forall2 def_elaborates (ct_columns s) (bc_columns b);
}.
End rules.

(** ** Types of bound expressions *)

Section typing.
Context (r : TypeRegistry) (double_to_string : Z -> string) (tb : Type_) (Hr : registry_ok r tb).
Context (B : Database) (HB : database_wf r B).
#[local] Abbreviation elab := (elaborates r double_to_string B).

Lemma named_known name t : named_type B name = Some t -> known_type r (bt_oid t).
Proof.
  intros (ct & Hct & ->)%fmap_Some. destruct (dw_types _ _ HB _ _ Hct) as (ty & Hty & Ho & _). exists ty. cbn.
  rewrite <- Ho. apply (lookup_name_oid r name); [apply (rk_wf _ _ Hr)|done].
Qed.

Definition known_columns (cols : list BoundColumnRef) : Prop :=
  Forall (fun c => known_type r (bt_oid (br_type c))) cols.
Definition known_target (target : option BoundTypeRef) : Prop :=
  if target is Some t then known_type r (bt_oid t) else True.

Lemma literal_type_known l t : literal_type B l = Some t -> known_type r (bt_oid t).
Proof. destruct l; try done; apply named_known. Qed.

Lemma literal_as_type t nulls l v : literal_as r double_to_string t nulls l v -> bl_type v = t.
Proof. by intros []. Qed.

Lemma first_column_elem name cols c : first_column name cols c -> c ∈ cols.
Proof using Type. intros (before & after & -> & _). apply list_elem_of_In, in_elt. Qed.

Lemma elab_known cols target e e' :
  known_columns cols -> known_target target -> elab cols target e e' -> known_type r (oid_of e').
Proof.
  intros Hc Ht He. destruct He as [target t l v Ht' Hl|target name c Hf| | | |]; try by eapply named_known.
  - apply literal_as_type in Hl. unfold oid_of. cbn. rewrite Hl.
    destruct target; [by subst|]. by eapply literal_type_known.
  - apply first_column_elem in Hf. by apply (proj1 (Forall_forall _ _) Hc).
Qed.
End typing.

(** ** The binder decides the rules *)

Section binder.
Context {C : Type} `{!QueryCatalog C} `{!DatabaseView C} (r : TypeRegistry) `{!DatabaseLaws C r}.
Context (double_to_string : Z -> string) (tb : Type_) (Hr : registry_ok r tb) (B : Database) (HB : database_wf r B).
#[local] Abbreviation Bnd := (Binder C).
#[local] Abbreviation elab := (elaborates r double_to_string B).
Implicit Types (b : Bnd).

Definition binder_ok b : Prop := types_of b = r /\ db_holds (catalog_of b) B.
(** Binding leaves the database as it is. *)
Definition binder_steps b b' : Prop := types_of b' = r /\ db_keeps B (catalog_of b) (catalog_of b').

Definition binds {A} (m : M Bnd A) (R : A -> Prop) : Prop := forall b, binder_ok b ->
  exists res b', m b = (res, b') /\ binder_steps b b' /\ decides R res.

Lemma binder_steps_ok b b' : binder_steps b b' -> binder_ok b'.
Proof. intros [? Hk]. split; [done|]. apply (kp_holds _ _ _ Hk). Qed.
Lemma binder_steps_refl b : binder_ok b -> binder_steps b b.
Proof. intros [? ?]. split; [done|]. by apply db_keeps_refl. Qed.
Lemma binder_steps_trans b b1 b2 : binder_steps b b1 -> binder_steps b1 b2 -> binder_steps b b2.
Proof. intros [_ H1] [? H2]. split; [done|]. by eapply db_keeps_trans. Qed.

Lemma binds_ret {A} (a : A) (R : A -> Prop) : (forall a', R a' <-> a' = a) -> binds (retM a) R.
Proof. intros HR b Hb. exists (Ok a), b. split; [done|]. split; [by apply binder_steps_refl|done]. Qed.
Lemma binds_err {A} er (R : A -> Prop) : (forall a, ~ R a) -> binds (errM er) R.
Proof. intros HR b Hb. exists (Err er), b. split; [done|]. split; [by apply binder_steps_refl|done]. Qed.
Lemma binds_fail {A} msg er (R : A -> Prop) : (forall a, ~ R a) -> binds (bind_fail msg er) R.
Proof.
  intros HR b Hb. eexists (Err er), _. split; [done|]. split; [|done]. destruct Hb. split; [done|]. by apply db_keeps_refl.
Qed.
Lemma binds_bind {A A'} (m : M Bnd A) (k : A -> M Bnd A') (R1 : A -> Prop) (R : A' -> Prop) :
  binds m R1 ->
  (forall a, R1 a -> (forall a', R1 a' -> a' = a) -> binds (k a) R) ->
  ((forall a, ~ R1 a) -> forall a, ~ R a) -> binds (bindM m k) R.
Proof.
  intros Hm Hk Hno b Hb. destruct (Hm b Hb) as (res & b1 & Hrun & Hs & Hd). unfold bindM. rewrite Hrun.
  destruct res as [a|er|]; [|exists (Err er), b1; split_and!; [done|done|exact (Hno Hd)]|done].
  destruct (Hk a) with (b := b1) as (res & b2 & Hrun2 & Hs2 & Hd2).
  - by apply Hd.
  - intros a'. apply Hd.
  - by eapply binder_steps_ok.
  - exists res, b2. split; [done|]. split; [|done]. by eapply binder_steps_trans.
Qed.
(** A step after which nothing depends on its result but the statement itself. *)
Lemma binds_map {A A'} (m : M Bnd A) (f : A -> A') (R1 : A -> Prop) (R : A' -> Prop) :
  binds m R1 -> (forall x, R x <-> exists a, R1 a /\ x = f a) -> binds (let* a := m in retM (f a)) R.
Proof.
  intros Hm HR. eapply binds_bind; [exact Hm| |].
  - intros a Ha Hu. apply binds_ret. intros x. rewrite HR. split.
    + intros (a' & Ha' & ->). by rewrite (Hu a').
    + intros ->. eauto.
  - intros Hno x. rewrite HR. intros (a & Ha & _). by apply (Hno a).
Qed.
Lemma binds_types {A} (k : TypeRegistry -> M Bnd A) (R : A -> Prop) : binds (k r) R -> binds (bindM (getM types_of) k) R.
Proof.
  intros Hk b Hb. unfold bindM, getM. rewrite (proj1 Hb). by apply Hk.
Qed.


(** ** Types *)

Lemma lookup_type_name_binds name :
  binds (lookup_type_name name) (fun t => named_type B name = Some t).
Proof using Hr HB DatabaseLaws0.
  intros b [Ht Hc]. destruct (law_get_type (catalog_of b) B name Hc) as (c' & Hg & Hk).
  unfold lookup_type_name, attempt, on_catalog, zoom, bindM. rewrite Hg. unfold found_type, named_type.
  destruct (db_type B name) as [t|]; eexists _, _; (split; [done|]); (split; [by split|]); cbn; [|done].
  intros t'. split; [by intros [= <-]|by intros ->].
Qed.

Lemma infer_literal_binds l : binds (infer_literal_type l) (fun t => literal_type B l = Some t).
Proof using Hr HB DatabaseLaws0.
  destruct l; try apply lookup_type_name_binds. apply binds_fail. done.
Qed.

Lemma coerce_binds l t nulls :
  known_type r (bt_oid t) ->
  binds (coerce_literal_to_type double_to_string l t nulls) (literal_as r double_to_string t nulls l).
Proof using Hr.
  intros [ty Hty]. unfold coerce_literal_to_type. destruct (literal_text double_to_string l) as [text|] eqn:Htext.
  - apply binds_types. rewrite Hty. pose proof (rk_texts _ _ Hr _ _ text Hty) as Htx.
    destruct (from_text ty text) as [bytes|er|] eqn:Hf; [|apply binds_fail|done].
    + apply binds_ret. intros v. split; [|intros ->; by eapply literal_read].
      inversion 1; subst; [done|]. congruence.
    + intros v. inversion 1; subst; [done|]. congruence.
  - assert (l = NullLiteral) as -> by (by destruct l). destruct nulls; cbn [negb]; [apply binds_ret|apply binds_fail].
    + intros v. split; [|intros ->; by constructor]. by inversion 1.
    + intros v. by inversion 1.
Qed.

Lemma find_bound_spec name cols c :
  first_column name cols c <-> find_bound_column (normalized_column_name name) cols = Some c.
Proof.
  unfold normalized_column_name. induction cols as [|c0 cols IH]; cbn.
  - split; [|done]. intros ([|] & ? & ? & _); done.
  - destruct (String.eqb_spec (normalized_column_name (br_name c0)) (lower_ascii name)) as [Heq|Hne].
    + split.
      * intros ([|c1 before] & after & Hl & Hn & Hb); [by injection Hl as -> _|].
        injection Hl as -> _. apply Forall_cons in Hb as [Hb _]. done.
      * intros [= ->]. by exists [], cols.
    + rewrite <- IH. split.
      * intros ([|c1 before] & after & Hl & Hn & Hb).
        { injection Hl as -> _. done. }
        injection Hl as -> ->. apply Forall_cons in Hb as [_ Hb]. by exists before, after.
      * intros (before & after & -> & Hn & Hb). exists (c0 :: before), after. split_and!; [done|done|].
        apply Forall_cons. split; [exact Hne|done].
Qed.

Lemma column_binds name table : binds (bind_column_ref name table) (first_column name (tr_columns table)).
Proof.
  unfold bind_column_ref. destruct (find_bound_column _ _) as [c|] eqn:Hf; [apply binds_ret|apply binds_fail].
  - intros c'. rewrite find_bound_spec, Hf. split; congruence.
  - intros c'. rewrite find_bound_spec, Hf. done.
Qed.

(** ** Expressions *)

Definition literal_target (l : Literal) (target : option BoundTypeRef) (t : BoundTypeRef) : Prop :=
  if target is Some t' then t = t' else literal_type B l = Some t.

Lemma literal_binds l target nulls :
  known_target r target ->
  binds (bind_literal double_to_string l target nulls)
    (fun v => exists t, literal_target l target t /\ literal_as r double_to_string t nulls l v).
Proof using Hr HB DatabaseLaws0.
  intros Ht. unfold bind_literal. eapply (binds_bind _ _ (literal_target l target)).
  - destruct target; [by apply binds_ret|apply infer_literal_binds].
  - intros t Hlt Hu. assert (Hk : known_type r (bt_oid t)).
    { destruct target; cbn in Hlt; [by subst|]. by eapply literal_type_known. }
    intros b Hb. destruct (coerce_binds l t nulls Hk b Hb) as (res & b' & Hrun & Hs & Hd). exists res, b'. split_and!; try done.
    destruct res; try done; cbn in *.
    + intros v. rewrite <- Hd. split; [|eauto]. intros (t' & Hlt' & Hv). by rewrite <- (Hu t').
    + intros v (t' & Hlt' & Hv). apply (Hd v). by rewrite <- (Hu t').
  - intros Hno v (t & Hlt & _). by apply (Hno t).
Qed.

Lemma logical_binds cols target op x y x' y' bt :
  logical op = true -> named_type B "bool" = Some bt ->
  (forall e, elab cols None x e <-> e = x') -> (forall e, elab cols None y e <-> e = y') ->
  binds (if negb (is_bool_expr x' bt) || negb (is_bool_expr y' bt)
         then bind_fail "logical expressions require bool operands" AnalyzerError
         else retM (BBinary op x' y' bt)) (elab cols target (BinaryExpr op x y)).
Proof.
  intros Hop Hbt Hx Hy. unfold is_bool_expr. fold (oid_of x') (oid_of y').
  destruct (Z.eqb_spec (oid_of x') (bt_oid bt)) as [Hx'|Hx'], (Z.eqb_spec (oid_of y') (bt_oid bt)) as [Hy'|Hy'];
    cbn [negb orb]; [apply binds_ret; intros e; split; [|intros ->]|apply binds_fail; intros e..].
  2: econstructor; try done; [by apply Hx|by apply Hy].
  all: inversion 1 as [| |? ? ? ? x1 y1 bt1 _ Hb1 He1 He2| | |]; subst; [|congruence..].
  all: apply Hx in He1 as ->; apply Hy in He2 as ->; congruence.
Qed.

Lemma literal_again cols t x x' : is_literal x = true -> elab cols (Some t) x x' -> bound_expr_type x' = t.
Proof.
  intros Hl. inversion 1 as [? t' l v Ht Hv| | | | |]; subst; try done. cbn. by apply literal_as_type in Hv.
Qed.

(** The cases of a comparison, by the types of its operands. *)
Lemma comparison_iff cols target op x y x' y' bt e :
  logical op = false -> named_type B "bool" = Some bt ->
  (forall e, elab cols None x e <-> e = x') -> (forall e, elab cols None y e <-> e = y') ->
  elab cols target (BinaryExpr op x y) e <->
    if decide (oid_of x' = oid_of y') then e = BBinary op x' y' bt
    else if is_literal x then exists x2, elab cols (Some (bound_expr_type y')) x x2 /\ e = BBinary op x2 y' bt
    else if is_literal y then exists y2, elab cols (Some (bound_expr_type x')) y y2 /\ e = BBinary op x' y2 bt
    else False.
Proof.
  intros Hop Hbt Hx Hy. pose proof (proj2 (Hx x') eq_refl) as Ex. pose proof (proj2 (Hy y') eq_refl) as Ey. split.
  - inversion 1; subst; try congruence;
      repeat match goal with
      | H : elab cols None x _ |- _ => apply Hx in H; subst
      | H : elab cols None y _ |- _ => apply Hy in H; subst
      end; simplify_eq; case_decide; try done; repeat case_match; simplify_eq; try done; by eexists.
  - case_decide; [intros ->; by eapply elab_same|]. destruct (is_literal x) eqn:Hlx; [|destruct (is_literal y) eqn:Hly; [|done]].
    + intros (x2 & He & ->). by eapply elab_left.
    + intros (y2 & He & ->). by eapply elab_right.
Qed.

Lemma comparison_binds cols target op x y x' y' bt bind_left bind_right :
  logical op = false -> named_type B "bool" = Some bt ->
  (forall e, elab cols None x e <-> e = x') -> (forall e, elab cols None y e <-> e = y') ->
  known_type r (oid_of x') -> known_type r (oid_of y') ->
  (forall t, known_type r (bt_oid t) -> binds (bind_left (Some t)) (elab cols (Some t) x)) ->
  (forall t, known_type r (bt_oid t) -> binds (bind_right (Some t)) (elab cols (Some t) y)) ->
  binds (bind_comparison op x y bind_left bind_right bt x' y') (elab cols target (BinaryExpr op x y)).
Proof.
  intros Hop Hbt Hx Hy Kx Ky Hbl Hbr. pose proof (fun e => comparison_iff cols target op x y x' y' bt e Hop Hbt Hx Hy) as Hiff.
  unfold bind_comparison. fold (oid_of x') (oid_of y'). case_decide as Hd.
  { rewrite (proj2 (Z.eqb_eq _ _) Hd). cbn [negb]. intros b Hb. unfold bindM, retM at 1. fold (oid_of x') (oid_of y').
    rewrite (proj2 (Z.eqb_eq _ _) Hd). revert b Hb. apply binds_ret. intros e. rewrite Hiff. done. }
  rewrite (proj2 (Z.eqb_neq _ _) Hd). cbn [negb]. destruct (is_literal x) eqn:Hlx; [|destruct (is_literal y) eqn:Hly].
  - eapply (binds_bind _ _ (fun p => elab cols (Some (bound_expr_type y')) x p.1 /\ p.2 = y')).
    + eapply binds_map; [by apply Hbl|]. intros [x2 y2]. cbn. naive_solver.
    + intros [x2 y2] [He Hy2] Hu. cbn in *. subst. apply literal_again in He as Ht; [|done]. rewrite Ht, Z.eqb_refl. cbn.
      apply binds_ret. intros e. rewrite Hiff. split; [|by eauto]. intros (x3 & He3 & ->).
      specialize (Hu (x3, y') (conj He3 eq_refl)). congruence.
    + intros Hno e. rewrite Hiff. intros (x3 & He3 & _). by apply (Hno (x3, y')).
  - eapply (binds_bind _ _ (fun p => elab cols (Some (bound_expr_type x')) y p.2 /\ p.1 = x')).
    + eapply binds_map; [by apply Hbr|]. intros [x2 y2]. cbn. naive_solver.
    + intros [x2 y2] [He Hx2] Hu. cbn in *. subst. apply literal_again in He as Ht; [|done]. rewrite Ht, Z.eqb_refl. cbn.
      apply binds_ret. intros e. rewrite Hiff. split; [|by eauto]. intros (y3 & He3 & ->).
      specialize (Hu (x', y3) (conj He3 eq_refl)). congruence.
    + intros Hno e. rewrite Hiff. intros (y3 & He3 & _). by apply (Hno (x', y3)).
  - intros b Hb. unfold bindM at 1, retM at 1. fold (oid_of x') (oid_of y'). rewrite (proj2 (Z.eqb_neq _ _) Hd). cbn [negb].
    revert b Hb. apply binds_fail. intros e. rewrite Hiff. tauto.
Qed.

(** The binder decides elaboration. *)
Lemma expr_binds table e target :
  known_columns r (tr_columns table) -> known_target r target ->
  binds (bind_expr double_to_string e table target) (elab (tr_columns table) target e).
Proof using Hr HB DatabaseLaws0.
  intros Hc. revert target. induction e as [l|name|op x IHx y IHy]; intros target Ht; cbn [bind_expr].
  - eapply binds_map; [by apply literal_binds|]. intros e. split.
    + inversion 1; subst. eexists. split; [|done]. by eexists.
    + intros (v & (t & Hlt & Hv) & ->). by eapply elab_literal.
  - eapply binds_map; [apply column_binds|]. intros e. split; [inversion 1; subst; by eexists|].
    intros (c & Hf & ->). by constructor.
  - unfold bind_binary_expr. eapply binds_bind; [apply lookup_type_name_binds| |].
    2: { intros Hno e He. inversion He; subst; eapply Hno; eassumption. }
    intros bt Hbt _. eapply binds_bind; [by apply IHx| |].
    2: { intros Hno e He. inversion He; subst; eapply Hno; eassumption. }
    intros x' Hx' Hux. eapply binds_bind; [by apply IHy| |].
    2: { intros Hno e He. inversion He; subst; eapply Hno; eassumption. }
    intros y' Hy' Huy.
    assert (Hx : forall e, elab (tr_columns table) None x e <-> e = x') by (split; [apply Hux|by intros ->]).
    assert (Hy : forall e, elab (tr_columns table) None y e <-> e = y') by (split; [apply Huy|by intros ->]).
    assert (Kx : known_type r (oid_of x')) by (by eapply (elab_known _ _ tb Hr B HB (tr_columns table) None)).
    assert (Ky : known_type r (oid_of y')) by (by eapply (elab_known _ _ tb Hr B HB (tr_columns table) None)).
    destruct op; first [by apply logical_binds | apply comparison_binds; auto].
Qed.

(** ** Tables *)

Lemma make_attnum_small i : 0 <= i < 2 ^ 32 - 1 -> make_attnum i = i + 1.
Proof. intros Hi. unfold make_attnum. rewrite wrap64_id by lia. apply wrap32_id. lia. Qed.

Lemma bind_columns_ok b rel i cols :
  types_of b = r -> Forall (fun column => known_type r (col_type_oid column)) cols ->
  Z.of_nat i + Z.of_nat (length cols) < 2 ^ 32 ->
  bind_columns rel (Z.of_nat i) cols b = (Ok (imap (fun j => bound_column r rel (i + j)) cols), b).
Proof.
  intros Ht. revert i. induction cols as [|column cols IH]; intros i; [done|]. intros [[t Hk] Hks]%Forall_cons Hlen.
  cbn [bind_columns length imap] in *. unfold bindM at 1, lookup_type_oid. erewrite bind_ok by done. cbn beta.
  rewrite Ht, Hk. cbn [retM]. replace (Z.of_nat i + 1) with (Z.of_nat (S i)) by lia.
  erewrite bind_ok by (apply IH; [done|lia]). unfold retM. do 2 f_equal. f_equal.
  - unfold bound_column, column_type. rewrite Hk, Nat.add_0_r, make_attnum_small by lia. done.
  - apply imap_ext. intros j x _. unfold compose. by replace (i + S j)%nat with (S i + j)%nat by lia.
Qed.

Lemma bind_table_ok b name T :
  binder_ok b -> db_system B name = false -> db_tables B !! name = Some T ->
  exists b', bind_table name b = (Ok (table_ref r T), b') /\ binder_steps b b'.
Proof using Hr HB DatabaseLaws0.
  intros [Ht Hc] Hs HT. pose proof (dw_tables _ _ HB _ _ HT) as Hwf.
  destruct (law_get_class (catalog_of b) B name Hc Hs) as (res & c1 & Hg & Hk1 & Hres). rewrite HT in Hres.
  destruct Hres as (k & -> & Hk). destruct (law_open c1 B name T (kp_holds _ _ _ Hk1) HT) as (c2 & Ho & Hk2 & Hrd).
  destruct (law_schema c2 B name T (kp_holds _ _ _ Hk2) HT Hrd) as (c3 & Hsc & Hk3).
  unfold bind_table, known_table, on_catalog, zoom, attempt. unfold bindM at 1 2. rewrite Hg. cbn [retM].
  unfold bindM at 1 2. cbn [catalog_of set_catalog]. rewrite Ho. cbn [retM].
  unfold bindM at 1. cbn [catalog_of set_catalog]. rewrite Hsc.
  erewrite bind_ok by (apply (bind_columns_ok _ _ 0); [done|apply (tw_types _ _ _ Hwf)|apply (tw_count _ _ _ Hwf)]).
  eexists. split; [unfold retM, table_ref, table_columns_of; by rewrite Hk|]. split; [done|]. cbn.
  by eapply db_keeps_trans, db_keeps_trans.
Qed.

Lemma bind_table_unknown b name :
  binder_ok b -> db_system B name = false -> db_tables B !! name = None ->
  exists b', bind_table name b = (Err AnalyzerError, b') /\ binder_steps b b' /\
    binder_error_message b' = "unknown table '" +:+ name +:+ "'".
Proof using DatabaseLaws0.
  intros [Ht Hc] Hs HT. destruct (law_get_class (catalog_of b) B name Hc Hs) as (res & c1 & Hg & Hk1 & Hres).
  rewrite HT in Hres. subst res. unfold bind_table, known_table, on_catalog, zoom, attempt. unfold bindM at 1 2. rewrite Hg.
  eexists. split; [done|]. split; [by split|done].
Qed.

Lemma table_columns_known T name : db_tables B !! name = Some T -> known_columns r (table_columns_of r T).
Proof using Hr HB.
  intros HT. pose proof (dw_tables _ _ HB _ _ HT) as Hwf. apply Forall_lookup. intros i c Hi.
  unfold table_columns_of in Hi. rewrite list_lookup_imap in Hi. apply fmap_Some in Hi as (column & Hcol & ->).
  destruct (proj1 (Forall_lookup _ _) (tw_types _ _ _ Hwf) i column Hcol) as [t Htk]. exists t. cbn. unfold column_type. rewrite Htk. cbn.
  by rewrite (lookup_oid_oid r _ _ (rk_wf _ _ Hr) Htk).
Qed.

(** ** Statements *)

Lemma items_bind table items :
  known_columns r (tr_columns table) ->
  binds (bind_items double_to_string table items)
    (Forall2 (item_elaborates r double_to_string B (tr_columns table)) items).
Proof using Hr HB DatabaseLaws0.
  intros Hc. induction items as [|[|e alias] items IH]; cbn [bind_items].
  - apply binds_ret. intros l. split; [by inversion 1|intros ->; constructor].
  - eapply binds_map; [exact IH|]. intros l. split.
    + inversion 1 as [|? ? ? ? Hi]; subst. inversion Hi; subst. eauto.
    + intros (l' & Hl & ->). constructor; [constructor|done].
  - eapply binds_bind; [by apply (expr_binds _ _ None)| |].
    + intros e' He Hu. eapply binds_map; [exact IH|]. intros l. split.
      * inversion 1 as [|? ? ? ? Hi]; subst. inversion Hi as [|? ? e2 He2]; subst. rewrite (Hu e2) by done. eauto.
      * intros (l' & Hl & ->). constructor; [by constructor|done].
    + intros Hno l Hl. inversion Hl as [|? ? ? ? Hi]; subst. inversion Hi; subst. eapply Hno; eassumption.
Qed.

Lemma where_binds table w :
  known_columns r (tr_columns table) ->
  binds (match w with
    | None => retM None
    | Some expr =>
        let* where_expr := bind_expr double_to_string expr table None in
        let* bool_type := lookup_type_name "bool" in
        if negb (is_bool_expr where_expr bool_type) then
          bind_fail "WHERE expression must have type bool" AnalyzerError
        else retM (Some where_expr)
    end) (where_elaborates r double_to_string B (tr_columns table) w).
Proof using Hr HB DatabaseLaws0.
  intros Hc. destruct w as [e|].
  - eapply binds_bind; [by apply (expr_binds _ _ None)| |].
    2: { intros Hno x Hx. inversion Hx; subst. eapply Hno; eassumption. }
    intros e' He Hu. eapply binds_bind; [apply lookup_type_name_binds| |].
    2: { intros Hno x Hx. inversion Hx; subst. eapply Hno; eassumption. }
    intros bt Hbt _. unfold is_bool_expr. fold (oid_of e'). destruct (Z.eqb_spec (oid_of e') (bt_oid bt)) as [Heq|Hne]; cbn [negb].
    + apply binds_ret. intros x. split; [|intros ->; by apply (where_some _ _ _ _ _ _ bt)]. inversion 1; subst. f_equal. by apply Hu.
    + apply binds_fail. intros x Hx. inversion Hx as [|? e2 bt2 He2 Hbt2 Heq]; subst. apply Hu in He2 as ->. congruence.
  - apply binds_ret. intros x. split; [by inversion 1|intros ->; constructor].
Qed.

Lemma select_binds b s T :
  binder_ok b -> db_system B (ss_table_name s) = false -> db_tables B !! ss_table_name s = Some T ->
  exists res b', bind_select double_to_string s b = (res, b') /\ binder_steps b b' /\
    decides (select_elaborates r double_to_string B T s) res.
Proof using Hr HB DatabaseLaws0.
  intros Hb Hsys HT. destruct (bind_table_ok b _ T Hb Hsys HT) as (b1 & Hbt & Hs1).
  pose proof (table_columns_known T _ HT) as Hk.
  unfold bind_select. erewrite bind_ok by exact Hbt. cbn beta.
  match goal with |- exists res b', ?m b1 = _ /\ _ /\ _ =>
    assert (Hm : binds m (select_elaborates r double_to_string B T s)) end.
  { eapply binds_bind; [by apply items_bind| |].
    2: { intros Hno x Hx. eapply Hno. apply (se_items _ _ _ _ _ _ Hx). }
    intros items Hitems Hui. eapply binds_map; [by apply where_binds|]. intros x. split.
    - intros [Htab Hit Hwh]. exists (bs_where x). split; [done|]. destruct x as [t i w]. cbn in *. subst. by rewrite (Hui i).
    - intros (w & Hw & ->). by split. }
  destruct (Hm b1) as (res & b' & Hrun & Hs & Hd); [by eapply binder_steps_ok|].
  exists res, b'. split; [done|]. split; [by eapply binder_steps_trans|done].
Qed.

Lemma row_binds targets row :
  known_columns r targets -> length row = length targets ->
  binds (bind_row double_to_string row targets) (row_elaborates r double_to_string targets row).
Proof using Hr HB DatabaseLaws0.
  unfold row_elaborates. intros Hk. revert row. induction Hk as [|target targets Hkt Hk IH]; intros [|e row] Hl; try done.
  - apply binds_ret. intros x. split; [by inversion 1|intros ->; constructor].
  - destruct e as [l|name|op x y]; cbn [bind_row].
    2-3: apply binds_fail; intros vs Hx; inversion Hx as [|? ? ? ? ? ? (l & Hl' & _)]; done.
    eapply binds_bind; [by apply (literal_binds _ (Some (br_type target)))| |].
    + intros v (t & -> & Hv) Hu. eapply binds_map; [by apply IH; injection Hl|]. intros vs. split.
      * inversion 1 as [|? ? ? ? ? vs' (l' & He & Hv')]; subst. injection He as <-. eexists. split; [done|]. f_equal. apply Hu. by eexists.
      * intros (vs' & Hvs & ->). constructor; [by eexists|done].
    + intros Hno x Hx. inversion Hx as [|? ? ? ? ? vs' (l' & He & Hv')]; subst. injection He as <-. eapply Hno. by eexists.
Qed.

Lemma rows_bind targets rows :
  known_columns r targets ->
  binds (bind_rows double_to_string rows targets) (Forall2 (row_elaborates r double_to_string targets) rows).
Proof using Hr HB DatabaseLaws0.
  intros Hk. induction rows as [|row rows IH]; cbn [bind_rows].
  - apply binds_ret. intros x. split; [by inversion 1|intros ->; constructor].
  - destruct (Nat.eqb_spec (length row) (length targets)) as [Hl|Hl]; cbn [negb].
    + eapply binds_bind; [by apply row_binds| |].
      * intros v Hv Hu. eapply binds_map; [exact IH|]. intros l. split.
        -- inversion 1; subst. eexists. split; [eassumption|]. f_equal. by apply Hu.
        -- intros (l' & Hl' & ->). by constructor.
      * intros Hno x Hx. inversion Hx; subst. eapply Hno; eassumption.
    + apply binds_fail. intros x Hx. inversion Hx as [|? ? ? ? Hr']; subst. destruct Hl.
      apply Forall3_length_lm in Hr'. by rewrite Hr'.
Qed.

Lemma target_columns_bind stmt_table table seen names :
  binds (bind_target_columns stmt_table table seen names)
    (fun ts => Forall2 (fun name c => first_column name (tr_columns table) c) names ts /\
      NoDup ((fun c => lower_ascii (br_name c)) <$> ts) /\ Forall (fun c => lower_ascii (br_name c) ∉ seen) ts).
Proof.
  revert seen. induction names as [|name names IH]; intros seen; cbn [bind_target_columns].
  - apply binds_ret. intros x. split; [intros [H _]; by inversion H|intros ->; split_and!; constructor].
  - eapply binds_bind; [apply column_binds| |].
    2: { intros Hno x [Hx _]. inversion Hx; subst. eapply Hno; eassumption. }
    intros c Hc Hu. case_bool_decide as Hin.
    + apply binds_fail. intros x (Hx & _ & Hs). inversion Hx as [|? c' ? ? Hc']; subst. rewrite (Hu c') in Hs by done.
      by apply Forall_cons in Hs as [? _].
    + eapply binds_map; [apply IH|]. intros x. split.
      * intros (Hx & Hnd & Hs). inversion Hx as [|? c' ? ts Hc' Hts]; subst. assert (c' = c) as -> by (by apply Hu).
        exists ts. cbn in Hnd. apply NoDup_cons in Hnd as [Hn Hnd]. apply Forall_cons in Hs as [Hs Hss]. split_and!; try done.
        apply Forall_forall. intros c2 Hc2. rewrite elem_of_union, elem_of_singleton. intros [Heq|Hc2'].
        -- apply Hn. apply list_elem_of_fmap. exists c2. split; [symmetry; exact Heq|done].
        -- by apply (proj1 (Forall_forall _ _) Hss c2).
      * intros (ts & (Hts & Hnd & Hs) & ->). split_and!.
        -- by constructor.
        -- cbn. apply NoDup_cons. split; [|done]. intros (c2 & Heq & Hc2)%list_elem_of_fmap.
           apply (proj1 (Forall_forall _ _) Hs c2 Hc2). rewrite <- Heq. by apply elem_of_union_l, elem_of_singleton.
        -- constructor; [done|]. eapply Forall_impl; [exact Hs|]. intros c2 Hc2. cbn in Hc2. set_solver.
Qed.

Lemma insert_binds b s T :
  binder_ok b -> db_system B (is_table_name s) = false -> db_tables B !! is_table_name s = Some T ->
  exists res b', bind_insert double_to_string s b = (res, b') /\ binder_steps b b' /\
    decides (insert_elaborates r double_to_string T s) res.
Proof using Hr HB DatabaseLaws0.
  intros Hb Hsys HT. destruct (bind_table_ok b _ T Hb Hsys HT) as (b1 & Hbt & Hs1).
  pose proof (table_columns_known T _ HT) as Hk.
  unfold bind_insert. erewrite bind_ok by exact Hbt. cbn beta.
  match goal with |- exists res b', ?m b1 = _ /\ _ /\ _ =>
    assert (Hm : binds m (insert_elaborates r double_to_string T s)) end.
  { eapply (binds_bind _ _ (targets_elaborate r T (is_column_names s))).
    - destruct (is_column_names s) as [|name names]; [by apply binds_ret|].
      intros b0 Hb0. destruct (target_columns_bind (is_table_name s) (table_ref r T) ∅ (name :: names) b0 Hb0)
        as (res & b2 & Hrun & Hs & Hd). exists res, b2. split_and!; [done|done|].
      assert (Hempty : forall ts : list BoundColumnRef, Forall (fun c => lower_ascii (br_name c) ∉ (∅ : gset string)) ts)
        by (intros ts; apply Forall_true; set_solver).
      destruct res as [ts|er|]; cbn in *; [intros ts'; rewrite <- Hd; naive_solver|naive_solver|done].
    - intros targets Ht Hu. eapply binds_map; [apply rows_bind|].
      + destruct (is_column_names s); cbn in Ht; [by subst|]. destruct Ht as [Ht _].
        apply Forall_forall. intros c Hc. apply list_elem_of_lookup in Hc as (i & Hi).
        destruct (Forall2_lookup_r _ _ _ _ _ Ht Hi) as (n & _ & Hf). apply first_column_elem in Hf.
        by apply (proj1 (Forall_forall _ _) Hk).
      + intros x. split.
        * intros [Htab Hcols Hrows]. exists (bi_rows x). destruct x as [t c rows]. cbn in *. subst.
          by rewrite <- (Hu c).
        * intros (rows & Hrows & ->). by split.
    - intros Hno x Hx. eapply Hno. apply (ie_columns _ _ _ _ _ Hx). }
  destruct (Hm b1) as (res & b' & Hrun & Hs & Hd); [by eapply binder_steps_ok|].
  exists res, b'. split; [done|]. split; [by eapply binder_steps_trans|done].
Qed.

Lemma column_defs_bind table_name seen defs :
  binds (bind_column_defs table_name seen defs)
    (fun bs => Forall2 (def_elaborates B) defs bs /\ NoDup ((fun d => lower_ascii (cd_name d)) <$> defs) /\
      Forall (fun d => lower_ascii (cd_name d) ∉ seen) defs).
Proof using Hr HB DatabaseLaws0.
  revert seen. induction defs as [|d defs IH]; intros seen; cbn [bind_column_defs].
  - apply binds_ret. intros x. split; [intros [H _]; by inversion H|intros ->; split_and!; constructor].
  - case_bool_decide as Hin.
    { apply binds_fail. intros x (_ & _ & Hs). by apply Forall_cons in Hs as [? _]. }
    intros b [Ht Hc]. destruct (law_get_type (catalog_of b) B (canonical_type_name (cd_type d)) Hc) as (c' & Hg & Hk).
    unfold attempt, on_catalog, zoom. unfold bindM at 1. rewrite Hg. unfold found_type.
    destruct (db_type B (canonical_type_name (cd_type d))) as [t|] eqn:Hty.
    2: { eexists _, _. split; [done|]. split; [by split|]. intros x (Hx & _).
         inversion Hx as [|? ? ? ? (t & Ht' & _)]; subst. congruence. }
    match goal with |- exists res b', ?m ?b0 = _ /\ _ /\ decides ?R _ => assert (Hm : binds m R) end.
    { eapply binds_map; [apply IH|]. intros x. split.
      - intros (Hx & Hnd & Hs). inversion Hx as [|? ? ? bs (t' & Ht' & ->) Hbs]; subst. exists bs.
        apply NoDup_cons in Hnd as [Hn Hnd]. apply Forall_cons in Hs as [Hs Hss]. split_and!; try done; [|congruence].
        apply Forall_forall. intros d2 Hd2. rewrite elem_of_union, elem_of_singleton. intros [Heq|Hd2'].
        + apply Hn. apply list_elem_of_fmap. exists d2. split; [symmetry; exact Heq|done].
        + by apply (proj1 (Forall_forall _ _) Hss d2).
      - intros (bs & (Hbs & Hnd & Hs) & ->). split_and!.
        + constructor; [by eexists|done].
        + cbn. apply NoDup_cons. split; [|done]. intros (d2 & Heq & Hd2)%list_elem_of_fmap.
          apply (proj1 (Forall_forall _ _) Hs d2 Hd2). rewrite <- Heq. by apply elem_of_union_l, elem_of_singleton.
        + constructor; [done|]. eapply Forall_impl; [exact Hs|]. intros d2 Hd2. cbn in Hd2. set_solver. }
    destruct (Hm (set_catalog c' b)) as (res & b' & Hrun & Hs & Hd); [split; [done|apply (kp_holds _ _ _ Hk)]|].
    exists res, b'. split; [done|]. split; [|done]. by apply (binder_steps_trans _ (set_catalog c' b)).
Qed.

Lemma create_binds s : binds (bind_create_table s) (create_elaborates B s).
Proof using Hr HB DatabaseLaws0.
  unfold bind_create_table. eapply binds_map; [apply column_defs_bind|]. intros x. split.
  - intros [H1 H2 H3 H4]. exists (bc_columns x). split; [split_and!; try done; apply Forall_true; set_solver|].
    destruct x. cbn in *. by subst.
  - intros (bs & (H1 & H2 & _) & ->). by split.
Qed.
End binder.
