(* ===== verification/ExecSpec.v ===== *)
(** * ExecSpec: expressions as values, plans as functions on rows

    [value_of] gives every well-typed expression a value without failing;
    [eval_expr] computes it.  [plan_row] says what a plan does with one row of its
    table; pulling rows through the nodes gives the rows that [plan_row] keeps, in
    order, up to the first error. *)
From S2P Require Import Prelude Utils TypeRegistry BuiltinTypes RowCodec RowCodecSpec Table Catalog CatalogValues.
From S2P Require Import Ast QueryCatalog Binder Plan Exec Database BinderSpec QueryEngine.

(** ** Expressions *)

(** How an operator orders its operands. *)
Definition ordered (op : BinaryOp) (c : comparison) : bool :=
  match op, c with
  | OpEq, Eq | OpNeq, (Lt | Gt) | OpLt, Lt | OpLe, (Lt | Eq) | OpGt, Gt | OpGe, (Gt | Eq) => true
  | _, _ => false
  end.
Definition truth (v : Value) : bool :=
  match v_bytes v with [b] => negb (Byte.eqb b x00) | _ => false end.

Section expressions.
Context (r : TypeRegistry) (tb : Type_).

Definition compares (op : BinaryOp) (v w : Value) : bool :=
  negb (is_null v) && negb (is_null w) &&
  match lookup_oid r (v_type_oid v) with
  | Ok t => ordered op (compare t (v_bytes v) (v_bytes w))
  | _ => false
  end.

(** The value on a row: a column is the value at its number. *)
Fixpoint value_of (vals : list Value) (e : BoundExpr) : Value :=
  match e with
  | BLiteral l => bl_value l
  | BColumn c =>
      default {| v_type_oid := bt_oid (br_type c); v_bytes := []; is_null := true |}
        (vals !! Z.to_nat (br_attnum c - 1))
  | BBinary op x y _ =>
      let v := value_of vals x in
      let w := value_of vals y in
      bool_value tb
        (match op with
         | OpAnd => truth v && truth w
         | OpOr => truth v || truth w
         | _ => compares op v w
         end)
  end.

Inductive well_typed (cols : list BoundColumnRef) : BoundExpr -> Prop :=
  | wt_literal l : has_type r (bt_oid (bl_type l)) (bl_value l) -> well_typed cols (BLiteral l)
  | wt_column c : c ∈ cols -> well_typed cols (BColumn c)
  | wt_logical op x y bt : logical op = true -> bt_oid bt = oid tb ->
      well_typed cols x -> well_typed cols y -> oid_of x = oid tb -> oid_of y = oid tb ->
      well_typed cols (BBinary op x y bt)
  | wt_compare op x y bt : logical op = false -> bt_oid bt = oid tb ->
      well_typed cols x -> well_typed cols y -> oid_of x = oid_of y -> well_typed cols (BBinary op x y bt).

(** Columns numbered from one; a row with a value of its type for each. *)
Definition numbered (cols : list BoundColumnRef) : Prop :=
  forall i c, cols !! i = Some c -> br_attnum c = Z.of_nat i + 1.
Definition row_typed (cols : list BoundColumnRef) (vals : list Value) : Prop :=
  Forall2 (fun c v => has_type r (bt_oid (br_type c)) v) cols vals.

Lemma find_value_at c cols vals (k : Z) i v :
  (forall j c, cols !! j = Some c -> br_attnum c = k + Z.of_nat j) -> cols !! i = Some c -> vals !! i = Some v ->
  find_value c cols vals = Ok v.
Proof.
  revert vals k i. induction cols as [|c0 cols IH]; intros vals k i Hn Hi Hv; [done|]. cbn [find_value].
  pose proof (Hn 0%nat c0 eq_refl) as Hc0. pose proof (Hn i c Hi) as Hc.
  destruct i as [|i]; cbn in Hi, Hc, Hc0.
  - injection Hi as ->. rewrite Z.eqb_refl, String.eqb_refl. cbn. destruct vals; [done|]. by injection Hv as ->.
  - destruct (Z.eqb_spec (br_attnum c0) (br_attnum c)) as [Heq|Hne]; [lia|]. cbn [andb].
    destruct vals as [|v0 vals]; [done|]. eapply (IH _ (k + 1) i); [|done|done].
    intros j c' Hj. specialize (Hn (S j) c' Hj). lia.
Qed.

Context (Hr : registry_ok r tb).

Lemma bool_type_known : lookup_oid r (oid tb) = Ok tb.
Proof using Hr. eapply lookup_name_oid; [apply (rk_wf _ _ Hr)|apply (rk_bool _ _ Hr)]. Qed.

Lemma make_bool_value_ok b : make_bool_value tb b = Ok (bool_value tb b).
Proof using Hr. unfold make_bool_value. rewrite (rk_bool_from _ _ Hr). by destruct b. Qed.

Lemma bool_value_typed b : has_type r (oid tb) (bool_value tb b).
Proof using Hr.
  split; [done|]. exists tb. split; [apply bool_type_known|]. intros _. unfold size_mismatch.
  by rewrite (rk_bool_size _ _ Hr).
Qed.

Lemma value_as_bool_ok v : v_type_oid v = oid tb -> value_as_bool v r = Ok (truth v).
Proof using Hr.
  intros Hv. unfold value_as_bool. rewrite Hv, bool_type_known. cbn [bindR]. rewrite (rk_bool_to _ _ Hr).
  unfold truth, bool_to_text. destruct (v_bytes v) as [|b [|]]; try done. by destruct (Byte.eqb b x00).
Qed.

Lemma compare_values_ok op v w :
  logical op = false -> has_type r (v_type_oid v) v -> compare_values op v w r = Ok (compares op v w).
Proof.
  intros Hop (_ & t & Ht & _). unfold compare_values, compares. destruct (is_null v), (is_null w); try done. cbn [orb negb andb].
  rewrite Ht. cbn [bindR]. by destruct op, (compare t (v_bytes v) (v_bytes w)).
Qed.

(** A well-typed expression evaluates to its value, which has its type. *)
Lemma eval_ok cols vals e :
  numbered cols -> row_typed cols vals -> well_typed cols e ->
  eval_expr e {| er_columns := cols; er_values := vals |} r = Ok (value_of vals e) /\
  has_type r (oid_of e) (value_of vals e).
Proof using Hr.
  intros Hn Hrow. induction 1 as [l Hl|c Hc|op x y bt Hop Hbt Hx [IHx Tx] Hy [IHy Ty] Ox Oy|op x y bt Hop Hbt Hx [IHx Tx] Hy [IHy Ty] Oxy];
    cbn [eval_expr value_of].
  - done.
  - apply list_elem_of_lookup in Hc as (i & Hi). destruct (Forall2_lookup_l _ _ _ _ _ Hrow Hi) as (v & Hv & Ht).
    rewrite (Hn _ _ Hi). replace (Z.to_nat (Z.of_nat i + 1 - 1)) with i by lia. rewrite Hv. split; [|done].
    unfold find_column_value. apply (find_value_at c cols vals 1 i v); [|done|done]. intros j c' Hj. rewrite (Hn _ _ Hj). lia.
  - rewrite IHx, IHy. cbn [bindR]. rewrite (rk_bool _ _ Hr). cbn [bindR]. unfold oid_of at 1. cbn [bound_expr_type].
    rewrite Hbt. split; [|apply bool_value_typed]. rewrite Ox in Tx. rewrite Oy in Ty. destruct Tx as [Tx _], Ty as [Ty _].
    destruct op; try done; rewrite !value_as_bool_ok by done; cbn [bindR]; apply make_bool_value_ok.
  - rewrite IHx, IHy. cbn [bindR]. rewrite (rk_bool _ _ Hr). cbn [bindR]. unfold oid_of at 1. cbn [bound_expr_type].
    rewrite Hbt. split; [|apply bool_value_typed]. pose proof Tx as [Tv _].
    destruct op; try done; rewrite compare_values_ok by (done || by rewrite Tv); cbn [bindR]; apply make_bool_value_ok.
Qed.
End expressions.

(** ** Pulling rows *)

(** What the rows go through, one at a time, as far as the first error. *)
Fixpoint gather (f : ExecRow -> Result (option ExecRow)) (rows : list ExecRow) : Result (list ExecRow) :=
  match rows with
  | [] => Ok []
  | row :: rows =>
      let? kept := f row in
      let? out := gather f rows in
      Ok (match kept with Some row => row :: out | None => out end)
  end.

(** The first row that comes through, and how many were taken. *)
Fixpoint pull (f : ExecRow -> Result (option ExecRow)) (rows : list ExecRow) : Result (option ExecRow) * nat :=
  match rows with
  | [] => (Ok None, 0%nat)
  | row :: rows =>
      match f row with
      | Ok None => let '(res, n) := pull f rows in (res, S n)
      | res => (res, 1%nat)
      end
  end.

Definition andThen (f g : ExecRow -> Result (option ExecRow)) (row : ExecRow) : Result (option ExecRow) :=
  match f row with Ok (Some out) => g out | res => res end.

Lemma pull_then f g rows :
  pull (andThen f g) rows =
    match pull f rows with
    | (Ok (Some out), n) =>
        match g out with
        | Ok None => let '(res, m) := pull (andThen f g) (drop n rows) in (res, (n + m)%nat)
        | res => (res, n)
        end
    | res => res
    end.
Proof.
  induction rows as [|row rows IH]; [done|]. cbn [pull]. unfold andThen at 1. destruct (f row) as [[out|]|er|] eqn:Hf; try done.
  rewrite IH. destruct (pull f rows) as [[[out|]|er|] n]; try done. cbn [drop].
  destruct (g out) as [[|]|er|]; try done. by destruct (pull (andThen f g) (drop n rows)).
Qed.

Lemma pull_some f rows out n : pull f rows = (Ok (Some out), n) -> (1 <= n <= length rows)%nat.
Proof.
  revert n. induction rows as [|row rows IH]; intros n; [done|]. cbn. destruct (f row) as [[o|]|er|]; try done.
  - intros [= -> <-]. lia.
  - destruct (pull f rows) as [res m]. intros [= -> <-]. specialize (IH m eq_refl). lia.
Qed.

Lemma gather_pull f rows :
  gather f rows = match pull f rows with
    | (Ok (Some out), n) => let? rest := gather f (drop n rows) in Ok (out :: rest)
    | (Ok None, _) => Ok []
    | (Err er, _) => Err er
    | (Fault, _) => Fault
    end.
Proof.
  induction rows as [|row rows IH]; [done|]. cbn [gather pull]. destruct (f row) as [[o|]|er|]; try done.
  cbn [bindR]. rewrite IH. destruct (pull f rows) as [[[out|]|er|] n]; try done.
  cbn [drop]. by destruct (gather f (drop n rows)).
Qed.

(** ** Nodes *)

(** What a node does with one row of its table. *)
Definition filter_row (types : TypeRegistry) (predicate : BoundExpr) (row : ExecRow) : Result (option ExecRow) :=
  let? keep := keeps_row types predicate row in Ok (if keep then Some row else None).
Definition project_row (types : TypeRegistry) (items : list BoundSelectItem) (row : ExecRow) :
    Result (option ExecRow) :=
  let? out := project_items types row items ExecRow_empty in Ok (Some out).

Fixpoint node_row (types : TypeRegistry) (node : ExecNode) : ExecRow -> Result (option ExecRow) :=
  match node with
  | FilterExecNode input predicate => andThen (node_row types input) (filter_row types predicate)
  | ProjectExecNode input items => andThen (node_row types input) (project_row types items)
  | _ => fun row => Ok (Some row)
  end.

(** The open scan at the bottom of a node, and the node with the scan moved. *)
Fixpoint node_scan (node : ExecNode) : option (BoundTableRef * list (list Value)) :=
  match node with
  | SeqScanExecNode table rows _ true => Some (table, rows)
  | FilterExecNode input _ | ProjectExecNode input _ => node_scan input
  | _ => None
  end.
Fixpoint seek (index : nat) (node : ExecNode) : ExecNode :=
  match node with
  | SeqScanExecNode table rows _ opened => SeqScanExecNode table rows index opened
  | FilterExecNode input predicate => FilterExecNode (seek index input) predicate
  | ProjectExecNode input items => ProjectExecNode (seek index input) items
  | _ => node
  end.
Fixpoint node_depth (node : ExecNode) : nat :=
  match node with FilterExecNode input _ | ProjectExecNode input _ => S (node_depth input) | _ => 1 end.

Definition scan_row (table : BoundTableRef) (vals : list Value) : ExecRow :=
  {| er_columns := tr_columns table; er_values := vals |}.

Lemma node_fuel_seek node table rows index :
  node_scan node = Some (table, rows) -> node_fuel (seek index node) = (node_depth node + (length rows - index))%nat.
Proof. induction node; cbn; try done; [by destruct opened; intros [= -> ->]|..]; intros H; by rewrite IHnode. Qed.

(** One call of [next] takes the rows up to the first that comes through. *)
Lemma next_pull types node table rows :
  node_scan node = Some (table, rows) -> forall index fuel,
  (node_depth node + (length rows - index) <= fuel)%nat ->
  exec_next types fuel (seek index node) =
    let '(res, n) := pull (node_row types node) (scan_row table <$> drop index rows) in (res, seek (index + n) node).
Proof.
  induction node as [| |tab rows0 i [] |input IH predicate|input IH items]; intros Hs; cbn in Hs; try done.
  - injection Hs as -> ->. intros index [|fuel] Hf; [cbn in Hf; lia|]. cbn. unfold seq_scan_next. cbn.
    destruct (rows !! index) as [vals|] eqn:Hl.
    + rewrite (drop_S _ _ _ Hl). cbn. by rewrite Nat.add_1_r.
    + rewrite drop_ge by (by apply lookup_ge_None). cbn. by rewrite Nat.add_0_r.
  - intros index fuel. revert index. induction fuel as [|fuel IHf]; intros index Hf; [cbn in Hf; lia|].
    cbn [exec_next seek node_row node_depth] in *. rewrite IH by (done || lia). rewrite pull_then.
    destruct (pull (node_row types input) _) as [[[out|]|er|] n] eqn:Hp; try done.
    unfold filter_row at 1. destruct (keeps_row types predicate out) as [[]|er|]; try done. cbn [bindR].
    apply pull_some in Hp as Hn. rewrite length_fmap, length_drop in Hn. rewrite IHf by lia.
    rewrite <- fmap_drop, drop_drop. destruct (pull (andThen _ _) _) as [res m]. by rewrite Nat.add_assoc.
  - intros index [|fuel] Hf; [cbn in Hf; lia|].
    cbn [exec_next seek node_row node_depth] in *. rewrite IH by (done || lia). rewrite pull_then.
    destruct (pull (node_row types input) _) as [[[out|]|er|] n] eqn:Hp; try done.
    unfold project_row at 1, project_next. by destruct (project_items types out items ExecRow_empty) as [row|er|].
Qed.

(** The loop over [next] gathers the rows that come through. *)
Lemma fetch_gather types node table rows :
  node_scan node = Some (table, rows) -> forall fuel index acc, (length rows - index < fuel)%nat ->
  (fetch_rows types fuel acc (seek index node)).1 =
    match gather (node_row types node) (scan_row table <$> drop index rows) with
    | Ok out => Ok (inl {| qr_rows := acc ++ out |})
    | Err er => Ok (inr ("executor next failed"%string, er))
    | Fault => Fault
    end.
Proof.
  intros Hs. induction fuel as [|fuel IH]; intros index acc Hf; [lia|]. cbn [fetch_rows].
  rewrite (node_fuel_seek _ _ _ _ Hs), (next_pull _ _ _ _ Hs) by lia. rewrite gather_pull.
  destruct (pull (node_row types node) _) as [[[out|]|er|] n] eqn:Hp; try done; [|by rewrite app_nil_r].
  apply pull_some in Hp as Hn. rewrite length_fmap, length_drop in Hn. rewrite IH by lia.
  rewrite <- fmap_drop, drop_drop. destruct (gather _ _) as [rest|er|]; try done. cbn [bindR]. by rewrite <- app_assoc.
Qed.

(** ** Plans *)

Inductive query_plan (table : BoundTableRef) : PhysicalPlan -> Prop :=
  | query_scan : query_plan table (PhysicalSeqScan table)
  | query_filter input predicate : query_plan table input -> query_plan table (PhysicalFilter (Some input) predicate)
  | query_project input items : query_plan table input -> query_plan table (PhysicalProject (Some input) items).

Fixpoint plan_row (types : TypeRegistry) (plan : PhysicalPlan) : ExecRow -> Result (option ExecRow) :=
  match plan with
  | PhysicalFilter (Some input) predicate => andThen (plan_row types input) (filter_row types predicate)
  | PhysicalProject (Some input) items => andThen (plan_row types input) (project_row types items)
  | _ => fun row => Ok (Some row)
  end.

Section plans.
Context {C : Type} `{!QueryCatalog C} `{!DatabaseView C} (r : TypeRegistry) `{!DatabaseLaws C r}.

(** Building a plan over a table and opening it reads the table's rows. *)
Lemma build_open_ok types plan table c B T :
  query_plan table plan -> db_holds c B -> db_tables B !! tr_name table = Some T ->
  exists node node' c', build_node plan EmptyString = (Ok node, EmptyString) /\
    exec_open node c = (Ok node', c') /\ db_keeps B c c' /\
    node_scan node' = Some (table, db_rows T) /\ node' = seek 0 node' /\ node_row types node' = plan_row types plan.
Proof using DatabaseLaws0.
  intros Hplan Hc HT. induction Hplan as [|input predicate _ IH|input items _ IH].
  - destruct (law_open c B _ T Hc HT) as (c1 & Ho & Hk1 & Hrd).
    destruct (law_scan c1 B _ T (kp_holds _ _ _ Hk1) HT Hrd) as (c2 & Hs & Hk2).
    exists (SeqScanExecNode table [] 0 false), (SeqScanExecNode table (db_rows T) 0 true), c2.
    split; [done|]. split; [|by split_and!; [eapply db_keeps_trans|..]].
    cbn [exec_open]. unfold seq_scan_open. erewrite bind_ok by exact Ho. by erewrite bind_ok by exact Hs.
  - destruct IH as (node & node' & c' & Hb & Ho & Hk & Hs & Hsk & Hrow).
    exists (FilterExecNode node predicate), (FilterExecNode node' predicate), c'. cbn [build_node build_input exec_open].
    erewrite bind_ok by exact Hb. erewrite bind_ok by exact Ho. split_and!; try done; cbn; [by rewrite <- Hsk|by rewrite Hrow].
  - destruct IH as (node & node' & c' & Hb & Ho & Hk & Hs & Hsk & Hrow).
    exists (ProjectExecNode node items), (ProjectExecNode node' items), c'. cbn [build_node build_input exec_open].
    erewrite bind_ok by exact Hb. erewrite bind_ok by exact Ho. split_and!; try done; cbn; [by rewrite <- Hsk|by rewrite Hrow].
Qed.
End plans.
