(* ===== verification/QuerySpec.v ===== *)
(** * QuerySpec: statements from text to effect

    What SELECT, INSERT and CREATE TABLE do to a database, and that the query
    engine does it: parsing, binding, planning and execution put together. *)
From S2P Require Import Prelude Utils TypeRegistry BuiltinTypes RowCodec RowCodecSpec Table Catalog CatalogValues.
From S2P Require Import Lexer Ast Parser QueryCatalog Binder Plan Exec Database BinderSpec QueryEngine ExecSpec.

(** ** What a SELECT returns *)

Section select.
Context (r : TypeRegistry) (tb : Type_).

Definition where_holds (w : option BoundExpr) (vals : list Value) : bool :=
  match w with None => true | Some e => truth (value_of r tb vals e) end.
Definition item_values (vals : list Value) (item : BoundSelectItem) : list Value :=
  match item with BoundStarItem => vals | BoundExprItem e _ => [value_of r tb vals e] end.
Fixpoint select_columns (cols : list BoundColumnRef) (n : Z) (items : list BoundSelectItem) : list BoundColumnRef :=
  match items with
  | [] => []
  | BoundStarItem :: items => cols ++ select_columns cols (n + sizeZ cols) items
  | BoundExprItem e alias :: items => output_column e alias n :: select_columns cols (n + 1) items
  end.
Definition select_row (cols : list BoundColumnRef) (items : list BoundSelectItem) (vals : list Value) : ExecRow :=
  {| er_columns := select_columns cols 0 items; er_values := items ≫= item_values vals |}.
(** The items of the rows that satisfy the WHERE clause, in the table's order. *)
Definition select_rows (T : DbTable) (b : BoundSelectStmt) : list ExecRow :=
  select_row (table_columns_of r T) (bs_items b) <$> filter (fun vals => where_holds (bs_where b) vals = true) (db_rows T).

Context (Hr : registry_ok r tb).

Definition item_typed (cols : list BoundColumnRef) (item : BoundSelectItem) : Prop :=
  match item with BoundStarItem => True | BoundExprItem e _ => well_typed r tb cols e end.

Lemma star_columns_ok cols vals projected :
  length cols = length vals ->
  star_columns cols vals projected =
    Ok {| er_columns := er_columns projected ++ cols; er_values := er_values projected ++ vals |}.
Proof.
  revert cols projected. induction vals as [|v vals IH]; intros [|c cols] projected Hl; try done; cbn.
  - rewrite !app_nil_r. by destruct projected.
  - rewrite IH by (by injection Hl). cbn. by rewrite <- !app_assoc.
Qed.

Lemma project_items_ok cols vals items projected :
  numbered cols -> row_typed r cols vals -> Forall (item_typed cols) items ->
  project_items r {| er_columns := cols; er_values := vals |} items projected =
    Ok {| er_columns := er_columns projected ++ select_columns cols (sizeZ (er_columns projected)) items;
          er_values := er_values projected ++ (items ≫= item_values vals) |}.
Proof using Hr.
  intros Hn Hrow Hit. revert projected. induction Hit as [|[|e alias] items Hi Hit IH]; intros projected; cbn.
  - rewrite !app_nil_r. by destruct projected.
  - rewrite star_columns_ok by (by eapply Forall2_length). cbn [bindR]. rewrite IH. cbn. rewrite sizeZ_app, <- !app_assoc. done.
  - rewrite (proj1 (eval_ok r tb Hr cols vals e Hn Hrow Hi)). cbn [bindR]. rewrite IH. cbn.
    rewrite sizeZ_app, <- !app_assoc. done.
Qed.

Lemma filter_row_ok cols vals e :
  numbered cols -> row_typed r cols vals -> well_typed r tb cols e -> oid_of e = oid tb ->
  filter_row r e {| er_columns := cols; er_values := vals |} =
    Ok (if truth (value_of r tb vals e) then Some {| er_columns := cols; er_values := vals |} else None).
Proof using Hr.
  intros Hn Hrow He Ho. destruct (eval_ok r tb Hr cols vals e Hn Hrow He) as [Hev [Ht _]].
  unfold filter_row, keeps_row. rewrite Hev. cbn [bindR]. rewrite (value_as_bool_ok r tb Hr) by congruence. done.
Qed.

Lemma gather_total f (g : list Value -> option ExecRow) table rows :
  Forall (fun vals => f (scan_row table vals) = Ok (g vals)) rows ->
  gather f (scan_row table <$> rows) = Ok (omap g rows).
Proof.
  induction 1 as [|vals rows Hv _ IH]; [done|]. cbn. rewrite Hv. cbn [bindR].
  change (list_fmap ?h ?l) with (h <$> l). rewrite IH. by destruct (g vals).
Qed.

(** The plan of a well-typed select, on one row. *)
Definition kept (cols : list BoundColumnRef) (b : BoundSelectStmt) (vals : list Value) : option ExecRow :=
  if where_holds (bs_where b) vals then Some (select_row cols (bs_items b) vals) else None.

Lemma omap_filter_map {A A'} (p : A -> bool) (f : A -> A') (l : list A) :
  omap (fun x => if p x then Some (f x) else None) l = f <$> filter (fun x => p x = true) l.
Proof. induction l as [|x l IH]; [done|]. rewrite filter_cons. cbn [omap list_omap].
  destruct (p x) eqn:Hp; [rewrite decide_True by done; rewrite fmap_cons; f_equal|rewrite decide_False by done]; exact IH. Qed.
End select.

(** ** Typing of elaborated statements *)

Section typing.
Context (r : TypeRegistry) (double_to_string : Z -> string) (tb : Type_) (Hr : registry_ok r tb).
Context (B : Database) (HB : database_wf r B).

Lemma named_bool bt : named_type B "bool" = Some bt -> bt_oid bt = oid tb.
Proof using Hr HB.
  intros (ct & Hct & ->)%fmap_Some. destruct (dw_types _ _ HB _ _ Hct) as (ty & Hty & Ho & _).
  rewrite (rk_bool _ _ Hr) in Hty. injection Hty as <-. by cbn.
Qed.

Lemma literal_as_typed t nulls l v :
  known_type r (bt_oid t) -> literal_as r double_to_string t nulls l v ->
  has_type r (bt_oid (bl_type v)) (bl_value v).
Proof using Hr.
  intros [ty Hty]. intros [Hn|l' text ty' bytes Ht Hl Hf]; (split; [done|]).
  - by exists ty.
  - exists ty'. split; [done|]. intros _. pose proof (rk_texts _ _ Hr _ _ text Hl) as Hs. by rewrite Hf in Hs.
Qed.

Lemma elab_well_typed cols target e e' :
  known_columns r cols -> known_target r target -> elaborates r double_to_string B cols target e e' ->
  well_typed r tb cols e'.
Proof using Hr HB.
  intros Hc Ht He. revert Ht. induction He as [target t l v Hlt Hl|target name c Hf|target op x y x' y' bt Hop Hbt _ IHx _ IHy Ox Oy
    |target op x y x' y' bt Hop Hbt _ IHx _ IHy Oxy|target op x y x0 x' y' bt Hop Hbt _ _ Ey IHy _ Hlx Ex' IHx'
    |target op x y x' y0 y' bt Hop Hbt Ex IHx _ _ _ _ Hly Ey' IHy']; intros Ht.
  - constructor. eapply literal_as_typed; [|exact Hl]. destruct target; [by subst|].
    by eapply (literal_type_known r tb Hr B HB).
  - constructor. by eapply first_column_elem.
  - apply named_bool in Hbt as Hb. eapply wt_logical; [done|done|by apply IHx|by apply IHy|congruence|congruence].
  - apply named_bool in Hbt as Hb. by eapply wt_compare; [done|done|apply IHx|apply IHy|].
  - apply named_bool in Hbt as Hb. eapply wt_compare; [done|done| |by apply IHy|].
    + apply IHx'. by eapply (elab_known r double_to_string tb Hr B HB cols None).
    + unfold oid_of. by rewrite (literal_again r double_to_string B cols _ _ _ Hlx Ex').
  - apply named_bool in Hbt as Hb. eapply wt_compare; [done|done|by apply IHx| |].
    + apply IHy'. by eapply (elab_known r double_to_string tb Hr B HB cols None).
    + unfold oid_of. by rewrite (literal_again r double_to_string B cols _ _ _ Hly Ey').
Qed.
End typing.

(** ** Statements *)

Section statements.
Context {C : Type} `{!QueryCatalog C} `{!DatabaseView C} (r : TypeRegistry) `{!DatabaseLaws C r}.
Context (from_chars_double : list byte -> option Z) (double_to_string : Z -> string).
Context (tb : Type_) (Hr : registry_ok r tb).
#[local] Abbreviation Engine := (QueryEngine C).
Implicit Types (q : Engine) (B : Database) (T : DbTable).

Definition engine_ok q B : Prop := qe_types q = r /\ db_holds (qe_catalog q) B.

(** *** Bound tables *)

Lemma column_type_oid o : known_type r o -> bt_oid (column_type r o) = o.
Proof using Hr.
  intros [t Ht]. unfold column_type. rewrite Ht. cbn. by apply (lookup_oid_oid r o t (rk_wf _ _ Hr)).
Qed.

Lemma table_columns_numbered T : numbered (table_columns_of r T).
Proof.
  intros i c Hi. unfold table_columns_of in Hi. rewrite list_lookup_imap in Hi.
  by apply fmap_Some in Hi as (column & _ & ->).
Qed.

Lemma table_rows_typed T name vals :
  table_wf r name T -> vals ∈ db_rows T -> row_typed r (table_columns_of r T) vals.
Proof using Hr.
  intros Hwf Hv. pose proof (proj1 (Forall_forall _ _) (tw_rows _ _ _ Hwf) vals Hv) as Hrow.
  pose proof (tw_types _ _ _ Hwf) as Hk. unfold row_typed, table_columns_of.
  apply Forall2_same_length_lookup_2; [by rewrite length_imap; eapply Forall2_length|].
  intros i c v Hc Hvi. rewrite list_lookup_imap in Hc. apply fmap_Some in Hc as (column & Hcol & ->).
  cbn. rewrite column_type_oid by exact (Forall_lookup_1 _ _ _ _ Hk Hcol). exact (Forall2_lookup_lr _ _ _ _ _ _ Hrow Hcol Hvi).
Qed.

(** *** The stages *)

(** One statement: binding it, then running what was bound. *)
Lemma execute_statement q sql stmt p res b' :
  parse from_chars_double (Parser_new sql) = (Ok [stmt], p) ->
  bind double_to_string stmt (Binder_new (qe_catalog q) (qe_types q)) = (res, b') ->
  execute from_chars_double double_to_string sql q =
    match res with
    | Ok bound => run_bound bound (set_qe_catalog (catalog_of b') q)
    | Err er => query_err (binder_error_message b') er (set_qe_catalog (catalog_of b') q)
    | Fault => (Fault, set_qe_catalog (catalog_of b') q)
    end.
Proof.
  intros Hp Hb. unfold execute. rewrite Hp. erewrite bind_ok by done. cbn beta. unfold bindM at 1, bind_stage. rewrite Hb.
  by destruct res.
Qed.

Lemma steps_engine_ok q B b' :
  engine_ok q B -> binder_steps r B (Binder_new (qe_catalog q) (qe_types q)) b' ->
  engine_ok (set_qe_catalog (catalog_of b') q) B.
Proof. intros [Hty _] [_ Hk]. split; [done|apply (kp_holds _ _ _ Hk)]. Qed.

(** A statement of one kind, wrapped in [BoundStmt]. *)
Lemma bind_wrapped {A} (m : M (Binder C) A) (f : A -> BoundStmt) b res b' :
  m b = (res, b') ->
  (let* bound := m in retM (f bound)) b =
    (match res with Ok x => Ok (f x) | Err er => Err er | Fault => Fault end, b').
Proof. intros Hm. unfold bindM. rewrite Hm. by destruct res. Qed.

Lemma new_binder_ok q B : engine_ok q B -> binder_ok r B (Binder_new (qe_catalog q) (qe_types q)).
Proof. by intros [? ?]. Qed.

Lemma select_plan_row b T name vals :
  table_wf r name T -> vals ∈ db_rows T -> bs_table b = table_ref r T ->
  Forall (item_typed r tb (table_columns_of r T)) (bs_items b) ->
  (forall e, bs_where b = Some e -> well_typed r tb (table_columns_of r T) e /\ oid_of e = oid tb) ->
  forall plan, physical_build (build_select b) = Ok plan ->
  plan_row r plan (scan_row (table_ref r T) vals) = Ok (kept r tb (table_columns_of r T) b vals).
Proof using Hr.
  intros Hwf Hv Htab Hit Hw plan. pose proof (table_rows_typed T name vals Hwf Hv) as Hrow.
  pose proof (table_columns_numbered T) as Hn. unfold build_select, kept, where_holds.
  destruct (bs_where b) as [e|] eqn:Hwh; cbn; intros [= <-]; cbn [plan_row]; unfold andThen at 1, scan_row; cbn.
  - destruct (Hw e eq_refl) as [He Ho]. unfold andThen. rewrite (filter_row_ok r tb Hr) by done.
    destruct (truth (value_of r tb vals e)); [|done]. unfold project_row. by rewrite (project_items_ok r tb Hr).
  - unfold project_row. by rewrite (project_items_ok r tb Hr).
Qed.

(** A bound statement runs the node built for it: open, then the rows. *)
Lemma run_bound_node q bound logical plan node :
  logical_build bound = Ok logical -> physical_build logical = Ok plan ->
  build_node plan EmptyString = (Ok node, EmptyString) ->
  run_bound bound q =
    match exec_open node (qe_catalog q) with
    | (Ok node', c') =>
        match (fetch_rows (qe_types q) (S (node_fuel node')) [] node').1 with
        | Ok (inl result) => (Ok result, set_qe_catalog c' q)
        | Ok (inr (msg, er)) => query_err msg er (set_qe_catalog c' q)
        | Err er => (Err er, set_qe_catalog c' q)
        | Fault => (Fault, set_qe_catalog c' q)
        end
    | (Err er, c') => query_err "executor open failed" er (set_qe_catalog c' q)
    | (Fault, c') => (Fault, set_qe_catalog c' q)
    end.
Proof.
  intros Hl Hp Hb. unfold run_bound. erewrite bind_ok by done. rewrite Hl. erewrite bind_ok by done. cbn beta. rewrite Hp.
  erewrite bind_ok by done. cbn beta. rewrite Hb. erewrite bind_ok by done. cbn beta.
  unfold attempt, zoom. unfold bindM at 1. destruct (exec_open node (qe_catalog q)) as [[node'|er|] c']; [|done|done].
  unfold bindM at 1. cbn [reported retM]. unfold bindM, liftR.
  destruct (fetch_rows _ _ _ _).1 as [[result|[msg er]]|er|]; done.
Qed.

(** A query plan for the table, run to the end. *)
Lemma run_plan_ok q B bound logical plan table T :
  engine_ok q B -> logical_build bound = Ok logical -> physical_build logical = Ok plan ->
  query_plan table plan -> db_tables B !! tr_name table = Some T ->
  exists q', engine_ok q' B /\ query_error q' = query_error q /\
    run_bound bound q =
      match gather (plan_row r plan) (scan_row table <$> db_rows T) with
      | Ok rows => (Ok {| qr_rows := rows |}, q')
      | Err er => query_err "executor next failed" er q'
      | Fault => (Fault, q')
      end.
Proof using DatabaseLaws0.
  intros [Hty Hc] Hl Hp Hplan HT.
  destruct (build_open_ok r r plan table (qe_catalog q) B T Hplan Hc HT) as (node & node' & c' & Hb & Ho & Hk & Hs & Hsk & Hrow).
  exists (set_qe_catalog c' q). split; [split; [done|apply (kp_holds _ _ _ Hk)]|]. split; [done|].
  rewrite (run_bound_node q _ _ _ _ Hl Hp Hb), Ho, Hty.
  rewrite Hsk at 2. rewrite (fetch_gather r node' table (db_rows T) Hs).
  - rewrite drop_0, Hrow. by destruct (gather _ _).
  - rewrite Hsk, (node_fuel_seek _ _ _ _ Hs). lia.
Qed.

Lemma select_query_plan b : exists plan,
  physical_build (build_select b) = Ok plan /\ query_plan (bs_table b) plan.
Proof.
  unfold build_select. destruct (bs_where b); eexists; (split; [done|]); repeat constructor.
Qed.

(** A SELECT that elaborates returns the selected rows. *)
Lemma run_select_ok q B s b T :
  engine_ok q B -> db_tables B !! ss_table_name s = Some T -> select_elaborates r double_to_string B T s b ->
  exists q', run_bound (BoundSelect b) q = (Ok {| qr_rows := select_rows r tb T b |}, q') /\ engine_ok q' B.
Proof using Hr DatabaseLaws0.
  intros Hq HT [Htab Hit Hwh]. pose proof (law_wf _ _ (proj2 Hq)) as HB. pose proof (dw_tables _ _ HB _ _ HT) as Hwf.
  pose proof (table_columns_known r tb Hr B HB T _ HT) as Hk.
  destruct (select_query_plan b) as (plan & Hp & Hplan). rewrite Htab in Hplan.
  assert (Hname : db_tables B !! tr_name (table_ref r T) = Some T) by (cbn; by rewrite (tw_name _ _ _ Hwf)).
  destruct (run_plan_ok q B (BoundSelect b) _ plan _ T Hq eq_refl Hp Hplan Hname) as (q' & Hq' & _ & Hrun).
  exists q'. split; [|done]. rewrite Hrun, (gather_total _ (kept r tb (table_columns_of r T) b)).
  - unfold kept, select_rows. by rewrite omap_filter_map.
  - apply Forall_forall. intros vals Hv. eapply select_plan_row; try done.
    + apply Forall_forall. intros item Hi. apply list_elem_of_lookup in Hi as (i & Hi).
      destruct (Forall2_lookup_r _ _ _ _ _ Hit Hi) as (item0 & _ & He). destruct He as [|e alias e' He]; [done|].
      by eapply (elab_well_typed r double_to_string tb Hr B HB _ None).
    + intros e' He. rewrite He in Hwh. inversion Hwh as [|e ? bt Hee Hbt Ho]; subst. split.
      * by eapply (elab_well_typed r double_to_string tb Hr B HB _ None).
      * rewrite Ho. by apply (named_bool r tb Hr B HB).
Qed.

(** *** INSERT *)

Definition row_literals (row : list BoundLiteral) : list Value := bl_value <$> row.
Definition insert_values (b : BoundInsertStmt) : list (list Value) := row_literals <$> bi_rows b.

Lemma literal_value_ok column t nulls l v :
  known_type r (col_type_oid column) -> t = column_type r (col_type_oid column) -> nulls = nullable column ->
  literal_as r double_to_string t nulls l v ->
  (forall cols, value_ok (RowCodec_new r cols) column (bl_value v)) /\ stored (bl_value v) = bl_value v.
Proof using Hr.
  intros Hk -> -> Hl. pose proof Hk as [ty Hty].
  assert (Htype : forall cols, lookup_type (RowCodec_new r cols) (col_type_oid column) = Ok ty).
  { intros cols. unfold lookup_type. cbn. by rewrite Hty. }
  destruct Hl as [Hn|l text ty' bytes Ht Hl Hf]; cbn; rewrite column_type_oid by done; (split; [|done]); intros cols;
    exists ty; (split; [done|]); (split; [done|]); [exact Hn|].
  rewrite column_type_oid in Hl by done. pose proof (rk_texts _ _ Hr _ _ text Hl) as Hs. rewrite Hf in Hs. cbn. congruence.
Qed.

Lemma row_elaborates_ok T row vs :
  Forall (fun column => known_type r (col_type_oid column)) (db_columns T) ->
  row_elaborates r double_to_string (table_columns_of r T) row vs ->
  row_ok (RowCodec_new r (db_columns T)) (bl_value <$> vs) /\ stored <$> (bl_value <$> vs) = bl_value <$> vs.
Proof using Hr.
  intros Hk Hrow. unfold row_elaborates in Hrow.
  assert (Hat : forall i v, vs !! i = Some v -> exists column, db_columns T !! i = Some column /\
    (forall cols, value_ok (RowCodec_new r cols) column (bl_value v)) /\ stored (bl_value v) = bl_value v).
  { intros i v Hv. destruct (Forall3_lookup_r _ _ _ _ _ _ Hrow Hv) as (target & e & Ht & _ & l & _ & Hl).
    unfold table_columns_of in Ht. rewrite list_lookup_imap in Ht. apply fmap_Some in Ht as (column & Hcol & ->).
    exists column. split; [done|]. eapply literal_value_ok; [|done|done|exact Hl]. exact (Forall_lookup_1 _ _ _ _ Hk Hcol). }
  assert (Hlen : length vs = length (db_columns T)).
  { apply Forall3_length_lr in Hrow. unfold table_columns_of in Hrow. by rewrite length_imap in Hrow. }
  split.
  - unfold row_ok. cbn [schema RowCodec_new]. apply Forall2_same_length_lookup_2; [by rewrite length_fmap|].
    intros i column v Hcol Hv. rewrite list_lookup_fmap in Hv. apply fmap_Some in Hv as (v0 & Hv0 & ->).
    destruct (Hat i v0 Hv0) as (column' & Hcol' & Hok & _). simplify_eq. apply Hok.
  - apply list_eq. intros i. rewrite !list_lookup_fmap. destruct (vs !! i) as [v|] eqn:Hv; [|done]. cbn.
    destruct (Hat i v Hv) as (_ & _ & _ & Hst). by rewrite Hst.
Qed.

Lemma db_put_put name T T' B : db_put name T (db_put name T' B) = db_put name T B.
Proof. unfold db_put. cbn. by rewrite insert_insert_eq. Qed.
Lemma db_put_same name T B : db_tables B !! name = Some T -> db_put name T B = B.
Proof. intros HT. unfold db_put. rewrite insert_id by done. by destruct B. Qed.

(** The rows go in one after the other, up to the first that does not fit. *)
Lemma insert_rows_ok c B name T rows :
  db_holds c B -> db_tables B !! name = Some T -> db_ready c (db_oid T) ->
  Forall (fun row => stored <$> (bl_value <$> row) = bl_value <$> row /\ row_size (bl_value <$> row) < 2 ^ 32) rows ->
  db_room c (db_schema T) (accepted r T (row_literals <$> rows)) ->
  exists res c' rows', insert_rows (db_oid T) rows c = (res, c') /\ db_holds c' (db_put name (with_rows T rows') B) /\
    rows' ≡ₚ db_rows T ++ accepted r T (row_literals <$> rows) /\
    if decide (accepted r T (row_literals <$> rows) = row_literals <$> rows) then res = Ok tt else exists er, res = Err er.
Proof using DatabaseLaws0.
  intros Hc HT Hrd Hok Hroom. revert c B T Hc HT Hrd Hok Hroom. induction rows as [|row rows IH]; intros c B T Hc HT Hrd Hok Hroom.
  { exists (Ok tt), c, (db_rows T). split; [done|]. rewrite app_nil_r. split.
    - rewrite db_put_same; [done|]. by destruct T.
    - by rewrite decide_True. }
  apply Forall_cons in Hok as [[Hst Hsz] Hok]. rewrite fmap_cons in *. cbn [accepted] in *.
  destruct (decide (row_ok (RowCodec_new r (db_columns T)) (row_literals row))) as [Hrow|Hrow].
  - destruct (law_insert c B name T (bl_value <$> row) (accepted r T (row_literals <$> rows)) Hc HT Hrd)
      as (id & c1 & rows1 & Hins & Hc1 & Hrd1 & Hroom1 & Hp1); [|done|].
    { constructor; [done|]. apply accepted_Forall. apply Forall_fmap. eapply Forall_impl; [exact Hok|]. by intros ? []. }
    rewrite Hst in Hp1.
    destruct (IH c1 (db_put name (with_rows T rows1) B) (with_rows T rows1) Hc1) as (res & c' & rows' & Hrun & Hc' & Hp & Hres).
    { cbn. by rewrite lookup_insert_eq. }
    { done. }
    { done. }
    { by rewrite accepted_with_rows. }
    rewrite accepted_with_rows in Hp, Hres.
    exists res, c', rows'. cbn [insert_rows]. erewrite bind_ok by exact Hins. split; [exact Hrun|].
    rewrite db_put_put in Hc'. split; [exact Hc'|]. split; [rewrite Hp; cbn; rewrite Hp1; cbn; by rewrite Permutation_middle|].
    destruct (decide (accepted r T _ = _)) as [Heq|Hne]; [rewrite decide_True by congruence; done|].
    rewrite decide_False; [done|]. intros [= Heq]. by apply Hne.
  - destruct (law_insert_bad c B name T (bl_value <$> row) Hc HT Hrd Hrow) as (er & c' & Hins & Hk).
    exists (Err er), c', (db_rows T). cbn [insert_rows]. erewrite bind_fails by exact Hins. split; [done|]. split_and!.
    + rewrite db_put_same; [apply (kp_holds _ _ _ Hk)|]. by destruct T.
    + by rewrite app_nil_r.
    + rewrite decide_False by done. by exists er.
Qed.

(** An elaborated row is stored as it is. *)
Lemma row_literals_stored targets row vs :
  row_elaborates r double_to_string targets row vs -> stored <$> (bl_value <$> vs) = bl_value <$> vs.
Proof.
  unfold row_elaborates. intros Hrow. apply list_eq. intros i. rewrite !list_lookup_fmap.
  destruct (vs !! i) as [v|] eqn:Hv; [|done]. destruct (Forall3_lookup_r _ _ _ _ _ _ Hrow Hv) as (target & e & _ & _ & l & _ & Hl).
  cbn. f_equal. by destruct Hl.
Qed.

(** An INSERT adds its rows to the table, up to the first that does not fit. *)
Lemma run_insert_ok q B s b T :
  engine_ok q B -> db_tables B !! is_table_name s = Some T -> insert_elaborates r double_to_string T s b ->
  Forall (fun vals => row_size vals < 2 ^ 32) (insert_values b) ->
  db_room (qe_catalog q) (db_schema T) (accepted r T (insert_values b)) ->
  exists res q' rows', run_bound (BoundInsert b) q = (res, q') /\
    engine_ok q' (db_put (is_table_name s) (with_rows T rows') B) /\
    rows' ≡ₚ db_rows T ++ accepted r T (insert_values b) /\
    if decide (accepted r T (insert_values b) = insert_values b) then res = Ok {| qr_rows := [] |} else exists er, res = Err er.
Proof using Hr DatabaseLaws0.
  intros [Hty Hc] HT [Htab Hcols Hrows] Hsz Hroom.
  pose proof (law_wf _ _ Hc) as HB. pose proof (dw_tables _ _ HB _ _ HT) as Hwf.
  destruct (law_open _ B _ T Hc HT) as (c1 & Ho & Hk & Hrd).
  destruct (insert_rows_ok c1 B _ T (bi_rows b) (kp_holds _ _ _ Hk) HT Hrd) as (res & c' & rows' & Hrun & Hc' & Hp & Hres).
  - apply Forall_forall. intros row Hin. apply list_elem_of_lookup in Hin as (i & Hi).
    destruct (Forall2_lookup_r _ _ _ _ _ Hrows Hi) as (row0 & _ & Hel). split; [by eapply row_literals_stored|].
    eapply (Forall_lookup_1 _ _ i _ Hsz). unfold insert_values. by rewrite list_lookup_fmap, Hi.
  - by apply (kp_room _ _ _ Hk (is_table_name s) T).
  - change (row_literals <$> bi_rows b) with (insert_values b) in *.
    assert (Hopen : exec_open (InsertExecNode b false false) (qe_catalog q) =
      (match res with Ok _ => Ok (InsertExecNode b true false) | Err er => Err er | Fault => Fault end, c')).
    { cbn [exec_open]. unfold insert_open. rewrite Htab. cbn [tr_name table_ref]. rewrite (tw_name _ _ _ Hwf).
      erewrite bind_ok by exact Ho. unfold bindM. rewrite Hrun. by destruct res as [[]|er|]. }
    destruct (decide _); [subst res|destruct Hres as (er & ->)].
    + eexists _, (set_qe_catalog c' q), rows'. split; [|done]. erewrite run_bound_node by reflexivity. by rewrite Hopen.
    + eexists _, _, rows'. split; [erewrite run_bound_node by reflexivity; by rewrite Hopen|]. by split_and!; [..|eexists].
Qed.

(** Whole rows fit. *)
Lemma whole_rows_accepted B s b T :
  database_wf r B -> db_tables B !! is_table_name s = Some T -> insert_elaborates r double_to_string T s b ->
  is_column_names s = [] -> accepted r T (insert_values b) = insert_values b.
Proof using Hr.
  intros HB HT [Htab Hcols Hrows] Hnames. rewrite Hnames in Hcols. cbn in Hcols. apply accepted_all, Forall_fmap, Forall_forall.
  intros row Hin. apply list_elem_of_lookup in Hin as (i & Hi).
  destruct (Forall2_lookup_r _ _ _ _ _ Hrows Hi) as (row0 & _ & Hel). rewrite Hcols in Hel.
  apply (row_elaborates_ok T row0 row (tw_types _ _ _ (dw_tables _ _ HB _ _ HT)) Hel).
Qed.

(** *** CREATE TABLE *)

Lemma run_create_ok q B b :
  engine_ok q B -> db_can_create (qe_catalog q) B (create_spec b) ->
  exists q' o, run_bound (BoundCreateTable b) q = (Ok {| qr_rows := [] |}, q') /\
    engine_ok q' (db_put (bc_table_name b) (new_table o (create_spec b)) B).
Proof using DatabaseLaws0.
  intros [Hty Hc] Hcan. destruct (law_create _ B _ Hc Hcan) as (o & c' & Hrun & _ & Hc').
  exists (set_qe_catalog c' q), o. split; [|done].
  erewrite run_bound_node by reflexivity. cbn [exec_open]. unfold create_table_open, bindM, attempt. by rewrite Hrun.
Qed.

Lemma run_create_invalid q B b :
  engine_ok q B -> bc_table_name b = EmptyString \/ bc_columns b = [] ->
  exists q', run_bound (BoundCreateTable b) q = (Err InvalidArgument, q') /\ engine_ok q' B.
Proof using DatabaseLaws0.
  intros [Hty Hc] Hbad. destruct (law_create_invalid _ B (create_spec b) Hc) as (c' & Hrun & Hc').
  { destruct Hbad as [Hn|Hn]; [by left|right; cbn; by rewrite Hn]. }
  eexists _. erewrite run_bound_node by reflexivity. cbn [exec_open]. unfold create_table_open. unfold bindM at 1, attempt. rewrite Hrun.
  cbn beta. rewrite bool_decide_eq_false_2, andb_false_r by done. done.
Qed.

Lemma run_create_again q B b T :
  engine_ok q B -> db_tables B !! bc_table_name b = Some T -> bc_table_name b <> EmptyString -> bc_columns b <> [] ->
  exists q', engine_ok q' B /\ run_bound (BoundCreateTable b) q =
    if bc_if_not_exists b then (Ok {| qr_rows := [] |}, q') else query_err "executor open failed" AlreadyExists q'.
Proof using DatabaseLaws0.
  intros [Hty Hc] HT Hn Hcols.
  destruct (law_create_again _ B (create_spec b) T Hc HT Hn) as (c' & Hrun & Hc').
  { cbn. by destruct (bc_columns b). }
  exists (set_qe_catalog c' q). split; [done|].
  erewrite run_bound_node by reflexivity. cbn [exec_open]. unfold create_table_open. unfold bindM at 1, attempt. rewrite Hrun. cbn beta.
  by destruct (bc_if_not_exists b).
Qed.

(** *** Whole statements *)

Lemma execute_select q B (sql : list byte) (s : SelectStmt) (p : Parser) :
  engine_ok q B ->
  parse from_chars_double (Parser_new sql) = (Ok [Select s], p) -> db_system B (ss_table_name s) = false ->
  exists res q', execute from_chars_double double_to_string sql q = (res, q') /\ engine_ok q' B /\
    match db_tables B !! ss_table_name s with
    | None => res = Err AnalyzerError /\ query_error_message q' = "unknown table '" +:+ ss_table_name s +:+ "'"
    | Some T =>
        (exists b, select_elaborates r double_to_string B T s b /\ res = Ok {| qr_rows := select_rows r tb T b |}) \/
        ((forall b, ~ select_elaborates r double_to_string B T s b) /\ exists er, res = Err er)
    end.
Proof using Hr DatabaseLaws0.
  intros Hq Hp Hsys. pose proof (law_wf _ _ (proj2 Hq)) as HB. pose proof (new_binder_ok q B Hq) as Hb.
  destruct (db_tables B !! ss_table_name s) as [T|] eqn:HT.
  - destruct (select_binds r double_to_string tb Hr B HB _ s T Hb Hsys HT) as (res & b' & Hrun & Hs & Hd).
    apply (bind_wrapped _ BoundSelect) in Hrun. pose proof (steps_engine_ok q B b' Hq Hs) as Hq1.
    rewrite (execute_statement q sql _ p _ _ Hp Hrun). destruct res as [x|er|]; [| |done].
    + pose proof (proj2 (Hd x) eq_refl) as Hx.
      destruct (run_select_ok _ B s x T Hq1 HT Hx) as (q' & Hsel & Hq').
      eexists _, q'. split; [exact Hsel|]. split; [done|]. left. by exists x.
    + eexists _, _. split; [done|]. split; [exact Hq1|]. right. split; [exact Hd|by eexists].
  - destruct (bind_table_unknown r B _ (ss_table_name s) Hb Hsys HT) as (b' & Hrun & Hs & Hmsg).
    assert (Hbind : bind double_to_string (Select s) (Binder_new (qe_catalog q) (qe_types q)) = (Err AnalyzerError, b')).
    { cbn [bind]. unfold bindM, bind_select, bindM. by rewrite Hrun. }
    rewrite (execute_statement q sql _ p _ _ Hp Hbind). eexists _, _. split; [done|].
    split; [by apply (steps_engine_ok q B)|done].
Qed.

Lemma execute_insert q B (sql : list byte) (s : InsertStmt) (p : Parser) :
  engine_ok q B ->
  parse from_chars_double (Parser_new sql) = (Ok [Insert s], p) -> db_system B (is_table_name s) = false ->
  (forall T b, db_tables B !! is_table_name s = Some T -> insert_elaborates r double_to_string T s b ->
    Forall (fun vals => row_size vals < 2 ^ 32) (insert_values b) /\
    db_room (qe_catalog q) (db_schema T) (accepted r T (insert_values b))) ->
  exists res q', execute from_chars_double double_to_string sql q = (res, q') /\
    match db_tables B !! is_table_name s with
    | None => engine_ok q' B /\ res = Err AnalyzerError /\
        query_error_message q' = "unknown table '" +:+ is_table_name s +:+ "'"
    | Some T =>
        (exists b rows, insert_elaborates r double_to_string T s b /\
           engine_ok q' (db_put (is_table_name s) (with_rows T rows) B) /\
           rows ≡ₚ db_rows T ++ accepted r T (insert_values b) /\
           (is_column_names s = [] -> accepted r T (insert_values b) = insert_values b) /\
           if decide (accepted r T (insert_values b) = insert_values b)
           then res = Ok {| qr_rows := [] |} else exists er, res = Err er) \/
        ((forall b, ~ insert_elaborates r double_to_string T s b) /\ (exists er, res = Err er) /\ engine_ok q' B)
    end.
Proof using Hr DatabaseLaws0.
  intros Hq Hp Hsys Hroom. pose proof (law_wf _ _ (proj2 Hq)) as HB. pose proof (new_binder_ok q B Hq) as Hb.
  destruct (db_tables B !! is_table_name s) as [T|] eqn:HT.
  - destruct (insert_binds r double_to_string tb Hr B HB _ s T Hb Hsys HT) as (res & b' & Hrun & Hs & Hd).
    apply (bind_wrapped _ BoundInsert) in Hrun. pose proof (steps_engine_ok q B b' Hq Hs) as Hq1.
    rewrite (execute_statement q sql _ p _ _ Hp Hrun). destruct res as [x|er|]; [| |done].
    + pose proof (proj2 (Hd x) eq_refl) as Hx. destruct (Hroom T x eq_refl Hx) as [Hsz Hrm].
      destruct (run_insert_ok _ B s x T Hq1 HT Hx Hsz) as (res & q' & rows & Hins & Hq' & Hperm & Hres).
      { by apply (kp_room _ _ _ (proj2 Hs) (is_table_name s) T). }
      exists res, q'. split; [exact Hins|]. left. exists x, rows. split_and!; try done.
      by apply (whole_rows_accepted B).
    + eexists _, _. split; [done|]. right. split; [exact Hd|]. split; [by eexists|exact Hq1].
  - destruct (bind_table_unknown r B _ (is_table_name s) Hb Hsys HT) as (b' & Hrun & Hs & Hmsg).
    assert (Hbind : bind double_to_string (Insert s) (Binder_new (qe_catalog q) (qe_types q)) = (Err AnalyzerError, b')).
    { cbn [bind]. unfold bindM, bind_insert, bindM. by rewrite Hrun. }
    rewrite (execute_statement q sql _ p _ _ Hp Hbind). eexists _, _. split; [done|].
    split; [by apply (steps_engine_ok q B)|done].
Qed.

Lemma execute_create q B (sql : list byte) (s : CreateTableStmt) (p : Parser) :
  engine_ok q B ->
  parse from_chars_double (Parser_new sql) = (Ok [CreateTable s], p) ->
  (forall b, create_elaborates B s b -> ct_table_name s <> EmptyString -> ct_columns s <> [] ->
    db_tables B !! ct_table_name s = None ->
    db_can_create (qe_catalog q) B (create_spec b)) ->
  exists res q', execute from_chars_double double_to_string sql q = (res, q') /\
    ((exists b, create_elaborates B s b /\
       if decide (ct_table_name s = EmptyString \/ ct_columns s = []) then res = Err InvalidArgument /\ engine_ok q' B
       else match db_tables B !! ct_table_name s with
       | None => res = Ok {| qr_rows := [] |} /\
           exists o, engine_ok q' (db_put (ct_table_name s) (new_table o (create_spec b)) B)
       | Some _ => engine_ok q' B /\
           res = if ct_if_not_exists s then Ok {| qr_rows := [] |} else Err AlreadyExists
       end) \/
     ((forall b, ~ create_elaborates B s b) /\ (exists er, res = Err er) /\ engine_ok q' B)).
Proof using Hr DatabaseLaws0.
  intros Hq Hp Hcan. pose proof (law_wf _ _ (proj2 Hq)) as HB. pose proof (new_binder_ok q B Hq) as Hb.
  destruct (create_binds r tb Hr B HB s _ Hb) as (res & b' & Hrun & Hs & Hd).
  apply (bind_wrapped _ BoundCreateTable) in Hrun. pose proof (steps_engine_ok q B b' Hq Hs) as Hq1.
  rewrite (execute_statement q sql _ p _ _ Hp Hrun). destruct res as [x|er|]; [| |done].
  - pose proof (proj2 (Hd x) eq_refl) as Hx. pose proof (ce_name _ _ _ Hx) as Hn.
    destruct (decide (ct_table_name s = EmptyString \/ ct_columns s = [])) as [Hbad|Hgood].
    { destruct (run_create_invalid _ B x Hq1) as (q' & Hrun' & Hq').
      { destruct Hbad as [Hbad|Hbad]; [left; congruence|right]. pose proof (ce_columns _ _ _ Hx) as Hl.
        rewrite Hbad in Hl. by inversion Hl. }
      eexists _, q'. split; [exact Hrun'|]. left. by exists x. }
    assert (ct_table_name s <> EmptyString /\ ct_columns s <> []) as [Hne Hcols] by tauto.
    destruct (db_tables B !! ct_table_name s) as [T|] eqn:HT.
    + destruct (run_create_again _ B x T Hq1) as (q' & Hq' & Hagain).
      { by rewrite Hn. }
      { by rewrite Hn. }
      { intros Hnil. apply Hcols. pose proof (ce_columns _ _ _ Hx) as Hl. rewrite Hnil in Hl. by inversion Hl. }
      rewrite (ce_if_not_exists _ _ _ Hx) in Hagain. rewrite Hagain.
      destruct (ct_if_not_exists s); eexists _, _; (split; [done|]); left; by exists x.
    + destruct (run_create_ok _ B x Hq1) as (q' & o & Hnew & Hq').
      { apply (kp_create _ _ _ (proj2 Hs)). by apply Hcan. }
      eexists _, q'. split; [exact Hnew|]. left. exists x. split; [done|]. split; [done|]. exists o. by rewrite <- Hn.
  - eexists _, _. split; [done|]. right. split; [exact Hd|]. split; [by eexists|exact Hq1].
Qed.
End statements.
