(* ===== verification/CatalogDb.v ===== *)
(** * CatalogDb: the catalog as a database

    The catalog keeps the laws the query layer relies on: [describes c X B] ties
    the database [B] to the catalog data [X], and each call is the operation on
    [B] that [DatabaseLaws] promises.  The rows of a table are typed because the
    codec checks what it decodes. *)
From S2P Require Import Prelude Utils TypeRegistry BuiltinTypes RowCodec RowCodecSpec StorageIO.
From S2P Require Import PageStore EvictionPolicy BufferPool HeapEngine TupleStore Table Bundle.
From S2P Require Import Catalog CatalogValues CatalogSpec CatalogUpdate QueryCatalog Database.

(** ** Decoded rows are typed *)

Lemma read_u32_le_range bs off v : read_u32_le bs off = Ok v -> 0 <= v.
Proof.
  unfold read_u32_le. destruct (_ <? _); [done|]. destruct (subspan _ _ _) as [x|er|]; [|done|done]. cbn.
  intros [= <-]. rewrite le_decode_value. apply le_value_range.
Qed.

Lemma subspan_size l off n bs : 0 <= off -> 0 <= n -> subspan l off n = Ok bs -> sizeZ bs = n.
Proof.
  unfold subspan, sizeZ. intros Ho Hn. destruct (Z.leb_spec (off + n) (Z.of_nat (length l))); [|done]. intros [= <-].
  rewrite length_slice by lia. lia.
Qed.

(** The next step of a computation that succeeds. *)
Ltac next_result x H :=
  match goal with |- bindR ?m _ = Ok _ -> _ => destruct m as [x|?|] eqn:H; cbn [bindR]; [|discriminate..] end.

Lemma decode_columns_typed r schema tuple bitmap entries payload index cols acc vs :
  decode_columns (RowCodec_new r schema) tuple bitmap entries payload index cols acc = Ok vs ->
  exists new, vs = acc ++ new /\ Forall2 (fun column v => has_type r (col_type_oid column) v) cols new.
Proof.
  revert index acc. induction cols as [|column cols IH]; intros index acc; cbn [decode_columns].
  { intros [= <-]. exists []. by rewrite app_nil_r. }
  unfold lookup_type. cbn [registry RowCodec_new].
  destruct (lookup_oid r (col_type_oid column)) as [t|er|] eqn:Ht; cbn [bindR]; [|discriminate..].
  next_result offset Ho. next_result len Hl. next_result null Hn. destruct null.
  - intros (new & -> & Hnew)%IH. eexists. rewrite <- app_assoc. split; [done|]. constructor; [|done]. split; [done|].
    by exists t.
  - destruct (_ || _); [done|]. destruct (size_mismatch t len) eqn:Hsz; [done|].
    next_result bytes Hb.
    assert (0 <= offset /\ 0 <= len) as [Hoff Hlen].
    { unfold or_corruption in *. repeat case_match; simplify_eq; eauto using read_u32_le_range. }
    intros (new & -> & Hnew)%IH. eexists. rewrite <- app_assoc. split; [done|]. constructor; [|done]. split; [done|].
    exists t. split; [done|]. intros _. cbn [v_bytes]. by rewrite (subspan_size _ _ _ _ Hoff Hlen Hb).
Qed.

Lemma decode_typed r cols bs vs :
  decode (RowCodec_new r cols) bs = Ok vs -> Forall2 (fun column v => has_type r (col_type_oid column) v) cols vs.
Proof.
  unfold decode. cbn [registry RowCodec_new schema]. next_result n Hn.
  destruct (negb _); [done|]. destruct (_ <? _); [done|]. next_result bm Hb.
  by intros (new & -> & Hnew)%decode_columns_typed.
Qed.

Section typed.
Context {S E : Type} `{!StorageEngine E} `{!TupleStore E}.
Implicit Types (b : OpenedTableBundle S E).

Lemma bundle_holds_typed r b schema rows :
  bundle_holds r b schema rows ->
  Forall (Forall2 (fun column v => has_type r (col_type_oid column) v) (table_columns schema)) (row_values <$> rows).
Proof.
  intros (e & _ & _ & _ & Hh). unfold holds in Hh. apply Forall_fmap. induction Hh as [|tup row ts rows [_ Hd] _ IH]; [by constructor|].
  constructor; [|done]. by apply decode_typed in Hd.
Qed.
End typed.

(** ** The database of a catalog *)

Lemma mkrow_inj {A} (f : A -> list Value) dec (ok : A -> Prop) (l l' : list (TupleId * A)) :
  (forall id a, ok a -> dec {| row_id := id; row_values := f a |} = Ok a) -> Forall ok l.*2 -> Forall ok l'.*2 ->
  mkrow f <$> l = mkrow f <$> l' -> l = l'.
Proof.
  intros Hdec Hl Hl' Heq. pose proof (decode_rows_ok f dec ok Hdec l Hl) as H1.
  rewrite Heq, (decode_rows_ok f dec ok Hdec l' Hl') in H1. injection H1 as H1. clear -H1. revert l' H1.
  induction l as [|[id a] l IH]; intros [|[id' a'] l'] H1; try done. injection H1 as -> _ -> H1. by rewrite (IH l').
Qed.

Section catalog.
Context {D S E : Type} `{!BackendFactory D S} `{!StorageIO S} `{!EngineFactory S E}.
Context `{!StorageEngine E} `{!TupleStore E} `{!RelationFiles D S E}.
Context (r : TypeRegistry) (ti tx tb : Type_) (Hr : builtin_registry r ti tx tb) (fuel : nat).
#[local] Abbreviation Cat := (Catalog D S E).
#[local] Abbreviation Bundle := (OpenedTableBundle S E).
#[local] Abbreviation ok := (cat_ok r ti tx tb).
Implicit Types (c : Cat) (X : CatalogData) (B : Database) (T : DbTable).

(** The catalog determines its data. *)
Lemma cat_ok_functional c X X' : ok c X -> ok c X' -> X = X'.
Proof using Hr.
  intros [_ Hst _ Hd] [_ Hst' _ Hd'].
  assert (Hsys : forall w, sys_rows ti tx tb X w = sys_rows ti tx tb X' w).
  { intros w. destruct (so_sys _ _ _ _ _ _ _ Hst w) as [Hb _], (so_sys _ _ _ _ _ _ _ Hst' w) as [Hb' _].
    by destruct (bundle_holds_functional _ _ _ _ _ _ Hb Hb'). }
  destruct X as [ts ks xs us], X' as [ts' ks' xs' us']. f_equal.
  - eapply (mkrow_inj _ _ type_ok); [apply (decode_type_ok r ti tx tb Hr)|apply (do_types _ Hd)|apply (do_types _ Hd')|].
    exact (Hsys TypeTable).
  - eapply (mkrow_inj _ _ class_ok); [apply (decode_class_ok r ti tx tb Hr)|apply (do_classes _ Hd)|apply (do_classes _ Hd')|].
    exact (Hsys ClassTable).
  - eapply (mkrow_inj _ _ attribute_ok);
      [apply (decode_attribute_ok r ti tx tb Hr)|apply (do_attributes _ Hd)|apply (do_attributes _ Hd')|].
    exact (Hsys AttributeTable).
  - apply map_eq. intros o. pose proof (so_users _ _ _ _ _ _ _ Hst o) as Hu. pose proof (so_users _ _ _ _ _ _ _ Hst' o) as Hu'.
    cbn in Hu, Hu'. destruct (user_tables c !! o) as [b|]; [|by inversion Hu; inversion Hu'].
    inversion Hu as [? [s0 rows0] (_ & _ & Hb & _)|]; subst. inversion Hu' as [? [s1 rows1] (_ & _ & Hb1 & _)|]; subst.
    by destruct (bundle_holds_functional _ _ _ _ _ _ Hb Hb1) as [Hs Hrows]; cbn in Hs, Hrows; subst.
Qed.

(** The table [T] is the one of class [k]; the bundle [b] serves it. *)
Record table_of c X (name : string) T (k : CatalogClass) (b : Bundle) (rows : list TableRow) : Prop := {
  to_class : class_named X name = Some k;
  to_user : 4 < cc_oid k;
  to_schema : db_schema T = user_schema X k;
  to_rows : db_rows T = row_values <$> rows;
  to_serves : serves r c (db_schema T) b;
  to_holds : bundle_holds r b (db_schema T) rows;
  to_fuel : (length rows < fuel)%nat;
  to_types : Forall (fun column => known_type r (col_type_oid column)) (db_columns T);
  to_count : Z.of_nat (length (db_columns T)) < 2 ^ 32;
}.

Record describes c X B : Prop := {
  ds_ok : ok c X;
  ds_enough : enough ti tx tb fuel X;
  ds_type name : db_type B name = type_named X name;
  ds_registry name t : type_named X name = Some t -> exists ty, lookup_name r name = Ok ty /\ oid ty = ct_oid t /\ type_name ty = ct_name t;
  ds_bool : is_Some (type_named X "bool");
  ds_some name T : db_tables B !! name = Some T -> exists k b rows, table_of c X name T k b rows;
  ds_none name : db_tables B !! name = None -> db_system B name = false -> class_named X name = None;
}.

#[export] Instance catalog_view : DatabaseView Cat := {
  db_holds c B := exists X, describes c X B;
  db_ready c o := is_Some (user_tables c !! o);
  db_room c schema vss := exists b rows, serves r c schema b /\ bundle_holds r b schema rows /\
    bundle_takes b vss /\ (length rows + length vss < fuel)%nat;
  db_can_create c B spec := exists X, ok c X /\
    can_create r ti tx tb fuel c X (spec_name spec) (spec_columns spec) [];
}.

Lemma describes_wf c X B : describes c X B -> database_wf r B.
Proof using Hr.
  intros Hds. split.
  - intros name t Ht. rewrite (ds_type _ _ _ Hds) in Ht. by apply (ds_registry _ _ _ Hds).
  - rewrite (ds_type _ _ _ Hds). apply (ds_bool _ _ _ Hds).
  - intros name T HT. destruct (ds_some _ _ _ Hds _ _ HT) as (k & b & rows & Ht).
    destruct (class_named_elem _ _ _ (to_class _ _ _ _ _ _ _ Ht)) as [_ Hn]. split.
    + by rewrite (to_schema _ _ _ _ _ _ _ Ht).
    + apply (to_types _ _ _ _ _ _ _ Ht).
    + apply (to_count _ _ _ _ _ _ _ Ht).
    + rewrite (to_rows _ _ _ _ _ _ _ Ht). by eapply bundle_holds_typed, to_holds.
Qed.

(** ** Steps that keep the database *)

(** The same types, classes and attributes. *)
Definition same_catalog X X' : Prop :=
  d_types X' = d_types X /\ d_classes X' = d_classes X /\ d_attributes X' = d_attributes X.

Lemma table_of_class c X name T k b rows : table_of c X name T k b rows -> k ∈ (d_classes X).*2.
Proof. intros Ht. apply (class_named_elem _ _ _ (to_class _ _ _ _ _ _ _ Ht)). Qed.

Lemma table_of_same c X X' name T k b rows :
  same_catalog X X' -> table_of c X name T k b rows -> table_of c X' name T k b rows.
Proof.
  destruct X, X'. unfold same_catalog. cbn. intros (-> & -> & ->) []. by split.
Qed.

Lemma table_of_serves c c' X name T k b rows :
  serves r c' (db_schema T) b -> table_of c X name T k b rows -> table_of c' X name T k b rows.
Proof. intros Hs []. by split. Qed.

Lemma describes_keep c c' X X' B :
  describes c X B -> ok c' X' -> same_catalog X X' -> keeps_serving r X c c' -> describes c' X' B.
Proof.
  intros [H1 H2 H3 H4 H5 H6 H7] Hok Hsame Hk. split.
  - done.
  - destruct X, X'. unfold same_catalog in Hsame. cbn in Hsame. by destruct Hsame as (-> & -> & ->).
  - intros name. rewrite H3. unfold type_named. by rewrite (proj1 Hsame).
  - intros name t. unfold type_named. rewrite (proj1 Hsame). apply H4.
  - unfold type_named. by rewrite (proj1 Hsame).
  - intros name T (k & b & rows & Ht)%H6. exists k, b, rows. apply (table_of_same c' X); [done|].
    apply (table_of_serves c); [|done]. rewrite (to_schema _ _ _ _ _ _ _ Ht). apply Hk; [by eapply table_of_class| |].
    + apply (to_user _ _ _ _ _ _ _ Ht).
    + rewrite <- (to_schema _ _ _ _ _ _ _ Ht). apply (to_serves _ _ _ _ _ _ _ Ht).
  - intros name Hn Hs. unfold class_named. rewrite (proj1 (proj2 Hsame)). by apply H7.
Qed.

Lemma can_create_same c X X' name columns :
  same_catalog X X' -> can_create r ti tx tb fuel c X name columns [] -> can_create r ti tx tb fuel c X' name columns [].
Proof. destruct X, X'. unfold same_catalog. cbn. intros (-> & -> & ->) []. by split. Qed.

Lemma keep_creating c c' X X' B spec :
  ok c X -> ok c' X' -> same_catalog X X' -> frame r [] c c' -> db_can_create c B spec -> db_can_create c' B spec.
Proof using All.
  intros Hok Hok' Hsame Hfr (X0 & Hok0 & Hcan). rewrite (cat_ok_functional c X0 X Hok0 Hok) in Hcan.
  exists X'. split; [done|]. eapply (can_create_frame r ti tx tb Hr); [exact Hfr|done|apply (ck_data _ _ _ _ _ _ Hok')|].
  by eapply can_create_same.
Qed.

Lemma quiet_step c c' X X' B :
  describes c X B -> ok c' X' -> same_catalog X X' -> keeps_serving r X c c' -> frame r [] c c' -> db_keeps B c c'.
Proof using All.
  intros Hds Hok Hsame Hk Hfr. split.
  - exists X'. by eapply describes_keep.
  - intros o [b Hb]. exists b. by apply (fr_users _ _ _ _ Hfr).
  - intros name T vss HT (b & rows & Hs & Hb & Htk & Hl). exists b, rows. split; [|done].
    destruct (ds_some _ _ _ Hds _ _ HT) as (k & b0 & rows0 & Ht). rewrite (to_schema _ _ _ _ _ _ _ Ht) in *.
    apply Hk; [by eapply table_of_class|apply (to_user _ _ _ _ _ _ _ Ht)|done].
  - intros spec. eapply keep_creating; [apply (ds_ok _ _ _ Hds)|done..].
Qed.

Lemma same_catalog_refl X : same_catalog X X.
Proof. done. Qed.

Lemma get_type_law c B name : db_holds c B ->
  exists c', get_type fuel name c = (found_type B name, c') /\ db_keeps B c c'.
Proof using All.
  intros (X & Hds). pose proof (ds_ok _ _ _ Hds) as Hok.
  destruct (get_type_ok r ti tx tb Hr fuel c X name Hok (ds_enough _ _ _ Hds)) as (c' & Hrun & Hok' & Hfr).
  exists c'. unfold found_type. rewrite (ds_type _ _ _ Hds), Hrun. split; [by destruct (type_named X name)|].
  eapply quiet_step; [done|done|apply same_catalog_refl|by eapply same_data_serving|done].
Qed.

Lemma get_class_law c B name : db_holds c B -> db_system B name = false ->
  exists res c', get_class fuel name c = (res, c') /\ db_keeps B c c' /\
    match db_tables B !! name with
    | Some T => exists k, res = Ok k /\ cc_oid k = db_oid T
    | None => res = Err NotFound
    end.
Proof using All.
  intros (X & Hds) Hsys. pose proof (ds_ok _ _ _ Hds) as Hok.
  destruct (get_class_ok r ti tx tb Hr fuel c X name Hok (ds_enough _ _ _ Hds)) as (c' & Hrun & Hok' & Hfr).
  eexists _, c'. split; [exact Hrun|]. split.
  - eapply quiet_step; [done|done|apply same_catalog_refl|by eapply same_data_serving|done].
  - destruct (db_tables B !! name) as [T|] eqn:HT.
    + destruct (ds_some _ _ _ Hds _ _ HT) as (k & b & rows & Ht). rewrite (to_class _ _ _ _ _ _ _ Ht).
      exists k. split; [done|]. unfold db_oid. by rewrite (to_schema _ _ _ _ _ _ _ Ht).
    + by rewrite (ds_none _ _ _ Hds).
Qed.

(** A table that is served is held. *)
Lemma served_holds c X name T k b rows :
  ok c X -> table_of c X name T k b rows -> table_holds r c X k rows.
Proof using All.
  intros Hok Ht. pose proof (to_serves _ _ _ _ _ _ _ Ht) as Hs. pose proof (to_holds _ _ _ _ _ _ _ Ht) as Hb.
  rewrite (to_schema _ _ _ _ _ _ _ Ht) in *. unfold table_holds, serves in *. cbn in Hs.
  pose proof (so_users _ _ _ _ _ _ _ (ck_stores _ _ _ _ _ _ Hok) (cc_oid k)) as Hu.
  destruct (user_tables c !! cc_oid k) as [b'|].
  - subst b'. inversion Hu as [? [s0 rows0] (_ & _ & Hb0 & _)|]; subst. cbn in *.
    by destruct (bundle_holds_functional _ _ _ _ _ _ Hb Hb0) as [_ ->].
  - inversion Hu; subst. by exists b.
Qed.

Lemma open_law c B name T : db_holds c B -> db_tables B !! name = Some T ->
  exists c', open_table fuel name c = (Ok (db_oid T), c') /\ db_keeps B c c' /\ db_ready c' (db_oid T).
Proof using All.
  intros (X & Hds) HT. pose proof (ds_ok _ _ _ Hds) as Hok.
  destruct (ds_some _ _ _ Hds _ _ HT) as (k & b & rows & Ht).
  destruct (open_table_ok r ti tx tb Hr fuel c X name k rows Hok (ds_enough _ _ _ Hds)) as (c' & Hrun & Hok' & Hfr & Hks).
  - apply (to_class _ _ _ _ _ _ _ Ht).
  - apply (to_user _ _ _ _ _ _ _ Ht).
  - by eapply served_holds.
  - exists c'. unfold db_oid. rewrite (to_schema _ _ _ _ _ _ _ Ht). split; [exact Hrun|]. split.
    + by eapply quiet_step.
    + cbn. pose proof (so_users _ _ _ _ _ _ _ (ck_stores _ _ _ _ _ _ Hok') (cc_oid k)) as Hu. cbn in Hu.
      rewrite lookup_insert_eq in Hu. inversion Hu. by eexists.
Qed.

(** ** Operations on an open table *)

Lemma after_user_serves c (b' : Bundle) schema schema' rows b0 :
  bundle_holds r b' schema rows -> relation_oid schema' <> relation_oid schema ->
  serves r c schema' b0 -> serves r (after_user (relation_oid schema) b' c) schema' b0.
Proof using All.
  intros (e & Hs & _) Hne. unfold serves, after_user, bundle_store. cbn. rewrite lookup_insert_ne by done. rewrite Hs.
  destruct (user_tables c !! relation_oid schema'); [done|]. by apply (opens_to_other r ti tx tb Hr).
Qed.

Lemma after_user_creates c X (b' : Bundle) k rows rows' name columns :
  ok c X -> k ∈ (d_classes X).*2 -> bundle_holds r b' (user_schema X k) rows ->
  can_create r ti tx tb fuel c X name columns [] ->
  can_create r ti tx tb fuel (after_user (cc_oid k) b' c) (with_table X (cc_oid k) (user_schema X k, rows')) name columns [].
Proof using All.
  intros Hok Hk (e & Hs & _) []. split; try done.
  unfold after_user, bundle_store. cbn [backends cat_config set_backends set_user_tables]. rewrite Hs.
  apply (opens_other r ti tx tb Hr); [|done]. intros Heq. change (next_oid X = cc_oid k) in Heq.
  apply (next_oid_fresh X). rewrite Heq. by apply list_elem_of_fmap_2.
Qed.

Section user.
Context (c : Cat) (X : CatalogData) (B : Database) (name : string) (T : DbTable) (k : CatalogClass) (b : Bundle).
Context (rows : list TableRow) (Hds : describes c X B) (HT : db_tables B !! name = Some T).
Context (Ht : table_of c X name T k b rows) (Hopen : user_tables c !! db_oid T = Some b).

Lemma user_entry : d_tables X !! cc_oid k = Some (user_schema X k, rows).
Proof using All.
  pose proof (so_users _ _ _ _ _ _ _ (ck_stores _ _ _ _ _ _ (ds_ok _ _ _ Hds)) (cc_oid k)) as Hu.
  pose proof Hopen as Ho. unfold db_oid in Ho. rewrite (to_schema _ _ _ _ _ _ _ Ht) in Ho. cbn in Ho. rewrite Ho in Hu.
  inversion Hu as [? [s0 rows0] (_ & _ & Hb0 & _)|]; subst. cbn in Hb0.
  pose proof (to_holds _ _ _ _ _ _ _ Ht) as Hb. rewrite (to_schema _ _ _ _ _ _ _ Ht) in Hb.
  by destruct (bundle_holds_functional _ _ _ _ _ _ Hb Hb0) as [-> ->].
Qed.

Lemma user_step {A} (m : M Bundle A) res b' rows' :
  m b = (res, b') -> bundle_holds r b' (db_schema T) rows' -> (length rows' < fuel)%nat ->
  on_user_table (db_oid T) m c = (res, after_user (db_oid T) b' c) /\
  describes (after_user (db_oid T) b' c) (with_table X (cc_oid k) (user_schema X k, rows'))
    (db_put name (with_rows T (row_values <$> rows')) B).
Proof using All.
  intros Hm Hb' Hlen. pose proof user_entry as Hent. pose proof (ds_ok _ _ _ Hds) as Hok.
  pose proof (table_of_class _ _ _ _ _ _ _ Ht) as Hk.
  assert (Ho : db_oid T = cc_oid k) by (unfold db_oid; by rewrite (to_schema _ _ _ _ _ _ _ Ht)).
  rewrite (to_schema _ _ _ _ _ _ _ Ht) in Hb'. rewrite Ho in Hopen |- *.
  destruct (user_op r ti tx tb Hr (cc_oid k) m c _ _ b res b' (user_schema X k) rows rows'
    (ck_stores _ _ _ _ _ _ Hok) Hopen Hent Hm Hb') as [Hrun Hst].
  split; [done|]. destruct Hds as [_ H2 H3 H4 H5 H6 H7]. split; [| done | done | done | done | |].
  - destruct Hok as [Hop _ Hca Hd]. split; [done| |by eapply (caches_ok_same c _ X)|by apply with_table_data].
    eapply catalog_stores_ext; [|exact Hst]. by intros [].
  - intros n T' Hn. cbn in Hn. destruct (decide (n = name)) as [->|Hne].
    + rewrite lookup_insert_eq in Hn. injection Hn as <-. exists k, b', rows'.
      destruct Ht. split; try done; cbn [db_schema with_rows].
      * rewrite to_schema0. unfold serves, after_user. cbn. by rewrite lookup_insert_eq.
      * by rewrite to_schema0.
    + rewrite lookup_insert_ne in Hn by done. destruct (H6 _ _ Hn) as (k' & b0 & rows0 & Ht').
      exists k', b0, rows0. apply (table_of_same _ X); [done|]. apply (table_of_serves c); [|done].
      apply (after_user_serves c b' (user_schema X k) _ rows'); [done| |apply (to_serves _ _ _ _ _ _ _ Ht')].
      rewrite (to_schema _ _ _ _ _ _ _ Ht'). cbn. intros Heq.
      assert (k' = k) as -> by (apply (class_by_oid X); [apply (ck_data _ _ _ _ _ _ Hok)|by eapply table_of_class|done..]).
      destruct (class_named_elem _ _ _ (to_class _ _ _ _ _ _ _ Ht)) as [_ <-].
      by destruct (class_named_elem _ _ _ (to_class _ _ _ _ _ _ _ Ht')) as [_ <-].
  - intros n Hn Hsys. cbn in Hn, Hsys. destruct (decide (n = name)) as [->|Hne]; [by rewrite lookup_insert_eq in Hn|].
    rewrite lookup_insert_ne in Hn by done. by apply H7.
Qed.

(** Reading a table keeps the database. *)
Lemma user_read {A} (m : M Bundle A) res b' :
  m b = (res, b') -> bundle_holds r b' (db_schema T) rows -> bundle_keeps_room b b' ->
  exists c', on_user_table (db_oid T) m c = (res, c') /\ db_keeps B c c'.
Proof using All.
  intros Hm Hb' Hkr. destruct (user_step m res b' rows Hm Hb' (to_fuel _ _ _ _ _ _ _ Ht)) as [Hrun Hds'].
  pose proof (table_of_class _ _ _ _ _ _ _ Ht) as Hk. pose proof (ds_ok _ _ _ Hds) as Hok.
  assert (Hsame : db_put name (with_rows T (row_values <$> rows)) B = B).
  { rewrite <- (to_rows _ _ _ _ _ _ _ Ht). unfold db_put. rewrite insert_id by (by destruct T). by destruct B. }
  rewrite Hsame in Hds'. eexists. split; [exact Hrun|]. split.
  - by eexists.
  - intros o [b0 Hb0]. cbn. destruct (decide (o = db_oid T)) as [->|Hne]; [rewrite lookup_insert_eq; by eexists|].
    rewrite lookup_insert_ne by done. by eexists.
  - intros n T' vss HT' (b0 & rows0 & Hs0 & Hb0 & Htk & Hl).
    destruct (decide (relation_oid (db_schema T') = relation_oid (db_schema T))) as [Heq|Hne].
    + assert (b0 = b) as -> by (unfold serves in Hs0; unfold db_oid in Hopen; rewrite Heq, Hopen in Hs0; done).
      destruct (bundle_holds_functional _ _ _ _ _ _ Hb0 (to_holds _ _ _ _ _ _ _ Ht)) as [-> ->].
      exists b', rows. split_and!; [|done|by apply Hkr|done]. unfold serves, after_user. cbn. by rewrite lookup_insert_eq.
    + exists b0, rows0. split_and!; try done. by apply (after_user_serves c b' (db_schema T) _ rows).
  - intros spec (X0 & Hok0 & Hcan). rewrite (cat_ok_functional c X0 X Hok0 Hok) in Hcan.
    exists (with_table X (cc_oid k) (user_schema X k, rows)). split; [apply (ds_ok _ _ _ Hds')|].
    assert (Ho : db_oid T = cc_oid k) by (unfold db_oid; by rewrite (to_schema _ _ _ _ _ _ _ Ht)).
    rewrite Ho. rewrite (to_schema _ _ _ _ _ _ _ Ht) in Hb'. by eapply after_user_creates.
Qed.
End user.

(** The open table of [T]. *)
Lemma ready_open c X B name T :
  describes c X B -> db_tables B !! name = Some T -> db_ready c (db_oid T) ->
  exists k b rows, table_of c X name T k b rows /\ user_tables c !! db_oid T = Some b.
Proof.
  intros Hds HT [b' Hb']. destruct (ds_some _ _ _ Hds _ _ HT) as (k & b & rows & Ht). exists k, b, rows. split; [done|].
  pose proof (to_serves _ _ _ _ _ _ _ Ht) as Hs. unfold serves in Hs. unfold db_oid in *. rewrite Hb' in Hs. by subst.
Qed.

Lemma schema_law c B name T : db_holds c B -> db_tables B !! name = Some T -> db_ready c (db_oid T) ->
  exists c', qc_schema (QueryCatalog := catalog_calls fuel) (db_oid T) c = (Ok (db_schema T), c') /\ db_keeps B c c'.
Proof using All.
  intros (X & Hds) HT Hrd. destruct (ready_open c X B name T Hds HT Hrd) as (k & b & rows & Ht & Hopen).
  pose proof (to_holds _ _ _ _ _ _ _ Ht) as Hb. eapply (user_read c X B name T k b rows); try done; [|by intros vss].
  destruct Hb as (e & Hs & HT' & _). unfold on_table. rewrite HT', Hs. cbn. f_equal. destruct b. cbn in *. by subst.
Qed.

Lemma scan_law c B name T : db_holds c B -> db_tables B !! name = Some T -> db_ready c (db_oid T) ->
  exists c', qc_scan (QueryCatalog := catalog_calls fuel) (db_oid T) c = (Ok (db_rows T), c') /\ db_keeps B c c'.
Proof using All.
  intros (X & Hds) HT Hrd. destruct (ready_open c X B name T Hds HT Hrd) as (k & b & rows & Ht & Hopen).
  destruct (bundle_scan r b (db_schema T) rows fuel (to_holds _ _ _ _ _ _ _ Ht) (to_fuel _ _ _ _ _ _ _ Ht))
    as (b' & Hrun & Hb' & Hkr).
  eapply (user_read c X B name T k b rows); try done. rewrite (to_rows _ _ _ _ _ _ _ Ht).
  unfold on_table in *. destruct (bd_table b) as [tab|]; [|done]. destruct (bd_storage b) as [| |rel e backed]; try done.
  unfold table_scan, bindM. destruct (scan_rows fuel tab e) as [[rs|er|] e']; [|done..]. by injection Hrun as -> <-.
Qed.

Lemma table_codec c X name T k b rows : table_of c X name T k b rows -> codec_ok (RowCodec_new r (db_columns T)).
Proof using Hr.
  intros Ht. split; [exists r; split; [done|apply (br_wf _ _ _ _ Hr)]|]. eapply Forall_impl; [apply (to_types _ _ _ _ _ _ _ Ht)|].
  intros column [t Hcol]. by eapply lookup_oid_positive.
Qed.

Lemma insert_law c B name T vs rest : db_holds c B -> db_tables B !! name = Some T -> db_ready c (db_oid T) ->
  Forall (fun vs => row_ok (RowCodec_new r (db_columns T)) vs /\ row_size vs < 2 ^ 32) (vs :: rest) ->
  db_room c (db_schema T) (vs :: rest) ->
  exists id c' rows, qc_insert (QueryCatalog := catalog_calls fuel) (db_oid T) vs c = (Ok id, c') /\
    db_holds c' (db_put name (with_rows T rows) B) /\
    db_ready c' (db_oid T) /\ db_room c' (db_schema T) rest /\ rows ≡ₚ (stored <$> vs) :: db_rows T.
Proof using All.
  intros (X & Hds) HT Hrd Hrows (b0 & rows0 & Hs0 & Hb0 & Htk & Hl).
  destruct (ready_open c X B name T Hds HT Hrd) as (k & b & rows & Ht & Hopen).
  assert (b0 = b) as -> by (unfold serves in Hs0; unfold db_oid in Hopen; rewrite Hopen in Hs0; done).
  destruct (bundle_holds_functional _ _ _ _ _ _ Hb0 (to_holds _ _ _ _ _ _ _ Ht)) as [_ ->].
  pose proof (table_codec c X name T k b rows Ht) as Hc.
  apply Forall_cons in Hrows as [[Hrow Hsz] Hrest]. cbn [length] in Hl.
  destruct (bundle_insert r b (db_schema T) rows vs rest Hb0 Hc Hrow Hsz Htk) as (id & b' & rows' & Hrun & Hb' & Htk' & _ & Hp).
  { eapply Forall_impl; [exact Hrest|]. intros vs' [Hr' Hs']. destruct (encode_layout _ _ Hc Hr' Hs') as (bs & Hbs & _). eauto. }
  pose proof (Permutation_length Hp) as Hlen. cbn in Hlen.
  destruct (user_step c X B name T k b rows Hds HT Ht Hopen _ _ b' rows' Hrun Hb') as [Hop Hds']; [lia|].
  eexists id, _, (row_values <$> rows'). split; [exact Hop|]. split; [by eexists|]. split_and!.
  - cbn. rewrite lookup_insert_eq. by eexists.
  - exists b', rows'. split; [unfold serves, after_user; cbn; by rewrite lookup_insert_eq|]. split_and!; [done|done|lia].
  - rewrite Hp, (to_rows _ _ _ _ _ _ _ Ht). done.
Qed.

Lemma insert_bad_law c B name T vs : db_holds c B -> db_tables B !! name = Some T -> db_ready c (db_oid T) ->
  ~ row_ok (RowCodec_new r (db_columns T)) vs ->
  exists er c', qc_insert (QueryCatalog := catalog_calls fuel) (db_oid T) vs c = (Err er, c') /\ db_keeps B c c'.
Proof using All.
  intros (X & Hds) HT Hrd Hbad. destruct (ready_open c X B name T Hds HT Hrd) as (k & b & rows & Ht & Hopen).
  pose proof (to_holds _ _ _ _ _ _ _ Ht) as Hb. pose proof Hb as (e & Hs & HT' & _).
  assert (Henc : exists er, encode (RowCodec_new r (db_columns T)) vs = Err er).
  { destruct (encode_bad (RowCodec_new r (db_columns T)) vs) as [He|He]; [by eapply table_codec|apply (to_count _ _ _ _ _ _ _ Ht)|done|by eexists|by eexists]. }
  destruct Henc as (er & Henc). exists er. eapply (user_read c X B name T k b rows); try done.
  - unfold on_table. rewrite HT', Hs. unfold table_insert. cbn [storage row_codec Table_new negb].
    unfold db_columns in Henc. unfold bindM, liftR. rewrite Henc. by destruct b; cbn in *; subst.
  - by intros vss.
Qed.

Lemma create_law c B spec : db_holds c B -> db_can_create c B spec ->
  exists o c', create_table fuel spec c = (Ok o, c') /\ db_tables B !! spec_name spec = None /\
    db_holds c' (db_put (spec_name spec) (new_table o spec) B).
Proof using All.
  intros (X & Hds) (X0 & Hok0 & Hcan). pose proof (ds_ok _ _ _ Hds) as Hok. rewrite (cat_ok_functional c X0 X Hok0 Hok) in Hcan.
  clear X0 Hok0. destruct spec as [name columns]. cbn [spec_name spec_columns] in *.
  destruct (create_table_ok r ti tx tb Hr fuel c X name columns [] Hok Hcan) as (c' & X' & Hrun & Hadd & Hok' & Hfr & Hen).
  pose proof (cn_new _ _ _ _ _ _ _ _ _ _ Hcan) as Hnew. pose proof (ck_data _ _ _ _ _ _ Hok) as Hd.
  pose proof (next_oid_fresh X) as Hfresh. set (k := new_class X name) in *.
  assert (Hd' : data_ok X') by (pose proof (ck_data _ _ _ _ _ _ Hok') as [H0 H1 H2 H3 H4 H5 H6 H7 H8 H9]; split; try done;
    rewrite (ac_tables _ _ _ _ Hadd); intros o entry Ho; destruct (do_tables _ Hd _ _ Ho) as (k' & Hk' & Hok2 & Hs);
    exists k'; rewrite (ac_classes _ _ _ _ Hadd), (added_schema X X' k columns) by done; split; [by right|done]).
  destruct (added_named X X' k columns Hd Hadd Hfresh Hnew Hd') as [Hown Hothers].
  pose proof (added_own_schema X X' k columns Hd Hadd Hfresh Hnew) as Hschema.
  exists (next_oid X), c'. split; [done|]. split.
  { destruct (db_tables B !! name) as [T|] eqn:HT; [|done]. destruct (ds_some _ _ _ Hds _ _ HT) as (k0 & b & rows & Ht).
    rewrite (to_class _ _ _ _ _ _ _ Ht) in Hnew. done. }
  eexists. split; [exact Hok'|exact Hen| | | | |]; destruct Hds as [_ H2 H3 H4 H5 H6 H7].
  - intros n. cbn. rewrite H3. unfold type_named. cbn. by rewrite (ac_types _ _ _ _ Hadd).
  - intros n t. unfold type_named. cbn. rewrite (ac_types _ _ _ _ Hadd). apply H4.
  - unfold type_named. cbn. by rewrite (ac_types _ _ _ _ Hadd).
  - intros n T Hn. cbn in Hn. destruct (decide (n = name)) as [->|Hne].
    + rewrite lookup_insert_eq in Hn. injection Hn as <-.
      pose proof (so_users _ _ _ _ _ _ _ (ck_stores _ _ _ _ _ _ Hok') (next_oid X)) as Hu. cbn in Hu.
      rewrite lookup_insert_eq in Hu. inversion Hu as [b ? (_ & H4' & Hb & _) Hbt|]; subst. cbn in Hb.
      exists k, b, []. rewrite Hschema in Hb. split; cbn; try done.
      * unfold serves. cbn. by rewrite <- Hbt.
      * pose proof (cn_fuel _ _ _ _ _ _ _ _ _ _ Hcan). lia.
      * apply (cn_types _ _ _ _ _ _ _ _ _ _ Hcan).
      * pose proof (cn_count _ _ _ _ _ _ _ _ _ _ Hcan). unfold db_columns. cbn. lia.
    + rewrite lookup_insert_ne in Hn by done. destruct (H6 _ _ Hn) as (k' & b & rows & Ht). exists k', b, rows.
      pose proof (table_of_class _ _ _ _ _ _ _ Ht) as Hk'. pose proof (old_class X k Hfresh k' Hk') as Hoid.
      assert (Hsch : user_schema X' k' = user_schema X k') by (by apply (added_schema X X' k columns)).
      destruct Ht. split; try done.
      * change (class_named X' n = Some k'). by rewrite (Hothers n).
      * rewrite to_schema0. symmetry. exact Hsch.
      * eapply (frame_serves r); [exact Hfr|by rewrite to_schema0| |done]. rewrite to_schema0. cbn.
        rewrite (open_iff r ti tx tb c X) by done. rewrite (open_iff r ti tx tb c' _ _ Hok'). cbn.
        rewrite lookup_insert_ne by done. by rewrite (ac_tables _ _ _ _ Hadd).
  - intros n Hn Hsys. cbn in Hn, Hsys. destruct (decide (n = name)) as [->|Hne]; [by rewrite lookup_insert_eq in Hn|].
    rewrite lookup_insert_ne in Hn by done. change (class_named X' n = None). rewrite (Hothers n) by done. by apply H7.
Qed.

Lemma create_again_law c B spec T : db_holds c B -> db_tables B !! spec_name spec = Some T ->
  spec_name spec <> EmptyString -> spec_columns spec <> [] ->
  exists c', create_table fuel spec c = (Err AlreadyExists, c') /\ db_holds c' B.
Proof using All.
  intros (X & Hds) HT Hn Hcols. pose proof (ds_ok _ _ _ Hds) as Hok.
  destruct (ds_some _ _ _ Hds _ _ HT) as (k & b & rows & Ht).
  destruct (get_class_ok r ti tx tb Hr fuel c X (spec_name spec) Hok (ds_enough _ _ _ Hds)) as (c' & Hg & Hok' & Hfr).
  rewrite (to_class _ _ _ _ _ _ _ Ht) in Hg. exists c'. split.
  - unfold create_table. erewrite bind_ok by (by eapply check_open_ok). rewrite (proj2 (String.eqb_neq _ _) Hn).
    destruct (spec_columns spec); [done|]. cbn [orb length Nat.eqb]. unfold bindM, attempt. by rewrite Hg.
  - exists X. eapply describes_keep; [done|done|apply same_catalog_refl|by eapply same_data_serving].
Qed.

Lemma create_invalid_law c B spec : db_holds c B -> spec_name spec = EmptyString \/ spec_columns spec = [] ->
  exists c', create_table fuel spec c = (Err InvalidArgument, c') /\ db_holds c' B.
Proof.
  intros Hh Hbad. exists c. split; [|done]. destruct Hh as (X & Hds). unfold create_table.
  erewrite bind_ok by (eapply check_open_ok, (ds_ok _ _ _ Hds)).
  destruct Hbad as [-> | ->]; [done|]. by destruct (String.eqb (spec_name spec) "").
Qed.

(** The catalog keeps the laws of a database. *)
Lemma catalog_laws : @DatabaseLaws Cat (catalog_calls fuel) catalog_view r.
Proof using All.
  split.
  - intros c B (X & Hds). by eapply describes_wf.
  - apply get_type_law.
  - apply get_class_law.
  - apply open_law.
  - apply schema_law.
  - apply scan_law.
  - apply insert_law.
  - apply insert_bad_law.
  - apply create_law.
  - apply create_again_law.
  - apply create_invalid_law.
Qed.
End catalog.
