(* ===== verification/QueryExample.v ===== *)
(** * QueryExample: a query engine over the example catalog

    The SQL engine on the catalog of [CatalogMem]: a database created, filled and
    queried by SQL text, for the witnesses of the query layer's properties. *)
From S2P Require Import Prelude Utils TypeRegistry BuiltinTypes RowCodec RowCodecSpec StorageIO.
From S2P Require Import PageStore EvictionPolicy BufferPool HeapEngine TupleStore Table Bundle.
From S2P Require Import Catalog CatalogValues CatalogSpec CatalogUpdate CatalogOpen CatalogMem.
From S2P Require Import Lexer Ast Parser QueryCatalog Binder Plan Exec Database BinderSpec QueryEngine.
From S2P Require Import ExecSpec QuerySpec CatalogDb.

(** The examples have no floating-point literals. *)
Definition no_double (text : list byte) : option Z := None.
Definition zero_text (bits : Z) : string := "0.000000"%string.

#[export] Instance example_calls : QueryCatalog MemCatalog := catalog_calls scan_fuel.
#[export] Instance example_view : DatabaseView MemCatalog :=
  catalog_view std_registry std_int32 std_text std_bool scan_fuel.
#[export] Instance example_laws : DatabaseLaws MemCatalog std_registry.
Proof. exact (catalog_laws std_registry std_int32 std_text std_bool std_registry_ok scan_fuel). Qed.

Definition sql (text : string) : list byte := String.list_byte_of_string text.
Abbreviation run text := (execute (C := MemCatalog) no_double zero_text (sql text)).

(** ** The built-in types *)

Lemma parse_signed_size T U n text bs : parse_signed_fixed T U n text = Ok bs -> sizeZ bs = Z.of_nat n.
Proof.
  unfold parse_signed_fixed. destruct (extract_signed _ _) as [[v rest]|]; [|done]. destruct (skip_ws rest); [|done].
  intros [= <-]. unfold sizeZ, encode_unsigned_le. by rewrite length_le_encode.
Qed.

(** Reading a text gives bytes of the type's size. *)
Definition reads_sized (t : Type_) : Prop := forall text,
  match from_text t text with
  | Ok bs => size_mismatch t (sizeZ bs) = false
  | Err _ => True
  | Fault => False
  end.

Lemma signed_reads_sized t T U n :
  from_text t = parse_signed_fixed T U n -> fixed_size t = Some (Z.of_nat n) -> reads_sized t.
Proof.
  intros Hf Hs text. rewrite Hf. unfold size_mismatch. rewrite Hs.
  destruct (parse_signed_fixed T U n text) as [bs|er|] eqn:Hp.
  - by rewrite (parse_signed_size _ _ _ _ _ Hp), Z.eqb_refl.
  - done.
  - unfold parse_signed_fixed in Hp. destruct (extract_signed _ _) as [[v rest]|]; [|done]. by destruct (skip_ws rest).
Qed.

Lemma std_reads_sized t : t ∈ std_types -> reads_sized t.
Proof.
  unfold std_types. intros Hi. repeat (apply elem_of_cons in Hi as [->|Hi]); [..|by apply elem_of_nil in Hi].
  - by eapply (signed_reads_sized _ I32 U32 4).
  - by eapply (signed_reads_sized _ I64 U64 8).
  - intros text. cbn [from_text std_float64 std_type impl_from_text Float64Type]. unfold float64_from_text.
    destruct (example_strtod _) as [v rest]. destruct rest; [|done]. by destruct (f64_isfinite v).
  - intros text. cbn [from_text std_bool std_type impl_from_text BoolType]. unfold bool_from_text.
    by destruct (String.eqb text "true"), (String.eqb text "false").
  - by intros text.
Qed.

Lemma std_types_are : types std_registry = std_types.
Proof. reflexivity. Qed.

Lemma std_query_registry : registry_ok std_registry std_bool.
Proof.
  pose proof (br_wf _ _ _ _ std_registry_ok) as Hwf. split; try done; try reflexivity.
  intros o t text (i & Hi & _)%lookup_oid_wf; [|done]. rewrite std_types_are in Hi.
  apply std_reads_sized. by eapply list_elem_of_lookup_2.
Qed.

(** ** The empty database *)

Definition system_name (name : string) : bool := existsb (String.eqb name) (cc_name <$> system_classes).
Definition empty_db (X : CatalogData) : Database :=
  {| db_type := type_named X; db_tables := ∅; db_system := system_name |}.

Lemma std_lookup t : t ∈ std_types -> lookup_name std_registry (type_name t) = Ok t.
Proof.
  unfold std_types. intros Hi. repeat (apply elem_of_cons in Hi as [->|Hi]; [reflexivity|]). by apply elem_of_nil in Hi.
Qed.

Lemma boot_described X :
  cat_ok std_registry std_int32 std_text std_bool example_catalog X -> boot_data std_int32 std_text std_bool std_types X ->
  describes std_registry std_int32 std_text std_bool scan_fuel example_catalog X (empty_db X).
Proof.
  intros Hok Hb. split; [done|by apply boot_enough|done| | |done|].
  - intros name t (Hin & Hn%String.eqb_eq)%List.find_some. apply list_elem_of_In in Hin. rewrite (bt_types _ _ _ _ _ Hb) in Hin.
    apply list_elem_of_fmap in Hin as (ty & -> & Hty). exists ty. cbn in Hn. subst name. by rewrite (std_lookup ty Hty).
  - unfold type_named. destruct (List.find _ _) as [t|] eqn:Hf; [by eexists|]. exfalso.
    assert (Hin : catalog_type std_bool ∈ (d_types X).*2).
    { rewrite (bt_types _ _ _ _ _ Hb). apply list_elem_of_fmap_2. do 3 right. by left. }
    apply list_elem_of_In in Hin. by apply (List.find_none _ _ Hf) in Hin.
  - intros name _ Hs. apply find_none_iff. rewrite (bt_classes _ _ _ _ _ Hb). intros Hin.
    change (system_name name = false) in Hs. unfold system_name in Hs.
    rewrite (proj2 (existsb_exists _ _)) in Hs; [done|]. exists name. rewrite String.eqb_refl.
    split; [by apply list_elem_of_In|done].
Qed.

Lemma empty_engine : exists X,
  boot_data std_int32 std_text std_bool std_types X /\
  cat_ok std_registry std_int32 std_text std_bool example_catalog X /\
  engine_ok std_registry (QueryEngine_new example_catalog std_registry) (empty_db X).
Proof.
  destruct example_catalog_ok as (X & Hok & Hb). exists X. split_and!; [done|done|]. split; [done|].
  exists X. by apply boot_described.
Qed.

(** ** The database with the table t *)

Definition example_spec : CreateTableSpec := {| spec_name := "t"; spec_columns := example_columns |}.
Definition with_t : MemCatalog := (create_table scan_fuel example_spec example_catalog).2.
Definition t_table (rows : list (list Value)) : DbTable := with_rows (new_table 5 example_spec) rows.

Lemma t_engine : exists X, db_holds with_t (db_put "t" (t_table []) (empty_db X)).
Proof.
  destruct empty_engine as (X & Hb & Hok & _ & Hh). exists X.
  destruct (law_create example_catalog (empty_db X) example_spec Hh) as (o & c' & Hrun & _ & Hh').
  - exists X. split; [exact Hok|]. by apply example_can_create.
  - unfold with_t. change (qc_create_table example_spec example_catalog) with (create_table scan_fuel example_spec example_catalog) in Hrun.
    assert (Ho : (create_table scan_fuel example_spec example_catalog).1 = Ok 5) by (vm_compute; reflexivity).
    rewrite Hrun in Ho |- *. injection Ho as ->. exact Hh'.
Qed.

(** The rows (7, 'hi') and (9, NULL). *)
Definition example_rows : list (list BoundLiteral) :=
  let int_ref := {| bt_oid := 1; bt_name := "int32"; bt_param := None |} in
  let text_ref := {| bt_oid := 5; bt_name := "text"; bt_param := None |} in
  [[{| bl_type := int_ref; bl_value := int_value std_int32 7 |}; {| bl_type := text_ref; bl_value := text_value std_text "hi" |}];
   [{| bl_type := int_ref; bl_value := int_value std_int32 9 |};
    {| bl_type := text_ref; bl_value := {| v_type_oid := 5; v_bytes := []; is_null := true |} |}]].
Definition example_values : list (list Value) := (fun row : list BoundLiteral => bl_value <$> row) <$> example_rows.

(** The bundle that serves t has room for [vss]. *)
Definition t_room_check (c : MemCatalog) (count : nat) (vss : list (list Value)) : bool :=
  match user_tables c !! 5 with
  | Some b => bundle_room_check b vss && (count + length vss <? scan_fuel)%nat
  | None => false
  end.

Lemma t_room c B rows vss :
  db_holds c B -> db_tables B !! "t"%string = Some (t_table rows) ->
  t_room_check c (length rows) vss = true -> db_room c (db_schema (t_table rows)) vss.
Proof.
  intros (X & Hds) HT Hck. unfold t_room_check in Hck.
  destruct (user_tables c !! 5) as [b|] eqn:Hb; [|done]. apply andb_prop in Hck as [Hck Hlen%Nat.ltb_lt].
  destruct (ds_some _ _ _ _ _ _ _ _ Hds _ _ HT) as (k & b' & rows' & Ht).
  pose proof (to_serves _ _ _ _ _ _ _ _ _ Ht) as Hs. pose proof Hs as Hs'. unfold serves in Hs'. cbn in Hs'. rewrite Hb in Hs'. subst b'.
  exists b, rows'. split; [exact Hs|]. split; [apply (to_holds _ _ _ _ _ _ _ _ _ Ht)|].
  split; [by apply bundle_room_check_ok|]. pose proof (to_rows _ _ _ _ _ _ _ _ _ Ht) as Hrows. cbn in Hrows.
  rewrite Hrows, length_fmap in Hlen. exact Hlen.
Qed.

(** ** The database with two rows in t *)

Definition filled : MemCatalog := (insert_rows 5 example_rows with_t).2.

Lemma ready_check (c : MemCatalog) o :
  (match user_tables c !! o with Some _ => true | None => false end) = true -> db_ready c o.
Proof. intros Hc. change (is_Some (user_tables c !! o)). destruct (user_tables c !! o); [by eexists|done]. Qed.

Lemma example_row_sizes : Forall (fun vals => row_size vals < 2 ^ 32) example_values.
Proof. repeat (apply Forall_cons; split; [by vm_compute|]). by apply Forall_nil. Qed.

(** A value of a column of [example_columns]. *)
Lemma example_value_ok i column v (t : Type_) :
  example_columns !! i = Some column -> lookup_oid std_registry (col_type_oid column) = Ok t ->
  v_type_oid v = col_type_oid column ->
  (if is_null v then nullable column else negb (size_mismatch t (sizeZ (v_bytes v)))) = true ->
  value_ok (RowCodec_new std_registry example_columns) column v.
Proof.
  intros _ Ht Ho Hv. exists t. unfold lookup_type. cbn [registry RowCodec_new]. rewrite Ht. split_and!; [done|done|].
  destruct (is_null v); [done|]. by apply negb_true_iff.
Qed.

Lemma example_rows_ok : Forall (fun row : list BoundLiteral =>
  row_ok (RowCodec_new std_registry (db_columns (t_table []))) (bl_value <$> row) /\
  stored <$> (bl_value <$> row) = bl_value <$> row /\ row_size (bl_value <$> row) < 2 ^ 32) example_rows.
Proof.
  assert (Hi : forall v, v_type_oid v = 1 -> (if is_null v then false else negb (size_mismatch std_int32 (sizeZ (v_bytes v)))) = true ->
    value_ok (RowCodec_new std_registry example_columns) {| col_name := "id"; col_type_oid := 1; nullable := false |} v).
  { intros v Ho Hv. by apply (example_value_ok 0 _ v std_int32). }
  assert (Hx : forall v, v_type_oid v = 5 ->
    value_ok (RowCodec_new std_registry example_columns) {| col_name := "note"; col_type_oid := 5; nullable := true |} v).
  { intros v Ho. apply (example_value_ok 1 _ v std_text); try done. by destruct (is_null v). }
  repeat (apply Forall_cons; split; [split_and!;
    [apply Forall2_cons; split; [by apply Hi|]; apply Forall2_cons; split; [by apply Hx|]; by apply Forall2_nil
    |reflexivity|by vm_compute]|]). by apply Forall_nil.
Qed.

Lemma example_rows_accepted : accepted std_registry (t_table []) (row_literals <$> example_rows) = example_values.
Proof. apply accepted_all, Forall_fmap. eapply Forall_impl; [exact example_rows_ok|]. by intros row (? & _). Qed.

Lemma filled_holds : exists X, db_holds filled (db_put "t" (t_table example_values) (empty_db X)).
Proof.
  destruct t_engine as (X & Hh). exists X.
  assert (HT : db_tables (db_put "t" (t_table []) (empty_db X)) !! "t"%string = Some (t_table []))
    by (cbn; by rewrite lookup_insert_eq).
  assert (Hrd : db_ready with_t (db_oid (t_table []))) by (apply ready_check; vm_compute; reflexivity).
  destruct (insert_rows_ok std_registry with_t _ "t" (t_table []) example_rows Hh HT Hrd) as (res & c' & rows & Hrun & Hc' & Hp & _).
  { eapply Forall_impl; [exact example_rows_ok|]. by intros row (_ & ? & ?). }
  { rewrite example_rows_accepted. eapply t_room; [exact Hh|exact HT|]. vm_compute. reflexivity. }
  assert (Hf : filled = c') by exact (f_equal snd Hrun).
  rewrite <- Hf in Hc'. rewrite db_put_put in Hc'. change (with_rows (t_table []) rows) with (t_table rows) in Hc'.
  assert (HT' : db_tables (db_put "t" (t_table rows) (empty_db X)) !! "t"%string = Some (t_table rows))
    by (cbn; by rewrite lookup_insert_eq).
  assert (Hrd' : db_ready filled (db_oid (t_table rows))) by (change (db_oid (t_table rows)) with 5; apply ready_check; vm_compute; reflexivity).
  destruct (law_scan filled _ "t" (t_table rows) Hc' HT' Hrd') as (c2 & Hs & _).
  assert (Hv : (qc_scan 5 filled).1 = Ok example_values) by (vm_compute; reflexivity).
  change (db_oid (t_table rows)) with 5 in Hs. rewrite Hs in Hv. cbn in Hv. injection Hv as Hv. by subst rows.
Qed.

(** ** Statements on t *)

Definition select_text : string := "SELECT note, id >= 8 AS late FROM t WHERE id < 8 OR note = 'x';".
Definition example_select : SelectStmt :=
  {| ss_items := [ExprItem (ColumnRef "note") None;
       ExprItem (BinaryExpr OpGe (ColumnRef "id") (LiteralExpr (IntLiteral 8))) (Some "late"%string)];
     ss_table_name := "t";
     ss_where := Some (BinaryExpr OpOr (BinaryExpr OpLt (ColumnRef "id") (LiteralExpr (IntLiteral 8)))
       (BinaryExpr OpEq (ColumnRef "note") (LiteralExpr (StrLiteral "x")))) |}.

(** The values of the rows of a result. *)
Definition result_values (res : Result QueryResult) : Result (list (list Value)) :=
  match res with Ok rows => Ok (er_values <$> qr_rows rows) | Err er => Err er | Fault => Fault end.

Definition insert_text : string := "INSERT INTO t VALUES (7, 'hi'), (9, NULL)".
Definition example_insert : InsertStmt :=
  {| is_table_name := "t"; is_column_names := [];
     is_rows := [[LiteralExpr (IntLiteral 7); LiteralExpr (StrLiteral "hi")];
       [LiteralExpr (IntLiteral 9); LiteralExpr NullLiteral]] |}.
Definition example_bound_insert : BoundInsertStmt :=
  {| bi_table := table_ref std_registry (t_table []); bi_columns := table_columns_of std_registry (t_table []);
     bi_rows := example_rows |}.

Lemma example_insert_elaborates b :
  insert_elaborates std_registry zero_text (t_table []) example_insert b -> b = example_bound_insert.
Proof.
  intros Hb. destruct t_engine as (X & Hh). set (B := db_put "t" (t_table []) (empty_db X)) in *.
  destruct (insert_binds std_registry zero_text std_bool std_query_registry B (law_wf _ _ Hh)
    (Binder_new with_t std_registry) example_insert (t_table [])) as (res & b' & Hrun & _ & Hd).
  - by split.
  - reflexivity.
  - cbn. by rewrite lookup_insert_eq.
  - assert (Hres : (bind_insert zero_text example_insert (Binder_new with_t std_registry)).1 = Ok example_bound_insert)
      by (vm_compute; reflexivity).
    rewrite Hrun in Hres. cbn [fst] in Hres. subst res. by apply Hd.
Qed.

Definition create_text : string := "CREATE TABLE t (id int NOT NULL, note text)".
Definition example_create : CreateTableStmt :=
  {| ct_table_name := "t";
     ct_columns :=
       [{| cd_name := "id"; cd_type := {| ty_name := "int"; ty_param := None |}; cd_not_null := true;
           cd_primary_key := false; cd_unique := false |};
        {| cd_name := "note"; cd_type := {| ty_name := "text"; ty_param := None |}; cd_not_null := false;
           cd_primary_key := false; cd_unique := false |}];
     ct_if_not_exists := false |}.

Lemma example_create_elaborates X b :
  db_holds example_catalog (empty_db X) -> create_elaborates (empty_db X) example_create b -> create_spec b = example_spec.
Proof.
  intros Hh Hb. destruct (create_binds std_registry std_bool std_query_registry (empty_db X) (law_wf _ _ Hh) example_create
    (Binder_new example_catalog std_registry)) as (res & b' & Hrun & _ & Hd); [by split|].
  assert (Hres : match (bind_create_table example_create (Binder_new example_catalog std_registry)).1 with
    | Ok x => Ok (create_spec x) | Err er => Err er | Fault => Fault end = Ok example_spec) by (vm_compute; reflexivity).
  rewrite Hrun in Hres. cbn [fst] in Hres. destruct res as [x|er|]; [|done..].
  apply Hd in Hb. subst b. congruence.
Qed.
