(* ===== verification/Session.v ===== *)
(** * Session: SQL text refines the database

    What a text does to a database, from the grammar and the typing rules alone: the
    text is one statement of the grammar, the statement elaborates, and then it has
    its effect; or it has none and is an error.  The query engine does just that, for
    every text and for every sequence of texts. *)
From S2P Require Import Prelude Utils TypeRegistry BuiltinTypes RowCodec RowCodecSpec StorageIO.
From S2P Require Import PageStore EvictionPolicy BufferPool HeapEngine TupleStore Table Bundle.
From S2P Require Import Catalog CatalogValues CatalogSpec CatalogUpdate CatalogOpen CatalogMem.
From S2P Require Import Lexer Ast Parser Grammar ParserSound ParserComplete.
From S2P Require Import QueryCatalog Binder Plan Exec Database BinderSpec QueryEngine.
From S2P Require Import ExecSpec QuerySpec CatalogDb QueryExample.

Section effects.
Context (r : TypeRegistry) (tb : Type_) (from_chars_double : list byte -> option Z) (double_to_string : Z -> string).
Implicit Types (B : Database) (T : DbTable) (sql : list byte).

(** The bound statements that a statement elaborates to. *)
Definition statement_elaborates B (stmt : Stmt) (bound : BoundStmt) : Prop :=
  match stmt, bound with
  | Select s, BoundSelect b => exists T, db_tables B !! ss_table_name s = Some T /\ select_elaborates r double_to_string B T s b
  | Insert s, BoundInsert b => exists T, db_tables B !! is_table_name s = Some T /\ insert_elaborates r double_to_string T s b
  | CreateTable s, BoundCreateTable b => create_elaborates B s b
  | _, _ => False
  end.

Definition no_rows : Result QueryResult := Ok {| qr_rows := [] |}.

(** [effect B stmt res B']: the statement answers [res] and leaves [B']. *)
Inductive effect B : Stmt -> Result QueryResult -> Database -> Prop :=
  | effect_select s T b :
      db_tables B !! ss_table_name s = Some T -> select_elaborates r double_to_string B T s b ->
      effect B (Select s) (Ok {| qr_rows := select_rows r tb T b |}) B
  | effect_insert s T b rows :
      db_tables B !! is_table_name s = Some T -> insert_elaborates r double_to_string T s b ->
      accepted r T (insert_values b) = insert_values b -> rows ≡ₚ db_rows T ++ insert_values b ->
      effect B (Insert s) no_rows (db_put (is_table_name s) (with_rows T rows) B)
  | effect_insert_stops s T b rows er :
      db_tables B !! is_table_name s = Some T -> insert_elaborates r double_to_string T s b ->
      is_column_names s <> [] -> accepted r T (insert_values b) <> insert_values b ->
      rows ≡ₚ db_rows T ++ accepted r T (insert_values b) ->
      effect B (Insert s) (Err er) (db_put (is_table_name s) (with_rows T rows) B)
  | effect_create s b o :
      create_elaborates B s b -> ct_table_name s <> EmptyString -> ct_columns s <> [] ->
      db_tables B !! ct_table_name s = None ->
      effect B (CreateTable s) no_rows (db_put (ct_table_name s) (new_table o (create_spec b)) B)
  | effect_exists s b T :
      create_elaborates B s b -> ct_table_name s <> EmptyString -> ct_columns s <> [] ->
      db_tables B !! ct_table_name s = Some T ->
      effect B (CreateTable s) (if ct_if_not_exists s then no_rows else Err AlreadyExists) B
  | effect_invalid s b :
      create_elaborates B s b -> ct_table_name s = EmptyString \/ ct_columns s = [] ->
      effect B (CreateTable s) (Err InvalidArgument) B
  | effect_refused stmt er :
      (forall bound, ~ statement_elaborates B stmt bound) -> effect B stmt (Err er) B.

(** A text that is not exactly one statement is an error. *)
Inductive text_effect B sql : Result QueryResult -> Database -> Prop :=
  | text_statement stmt res B' :
      script_of from_chars_double sql [stmt] -> effect B stmt res B' -> text_effect B sql res B'
  | text_refused er :
      (forall stmt, ~ script_of from_chars_double sql [stmt]) -> text_effect B sql (Err er) B.

Inductive session_effect : Database -> list (list byte) -> list (Result QueryResult) -> Database -> Prop :=
  | session_nil B : session_effect B [] [] B
  | session_cons B sql sqls res results B' B'' :
      text_effect B sql res B' -> session_effect B' sqls results B'' ->
      session_effect B (sql :: sqls) (res :: results) B''.

Lemma effect_system B stmt res B' : effect B stmt res B' -> db_system B' = db_system B.
Proof. by destruct 1. Qed.
Lemma text_effect_system B sql res B' : text_effect B sql res B' -> db_system B' = db_system B.
Proof. destruct 1; [by eapply effect_system|done]. Qed.
End effects.

Section refinement.
Context {C : Type} `{!QueryCatalog C} `{!DatabaseView C} (r : TypeRegistry) `{!DatabaseLaws C r} (tb : Type_).
Context (from_chars_double : list byte -> option Z) (double_to_string : Z -> string).
#[local] Abbreviation Engine := (QueryEngine C).
#[local] Abbreviation effect := (effect r tb double_to_string).
#[local] Abbreviation text_effect := (text_effect r tb from_chars_double double_to_string).
#[local] Abbreviation session_effect := (session_effect r tb from_chars_double double_to_string).
Implicit Types (q : Engine) (B : Database) (sql : list byte).

(** What a statement needs: it is not about a system relation, and there is room for
    the rows or the table it adds. *)
Definition statement_fits q B (stmt : Stmt) : Prop :=
  match stmt with
  | Select s => db_system B (ss_table_name s) = false
  | Insert s => db_system B (is_table_name s) = false /\ forall T b,
      db_tables B !! is_table_name s = Some T -> insert_elaborates r double_to_string T s b ->
      Forall (fun vals => row_size vals < 2 ^ 32) (insert_values b) /\
      db_room (qe_catalog q) (db_schema T) (accepted r T (insert_values b))
  | CreateTable s => forall b,
      create_elaborates B s b -> ct_table_name s <> EmptyString -> ct_columns s <> [] ->
      db_tables B !! ct_table_name s = None -> db_can_create (qe_catalog q) B (create_spec b)
  end.
Definition text_fits q B sql : Prop :=
  sizeZ sql < 2 ^ 63 /\ forall stmt, script_of from_chars_double sql [stmt] -> statement_fits q B stmt.

(** The engine on texts, one after the other, and what the session needs. *)
Fixpoint run_session (sqls : list (list byte)) q : list (Result QueryResult) * Engine :=
  match sqls with
  | [] => ([], q)
  | sql :: sqls =>
      let '(res, q1) := execute from_chars_double double_to_string sql q in
      let '(results, q2) := run_session sqls q1 in (res :: results, q2)
  end.
Fixpoint session_fits q B (sqls : list (list byte)) : Prop :=
  match sqls with
  | [] => True
  | sql :: sqls => text_fits q B sql /\ forall res q' B',
      execute from_chars_double double_to_string sql q = (res, q') -> text_effect B sql res B' -> engine_ok r q' B' ->
      session_fits q' B' sqls
  end.

Context (Hr : registry_ok r tb).

(** What there is to show of a statement that runs. *)
Definition has_effect q B sql (stmt : Stmt) : Prop :=
  exists res q' B', execute from_chars_double double_to_string sql q = (res, q') /\ effect B stmt res B' /\ engine_ok r q' B'.

Lemma refused_effect q B sql stmt er q' :
  execute from_chars_double double_to_string sql q = (Err er, q') -> engine_ok r q' B ->
  (forall bound, ~ statement_elaborates r double_to_string B stmt bound) -> has_effect q B sql stmt.
Proof. intros Hrun Hq' Hno. exists (Err er), q', B. split_and!; try done. by constructor. Qed.

Lemma create_effect q B sql s p :
  engine_ok r q B -> parse from_chars_double (Parser_new sql) = (Ok [CreateTable s], p) ->
  statement_fits q B (CreateTable s) -> has_effect q B sql (CreateTable s).
Proof using Hr DatabaseLaws0.
  intros Hq Hp Hfit.
  destruct (execute_create r from_chars_double double_to_string tb Hr q B sql s p Hq Hp Hfit) as (res & q' & Hrun & Hcase).
  destruct Hcase as [(b & Hb & Hout)|(Hno & (er & ->) & Hq')].
  - destruct (decide _) as [Hbad|Hgood].
    { destruct Hout as [-> Hq']. eexists _, q', B. split_and!; try done. by econstructor. }
    assert (ct_table_name s <> EmptyString /\ ct_columns s <> []) as [Hn Hc] by tauto.
    destruct (db_tables B !! ct_table_name s) as [T|] eqn:HT.
    + destruct Hout as [Hq' ->]. eexists _, q', B. split_and!; try done. by econstructor.
    + destruct Hout as (-> & o & Hq'). eexists _, q', _. split_and!; try done. by constructor.
  - eapply refused_effect; try done. intros [x|x|x] Hx; try done. by eapply Hno.
Qed.

Lemma insert_effect q B sql s p :
  engine_ok r q B -> parse from_chars_double (Parser_new sql) = (Ok [Insert s], p) ->
  statement_fits q B (Insert s) -> has_effect q B sql (Insert s).
Proof using Hr DatabaseLaws0.
  intros Hq Hp [Hsys Hroom].
  destruct (execute_insert r from_chars_double double_to_string tb Hr q B sql s p Hq Hp Hsys Hroom) as (res & q' & Hrun & Hcase).
  destruct (db_tables B !! is_table_name s) as [T|] eqn:HT.
  - destruct Hcase as [(b & rows & Hb & Hq' & Hperm & Hall & Hres)|(Hno & (er & ->) & Hq')].
    + destruct (decide _) as [Heq|Hne]; [subst res|destruct Hres as (er & ->)]; eexists _, q', _; split_and!; try done.
      * rewrite Heq in Hperm. by econstructor.
      * econstructor; try done. intros Hnames. by apply Hne, Hall.
    + eapply refused_effect; try done. intros [x|x|x] Hx; try done. destruct Hx as (T' & HT' & Hx).
      rewrite HT in HT'. injection HT' as <-. by eapply Hno.
  - destruct Hcase as (Hq' & -> & _). eapply refused_effect; try done. intros [x|x|x] Hx; try done.
    destruct Hx as (T' & HT' & _). congruence.
Qed.

Lemma select_effect q B sql s p :
  engine_ok r q B -> parse from_chars_double (Parser_new sql) = (Ok [Select s], p) ->
  statement_fits q B (Select s) -> has_effect q B sql (Select s).
Proof using Hr DatabaseLaws0.
  intros Hq Hp Hfit.
  destruct (execute_select r from_chars_double double_to_string tb Hr q B sql s p Hq Hp Hfit) as (res & q' & Hrun & Hq' & Hcase).
  destruct (db_tables B !! ss_table_name s) as [T|] eqn:HT.
  - destruct Hcase as [(b & Hb & ->)|(Hno & (er & ->))].
    + eexists _, q', B. split_and!; try done. by econstructor.
    + eapply refused_effect; try done. intros [x|x|x] Hx; try done. destruct Hx as (T' & HT' & Hx).
      rewrite HT in HT'. injection HT' as <-. by eapply Hno.
  - destruct Hcase as [-> _]. eapply refused_effect; try done. intros [x|x|x] Hx; try done.
    destruct Hx as (T' & HT' & _). congruence.
Qed.

(** A text that is not one statement is refused before anything is done. *)
Lemma execute_refused q sql :
  sizeZ sql < 2 ^ 63 -> (forall stmt, (parse from_chars_double (Parser_new sql)).1 <> Ok [stmt]) ->
  exists er q', execute from_chars_double double_to_string sql q = (Err er, q') /\
    qe_types q' = qe_types q /\ qe_catalog q' = qe_catalog q.
Proof.
  intros Hs Hno. destruct (source_tokens_total sql Hs) as [ts Hts].
  pose proof (parse_whole from_chars_double sql ts Hs Hts) as Hw. unfold execute.
  destruct (parse from_chars_double (Parser_new sql)) as [[stmts|er|] p]; cbn [fst] in *; [|by eexists _, _|done].
  erewrite bind_ok by done. destruct stmts as [|stmt [|stmt' stmts]]; [by eexists _, _| |by eexists _, _]. by destruct (Hno stmt).
Qed.

Lemma text_simulation q B sql :
  engine_ok r q B -> text_fits q B sql ->
  exists res q' B', execute from_chars_double double_to_string sql q = (res, q') /\ text_effect B sql res B' /\ engine_ok r q' B'.
Proof using Hr DatabaseLaws0.
  intros Hq [Hs Hfit]. destruct (parse from_chars_double (Parser_new sql)) as [res p] eqn:Hp.
  assert (Hdec : (exists stmt, res = Ok [stmt]) \/ ~ exists stmt, res = Ok [stmt]).
  { destruct res as [[|stmt [|]]|er|]; try (by left; exists stmt); right; by intros (? & ?). }
  destruct Hdec as [(stmt & ->)|Hno].
  - assert (Hscript : script_of from_chars_double sql [stmt]) by (apply (parse_script_iff _ _ _ Hs); by rewrite Hp).
    assert (He : has_effect q B sql stmt).
    { destruct stmt as [s|s|s]; [eapply create_effect|eapply insert_effect|eapply select_effect]; eauto. }
    destruct He as (res & q' & B' & Hrun & He & Hq'). exists res, q', B'. split_and!; try done. by econstructor.
  - destruct (execute_refused q sql Hs) as (er & q' & Hrun & Hty & Hcat); [intros stmt Heq; rewrite Hp in Heq; by apply Hno; exists stmt|].
    exists (Err er), q', B. split_and!; [done| |by destruct Hq; split; congruence].
    constructor. intros stmt Hst%(parse_script_iff _ _ _ Hs). rewrite Hp in Hst. by apply Hno; exists stmt.
Qed.

(** C1: SQL sessions refine the database.  For every sequence of texts for which there
    is room, the engine answers each text as the database does: a text that is one
    statement of the grammar has the effect of that statement, any other is an error,
    and after every text the engine holds the database that the effects lead to. *)
Theorem session_refines_database (q : QueryEngine C) (B : Database) (sqls : list (list byte)) :
  engine_ok r q B -> session_fits q B sqls ->
  exists results q' B', run_session sqls q = (results, q') /\ session_effect B sqls results B' /\ engine_ok r q' B'.
Proof using Hr DatabaseLaws0.
  revert q B. induction sqls as [|sql sqls IH]; intros q B Hq Hfit.
  { exists [], q, B. split_and!; try done. constructor. }
  destruct Hfit as [Hfit Hrest]. destruct (text_simulation q B sql Hq Hfit) as (res & q1 & B1 & Hrun & He & Hq1).
  destruct (IH q1 B1 Hq1 (Hrest _ _ _ Hrun He Hq1)) as (results & q' & B' & Hruns & Hes & Hq').
  exists (res :: results), q', B'. cbn. rewrite Hrun, Hruns. split_and!; try done. by econstructor.
Qed.
End refinement.

(** ** Witness: a table is created, filled and queried *)

#[local] Abbreviation example_effect := (text_effect std_registry std_bool no_double zero_text).
#[local] Abbreviation new_engine := (QueryEngine_new example_catalog std_registry).
Definition example_session : list (list byte) := [sql create_text; sql insert_text; sql select_text].

Lemma only_script text stmt :
  sizeZ (sql text) < 2 ^ 63 -> (parse no_double (Parser_new (sql text))).1 = Ok [stmt] ->
  forall stmt', script_of no_double (sql text) [stmt'] -> stmt' = stmt.
Proof. intros Hs Hp stmt' Hst%(parse_script_iff _ _ _ Hs). congruence. Qed.

(** What the first text leads to. *)
Lemma created_database X res q B :
  boot_data std_int32 std_text std_bool std_types X -> engine_ok std_registry new_engine (empty_db X) ->
  run create_text new_engine = (res, q) -> example_effect (empty_db X) (sql create_text) res B ->
  engine_ok std_registry q B -> B = db_put "t" (t_table []) (empty_db X).
Proof.
  intros Hboot Hq0 Hrun He Hq.
  assert (Hres : result_values (run create_text new_engine).1 = Ok []) by (vm_compute; reflexivity).
  rewrite Hrun in Hres. cbn [fst] in Hres.
  destruct He as [stmt res B Hst He|er Hno]; [|done].
  apply (only_script create_text (CreateTable example_create)) in Hst; [|vm_compute; reflexivity|vm_compute; reflexivity].
  subst stmt. inversion He as [| | |s b o Hb _ _ _ Hs| |s b Hb Hbad|stmt er Hno]; subst.
  - rewrite (example_create_elaborates X b (proj2 Hq0) Hb) in *.
    destruct (law_open _ _ "t" (new_table o example_spec) (proj2 Hq)) as (c' & Ho & _); [cbn; by rewrite lookup_insert_eq|].
    assert (Hfive : (qc_open_table "t" (qe_catalog (run create_text new_engine).2)).1 = Ok 5) by (vm_compute; reflexivity).
    rewrite Hrun in Hfive. cbn [snd] in Hfive. rewrite Ho in Hfive. injection Hfive as Hfive. cbn in Hfive. by subst o.
  - exfalso. by destruct (ct_if_not_exists example_create).
  - done.
  - done.
Qed.

Lemma example_session_fits X :
  boot_data std_int32 std_text std_bool std_types X ->
  cat_ok std_registry std_int32 std_text std_bool example_catalog X ->
  engine_ok std_registry new_engine (empty_db X) ->
  session_fits std_registry std_bool no_double zero_text new_engine (empty_db X) example_session.
Proof.
  intros Hboot Hcat Hq. split; [split; [vm_compute; reflexivity|]|].
  { intros stmt Hst. apply (only_script create_text (CreateTable example_create)) in Hst; [|vm_compute; reflexivity|vm_compute; reflexivity].
    subst stmt. intros b Hb _ _ _. rewrite (example_create_elaborates X b (proj2 Hq) Hb). exists X. split; [exact Hcat|].
    exact (example_can_create X Hcat Hboot). }
  intros res1 q1 B1 Hrun1 He1 Hq1.
  pose proof (created_database X res1 q1 B1 Hboot Hq Hrun1 He1 Hq1) as ->. split; [split; [vm_compute; reflexivity|]|].
  { intros stmt Hst. apply (only_script insert_text (Insert example_insert)) in Hst; [|vm_compute; reflexivity|vm_compute; reflexivity].
    subst stmt. split; [reflexivity|]. intros T b HT Hb. cbn [is_table_name example_insert] in HT.
    assert (HT' : db_tables (db_put "t" (t_table []) (empty_db X)) !! "t"%string = Some (t_table []))
      by (cbn; by rewrite lookup_insert_eq).
    rewrite HT' in HT. injection HT as <-. rewrite (example_insert_elaborates b Hb). split; [exact example_row_sizes|].
    change (insert_values example_bound_insert) with (row_literals <$> example_rows). rewrite example_rows_accepted.
    eapply t_room; [exact (proj2 Hq1)|exact HT'|].
    assert (Hck : t_room_check (qe_catalog (run create_text new_engine).2) 0 example_values = true) by (vm_compute; reflexivity).
    by rewrite Hrun1 in Hck. }
  intros res2 q2 B2 Hrun2 He2 Hq2. split; [split; [vm_compute; reflexivity|]|done].
  intros stmt Hst. apply (only_script select_text (Select example_select)) in Hst; [|vm_compute; reflexivity|vm_compute; reflexivity].
  subst stmt. cbn [statement_fits]. by rewrite (text_effect_system _ _ _ _ _ _ _ _ He2).
Qed.

Lemma session_refines_database_witness :
  exists X results q' B', run_session no_double zero_text example_session new_engine = (results, q') /\
    session_effect std_registry std_bool no_double zero_text (empty_db X) example_session results B' /\
    result_values <$> results = [Ok []; Ok []; Ok [[text_value std_text "hi"; bool_value std_bool false]]].
Proof.
  destruct empty_engine as (X & Hboot & Hcat & Hq). exists X.
  destruct (session_refines_database std_registry std_bool no_double zero_text std_query_registry new_engine (empty_db X)
    example_session Hq (example_session_fits X Hboot Hcat Hq)) as (results & q' & B' & Hrun & He & _).
  exists results, q', B'. split; [exact Hrun|]. split; [exact He|].
  assert (Hv : result_values <$> (run_session no_double zero_text example_session new_engine).1 =
    [Ok []; Ok []; Ok [[text_value std_text "hi"; bool_value std_bool false]]]) by (vm_compute; reflexivity).
  rewrite Hrun in Hv. exact Hv.
Defined.
