(* ===== verification/Restart.v ===== *)
(** * Restart: a database survives a restart

    The catalog is closed and opened again, as the same object or as a new one on
    the same files, and the query layer finds the database it left. *)
From S2P Require Import Prelude Utils TypeRegistry BuiltinTypes RowCodec RowCodecSpec StorageIO.
From S2P Require Import PageStore EvictionPolicy BufferPool HeapEngine TupleStore Table Bundle.
From S2P Require Import Catalog CatalogValues CatalogSpec CatalogUpdate CatalogOpen CatalogClose CatalogMem.
From S2P Require Import Lexer Ast Parser QueryCatalog Binder Plan Exec Database BinderSpec QueryEngine.
From S2P Require Import ExecSpec QuerySpec CatalogDb QueryExample.

Section restart.
Context {D S E : Type} `{!BackendFactory D S} `{!StorageIO S} `{!EngineFactory S E}.
Context `{!StorageEngine E} `{!TupleStore E} `{!RelationFiles D S E} (cfg : EngineConfig) `{!DurableFiles D S E cfg}.
Context (r : TypeRegistry) (ti tx tb : Type_) (fuel : nat).
#[local] Abbreviation Cat := (Catalog D S E).
#[local] Abbreviation describes := (describes r ti tx tb fuel).
#[local] Existing Instance catalog_view.
Implicit Types (c : Cat) (X : CatalogData) (B : Database).

(** A table of the database is a relation that opens with the table's rows. *)
Lemma table_reopens c c2 X name T k b rows :
  builtin_registry r ti tx tb -> cat_ok r ti tx tb c X -> cat_config c = cfg ->
  table_of r fuel c X name T k b rows ->
  (forall o schema rows, 4 < relation_oid schema -> d_tables X !! o = Some (schema, rows) ->
    opens r (backends c2) cfg schema rows) ->
  (forall schema rows, 4 < relation_oid schema -> d_tables X !! relation_oid schema = None ->
    opens r (backends c) cfg schema rows -> opens r (backends c2) cfg schema rows) ->
  cat_config c2 = cfg -> user_tables c2 = ∅ ->
  exists b2, table_of r fuel c2 (at_rest X) name T k b2 rows.
Proof using All.
  intros Hr Hok Hcf Ht Hopen Hother Hcf2 Hu2.
  pose proof (served_holds r ti tx tb Hr fuel c X name T k b rows Hok Ht) as Hh. unfold table_holds in Hh.
  assert (Hop : opens r (backends c2) cfg (db_schema T) rows).
  { rewrite (to_schema _ _ _ _ _ _ _ _ _ Ht). destruct (d_tables X !! cc_oid k) as [[schema rows']|] eqn:HU.
    - cbn in Hh. subst rows'. pose proof (open_entry X k _ (ck_data _ _ _ _ _ _ Hok) (table_of_class _ _ _ _ _ _ _ _ _ Ht) HU) as Hs. cbn in Hs.
      rewrite <- Hs. eapply Hopen; [|exact HU]. rewrite Hs. apply (to_user _ _ _ _ _ _ _ _ _ Ht).
    - apply Hother; [apply (to_user _ _ _ _ _ _ _ _ _ Ht)|done|]. by rewrite <- Hcf. }
  destruct Hop as (b2 & Hb2 & Hh2). exists b2. destruct Ht. split; try done.
  unfold serves. by rewrite Hu2, lookup_empty, Hcf2.
Qed.

Lemma reopened_describes c c1 c0 X B :
  builtin_registry r ti tx tb -> describes c X B -> cat_config c = cfg ->
  rests cfg r ti tx tb c c1 (sys_rows ti tx tb X) (d_tables X) ->
  resting r c0 -> backends c0 = backends c1 -> cat_config c0 = cfg ->
  exists c2, catalog_open fuel c0 = (Ok tt, c2) /\ describes c2 (at_rest X) B.
Proof using All.
  intros Hr Hds Hcf Hre Hc0 Hback Hcf0. pose proof (ds_ok _ _ _ _ _ _ _ _ Hds) as Hok.
  destruct (reopened cfg r ti tx tb Hr fuel c c1 c0 X Hre (ck_data _ _ _ _ _ _ Hok)) as (c2 & Hrun & Hok2 & Hcf2 & Hu2 & Hopen & Hother);
    [|done|done|done|].
  { pose proof (ds_enough _ _ _ _ _ _ _ _ Hds ClassTable) as Hen. cbn in Hen. by rewrite length_fmap in Hen. }
  exists c2. split; [done|]. destruct Hds as [_ H2 H3 H4 H5 H6 H7]. split; try done.
  intros name T (k & b & rows & Ht)%H6. exists k.
  destruct (table_reopens c c2 X name T k b rows Hr Hok Hcf Ht Hopen Hother Hcf2 Hu2) as (b2 & Ht2). eauto.
Qed.

(** C2: a database survives a restart.  Closing the catalog succeeds and leaves it
    closed; opening it again, or opening a new catalog on the same files, succeeds
    and gives the same database: every table with its columns and its rows. *)
Theorem restart_preserves_database (c : Cat) (B : Database) :
  builtin_registry r ti tx tb -> cat_config c = cfg ->
  db_holds (DatabaseView := catalog_view r ti tx tb fuel) c B ->
  exists c1, catalog_close c = (Ok tt, c1) /\ cat_opened c1 = false /\
    (exists c2, catalog_open fuel c1 = (Ok tt, c2) /\
      db_holds (DatabaseView := catalog_view r ti tx tb fuel) c2 B) /\
    (exists c2, catalog_open fuel (Catalog_new r (backends c1) cfg) = (Ok tt, c2) /\
      db_holds (DatabaseView := catalog_view r ti tx tb fuel) c2 B).
Proof using All.
  intros Hr Hcf (X & Hds). pose proof (ds_ok _ _ _ _ _ _ _ _ Hds) as Hok.
  destruct (catalog_close_ok cfg r ti tx tb Hr c _ _ (ck_stores _ _ _ _ _ _ Hok) Hcf) as (c1 & Hrun & Hre).
  exists c1. split; [done|]. split; [apply (re_opened _ _ _ _ _ _ _ _ _ Hre)|]. split.
  - destruct (reopened_describes c c1 c1 X B Hr Hds Hcf Hre) as (c2 & Hopen & Hds2); try done.
    + apply (re_resting _ _ _ _ _ _ _ _ _ Hre).
    + apply (re_config _ _ _ _ _ _ _ _ _ Hre).
    + exists c2. split; [done|]. by exists (at_rest X).
  - destruct (reopened_describes c c1 (Catalog_new r (backends c1) cfg) X B Hr Hds Hcf Hre (new_resting _ _ _) eq_refl eq_refl)
      as (c2 & Hopen & Hds2).
    exists c2. split; [done|]. by exists (at_rest X).
Qed.
End restart.

(** ** Witness *)

Lemma example_config_ok : config_ok example_config.
Proof. split; cbn; lia. Qed.

(** The example database is closed and opened again, and a query finds its rows. *)
Lemma restart_preserves_database_witness :
  exists c1 c2 X, catalog_close filled = (Ok tt, c1) /\
    catalog_open scan_fuel (Catalog_new std_registry (backends c1) example_config) = (Ok tt, c2) /\
    db_holds c2 (db_put "t" (t_table example_values) (empty_db X)).
Proof.
  destruct filled_holds as (X & Hh).
  destruct (restart_preserves_database example_config (DurableFiles0 := mem_durable example_config example_config_ok)
    std_registry std_int32 std_text std_bool scan_fuel filled _ std_registry_ok eq_refl Hh)
    as (c1 & Hc & _ & _ & c2 & Ho & Hh2).
  exists c1, c2, X. split; [exact Hc|]. split; [exact Ho|exact Hh2].
Defined.
