(* ===== verification/QueryProps.v ===== *)
(** * QueryProps: the properties of the query layer

    Binding and evaluation fit together, the executor computes its plan, and SQL
    text does to the database what the statement says.  The witnesses run on the
    example catalog. *)
From S2P Require Import Prelude Utils TypeRegistry BuiltinTypes RowCodec RowCodecSpec StorageIO.
From S2P Require Import PageStore EvictionPolicy BufferPool HeapEngine TupleStore Table Bundle.
From S2P Require Import Catalog CatalogValues CatalogSpec CatalogUpdate CatalogOpen CatalogMem.
From S2P Require Import Lexer Ast Parser QueryCatalog Binder Plan Exec Database BinderSpec QueryEngine.
From S2P Require Import ExecSpec QuerySpec CatalogDb QueryExample.

Section properties.
Context {C : Type} `{!QueryCatalog C} `{!DatabaseView C} (r : TypeRegistry) `{!DatabaseLaws C r} (tb : Type_).
Context (from_chars_double : list byte -> option Z) (double_to_string : Z -> string).
Implicit Types (q : QueryEngine C) (B : Database) (T : DbTable).

(** C23: type soundness.  An expression the binder accepts over a table has a type of
    the registry, and on every row of the table it evaluates, without error, to a
    value of that type; the binder leaves the database as it is. *)
Theorem bound_expressions_evaluate (b b' : Binder C) (B : Database) (name : string) (T : DbTable)
    (e : Expr) (bound : BoundExpr) :
  registry_ok r tb -> types_of b = r -> db_holds (catalog_of b) B -> db_tables B !! name = Some T ->
  bind_expr double_to_string e (table_ref r T) None b = (Ok bound, b') ->
  db_holds (catalog_of b') B /\ known_type r (bt_oid (bound_expr_type bound)) /\
  forall vals, vals ∈ db_rows T ->
    exists v, eval_expr bound {| er_columns := tr_columns (table_ref r T); er_values := vals |} r = Ok v /\
      has_type r (bt_oid (bound_expr_type bound)) v.
Proof.
  intros Hr Ht Hc HT Hb. pose proof (law_wf _ _ Hc) as HB. pose proof (table_columns_known r tb Hr B HB T name HT) as Hk.
  destruct (expr_binds r double_to_string tb Hr B HB (table_ref r T) e None Hk I b (conj Ht Hc)) as (res & b1 & Hrun & Hs & Hd).
  rewrite Hb in Hrun. injection Hrun as <- <-. pose proof (proj2 (Hd bound) eq_refl) as He.
  split; [apply (kp_holds _ _ _ (proj2 Hs))|]. split.
  { exact (elab_known r double_to_string tb Hr B HB (table_columns_of r T) None e bound Hk I He). }
  intros vals Hv. eexists. eapply (eval_ok r tb Hr).
  - apply table_columns_numbered.
  - exact (table_rows_typed r tb Hr T name vals (dw_tables _ _ HB _ _ HT) Hv).
  - exact (elab_well_typed r double_to_string tb Hr B HB _ None e bound Hk I He).
Qed.

(** C22: the executor computes its plan.  For every plan of filters and projections
    over a table, building, opening and pulling rows to the end returns, in the
    table's order, what the plan makes of each row one at a time, or the first
    error a row meets; it always ends and the database is as before. *)
Theorem executor_runs_plan (c : C) (B : Database) (table : BoundTableRef) (T : DbTable) (plan : PhysicalPlan) :
  query_plan table plan -> db_holds c B -> db_tables B !! tr_name table = Some T ->
  exists node opened c', build_node plan EmptyString = (Ok node, EmptyString) /\
    exec_open node c = (Ok opened, c') /\ db_holds c' B /\
    (fetch_rows r (S (node_fuel opened)) [] opened).1 =
      match gather (plan_row r plan) (scan_row table <$> db_rows T) with
      | Ok rows => Ok (inl {| qr_rows := rows |})
      | Err er => Ok (inr ("executor next failed"%string, er))
      | Fault => Fault
      end.
Proof.
  intros Hplan Hc HT. destruct (build_open_ok r r plan table c B T Hplan Hc HT) as (node & node' & c' & Hb & Ho & Hk & Hs & Hsk & Hrow).
  exists node, node', c'. split_and!; [done|done|apply (kp_holds _ _ _ Hk)|].
  rewrite <- Hrow. rewrite Hsk at 2. rewrite (fetch_gather r node' table (db_rows T) Hs); [by rewrite drop_0|].
  rewrite Hsk, (node_fuel_seek _ _ _ _ Hs). lia.
Qed.

(** C19: SELECT.  Text that parses as one SELECT on a table (not a system relation)
    returns the items of the rows that satisfy the WHERE clause, in the table's
    order, when the statement elaborates; when it does not, or the table does not
    exist, an error.  The database is as before. *)
Theorem select_statement (q : QueryEngine C) (B : Database) (sql : list byte) (s : SelectStmt) (p : Parser) :
  registry_ok r tb -> engine_ok r q B ->
  parse from_chars_double (Parser_new sql) = (Ok [Select s], p) -> db_system B (ss_table_name s) = false ->
  exists res q', execute from_chars_double double_to_string sql q = (res, q') /\ engine_ok r q' B /\
    match db_tables B !! ss_table_name s with
    | None => res = Err AnalyzerError /\ query_error_message q' = "unknown table '" +:+ ss_table_name s +:+ "'"
    | Some T =>
        (exists b, select_elaborates r double_to_string B T s b /\ res = Ok {| qr_rows := select_rows r tb T b |}) \/
        ((forall b, ~ select_elaborates r double_to_string B T s b) /\ exists er, res = Err er)
    end.
Proof. intros Hr. apply (execute_select r from_chars_double double_to_string tb Hr). Qed.

(** C20: INSERT.  Text that parses as one INSERT adds its elaborated rows to the
    table, up to the first whose values, in the order they are written, do not fit
    the columns of the table, and nothing else changes, provided the table can take
    them; it succeeds exactly when all rows fit, which whole rows always do.  When the
    rows do not elaborate (a wrong number of values, a value that is no literal or
    does not fit its column, NULL in a NOT NULL column, an unknown or repeated
    column), or the table does not exist, it is an error and the database is as
    before. *)
Theorem insert_statement (q : QueryEngine C) (B : Database) (sql : list byte) (s : InsertStmt) (p : Parser) :
  registry_ok r tb -> engine_ok r q B ->
  parse from_chars_double (Parser_new sql) = (Ok [Insert s], p) -> db_system B (is_table_name s) = false ->
  (forall T b, db_tables B !! is_table_name s = Some T -> insert_elaborates r double_to_string T s b ->
    Forall (fun vals => row_size vals < 2 ^ 32) (insert_values b) /\
    db_room (qe_catalog q) (db_schema T) (accepted r T (insert_values b))) ->
  exists res q', execute from_chars_double double_to_string sql q = (res, q') /\
    match db_tables B !! is_table_name s with
    | None => engine_ok r q' B /\ res = Err AnalyzerError /\
        query_error_message q' = "unknown table '" +:+ is_table_name s +:+ "'"
    | Some T =>
        (exists b rows, insert_elaborates r double_to_string T s b /\
           engine_ok r q' (db_put (is_table_name s) (with_rows T rows) B) /\
           rows ≡ₚ db_rows T ++ accepted r T (insert_values b) /\
           (is_column_names s = [] -> accepted r T (insert_values b) = insert_values b) /\
           if decide (accepted r T (insert_values b) = insert_values b)
           then res = Ok {| qr_rows := [] |} else exists er, res = Err er) \/
        ((forall b, ~ insert_elaborates r double_to_string T s b) /\ (exists er, res = Err er) /\ engine_ok r q' B)
    end.
Proof. intros Hr. apply (execute_insert r from_chars_double double_to_string tb Hr). Qed.

(** C21: CREATE TABLE.  Text that parses as one CREATE TABLE adds an empty table with
    the elaborated columns and nothing else; if the table exists it is left as it
    is, without an error when the statement says IF NOT EXISTS and with
    AlreadyExists otherwise; without columns it is refused; a statement that does not elaborate (a repeated column
    name, an unknown type) is an error and the database is as before. *)
Theorem create_statement (q : QueryEngine C) (B : Database) (sql : list byte) (s : CreateTableStmt) (p : Parser) :
  registry_ok r tb -> engine_ok r q B ->
  parse from_chars_double (Parser_new sql) = (Ok [CreateTable s], p) ->
  (forall b, create_elaborates B s b -> ct_table_name s <> EmptyString -> ct_columns s <> [] ->
    db_tables B !! ct_table_name s = None ->
    db_can_create (qe_catalog q) B (create_spec b)) ->
  exists res q', execute from_chars_double double_to_string sql q = (res, q') /\
    ((exists b, create_elaborates B s b /\
       if decide (ct_table_name s = EmptyString \/ ct_columns s = []) then res = Err InvalidArgument /\ engine_ok r q' B
       else match db_tables B !! ct_table_name s with
       | None => res = Ok {| qr_rows := [] |} /\
           exists o, engine_ok r q' (db_put (ct_table_name s) (new_table o (create_spec b)) B)
       | Some _ => engine_ok r q' B /\
           res = if ct_if_not_exists s then Ok {| qr_rows := [] |} else Err AlreadyExists
       end) \/
     ((forall b, ~ create_elaborates B s b) /\ (exists er, res = Err er) /\ engine_ok r q' B)).
Proof. intros Hr. apply (execute_create r from_chars_double double_to_string tb Hr). Qed.
End properties.

(** ** Witnesses *)

Definition filled_db (X : CatalogData) : Database := db_put "t" (t_table example_values) (empty_db X).
Lemma filled_t X : db_tables (filled_db X) !! "t"%string = Some (t_table example_values).
Proof. cbn. by rewrite lookup_insert_eq. Qed.

(** [ID < 10] over the table t. *)
Definition example_expr : Expr := BinaryExpr OpLt (ColumnRef "ID") (LiteralExpr (IntLiteral 10)).
Definition example_bound : BoundExpr :=
  let int_ref := {| bt_oid := 1; bt_name := "int32"; bt_param := None |} in
  BBinary OpLt
    (BColumn {| br_relation_oid := 5; br_attnum := 1; br_name := "id"; br_type := int_ref; br_nullable := false |})
    (BLiteral {| bl_type := int_ref; bl_value := int_value std_int32 10 |})
    {| bt_oid := 4; bt_name := "bool"; bt_param := None |}.

Lemma bound_expressions_evaluate_witness :
  exists v, eval_expr example_bound
    {| er_columns := tr_columns (table_ref std_registry (t_table example_values));
       er_values := [int_value std_int32 7; text_value std_text "hi"] |} std_registry = Ok v /\
    has_type std_registry 4 v.
Proof.
  destruct filled_holds as (X & Hh).
  assert (Hb : (bind_expr zero_text example_expr (table_ref std_registry (t_table example_values)) None
    (Binder_new filled std_registry)).1 = Ok example_bound) by (vm_compute; reflexivity).
  destruct (bind_expr zero_text example_expr (table_ref std_registry (t_table example_values)) None
    (Binder_new filled std_registry)) as [res b'] eqn:Hrun. cbn [fst] in Hb. rewrite Hb in Hrun.
  destruct (bound_expressions_evaluate std_registry std_bool zero_text (Binder_new filled std_registry) b' (filled_db X) "t"
    (t_table example_values) example_expr example_bound std_query_registry eq_refl Hh (filled_t X) Hrun) as (_ & _ & Hev).
  destruct (Hev [int_value std_int32 7; text_value std_text "hi"]) as (v & Hv & Ht).
  - apply elem_of_cons. by left.
  - exists v. split; [exact Hv|exact Ht].
Defined.

Lemma executor_runs_plan_witness :
  exists node opened c',
    build_node (PhysicalFilter (Some (PhysicalSeqScan (table_ref std_registry (t_table example_values)))) example_bound)
      EmptyString = (Ok node, EmptyString) /\
    exec_open node filled = (Ok opened, c') /\
    (fetch_rows std_registry (S (node_fuel opened)) [] opened).1 =
      Ok (inl {| qr_rows := scan_row (table_ref std_registry (t_table example_values)) <$> example_values |}).
Proof.
  destruct filled_holds as (X & Hh).
  destruct (executor_runs_plan std_registry filled (filled_db X) (table_ref std_registry (t_table example_values))
    (t_table example_values)
    (PhysicalFilter (Some (PhysicalSeqScan (table_ref std_registry (t_table example_values)))) example_bound)
    (query_filter _ _ _ (query_scan _)) Hh (filled_t X)) as (node & opened & c' & Hb & Ho & _ & Hf).
  exists node, opened, c'. split; [exact Hb|]. split; [exact Ho|]. rewrite Hf. vm_compute. reflexivity.
Defined.

Lemma select_statement_witness :
  exists X b, select_elaborates std_registry zero_text (filled_db X) (t_table example_values) example_select b /\
    (run select_text (QueryEngine_new filled std_registry)).1 =
      Ok {| qr_rows := select_rows std_registry std_bool (t_table example_values) b |} /\
    result_values (run select_text (QueryEngine_new filled std_registry)).1 =
      Ok [[text_value std_text "hi"; bool_value std_bool false]].
Proof.
  destruct filled_holds as (X & Hh). exists X.
  destruct (parse no_double (Parser_new (sql select_text))) as [res p] eqn:Hp.
  assert (Hres : (parse no_double (Parser_new (sql select_text))).1 = Ok [Select example_select]) by (vm_compute; reflexivity).
  rewrite Hp in Hres. cbn [fst] in Hres. subst res.
  destruct (select_statement std_registry std_bool no_double zero_text (QueryEngine_new filled std_registry) (filled_db X)
    (sql select_text) example_select p std_query_registry (conj eq_refl Hh) Hp eq_refl) as (res & q' & Hrun & _ & Hcase).
  assert (Hv : result_values (run select_text (QueryEngine_new filled std_registry)).1 =
    Ok [[text_value std_text "hi"; bool_value std_bool false]]) by (vm_compute; reflexivity).
  change (ss_table_name example_select) with "t"%string in Hcase. rewrite filled_t in Hcase.
  destruct Hcase as [(b & Hel & Hb)|(_ & er & Her)].
  - exists b. split; [exact Hel|]. split; [|exact Hv]. subst res. exact (f_equal fst Hrun).
  - subst res. rewrite Hrun in Hv. discriminate Hv.
Defined.

Lemma insert_statement_witness :
  exists X rows q', run insert_text (QueryEngine_new with_t std_registry) = (Ok {| qr_rows := [] |}, q') /\
    rows ≡ₚ example_values /\ engine_ok std_registry q' (db_put "t" (t_table rows) (db_put "t" (t_table []) (empty_db X))).
Proof.
  destruct t_engine as (X & Hh). exists X.
  destruct (parse no_double (Parser_new (sql insert_text))) as [res p] eqn:Hp.
  assert (Hres : (parse no_double (Parser_new (sql insert_text))).1 = Ok [Insert example_insert]) by (vm_compute; reflexivity).
  rewrite Hp in Hres. cbn [fst] in Hres. subst res.
  assert (HT : db_tables (db_put "t" (t_table []) (empty_db X)) !! "t"%string = Some (t_table []))
    by (cbn; by rewrite lookup_insert_eq).
  destruct (insert_statement std_registry std_bool no_double zero_text (QueryEngine_new with_t std_registry)
    (db_put "t" (t_table []) (empty_db X)) (sql insert_text) example_insert p std_query_registry
    (conj eq_refl Hh) Hp eq_refl) as (res & q' & Hrun & Hcase).
  - intros T b HT' Hb. cbn [is_table_name example_insert] in HT'. rewrite HT in HT'. injection HT' as <-. rewrite (example_insert_elaborates b Hb). split; [exact example_row_sizes|].
    change (insert_values example_bound_insert) with (row_literals <$> example_rows). rewrite example_rows_accepted.
    eapply t_room; [exact Hh|exact HT|]. vm_compute. reflexivity.
  - change (is_table_name example_insert) with "t"%string in Hcase. rewrite HT in Hcase.
    destruct Hcase as [(b & rows & Hel & Hq' & Hperm & Hall & Hres)|(_ & (er & ->) & _)].
    + rewrite Hall in Hperm, Hres by reflexivity. rewrite decide_True in Hres by reflexivity. subst res.
      exists rows, q'. split; [exact Hrun|]. rewrite (example_insert_elaborates b Hel) in Hperm. split; [exact Hperm|exact Hq'].
    + assert (Hok : result_values (run insert_text (QueryEngine_new with_t std_registry)).1 = Ok []) by (vm_compute; reflexivity).
      rewrite Hrun in Hok. discriminate Hok.
Defined.

Lemma create_statement_witness :
  exists X o q', run create_text (QueryEngine_new example_catalog std_registry) = (Ok {| qr_rows := [] |}, q') /\
    engine_ok std_registry q' (db_put "t" (new_table o example_spec) (empty_db X)).
Proof.
  destruct empty_engine as (X & Hboot & Hcat & Hq). exists X.
  destruct (parse no_double (Parser_new (sql create_text))) as [res p] eqn:Hp.
  assert (Hres : (parse no_double (Parser_new (sql create_text))).1 = Ok [CreateTable example_create]) by (vm_compute; reflexivity).
  rewrite Hp in Hres. cbn [fst] in Hres. subst res.
  destruct (create_statement std_registry std_bool no_double zero_text (QueryEngine_new example_catalog std_registry)
    (empty_db X) (sql create_text) example_create p std_query_registry Hq Hp) as (res & q' & Hrun & Hcase).
  - intros b Hb _ _ _. rewrite (example_create_elaborates X b (proj2 Hq) Hb). exists X. split; [exact Hcat|].
    exact (example_can_create X Hcat Hboot).
  - destruct Hcase as [(b & Hel & Hout)|(_ & (er & ->) & _)].
    + rewrite decide_False in Hout by (intros [?|?]; discriminate). destruct Hout as (Hres & o & Hq').
      subst res. exists o, q'. split; [exact Hrun|]. rewrite (example_create_elaborates X b (proj2 Hq) Hel) in Hq'. exact Hq'.
    + assert (Hok : result_values (run create_text (QueryEngine_new example_catalog std_registry)).1 = Ok []) by (vm_compute; reflexivity).
      rewrite Hrun in Hok. discriminate Hok.
Defined.

(** ** A column list is not obeyed *)

(** The effect of statements one after the other, and the values a last one returns. *)
Definition session (texts : list string) (last : string) : Result (list (list Value)) :=
  result_values (run last (fold_left (fun q text => (run text q).2) texts (QueryEngine_new example_catalog std_registry))).1.

(** An INSERT that lists its columns in another order than the table stores the
    values by position.  The binder checks the values against the listed columns,
    but the executor hands them to the table in the order they were written, so
    INSERT INTO p (b, a) VALUES (1, 2) makes a row with a = 1 and b = 2. *)
Theorem insert_ignores_column_list :
  session ["CREATE TABLE p (a int, b int)"; "INSERT INTO p (b, a) VALUES (1, 2)"]%string "SELECT a, b FROM p" =
    Ok [[int_value std_int32 1; int_value std_int32 2]].
Proof. vm_compute. reflexivity. Qed.
